(* ===== verification/_CoqProject ===== *)
-Q . S2P
Prelude.v
OrderedMap.v
Ragel.v
Endian.v
ByteArray.v
ByteArraySpec.v
ByteCodec.v
Timer.v
Fiber.v
Scheduler.v
IOManager.v
Address.v
Uri.v
Hook.v
Sleep.v
HookCalls.v
Lifetime.v
Http.v
HttpParser.v
HttpGrammar.v
HttpRead.v
Stream.v
BufferStream.v
HttpSession.v
HttpWire.v
Servlet.v
HttpClient.v
ClientGrammar.v
ClientRead.v
ClientWire.v
Yaml.v
LexicalCast.v
Config.v
Settings.v
LogFormat.v
Logger.v
LogConfig.v
FileSystem.v
Env.v
ConfDir.v
Lock.v
Thread.v
Socket.v
TcpServer.v
