(* ===== verification/Prelude.v ===== *)
(** * Gudov, a fiber-based C++ network framework: verification library

    Gudov runs callbacks and fibers on a pool of threads.  A [Scheduler] holds the
    queue of tasks; an [IOManager] is a scheduler that waits in [epoll_wait] for
    descriptors and timers when the queue is empty; hooked system calls suspend the
    calling fiber instead of blocking its thread.  On top of it there are byte
    buffers, addresses, streams and HTTP.  The definitions below are translated from
    the sources under [src/gudov], one file per component:

    - [Prelude.v]: outcomes of a C++ call ([result], [prog]), machine integers, bytes,
      slices and blocks of memory, the tactics and hints of the development.
    - [Endian.v]: [endian.h], for a host of either byte order (class [Host]).
    - [ByteArray.v]: [bytearray.h], [bytearray.cpp]: the chain of nodes with its
      cursor, and every operation that moves bytes.  [ByteCodec.v]: the readers and
      writers of integers, floating-point numbers, varints and strings.
      [ByteArraySpec.v]: the abstract specification, a file of bytes with a cursor.
    - [Timer.v]: [timer.h], [timer.cpp]: timers are objects of a heap, the set of
      [TimerManager] holds their addresses in the order of its comparator.
    - [Fiber.v]: [fiber.h], [fiber.cpp]: one thread with its fibers, what each
      context holds, and the thread-local pointers.
    - [Scheduler.v]: [scheduler.h], [scheduler.cpp]: the scheduler's state and a
      transition system whose steps are the critical sections of the pool's threads.
      [Lifetime.v]: making, stopping and destroying schedulers on one thread, and the
      destructor of [iomanager.cpp].
    - [IOManager.v]: [iomanager.h], [iomanager.cpp], over a parameter for [epoll]
      (class [Epoll]), using the models of the scheduler and of the timers.
    - [Address.v]: [address.h], [address.cpp], over a parameter for the resolver.
    - [Hook.v]: [fdmanager.h], [fdmanager.cpp], [hook.cpp], over a parameter for the
      system's descriptors (class [System]), using the model of the I/O scheduler.
      [Sleep.v]: the sleeping functions of [hook.cpp]; [HookCalls.v]: the functions that
      read, write, accept and connect, one by one, and the commands of [fcntl].
    - [Ragel.v]: what a Ragel grammar means: the states of its machine, the actions on
      the way and their order, and the tools that follow a text through it.
      [Uri.v]: [uri.h], [uri.rl].
    - [Http.v], [HttpParser.v]: [http/http.h], [http/http.cpp],
      [http/http_parser.cpp], over an interface for the state machine (class
      [Machine]).  [HttpGrammar.v]: [http/http11_parser.rl], with [HttpRead.v] on what
      it reads; [ClientGrammar.v]: [http/httpclient_parser.rl], with [ClientRead.v].
      They implement the interface.
    - [Stream.v], [BufferStream.v]: [stream.cpp], [socket_stream.cpp], for plain memory
      and for byte buffers.  [HttpSession.v]: [http/http_session.cpp], and sending a
      request and reading a body from [http/http_connection.cpp].
    - [Servlet.v]: [http/servlet.cpp], [http/http_server.cpp]: the routing table, over
      a parameter for [fnmatch], and the loop that serves a client.
    - [HttpClient.v]: the rest of [http/http_connection.cpp]: responses in chunks, the
      requests made for a call, and the pool of connections.
    - [HttpWire.v], [ClientWire.v]: a request from the client's [Dump] to the server's
      [RecvRequest], and a response back, through the two machines.
    - [Lock.v]: [mutex.h] and the semaphore of [thread.cpp]; the class [Lockable] is
      what a lock promises to the scoped locks.  [Thread.v]: [thread.h], [thread.cpp].
    - [Socket.v]: [socket.h], [socket.cpp], on the models of the hooks and of the I/O
      scheduler, over a parameter for the network (class [Net]).  [TcpServer.v]:
      [tcp_server.h], [tcp_server.cpp], with the sockets as shared objects.
    - [OrderedMap.v]: [std::map] and [std::set] as sorted lists.  [Yaml.v]: the trees of
      the YAML library, its reader and its writer as parameters (class [Yaml]).
    - [LexicalCast.v], [Config.v], [ConfDir.v]: [config.h], [config.cpp]: the
      conversions, the registry of variables with its listeners, and loading.
      [Settings.v]: the integers that [http/http_parser.cpp] and [hook.cpp] keep in step
      with their variables.
    - [LogFormat.v], [Logger.v], [LogConfig.v]: [log.h], [log.cpp]: patterns, loggers
      with their appenders and files, and their configuration.
    - [FileSystem.v]: [util.h], [util.cpp], over a parameter for the file system (class [Posix]);
      [Env.v]: [env.h], [env.cpp].

    ** State and operations

    An object is a record with the fields of its class; an operation is a function of
    type [prog], from the state to a result and a new state.  Objects that the code
    shares through pointers (timers, fibers, descriptor contexts) live in a list or
    map and are named by their index.  Exceptions, failed assertions, null pointers
    and other undefined behaviour are failures; integers have the width of the
    source.  What runs under one lock is one step; the interleavings of threads are
    sequences of such steps.

    ** What the theorems show

    - Byte buffers: [trace_refines] (any sequence of calls refines the byte file),
      [values_roundtrip] (all eighteen types, both byte orders), the scatter and
      gather views, files, and the domain of the zigzag coding.
    - Timers: no sequence of calls fails ([timer_calls_safe]), expiry is exact, a
      cancelled timer stays cancelled, and no wake-up is lost.
    - Fibers: switching is safe and returns where it came from
      ([fiber_switch_safe]), and the running fiber is the reported one on a pool
      thread.
    - Scheduler: no task is lost or run twice under any interleaving, the counters
      count, and shutting down drains the queue; when a thread can make, stop and
      destroy its schedulers ([schedulers_take_turns]).
    - I/O scheduler: calls are safe whichever [epoll_ctl] fails, the kernel watches
      what is registered, cancelling delivers, stopping waits for everything.
    - Hooks: the program sees its own blocking mode while the kernel never blocks,
      [close] releases what waits, and a hooked call returns what a blocking one
      would, with every timer it armed cancelled, in the mode and with the timeout the
      program has asked for ([hooked_call_returns]); a fiber that sleeps is scheduled
      when its time has come, and not before ([sleeper_wakes]).
    - Addresses: the comparison is a total order, masks and prefixes.
    - URIs: [Create] accepts the language of its grammar ([uri_language]) and reads
      back what is printed ([uri_roundtrip]).
    - HTTP: the header map, methods, what the parser's callbacks build, printed
      messages that read back, and bodies of the announced length.  What a client
      prints the server receives and the other way round ([request_arrives],
      [response_arrives]); the offsets the machine keeps stay in the buffer
      ([parser_asserts_hold]).
    - HTTP server: a path is routed as the history of registrations says
      ([routes_by_history]), and a client's requests are answered whole, in order and
      one at a time ([client_served]).
    - HTTP client: the headers of a request, chunks that arrive in step
      ([chunks_received]), and the pool,
      which lends each connection to one user and counts them
      ([pool_lends_once], [pool_request_settles]).
    - Streams over buffers: what [WriteFixSize] sends from one buffer [ReadFixSize]
      stores in another ([buffer_crosses]).
    - Locks and threads: scoped locks exclude each other and block only for a clash
      ([scoped_locks_exclude]); starting a thread is safe under every interleaving and
      ends ([thread_handshake]).
    - Sockets and the TCP server: descriptors are owned by exactly one object and none
      is leaked ([sockets_own_descriptors], [server_holds_sockets]); timeouts.
    - Configuration: conversions return values of their type and read back
      ([cast_well_typed], [cast_roundtrip]); a document is loaded exactly
      ([members_exact], [load_yaml_exact], [conf_dir_exact]); listeners and lookups
      ([listeners_by_history], [lookup_stable]); integers kept beside their variables
      stay in step with them ([settings_follow]).
    - Logging: the pattern compiler agrees with a reference reading
      ([formatter_reads_pattern]); no set-up crashes ([logging_safe]); an event
      reaches its appenders and nothing else ([log_delivers]); a configuration is
      applied ([conf_applied]) and what of it survives being written
      ([configs_recast]).
    - Files and environment: listing and removing of trees ([list_all_file_exact],
      [rm_prunes]), the command line ([init_exact]).
    - Theorems about what the code does not do are stated as the code behaves, beside
      the models: [unchanged_entry_crashes], [request_body_overrun], [ipv4_masks],
      [read_error_unnoticed], [tickle_skips_idle_threads], [epoll_timeout_bounds],
      [chunk_boundaries_matter], [pool_limits_ignored], [writers_race],
      [appender_change_unseen], [rename_dangles], [restart_spins], [empty_port],
      [split_query_throws], [split_head_lost], [split_status], [seals_lost],
      [short_naps], [mirror_ahead], [hooks_outlive] and [late_task_aborts].

    ** Fuel

    Loops that are not structural take fuel, and the theorems prove that it is
    enough: a node per round and one more for the chains of the buffers, one round
    per bit in [CountBytes], ten bytes for a varint, one resize in [FdManager::Get],
    the depth of a tree for [ListAllFile] and [Rm], two for a logger and its root.
    [closure] in [Ragel.v] collects states with fuel; that it has found all of them is
    checked for every group it is used for ([uri_edges], [http_edges] and the like).
    In [Hook.v], [Stream.v] and the files on HTTP a loop goes on as long as the system makes it wait;
    its fuel is the number of answers the system is given to make, and running out
    of it means that the call has not returned yet.

    ** What is not modelled

    [epoll], the network, the file system, the YAML library,
    [strftime] and the resolver are parameters with their documented behaviour; each has
    an instance at which the theorems are applied.  The messages that components log
    about themselves are left out, and so are includes, assertion macros and templates
    without behaviour of their own. *)

From stdpp Require Import base list gmap strings numbers.
From Stdlib Require Import ZArith Lia.
From Stdlib Require Import Strings.Byte.

Open Scope Z_scope.

(** ** Outcomes of a C++ call

    A call returns, throws, or leaves the defined behaviour of the language.
    The last four constructors of [failure] are not values of the program: they
    mark an aborted [GUDOV_ASSERT], a dereferenced null pointer, any other
    undefined behaviour, and a fuelled loop of the model that ran out of fuel. *)

Inductive failure :=
  | out_of_range
  | invalid_argument
  | length_error
  | logic_error
  | runtime_error
  | bad_cast
  | assert_failed
  | null_deref
  | undefined
  | out_of_fuel.

#[global] Instance failure_eq_dec : EqDecision failure.
Proof. solve_decision. Defined.

Inductive result (A : Type) :=
  | Ok (a : A)
  | Fail (e : failure).
Arguments Ok {A} a.
Arguments Fail {A} e.

#[global] Instance result_eq_dec {A} `{EqDecision A} : EqDecision (result A).
Proof. solve_decision. Defined.

Definition is_ok {A} (r : result A) : bool :=
  match r with Ok _ => true | Fail _ => false end.

(** What [catch (std::exception&)] stops. *)
Definition is_exception (e : failure) : bool :=
  match e with
  | out_of_range | invalid_argument | length_error | logic_error | runtime_error | bad_cast => true
  | assert_failed | null_deref | undefined | out_of_fuel => false
  end.

(** Results compose with the notation of monads. *)
#[global] Instance result_ret : MRet result := @Ok.
#[global] Instance result_bind : MBind result :=
  fun A B f m => match m with Ok a => f a | Fail e => Fail e end.

Lemma mapM_Ok {A B} (f : A -> result B) l k : mapM f l = Ok k <-> Forall2 (fun x y => f x = Ok y) l k.
Proof.
  split.
  - revert k. induction l as [|x l IH]; intros k; cbn; [by intros [= <-]|].
    destruct (f x) as [y|] eqn:E; [|done]. cbn. destruct (mapM f l) as [ys|] eqn:El; [|done].
    intros [= <-]. constructor; auto.
  - induction 1 as [|x y l k E Hf IH]; [done|]. cbn. rewrite E. cbn. by rewrite IH.
Qed.

(** ** State and failure

    An operation on an object of type [S] threads the object's state; the state
    reached so far survives a failure, because a C++ exception does not undo the
    assignments made before it was thrown. *)

Definition prog (S A : Type) : Type := S -> result A * S.

Definition ret {S A} (a : A) : prog S A := fun s => (Ok a, s).

Definition fail {S A} (e : failure) : prog S A := fun s => (Fail e, s).

Definition bind {S A B} (m : prog S A) (k : A -> prog S B) : prog S B :=
  fun s => match m s with
           | (Ok a, s') => k a s'
           | (Fail e, s') => (Fail e, s')
           end.

Definition gets {S A} (f : S -> A) : prog S A := fun s => (Ok (f s), s).

Definition modify {S} (f : S -> S) : prog S unit := fun s => (Ok tt, f s).

Definition lift {S A} (r : result A) : prog S A := fun s => (r, s).

Definition require {S} (b : bool) (e : failure) : prog S unit :=
  if b then ret tt else fail e.

Declare Scope prog_scope.
Delimit Scope prog_scope with prog.
Notation "'let*' x ':=' c 'in' k" := (bind c (fun x => k))
  (at level 10, x name, c at level 100, k at level 200) : prog_scope.
Notation "'let*' ' p ':=' c 'in' k" := (bind c (fun x => match x with p => k end))
  (at level 10, p pattern, c at level 100, k at level 200) : prog_scope.
Notation "c1 ;; c2" := (bind c1 (fun _ => c2))
  (at level 100, c2 at level 200, right associativity) : prog_scope.
Open Scope prog_scope.

Section ProgLaws.
Context {S A B : Type}.
Implicit Types (m : prog S A) (k : A -> prog S B).

Lemma bind_ok m k s a s' : m s = (Ok a, s') -> bind m k s = k a s'.
Proof. unfold bind. by intros ->. Qed.

Lemma bind_fail m k s e s' : m s = (Fail e, s') -> bind m k s = (Fail e, s').
Proof. unfold bind. by intros ->. Qed.

Lemma bind_ok_inv m k s b s' :
  bind m k s = (Ok b, s') -> exists a s1, m s = (Ok a, s1) /\ k a s1 = (Ok b, s').
Proof. unfold bind. destruct (m s) as [[a|e] s1]; [eauto|done]. Qed.

Lemma require_true (b : bool) e (s : S) : b = true -> require b e s = (Ok tt, s).
Proof. by intros ->. Qed.

Lemma require_false (b : bool) e (s : S) : b = false -> require b e s = (Fail e, s).
Proof. by intros ->. Qed.
End ProgLaws.

(** ** Running a command from a state

    [runs m s Q F]: from [s] the command returns with [Q] or fails with [F]. *)

Definition runs {S A} (m : prog S A) (s : S) (Q : A -> S -> Prop) (F : failure -> S -> Prop) : Prop :=
  match m s with (Ok a, s') => Q a s' | (Fail e, s') => F e s' end.

Section Runs.
Context {S : Type}.

Lemma runs_bind {A B} (m : prog S A) (k : A -> prog S B) s Q F :
  runs m s (fun a s' => runs (k a) s' Q F) F -> runs (bind m k) s Q F.
Proof. unfold runs, bind. by destruct (m s) as [[a|e] s']. Qed.

Lemma runs_ret {A} (a : A) (s : S) (Q : A -> S -> Prop) (F : failure -> S -> Prop) : Q a s -> runs (ret a) s Q F.
Proof. done. Qed.

Lemma runs_modify (f : S -> S) s (Q : unit -> S -> Prop) (F : failure -> S -> Prop) : Q tt (f s) -> runs (modify f) s Q F.
Proof. done. Qed.

Lemma runs_weaken {A} (m : prog S A) s (Q Q' : A -> S -> Prop) (F F' : failure -> S -> Prop) :
  runs m s Q F -> (forall a s', Q a s' -> Q' a s') -> (forall e s', F e s' -> F' e s') -> runs m s Q' F'.
Proof. unfold runs. destruct (m s) as [[a|e] s']; auto. Qed.

Lemma runs_ok {A} (m : prog S A) s a s' (Q : A -> S -> Prop) F : m s = (Ok a, s') -> Q a s' -> runs m s Q F.
Proof. unfold runs. by intros ->. Qed.

(** A command that cannot fail. *)
Lemma runs_total {A} (m : prog S A) s (Q : A -> S -> Prop) : runs m s Q (fun _ _ => False) -> exists a s', m s = (Ok a, s') /\ Q a s'.
Proof. unfold runs. destruct (m s) as [[a|e] s']; [eauto|done]. Qed.
End Runs.

(** [prog_ok H] runs the first command of a sequence with the equation [H];
    [prog_run] runs the commands whose effect is immediate. *)
Ltac prog_ok H := erewrite bind_ok by (exact H).
Ltac prog_run := unfold ret, gets, modify, lift, fail; cbn [bind]; unfold bind; cbn.

(** ** Machine integers

    A [w]-bit unsigned value is a [Z] of [0, 2^w); [wrapu] and [wraps] are the
    conversions to unsigned and to two's complement signed types. *)

Definition wrapu (w z : Z) : Z := z mod 2 ^ w.
Definition wraps (w z : Z) : Z := (z + 2 ^ (w - 1)) mod 2 ^ w - 2 ^ (w - 1).

Definition u8 (z : Z) : Z := wrapu 8 z.
Definition u16 (z : Z) : Z := wrapu 16 z.
Definition u32 (z : Z) : Z := wrapu 32 z.
Definition u64 (z : Z) : Z := wrapu 64 z.
Definition s32 (z : Z) : Z := wraps 32 z.
Definition s64 (z : Z) : Z := wraps 64 z.

(** [~0ull] and [(uint64_t)-1]. *)
Definition max64 : Z := 2 ^ 64 - 1.

Lemma wrapu_small w z : 0 <= z < 2 ^ w -> wrapu w z = z.
Proof. apply Z.mod_small. Qed.

Lemma wrapu_range w z : 0 <= w -> 0 <= wrapu w z < 2 ^ w.
Proof. intros. apply Z.mod_pos_bound. lia. Qed.

Lemma wraps_small w z : 0 < w -> - 2 ^ (w - 1) <= z < 2 ^ (w - 1) -> wraps w z = z.
Proof.
  intros Hw Hz. unfold wraps.
  assert (2 ^ w = 2 * 2 ^ (w - 1)) by (rewrite <- Z.pow_succ_r by lia; f_equal; lia).
  rewrite Z.mod_small; lia.
Qed.

Lemma wraps_range w z : 0 < w -> - 2 ^ (w - 1) <= wraps w z < 2 ^ (w - 1).
Proof.
  intros Hw. unfold wraps.
  assert (2 ^ w = 2 * 2 ^ (w - 1)) by (rewrite <- Z.pow_succ_r by lia; f_equal; lia).
  pose proof (Z.mod_pos_bound (z + 2 ^ (w - 1)) (2 ^ w)). lia.
Qed.

(** A signed value survives the round trip through the unsigned type of its width. *)
Lemma wraps_wrapu w z :
  0 < w -> - 2 ^ (w - 1) <= z < 2 ^ (w - 1) -> wraps w (wrapu w z) = z.
Proof.
  intros Hw Hz. rewrite <- (wraps_small w z) at 2 by done.
  unfold wraps, wrapu. f_equal.
  rewrite <- (Zplus_mod_idemp_l z). done.
Qed.

Lemma wrapu_wraps w z : 0 < w -> 0 <= z < 2 ^ w -> wrapu w (wraps w z) = z.
Proof.
  intros Hw Hz. unfold wraps, wrapu.
  rewrite Zminus_mod_idemp_l, Z.add_simpl_r. by apply Z.mod_small.
Qed.

Lemma u64_small z : 0 <= z < 2 ^ 64 -> u64 z = z.
Proof. apply wrapu_small. Qed.

(** Unsigned 64-bit subtraction goes through when it does not wrap. *)
Lemma u64_sub a b : 0 <= b <= a -> a < 2 ^ 64 -> u64 (a - b) = a - b.
Proof. intros. apply u64_small. lia. Qed.

(** ** Bytes

    [char] and [uint8_t] cells of memory are [Byte.byte]; [b2z] and [z2b] convert
    to and from the unsigned value, [z2b] truncating as an assignment to
    [uint8_t] does. *)

Definition b2z (b : byte) : Z := Z.of_N (Byte.to_N b).
Definition z2b (z : Z) : byte :=
  match Byte.of_N (Z.to_N (u8 z)) with Some b => b | None => x00 end.

#[global] Instance byte_eq_dec : EqDecision byte := Byte.byte_eq_dec.

Lemma b2z_range b : 0 <= b2z b < 256.
Proof. unfold b2z. pose proof (Byte.to_N_bounded b). lia. Qed.

Lemma z2b_b2z b : z2b (b2z b) = b.
Proof.
  unfold z2b, u8. rewrite wrapu_small by apply b2z_range.
  unfold b2z. by rewrite N2Z.id, Byte.of_to_N.
Qed.

Lemma b2z_z2b z : b2z (z2b z) = u8 z.
Proof.
  unfold z2b, b2z. pose proof (wrapu_range 8 z ltac:(lia)) as Hr. fold (u8 z) in Hr.
  destruct (Byte.of_N (Z.to_N (u8 z))) as [b|] eqn:E.
  - apply Byte.to_of_N in E. rewrite E. lia.
  - apply Byte.of_N_None_iff in E. lia.
Qed.

(** The little-endian representation of an integer on [n] bytes and its value. *)
Fixpoint le_bytes (n : nat) (z : Z) : list byte :=
  match n with
  | O => []
  | S n => z2b z :: le_bytes n (z / 256)
  end.

Fixpoint le_value (bs : list byte) : Z :=
  match bs with
  | [] => 0
  | b :: bs => b2z b + 256 * le_value bs
  end.

Lemma le_bytes_length n z : length (le_bytes n z) = n.
Proof. revert z. induction n; intros; simpl; auto. Qed.

Lemma le_value_bytes n z : le_value (le_bytes n z) = z mod 2 ^ (8 * Z.of_nat n).
Proof.
  revert z. induction n as [|n IH]; intros z; cbn [le_bytes le_value].
  - by rewrite Z.mod_1_r.
  - rewrite IH, b2z_z2b. unfold u8, wrapu.
    replace (8 * Z.of_nat (S n)) with (8 + 8 * Z.of_nat n) by lia.
    rewrite Z.pow_add_r by lia. change (2 ^ 8) with 256.
    rewrite Z.rem_mul_r by lia. done.
Qed.

Lemma le_value_range bs : 0 <= le_value bs < 2 ^ (8 * Z.of_nat (length bs)).
Proof.
  induction bs as [|b bs IH]; cbn [le_value length]; [lia|].
  replace (8 * Z.of_nat (S (length bs))) with (8 + 8 * Z.of_nat (length bs)) by lia.
  rewrite Z.pow_add_r by lia. change (2 ^ 8) with 256.
  pose proof (b2z_range b). lia.
Qed.

Lemma le_bytes_value bs : le_bytes (length bs) (le_value bs) = bs.
Proof.
  induction bs as [|b bs IH]; cbn [le_value length le_bytes]; [done|].
  pose proof (b2z_range b) as Hb. f_equal.
  - rewrite <- (z2b_b2z b) at 2. unfold z2b, u8, wrapu. do 3 f_equal.
    change (2 ^ 8) with 256. rewrite Z.mul_comm, Z.mod_add by lia. done.
  - rewrite Z.mul_comm, Z.div_add, Z.div_small, Z.add_0_l by lia. done.
Qed.

(** ** Slices of a memory area

    [slice p n l] is the [n] cells of [l] from offset [p]; [splice p d l] is [l]
    after [memcpy(l + p, d, length d)]. *)

Section Slices.
Context {A : Type}.
Implicit Types (l d : list A) (p n : nat).

Definition slice p n l : list A := take n (drop p l).
Definition splice p d l : list A := take p l ++ d ++ drop (p + length d) l.

Lemma slice_length p n l : (p + n <= length l)%nat -> length (slice p n l) = n.
Proof. intros. unfold slice. rewrite length_take, length_drop. lia. Qed.

Lemma splice_length p d l :
  (p + length d <= length l)%nat -> length (splice p d l) = length l.
Proof. intros. unfold splice. rewrite !length_app, length_take, length_drop. lia. Qed.

Lemma slice_0 p l : slice p 0 l = [].
Proof. by unfold slice. Qed.

Lemma splice_nil p l : splice p [] l = l.
Proof. unfold splice. simpl. by rewrite Nat.add_0_r, take_drop. Qed.

Lemma slice_split p n m l : slice p (n + m) l = slice p n l ++ slice (p + n) m l.
Proof. unfold slice. by rewrite <- take_take_drop, drop_drop. Qed.

Lemma slice_splice p d l :
  (p <= length l)%nat -> slice p (length d) (splice p d l) = d.
Proof.
  intros. unfold slice, splice.
  rewrite drop_app_ge by (rewrite length_take; lia).
  rewrite length_take, Nat.min_l by lia.
  rewrite Nat.sub_diag, drop_0, take_app_le by lia. apply take_ge. lia.
Qed.

Lemma splice_app p d1 d2 l :
  (p <= length l)%nat ->
  splice (p + length d1) d2 (splice p d1 l) = splice p (d1 ++ d2) l.
Proof.
  intros. unfold splice.
  rewrite (app_assoc (take p l) d1).
  rewrite take_app_ge by (rewrite length_app, length_take; lia).
  rewrite drop_app_ge by (rewrite length_app, length_take; lia).
  rewrite !length_app, length_take, Nat.min_l by lia.
  rewrite drop_drop, Nat.sub_diag, take_0, app_nil_r, <- !app_assoc.
  do 4 f_equal. lia.
Qed.

Lemma slice_app_l p n l k : (p + n <= length l)%nat -> slice p n (l ++ k) = slice p n l.
Proof.
  intros. unfold slice. rewrite drop_app_le, take_app_le; [done| |lia].
  rewrite length_drop. lia.
Qed.

Lemma slice_splice_disjoint p d l q n :
  (p + length d <= length l)%nat -> (q + n <= p \/ p + length d <= q)%nat ->
  (q + n <= length l)%nat -> slice q n (splice p d l) = slice q n l.
Proof.
  intros Hp Hd Hq. apply list_eq_same_length with n; [by apply slice_length| |].
  { rewrite slice_length; [done|]. by rewrite splice_length. }
  intros i x y Hi. unfold slice. rewrite !lookup_take_lt by done. rewrite !lookup_drop.
  unfold splice. destruct Hd.
  - rewrite lookup_app_l by (rewrite length_take; lia).
    rewrite lookup_take_lt by lia. congruence.
  - rewrite lookup_app_r by (rewrite length_take; lia).
    rewrite lookup_app_r by (rewrite length_take; lia).
    rewrite length_take, lookup_drop.
    replace (p + length d + (q + i - p `min` length l - length d))%nat with (q + i)%nat by lia.
    congruence.
Qed.

(** Overwriting or appending at [p] inside an area, seen through its first [s]
    cells. *)
Lemma take_splice p d l s :
  (p <= s)%nat -> (s <= length l)%nat -> (p + length d <= length l)%nat ->
  take (Nat.max s (p + length d)) (splice p d l) = splice p d (take s l).
Proof.
  intros Hp Hs Hd. unfold splice. rewrite take_take, Nat.min_l by lia.
  rewrite take_app_ge by (rewrite length_take; lia).
  rewrite length_take, Nat.min_l by lia. f_equal.
  rewrite take_app_ge by lia. f_equal.
  apply list_eq. intros i. rewrite lookup_drop.
  destruct (decide (i < s - (p + length d))%nat).
  - rewrite !lookup_take_lt by lia. by rewrite lookup_drop.
  - rewrite !lookup_take_ge by lia. done.
Qed.

Lemma slice_take p n s l : (p + n <= s)%nat -> slice p n (take s l) = slice p n l.
Proof.
  intros. unfold slice. apply list_eq. intros i.
  destruct (decide (i < n)%nat); [|by rewrite !lookup_take_ge by lia].
  rewrite !lookup_take_lt by lia. rewrite !lookup_drop. by rewrite lookup_take_lt by lia.
Qed.
End Slices.

(** ** Areas made of equal blocks

    A chain of nodes of [b] cells each, read as one flat area. *)

Section Blocks.
Context {A : Type}.
Implicit Types (ls : list (list A)) (x d : list A).

Definition blocks (b : nat) ls : Prop := Forall (fun x => length x = b) ls.

Lemma blocks_concat_length b ls : blocks b ls -> length (concat ls) = (b * length ls)%nat.
Proof. induction 1 as [|x ls Hx _ IH]; simpl; [lia|]. rewrite length_app. lia. Qed.

Lemma blocks_split b ls i x :
  blocks b ls -> ls !! i = Some x ->
  exists l1 l2, ls = l1 ++ x :: l2 /\ length l1 = i /\ length x = b /\
    length (concat l1) = (b * i)%nat.
Proof.
  intros Hb Hi. exists (take i ls), (drop (S i) ls).
  pose proof (lookup_lt_Some _ _ _ Hi). split_and!.
  - by rewrite take_drop_middle.
  - rewrite length_take. lia.
  - by apply (Forall_lookup_1 _ _ _ _ Hb Hi).
  - rewrite (blocks_concat_length b) by (by apply Forall_take).
    rewrite length_take. lia.
Qed.

Lemma slice_block b ls i x off n :
  blocks b ls -> ls !! i = Some x -> (off + n <= b)%nat ->
  slice (b * i + off) n (concat ls) = slice off n x.
Proof.
  intros Hb Hi Hn. destruct (blocks_split _ _ _ _ Hb Hi) as (l1 & l2 & -> & _ & Hx & Hl).
  rewrite concat_app. simpl. unfold slice.
  rewrite drop_app_ge by lia. rewrite Hl.
  replace (b * i + off - b * i)%nat with off by lia.
  rewrite drop_app_le by lia. rewrite take_app_le; [done|]. rewrite length_drop. lia.
Qed.

Lemma splice_block b ls i x off d :
  blocks b ls -> ls !! i = Some x -> (off + length d <= b)%nat ->
  concat (<[i := splice off d x]> ls) = splice (b * i + off) d (concat ls).
Proof.
  intros Hb Hi Hn. destruct (blocks_split _ _ _ _ Hb Hi) as (l1 & l2 & -> & <- & Hx & Hl).
  rewrite insert_app_r_alt by lia. rewrite Nat.sub_diag. simpl.
  rewrite !concat_app. simpl. unfold splice.
  rewrite take_app_ge by lia. rewrite (drop_app_ge (concat l1)) by lia.
  rewrite Hl.
  replace (b * length l1 + off - b * length l1)%nat with off by lia.
  replace (b * length l1 + off + length d - b * length l1)%nat with (off + length d)%nat by lia.
  rewrite take_app_le by lia. rewrite drop_app_le by lia.
  by rewrite <- !app_assoc.
Qed.

Lemma blocks_insert b ls i x : blocks b ls -> length x = b -> blocks b (<[i := x]> ls).
Proof. intros. by apply Forall_insert. Qed.
End Blocks.

Create HintDb gudov.
Create Rewrite HintDb gudov.
#[export] Hint Resolve blocks_insert b2z_range : gudov.
#[export] Hint Rewrite @le_bytes_length @length_app @length_take @length_drop : gudov.

(** Case analysis on the boolean comparisons of the goal, with their meaning as
    hypotheses. *)
Ltac bool_cases :=
  repeat match goal with
  | |- context [Z.eqb ?a ?b] => destruct (Z.eqb_spec a b)
  | |- context [Z.ltb ?a ?b] => destruct (Z.ltb_spec a b)
  | |- context [Z.leb ?a ?b] => destruct (Z.leb_spec a b)
  | |- context [Z.gtb ?a ?b] => rewrite (Z.gtb_ltb a b)
  | |- context [Z.geb ?a ?b] => rewrite (Z.geb_leb a b)
  end.

(** ** Filtering a list cut in two *)

Lemma filter_cut {A} (P : A -> Prop) `{forall x, Decision (P x)} (l1 l2 : list A) :
  Forall P l1 -> Forall (fun x => ~ P x) l2 -> filter P (l1 ++ l2) = l1.
Proof.
  intros H1 H2. induction H1 as [|x l1 Hx _ IH]; cbn [app].
  - induction H2 as [|x l2 Hx _ IH]; [done|]. by rewrite filter_cons_False.
  - by rewrite filter_cons_True, IH.
Qed.

Lemma filter_cut_r {A} (P : A -> Prop) `{forall x, Decision (P x)} (l1 l2 : list A) :
  Forall (fun x => ~ P x) l1 -> Forall P l2 -> filter P (l1 ++ l2) = l2.
Proof.
  intros H1 H2. induction H1 as [|x l1 Hx _ IH]; cbn [app].
  - rewrite <- (app_nil_r l2) at 1. apply filter_cut; [done|constructor].
  - by rewrite filter_cons_False.
Qed.

Lemma filter_ext_mem {A} (P Q : A -> Prop) `{forall x, Decision (P x)} `{forall x, Decision (Q x)} (l : list A) :
  (forall x, x ∈ l -> (P x <-> Q x)) -> filter P l = filter Q l.
Proof.
  induction l as [|x l IH]; intros Hl; [done|]. rewrite !filter_cons.
  rewrite IH by (intros; apply Hl; by right). pose proof (Hl x ltac:(left)).
  repeat case_decide; tauto.
Qed.

(** ** Sums over a list *)

Fixpoint sumz {A} (w : A -> Z) (l : list A) : Z :=
  match l with [] => 0 | x :: l => w x + sumz w l end.

Section Sums.
Context {A : Type} (w : A -> Z).

Lemma sumz_app l k : sumz w (l ++ k) = sumz w l + sumz w k.
Proof. induction l as [|x l IH]; cbn; [done|]. lia. Qed.

Lemma sumz_insert l i x y : l !! i = Some x -> sumz w (<[i := y]> l) = sumz w l - w x + w y.
Proof.
  revert i. induction l as [|z l IH]; intros [|i] H; try done.
  - injection H as ->. cbn. lia.
  - change (<[S i := y]> (z :: l)) with (z :: <[i := y]> l). cbn [sumz]. rewrite (IH i H). lia.
Qed.

Lemma sumz_nonneg l : (forall x, 0 <= w x) -> 0 <= sumz w l.
Proof. intros H. induction l as [|x l IH]; cbn; [done|]. specialize (H x). lia. Qed.

Lemma sumz_zero l x : (forall x, 0 <= w x) -> sumz w l = 0 -> x ∈ l -> w x = 0.
Proof.
  intros H. induction l as [|y l IH]; intros Hs Hx; [by apply elem_of_nil in Hx|]. cbn in Hs.
  pose proof (H y). pose proof (sumz_nonneg l H).
  apply elem_of_cons in Hx as [->|Hx]; [lia|apply IH; [lia|done]].
Qed.
End Sums.

Definition b2n (b : bool) : Z := if b then 1 else 0.

Lemma b2n_nonneg b : 0 <= b2n b.
Proof. by destruct b. Qed.

(** ** Strings *)

Lemma str_app_assoc a b c : (a +:+ b) +:+ c = a +:+ b +:+ c.
Proof. induction a as [|x a IH]; [done|]. change (String x ((a +:+ b) +:+ c) = String x (a +:+ b +:+ c)). by rewrite IH. Qed.

Lemma str_length_app a b : String.length (a +:+ b) = (String.length a + String.length b)%nat.
Proof. induction a as [|c a IH]; [done|]. change (S (String.length (a +:+ b)) = S (String.length a) + String.length b)%nat. lia. Qed.

Lemma str_app_nil s : s +:+ EmptyString = s.
Proof. induction s as [|c s IH]; [done|]. change (String c (s +:+ EmptyString) = String c s). by rewrite IH. Qed.

(** [c_str()] as the C functions read it: up to the first null. *)
Fixpoint c_str (s : string) : string :=
  match s with
  | EmptyString => EmptyString
  | String c s => if Ascii.eqb c Ascii.zero then EmptyString else String c (c_str s)
  end.
