(* ===== verification/OrderedMap.v ===== *)
(** * [std::map] and [std::set]

    The ordered containers the program keeps its headers, its configuration values,
    its listeners and its loggers in: the list of the pairs in the order of their keys,
    with the laws that make it a map.  The comparison is a parameter; what a container
    asks of it is the class [WeakOrder]. *)

From S2P Require Import Prelude.
From stdpp Require Import base numbers list sorting strings.
From Stdlib Require Import ZArith Lia Ascii.

(** ** The map and its operations *)

(** What [std::map] asks of its comparison: a strict weak order. *)
Class WeakOrder {A : Type} (less : A -> A -> bool) := {
  less_irrefl x : less x x = false;
  less_trans x y z : less x y = true -> less y z = true -> less x z = true;
  less_split x y z : less x z = true -> less x y = true \/ less y z = true }.

Section OrderedMap.
Context {A V : Type} (less : A -> A -> bool).
Implicit Types (k : A) (v : V) (m : list (A * V)).

(** [find]: the first pair whose key is not less, if it is not greater either. *)
Fixpoint map_find k m : option V :=
  match m with
  | [] => None
  | (k', v') :: m => if less k' k then map_find k m else if less k k' then None else Some v'
  end.

(** [m[k] = v]: an equivalent key keeps its spelling. *)
Fixpoint map_assign k v m : list (A * V) :=
  match m with
  | [] => [(k, v)]
  | (k', v') :: m' =>
      if less k' k then (k', v') :: map_assign k v m'
      else if less k k' then (k, v) :: m else (k', v) :: m'
  end.

(** [m.erase(k)] *)
Fixpoint map_erase k m : list (A * V) :=
  match m with
  | [] => []
  | (k', v') :: m' =>
      if less k' k then (k', v') :: map_erase k m' else if less k k' then m else m'
  end.

(** [m.insert({k, v})]: an equivalent key keeps its value. *)
Fixpoint map_insert k v m : list (A * V) :=
  match m with
  | [] => [(k, v)]
  | (k', v') :: m' =>
      if less k' k then (k', v') :: map_insert k v m' else if less k k' then (k, v) :: m else m
  end.

(** [s.insert(x)] of a set. *)
Fixpoint set_insert (x : A) (s : list A) : list A :=
  match s with
  | [] => [x]
  | y :: s' => if less y x then y :: set_insert x s' else if less x y then x :: s else s
  end.

(** [s.find(x)] of a set: the element that is neither less nor greater. *)
Fixpoint set_find (x : A) (s : list A) : option A :=
  match s with
  | [] => None
  | y :: s' => if less y x then set_find x s' else if less x y then None else Some y
  end.
End OrderedMap.

(** ** Comparisons *)

(** [operator<] of sequences and of pairs. *)
Fixpoint lex_less {A} (less : A -> A -> bool) (l k : list A) : bool :=
  match l, k with
  | _, [] => false
  | [], _ :: _ => true
  | x :: l, y :: k => if less x y then true else if less y x then false else lex_less less l k
  end.

Definition pair_less {A B} (less1 : A -> A -> bool) (less2 : B -> B -> bool) (p q : A * B) : bool :=
  less1 p.1 q.1 || negb (less1 q.1 p.1) && less2 p.2 q.2.

(** [operator<] of [std::string] compares unsigned characters. *)
Definition char_less (a b : ascii) : bool := (nat_of_ascii a <? nat_of_ascii b)%nat.
Definition string_less (a b : string) : bool :=
  lex_less char_less (String.list_ascii_of_string a) (String.list_ascii_of_string b).

(** ** The laws of [std::map] *)

Section MapLaws.
Context {A V : Type} (less : A -> A -> bool) `{WeakOrder A less}.
Implicit Types (k : A) (v : V) (m : list (A * V)).

Definition before (p q : A * V) : Prop := less p.1 q.1 = true.
Definition map_ok m : Prop := StronglySorted before m.
Definition equiv_key k k' : bool := negb (less k k' || less k' k).

Lemma less_asym k k' : less k k' = true -> less k' k = false.
Proof.
  intros H1. destruct (less k' k) eqn:H2; [|done]. pose proof (less_trans _ _ _ H1 H2) as H3. by rewrite less_irrefl in H3.
Qed.

Lemma map_assign_all k v m (P : A * V -> Prop) :
  P (k, v) -> (forall k' v', P (k', v') -> P (k', v)) -> Forall P m -> Forall P (map_assign less k v m).
Proof.
  intros Hk HP. induction 1 as [|[k' v'] m Hp Hm IH]; cbn; [by repeat constructor|].
  destruct (less k' k); [by constructor|]. destruct (less k k'); repeat constructor; eauto.
Qed.

Lemma map_assign_ok k v m : map_ok m -> map_ok (map_assign less k v m).
Proof.
  induction 1 as [|[k' v'] m Hm IH Hf]; cbn; [repeat constructor|].
  destruct (less k' k) eqn:E1.
  - constructor; [done|]. apply map_assign_all; [done|done|]. done.
  - destruct (less k k') eqn:E2; [|by constructor].
    constructor; [by constructor|]. constructor; [done|].
    apply (Forall_impl _ _ _ Hf). intros [k2 v2] H2. by apply (less_trans k k' k2).
Qed.

Lemma map_erase_sub k m x : x ∈ map_erase less k m -> x ∈ m.
Proof.
  induction m as [|[k' v'] m IH]; cbn; [done|]. destruct (less k' k).
  - intros [->|Hx]%elem_of_cons; [by left|right; by apply IH].
  - destruct (less k k'); [done|]. by right.
Qed.

Lemma map_erase_ok k m : map_ok m -> map_ok (map_erase less k m).
Proof.
  induction 1 as [|[k' v'] m Hm IH Hf]; cbn; [constructor|].
  destruct (less k' k); [|destruct (less k k'); [by constructor|done]].
  constructor; [done|]. rewrite Forall_forall in *. intros x Hx. by apply Hf, (map_erase_sub k).
Qed.

(** No key of a sorted rest is equivalent to a smaller one. *)
Lemma map_find_above k k' v' m : Forall (before (k', v')) m -> less k k' = true \/ equiv_key k k' = true -> map_find less k m = None.
Proof.
  intros Hf Hk. destruct Hf as [|[k2 v2] m Hp _]; [done|]. cbn. unfold before in Hp. cbn in Hp.
  assert (less k k2 = true) as E.
  { destruct Hk as [Hk|Hk]; [by apply (less_trans k k' k2)|].
    apply negb_true_iff, orb_false_iff in Hk as [H1 H2]. destruct (less_split k' k k2 Hp) as [|]; [congruence|done]. }
  by rewrite (less_asym _ _ E), E.
Qed.

(** Equivalent keys compare alike. *)
Lemma equiv_less k k' k2 : equiv_key k k' = true -> less k k2 = less k' k2 /\ less k2 k = less k2 k'.
Proof.
  intros [H1 H2]%negb_true_iff%orb_false_iff. split.
  - destruct (less k k2) eqn:E, (less k' k2) eqn:E'; try done.
    + destruct (less_split k k' k2 E); congruence.
    + destruct (less_split k' k k2 E'); congruence.
  - destruct (less k2 k) eqn:E, (less k2 k') eqn:E'; try done.
    + destruct (less_split k2 k' k E); congruence.
    + destruct (less_split k2 k k' E'); congruence.
Qed.

Lemma find_assign k k' v m : map_ok m -> map_find less k (map_assign less k' v m) = if equiv_key k k' then Some v else map_find less k m.
Proof.
  induction 1 as [|[k2 v2] m Hm IH Hf]; cbn.
  - unfold equiv_key. destruct (less k' k) eqn:E1, (less k k') eqn:E2; done.
  - destruct (less k2 k') eqn:E1; cbn.
    + rewrite IH. destruct (equiv_key k k') eqn:Ek; [|done].
      destruct (equiv_less _ _ k2 Ek) as [_ ->]. by rewrite E1.
    + destruct (less k' k2) eqn:E2; cbn.
      * destruct (equiv_key k k') eqn:Ek.
        { destruct (proj1 (orb_false_iff _ _) (proj1 (negb_true_iff _) Ek)) as [-> ->]. done. }
        destruct (less k' k) eqn:E3; [done|]. destruct (less k k') eqn:E4.
        { rewrite (less_asym _ _ (less_trans _ _ _ E4 E2)). by rewrite (less_trans _ _ _ E4 E2). }
        unfold equiv_key in Ek. by rewrite E3, E4 in Ek.
      * assert (equiv_key k2 k' = true) as E3 by (unfold equiv_key; by rewrite E1, E2).
        destruct (equiv_less _ _ k E3) as [E4 E5]. rewrite E4, E5. unfold equiv_key.
        destruct (less k' k), (less k k'); done.
Qed.

Lemma find_erase k k' m : map_ok m -> map_find less k (map_erase less k' m) = if equiv_key k k' then None else map_find less k m.
Proof.
  induction 1 as [|[k2 v2] m Hm IH Hf]; cbn; [by destruct (equiv_key k k')|].
  destruct (less k2 k') eqn:E1; cbn.
  - rewrite IH. destruct (equiv_key k k') eqn:Ek; [|done]. destruct (equiv_less _ _ k2 Ek) as [_ ->]. by rewrite E1.
  - destruct (less k' k2) eqn:E2; cbn.
    + destruct (equiv_key k k') eqn:Ek; [|done]. destruct (equiv_less _ _ k2 Ek) as [-> ->]. by rewrite E1, E2.
    + assert (equiv_key k2 k' = true) as E3 by (unfold equiv_key; by rewrite E1, E2).
      destruct (equiv_less _ _ k E3) as [E4 E5]. rewrite E4, E5. destruct (less k' k) eqn:E6.
      { unfold equiv_key. by rewrite E6, orb_true_r. }
      destruct (less k k') eqn:E7.
      * unfold equiv_key. rewrite E7. cbn. apply (map_find_above k k2 v2); [done|left]. by rewrite E5.
      * unfold equiv_key. rewrite E6, E7. cbn. apply (map_find_above k k2 v2); [done|right].
        unfold equiv_key. by rewrite E4, E5.
Qed.

Definition set_ok (s : list A) : Prop := StronglySorted (fun x y => less x y = true) s.

Lemma map_insert_all k v m (P : A * V -> Prop) : P (k, v) -> Forall P m -> Forall P (map_insert less k v m).
Proof.
  intros Hk. induction 1 as [|[k' v'] m Hp Hm IH]; cbn; [by repeat constructor|].
  destruct (less k' k); [by constructor|]. destruct (less k k'); repeat constructor; eauto.
Qed.

Lemma map_insert_ok k v m : map_ok m -> map_ok (map_insert less k v m).
Proof.
  induction 1 as [|[k' v'] m Hm IH Hf]; cbn; [repeat constructor|].
  destruct (less k' k) eqn:E1; [constructor; [done|by apply map_insert_all]|].
  destruct (less k k') eqn:E2; [|by constructor].
  constructor; [by constructor|]. constructor; [done|].
  apply (Forall_impl _ _ _ Hf). intros [k2 v2] H2. by apply (less_trans k k' k2).
Qed.

Lemma set_insert_all x s (P : A -> Prop) : P x -> Forall P s -> Forall P (set_insert less x s).
Proof.
  intros Hx. induction 1 as [|y s Hy Hs IH]; cbn; [by repeat constructor|].
  destruct (less y x); [by constructor|]. destruct (less x y); repeat constructor; eauto.
Qed.

Lemma set_insert_ok x s : set_ok s -> set_ok (set_insert less x s).
Proof.
  induction 1 as [|y s Hs IH Hf]; cbn; [repeat constructor|].
  destruct (less y x) eqn:E1; [constructor; [done|by apply set_insert_all]|].
  destruct (less x y) eqn:E2; [|by constructor].
  constructor; [by constructor|]. constructor; [done|].
  apply (Forall_impl _ _ _ Hf). intros z Hz. by apply (less_trans x y z).
Qed.

End MapLaws.

(** What is greater than every key goes to the end. *)
Section Appending.
Context {A V : Type} (less : A -> A -> bool).

Lemma map_insert_last k (v : V) m : Forall (fun p => less p.1 k = true) m -> map_insert less k v m = m ++ [(k, v)].
Proof. induction 1 as [|[k' v'] m Hp _ IH]; cbn in *; [done|]. by rewrite Hp, IH. Qed.

Lemma set_insert_last x s : Forall (fun y => less y x = true) s -> set_insert less x s = s ++ [x].
Proof. induction 1 as [|y s Hy _ IH]; cbn in *; [done|]. by rewrite Hy, IH. Qed.
End Appending.

#[global] Instance lex_order {A} (less : A -> A -> bool) : WeakOrder less -> WeakOrder (lex_less less).
Proof.
  intros H. split.
  - intros l. induction l as [|x l IH]; cbn; [done|]. by rewrite less_irrefl.
  - intros l. induction l as [|x l IH]; intros [|y k] [|z j]; cbn; try done.
    destruct (less x y) eqn:Exy, (less y z) eqn:Eyz; intros H1 H2.
    + by rewrite (less_trans _ _ _ Exy Eyz).
    + destruct (less z y) eqn:Ezy; [done|]. destruct (less_split x z y Exy) as [->|]; [done|congruence].
    + destruct (less y x) eqn:Eyx; [done|]. destruct (less_split y x z Eyz) as [| ->]; [congruence|done].
    + destruct (less y x) eqn:Eyx, (less z y) eqn:Ezy; try done.
      destruct (less x z) eqn:Exz; [done|]. destruct (less z x) eqn:Ezx; [|by eapply IH].
      destruct (less_split z y x Ezx); congruence.
  - intros l. induction l as [|x l IH]; intros [|y k] [|z j]; cbn; try done; try by intros; auto.
    destruct (less x z) eqn:Exz; intros H1.
    + destruct (less_split x y z Exz) as [->| ->]; by auto.
    + destruct (less z x) eqn:Ezx; [done|].
      destruct (less x y) eqn:Exy; [by left|]. destruct (less y z) eqn:Eyz; [by right|].
      destruct (less y x) eqn:Eyx; [destruct (less_split y z x Eyx); congruence|].
      destruct (less z y) eqn:Ezy; [destruct (less_split z x y Ezy); congruence|]. by apply IH.
Qed.

#[global] Instance pair_order {A B} (less1 : A -> A -> bool) (less2 : B -> B -> bool) :
  WeakOrder less1 -> WeakOrder less2 -> WeakOrder (pair_less less1 less2).
Proof.
  intros H1 H2. unfold pair_less. split.
  - intros [x y]. cbn. by rewrite !less_irrefl, andb_false_r.
  - intros [x1 x2] [y1 y2] [z1 z2]. cbn.
    destruct (less1 x1 y1) eqn:Exy, (less1 y1 z1) eqn:Eyz; cbn; intros HA HB.
    + by rewrite (less_trans _ _ _ Exy Eyz).
    + destruct (less1 z1 y1) eqn:Ezy; [done|]. destruct (less_split x1 z1 y1 Exy) as [->|]; [done|congruence].
    + destruct (less1 y1 x1) eqn:Eyx; [done|]. destruct (less_split y1 x1 z1 Eyz) as [| ->]; [congruence|done].
    + destruct (less1 y1 x1) eqn:Eyx, (less1 z1 y1) eqn:Ezy; try done. cbn in *.
      destruct (less1 z1 x1) eqn:Ezx; [destruct (less_split z1 y1 x1 Ezx); congruence|].
      rewrite (less_trans _ _ _ HA HB). by rewrite orb_true_r.
  - intros [x1 x2] [y1 y2] [z1 z2]. cbn. destruct (less1 x1 z1) eqn:Exz; cbn.
    + intros _. destruct (less_split x1 y1 z1 Exz) as [->| ->]; by auto.
    + destruct (less1 z1 x1) eqn:Ezx; [done|]. cbn. intros HA.
      destruct (less1 x1 y1) eqn:Exy; [by left|]. destruct (less1 y1 z1) eqn:Eyz; [by right|].
      destruct (less1 y1 x1) eqn:Eyx; [destruct (less_split y1 z1 x1 Eyx); congruence|].
      destruct (less1 z1 y1) eqn:Ezy; [destruct (less_split z1 x1 y1 Ezy); congruence|]. cbn. by apply less_split.
Qed.

#[global] Instance char_order : WeakOrder char_less.
Proof.
  unfold char_less. split.
  - intros x. apply Nat.ltb_irrefl.
  - intros x y z. rewrite !Nat.ltb_lt. lia.
  - intros x y z. rewrite !Nat.ltb_lt. lia.
Qed.

#[global] Instance string_order : WeakOrder string_less.
Proof.
  unfold string_less. split; intros x.
  - apply less_irrefl.
  - intros y z. apply less_trans.
  - intros y z. apply less_split.
Qed.

(** Strings of which neither is less are equal. *)
Lemma string_less_total a b : string_less a b = false -> string_less b a = false -> a = b.
Proof.
  unfold string_less. revert b. induction a as [|x a IH]; intros [|y b]; cbn [String.list_ascii_of_string lex_less]; try done.
  destruct (char_less x y) eqn:E1; [done|]. destruct (char_less y x) eqn:E2; [done|].
  unfold char_less in E1, E2. apply Nat.ltb_ge in E1, E2.
  assert (x = y) as -> by (rewrite <- (ascii_nat_embedding x), <- (ascii_nat_embedding y); f_equal; lia).
  intros H1 H2. f_equal. by apply IH.
Qed.

#[global] Instance Z_order : WeakOrder Z.ltb.
Proof. split; [apply Z.ltb_irrefl|intros x y z; rewrite !Z.ltb_lt; lia|intros x y z; rewrite !Z.ltb_lt; lia]. Qed.
