(* ===== verification/Ragel.v ===== *)
(** * State machines as Ragel builds them

    The grammars [uri.rl], [http/http11_parser.rl] and [http/httpclient_parser.rl] are
    written in the language of Ragel: regular expressions in which actions are embedded.
    This file gives the constructs those grammars use their meaning.  A state of the
    machine is the set of what may still follow, one residual expression for each way the
    input can be read; a character leads from it along all transitions that carry it,
    with the actions of all of them.

    An action embedded with [>] runs on the transitions that enter an expression, one
    with [%] on those that leave it, one with [@] on those that finish it; entering an
    expression that matches the empty word happens when it is left.  Each embedding has
    its place in an order, which is the order in which the grammar is read (entering
    actions before what they are attached to, the others after it); a transition runs its
    actions in this order, each action once.  The guarded concatenations [:>] and [:>>]
    give transitions a priority: of two that carry the same character and have a guard in
    common only the one of higher priority is taken. *)

From S2P Require Import Prelude.
From stdpp Require Import base numbers list.
From stdpp Require Import strings.
From Stdlib Require Import NArith ZArith Lia Ascii Btauto.

(** ** Classes of characters *)

(** A union of ranges of character codes. *)
Definition cls := list (N * N).

Definition mem (c : cls) (x : ascii) : bool :=
  let n := N_of_ascii x in existsb (fun r => (r.1 <=? n)%N && (n <=? r.2)%N) c.

Definition chr (x : ascii) : cls := [(N_of_ascii x, N_of_ascii x)].
Definition code (n : N) : cls := [(n, n)].

(** [c -- d] on classes. *)
Definition cut_range (d : N * N) (r : N * N) : cls :=
  if (r.2 <? d.1)%N || (d.2 <? r.1)%N then [r]
  else (if (r.1 <? d.1)%N then [(r.1, N.pred d.1)] else []) ++ (if (d.2 <? r.2)%N then [(N.succ d.2, r.2)] else []).
Definition cls_minus (c d : cls) : cls := foldl (fun c r => mjoin (cut_range r <$> c)) c d.

(** The classes Ragel provides, over bytes. *)
Definition any : cls := [(0, 255)]%N.
Definition ascii_ : cls := [(0, 127)]%N.
Definition cntrl : cls := [(0, 31)]%N.
Definition digit : cls := [(48, 57)]%N.
Definition upper : cls := [(65, 90)]%N.
Definition alpha : cls := [(65, 90); (97, 122)]%N.
Definition xdigit : cls := [(48, 57); (65, 70); (97, 102)]%N.
Definition space : cls := [(9, 13); (32, 32)]%N.

(** [c] lies inside [d]; no character is in both. *)
Definition inside (c d : cls) : bool := forallb (fun r => existsb (fun s => (s.1 <=? r.1)%N && (r.2 <=? s.2)%N) d) c.
Definition apart (c d : cls) : bool := forallb (fun r => forallb (fun s => (r.2 <? s.1)%N || (s.2 <? r.1)%N) d) c.

Lemma inside_mem c d x : inside c d = true -> mem c x = true -> mem d x = true.
Proof.
  unfold inside, mem. rewrite forallb_forall, !existsb_exists. intros Hi (r & Hr & H%andb_true_iff).
  destruct (proj1 (existsb_exists _ _) (Hi r Hr)) as (s & Hs & Hin%andb_true_iff). exists s. split; [done|].
  rewrite !N.leb_le in *. apply andb_true_iff. rewrite !N.leb_le. lia.
Qed.

Lemma apart_mem c d x : apart c d = true -> mem c x = true -> mem d x = false.
Proof.
  unfold apart, mem. rewrite forallb_forall, existsb_exists. intros Ha (r & Hr & H%andb_true_iff).
  apply not_true_is_false. rewrite existsb_exists. intros (s & Hs & Hin%andb_true_iff). rewrite !N.leb_le in *.
  pose proof (proj1 (forallb_forall _ _) (Ha r Hr) s Hs) as [?|?]%orb_true_iff; rewrite N.ltb_lt in *; lia.
Qed.

(** ** Text as characters *)

Lemma chars_app s t : String.list_ascii_of_string (s +:+ t) = String.list_ascii_of_string s ++ String.list_ascii_of_string t.
Proof. induction s as [|x s IH]; [done|]. exact (f_equal (cons x) IH). Qed.

(** ** Expressions *)

Section Syntax.
Context {A : Type} `{EqDecision A}.

(** Numbers are the places in the order of the embeddings, and the keys of the guards.
    [Sub k] is a definition without actions, by its number; [FPri] is what is left of the
    right hand side of [:>>]. *)
Inductive rx :=
  | Eps
  | Chr (c : cls)
  | Sub (k : nat)
  | Cat (r s : rx)
  | Alt (r s : rx)
  | Star (o : N) (r : rx)
  | Enter (o : N) (a : A) (r : rx)
  | Leave (o : N) (a : A) (r : rx)
  | Finish (o : N) (a : A) (r : rx)
  | Guard (k : N) (r s : rx)
  | FGuard (k : N) (r s : rx)
  | FPri (k : N) (r : rx).

Fixpoint cls_eqb (c d : cls) : bool :=
  match c, d with
  | [], [] => true
  | r :: c, s :: d => (r.1 =? s.1)%N && (r.2 =? s.2)%N && cls_eqb c d
  | _, _ => false
  end.

Lemma cls_eqb_eq c d : cls_eqb c d = true -> c = d.
Proof.
  revert d. induction c as [|[a b] c IH]; intros [|[a' b'] d]; cbn; try done.
  rewrite !andb_true_iff, !N.eqb_eq. intros [[-> ->] ?]. f_equal. auto.
Qed.

Fixpoint rx_eqb (r s : rx) : bool :=
  match r, s with
  | Eps, Eps => true
  | Chr c, Chr d => cls_eqb c d
  | Sub i, Sub j => (i =? j)%nat
  | Cat a b, Cat c d | Alt a b, Alt c d => rx_eqb a c && rx_eqb b d
  | Star n a, Star m b | FPri n a, FPri m b => (n =? m)%N && rx_eqb a b
  | Enter n x a, Enter m y b | Leave n x a, Leave m y b | Finish n x a, Finish m y b =>
      (n =? m)%N && bool_decide (x = y) && rx_eqb a b
  | Guard n a b, Guard m c d | FGuard n a b, FGuard m c d => (n =? m)%N && rx_eqb a c && rx_eqb b d
  | _, _ => false
  end.

Lemma rx_eqb_eq r s : rx_eqb r s = true -> r = s.
Proof.
  revert s. induction r; intros []; cbn; rewrite ?andb_true_iff, ?N.eqb_eq, ?Nat.eqb_eq, ?bool_decide_eq_true;
    intros; repeat match goal with H : _ /\ _ |- _ => destruct H end; try discriminate; subst; f_equal; auto using cls_eqb_eq.
Qed.

(** *** The order of the embeddings

    The grammar is read from [n] on: the expression with its numbers, and the next free
    number.  The start of a repeated expression comes behind everything in it. *)
Fixpoint walk (r : rx) (n : N) : rx * N :=
  match r with
  | Eps => (Eps, n)
  | Chr c => (Chr c, n)
  | Sub k => (Sub k, n)
  | Cat r s => let '(r, n) := walk r n in let '(s, n) := walk s n in (Cat r s, n)
  | Alt r s => let '(r, n) := walk r n in let '(s, n) := walk s n in (Alt r s, n)
  | Star _ r => let '(r, n) := walk r n in (Star n r, n + n)%N
  | Enter _ a r => let '(r', n') := walk r (n + 1)%N in (Enter n a r', n')
  | Leave _ a r => let '(r, n) := walk r n in (Leave n a r, n + 1)%N
  | Finish _ a r => let '(r, n) := walk r n in (Finish n a r, n + 1)%N
  | Guard _ r s => let '(r, n) := walk r n in let '(s, n) := walk s n in (Guard n r s, n + 1)%N
  | FGuard _ r s => let '(r, n) := walk r n in let '(s, n) := walk s n in (FGuard n r s, n + 1)%N
  | FPri _ r => let '(r, n) := walk r n in (FPri n r, n + 1)%N
  end.

Definition numbered (r : rx) : rx := (walk r 1).1.

(** The definitions an expression refers to. *)
Fixpoint subs (r : rx) : list nat :=
  match r with
  | Eps | Chr _ => []
  | Sub k => [k]
  | Cat r s | Alt r s | Guard _ r s | FGuard _ r s => subs r ++ subs s
  | Star _ r | Enter _ _ r | Leave _ _ r | Finish _ _ r | FPri _ r => subs r
  end.
End Syntax.
Arguments rx : clear implicits.

(** The definitions of a grammar that are referred to by number; they do not refer to each
    other. *)
Class Defs (A : Type) := {
  defs : list (rx A);
  defs_closed : Forall (fun r => subs r = []) defs }.

Section Machine.
Context {A : Type} `{EqDecision A} `{Defs A}.
#[local] Abbreviation rx := (rx A).

(** *** Leaving

    The actions with which an expression is left if it may end here; [sub] says it of the
    definitions. *)
Section Out.
Context (sub : nat -> option (list (N * A))).

Fixpoint out_with (r : rx) : option (list (N * A)) :=
  match r with
  | Eps => Some []
  | Chr _ => None
  | Sub k => sub k
  | Cat r s | Guard _ r s | FGuard _ r s =>
      match out_with r, out_with s with Some o, Some o' => Some (o ++ o') | _, _ => None end
  | Alt r s =>
      match out_with r, out_with s with Some o, Some o' => Some (o ++ o') | Some o, None | None, Some o => Some o | None, None => None end
  | Star _ _ => Some []
  | Enter n a r => match out_with r with Some o => Some ((n, a) :: o) | None => None end
  | Leave n a r => match out_with r with Some o => Some (o ++ [(n, a)]) | None => None end
  | Finish _ _ r | FPri _ r => out_with r
  end.
End Out.

Definition out0 : rx -> option (list (N * A)) := out_with (fun _ => None).
Definition final_with (sub : nat -> option (list (N * A))) (r : rx) : bool :=
  match out_with sub r with Some _ => true | None => false end.
Definition def_out (k : nat) : option (list (N * A)) := match defs !! k with Some r => out0 r | None => None end.
Definition out : rx -> option (list (N * A)) := out_with def_out.
Definition final : rx -> bool := final_with def_out.

(** *** Transitions *)

Record trans := mkTrans { t_on : cls; t_acts : list (N * A); t_pri : list (N * bool); t_to : rx }.

Definition with_acts (o : list (N * A)) (t : trans) : trans := mkTrans (t_on t) (o ++ t_acts t) (t_pri t) (t_to t).
Definition with_pri (p : N * bool) (t : trans) : trans := mkTrans (t_on t) (t_acts t) (p :: t_pri t) (t_to t).
Definition with_to (f : rx -> rx) (t : trans) : trans := mkTrans (t_on t) (t_acts t) (t_pri t) (f (t_to t)).
Definition shifted (o : N) (t : trans) : trans :=
  mkTrans (t_on t) (map (fun x => (o + x.1, x.2)%N) (t_acts t)) (t_pri t) (t_to t).

Definition cat (r s : rx) : rx := match r with Eps => s | _ => Cat r s end.

Section Transitions.
Context (sub : nat -> option (list (N * A))) (sub_lf : nat -> list trans).

Fixpoint lf_with (r : rx) : list trans :=
  match r with
  | Eps => []
  | Chr c => [mkTrans c [] [] Eps]
  | Sub k => sub_lf k
  | Cat r s =>
      map (with_to (fun r => cat r s)) (lf_with r) ++ match out_with sub r with Some o => map (with_acts o) (lf_with s) | None => [] end
  | Alt r s => lf_with r ++ lf_with s
  | Star o r => map (fun t => shifted o (with_to (fun r' => cat r' (Star o r)) t)) (lf_with r)
  | Enter n a r => map (with_acts [(n, a)]) (lf_with r)
  | Leave n a r => map (with_to (Leave n a)) (lf_with r)
  | Finish n a r =>
      map (fun t => with_to (Finish n a) (if final_with sub (t_to t) then with_acts [(n, a)] t else t)) (lf_with r)
  | Guard k r s =>
      map (fun t => with_pri (k, false) (with_to (fun r => Guard k r s) t)) (lf_with r) ++
      match out_with sub r with Some o => map (fun t => with_pri (k, true) (with_acts o t)) (lf_with s) | None => [] end
  | FGuard k r s =>
      map (fun t => with_pri (k, false) (with_to (fun r => FGuard k r s) t)) (lf_with r) ++
      match out_with sub r with
      | Some o => map (fun t => with_acts o (with_to (FPri k) (if final_with sub (t_to t) then with_pri (k, true) t else t))) (lf_with s)
      | None => []
      end
  | FPri k r => map (fun t => with_to (FPri k) (if final_with sub (t_to t) then with_pri (k, true) t else t)) (lf_with r)
  end.
End Transitions.

Definition lf0 : rx -> list trans := lf_with (fun _ => None) (fun _ => []).
Definition def_lf (k : nat) : list trans := match defs !! k with Some r => lf0 r | None => [] end.
Definition lf : rx -> list trans := lf_with def_out def_lf.

(** *** Steps *)

Definition state := list rx.

(** [u] has a guard in common with [t] and the higher priority. *)
Definition beats (t u : trans) : bool :=
  existsb (fun p => existsb (fun q => (p.1 =? q.1)%N && negb p.2 && q.2) (t_pri u)) (t_pri t).
Definition survivors (l : list trans) : list trans := filter (fun t => existsb (beats t) l = false) l.

Fixpoint insert (x : N * A) (l : list (N * A)) : list (N * A) :=
  match l with
  | [] => [x]
  | y :: l => if (x.1 <=? y.1)%N then x :: y :: l else y :: insert x l
  end.
Definition sort (l : list (N * A)) : list (N * A) := foldr insert [] l.

(** Each action once, at its first place. *)
Fixpoint once (seen : list A) (l : list (N * A)) : list A :=
  match l with
  | [] => []
  | (_, a) :: l => if bool_decide (a ∈ seen) then once seen l else a :: once (a :: seen) l
  end.
Definition ordered (l : list (N * A)) : list A := once [] (sort l).

Fixpoint nub (l : list rx) : list rx :=
  match l with
  | [] => []
  | r :: l => let l := nub l in if existsb (rx_eqb r) l then l else r :: l
  end.

(** The transitions taken, as one: [None] is the error state. *)
Definition taken (l : list trans) : option (list A * state) :=
  match survivors l with
  | [] => None
  | l => Some (ordered (mjoin (t_acts <$> l)), nub (t_to <$> l))
  end.

Definition transitions (s : state) : list trans := mjoin (lf <$> s).

Definition step (s : state) (x : ascii) : option (list A * state) :=
  taken (filter (fun t => mem (t_on t) x = true) (transitions s)).

(** The actions at the end of the input, of the ways that may end there. *)
Definition eof_actions (s : state) : list A := ordered (mjoin (omap out s)).
Definition accepting (s : state) : bool := existsb final s.

(** ** Running

    [act a i] is the effect of an action at offset [i] of the buffer; [true] stops the
    machine behind the character, as [fbreak] does. *)
Section Run.
Context {E : Type} (act : A -> nat -> E -> result (E * bool)).

Fixpoint do_actions (l : list A) (i : nat) (e : E) : result (E * bool) :=
  match l with
  | [] => Ok (e, false)
  | a :: l => match act a i e with Ok (e, true) => Ok (e, true) | Ok (e, false) => do_actions l i e | Fail x => Fail x end
  end.

(** From the state [s] before offset [i]: the state, [None] after an error, the offset at
    which the machine stops, and what the actions did. *)
Fixpoint run (s : state) (i : nat) (w : list ascii) (e : E) : result (option state * nat * E) :=
  match w with
  | [] => Ok (Some s, i, e)
  | x :: w =>
      match step s x with
      | None => Ok (None, i, e)
      | Some (l, s') =>
          match do_actions l i e with
          | Ok (e, true) => Ok (Some s', S i, e)
          | Ok (e, false) => run s' (S i) w e
          | Fail x => Fail x
          end
      end
  end.
End Run.

(** ** The language of an expression *)

Inductive matches : rx -> list ascii -> Prop :=
  | m_eps : matches Eps []
  | m_chr c x : mem c x = true -> matches (Chr c) [x]
  | m_sub k r w : defs !! k = Some r -> matches r w -> matches (Sub k) w
  | m_cat r s v w : matches r v -> matches s w -> matches (Cat r s) (v ++ w)
  | m_left r s w : matches r w -> matches (Alt r s) w
  | m_right r s w : matches s w -> matches (Alt r s) w
  | m_stop o r : matches (Star o r) []
  | m_more o r v w : matches r v -> matches (Star o r) w -> matches (Star o r) (v ++ w)
  | m_enter o a r w : matches r w -> matches (Enter o a r) w
  | m_leave o a r w : matches r w -> matches (Leave o a r) w
  | m_finish o a r w : matches r w -> matches (Finish o a r) w
  | m_guard k r s v w : matches r v -> matches s w -> matches (Guard k r s) (v ++ w)
  | m_fguard k r s v w : matches r v -> matches s w -> matches (FGuard k r s) (v ++ w)
  | m_fpri k r w : matches r w -> matches (FPri k r) w.

(** The numbers do not matter for the language. *)
Fixpoint erase (r : rx) : rx :=
  match r with
  | Eps => Eps
  | Chr c => Chr c
  | Sub k => Sub k
  | Cat r s => Cat (erase r) (erase s)
  | Alt r s => Alt (erase r) (erase s)
  | Star _ r => Star 0 (erase r)
  | Enter _ a r => Enter 0 a (erase r)
  | Leave _ a r => Leave 0 a (erase r)
  | Finish _ a r => Finish 0 a (erase r)
  | Guard _ r s => Guard 0 (erase r) (erase s)
  | FGuard _ r s => FGuard 0 (erase r) (erase s)
  | FPri _ r => FPri 0 (erase r)
  end.

Lemma erase_walk r n : erase (walk r n).1 = erase r.
Proof.
  revert n. induction r; intros n; cbn; try done;
    repeat match goal with
      | IH : forall n, erase (walk ?r n).1 = _ |- context [walk ?r ?m] => specialize (IH m); destruct (walk r m); cbn in IH
      end; cbn; by f_equal.
Qed.

Lemma erase_matches r w : matches (erase r) w <-> matches r w.
Proof.
  split.
  - intros Hm. remember (erase r) as q eqn:Eq. revert r Eq.
    induction Hm; intros [] Eq; cbn in Eq; try discriminate; inversion Eq; subst; (solve [econstructor; eauto] || by apply m_right; auto).
  - induction 1; cbn; (solve [econstructor; eauto] || by apply m_right).
Qed.

Lemma numbered_matches r w : matches (numbered r) w <-> matches r w.
Proof. unfold numbered. by rewrite <- erase_matches, erase_walk, erase_matches. Qed.

(** [sub] tells which definitions match the empty word. *)
Definition tells_final (sub : nat -> option (list (N * A))) (k : nat) : Prop := is_Some (sub k) <-> matches (Sub k) [].

Lemma final_with_matches sub r : Forall (tells_final sub) (subs r) -> (final_with sub r = true <-> matches r []).
Proof.
  intros Hsub. unfold final_with. split.
  - induction r; cbn in Hsub |- *; intros Hf; try (by constructor); try done;
      try match type of Hsub with Forall _ (_ ++ _) => apply Forall_app in Hsub as [Hs1 Hs2] end.
    + rewrite Forall_singleton in Hsub. apply Hsub. by destruct (sub k).
    + destruct (out_with sub r1), (out_with sub r2); try done. rewrite <- (app_nil_l []). constructor; auto.
    + destruct (out_with sub r1); [constructor; auto|]. destruct (out_with sub r2); [apply m_right; auto|done].
    + constructor. destruct (out_with sub r); auto.
    + constructor. destruct (out_with sub r); auto.
    + constructor; auto.
    + destruct (out_with sub r1), (out_with sub r2); try done. rewrite <- (app_nil_l []). constructor; auto.
    + destruct (out_with sub r1), (out_with sub r2); try done. rewrite <- (app_nil_l []). constructor; auto.
    + constructor; auto.
  - intros Hm. remember (@nil ascii) as w eqn:Ew. induction Hm; cbn in Hsub |- *; try done;
      repeat match goal with H : _ ++ _ = [] |- _ => apply app_nil in H as [-> ->] end; subst;
      try match type of Hsub with Forall _ (_ ++ _) => apply Forall_app in Hsub as [Hs1 Hs2] end;
      repeat match goal with H : Forall _ _ -> [] = [] -> _ |- _ => specialize (H ltac:(assumption) eq_refl) end.
    + rewrite Forall_singleton in Hsub. destruct (proj2 Hsub) as [o ->]; [by econstructor|done].
    + by destruct (out_with sub r), (out_with sub s).
    + destruct (out_with sub r); [|done]. by destruct (out_with sub s).
    + destruct (out_with sub s); [|done]. by destruct (out_with sub r).
    + by destruct (out_with sub r).
    + by destruct (out_with sub r).
    + done.
    + by destruct (out_with sub r), (out_with sub s).
    + by destruct (out_with sub r), (out_with sub s).
    + done.
Qed.

Lemma def_no_subs k r : defs !! k = Some r -> subs r = [].
Proof. apply (Forall_lookup_1 _ _ _ _ defs_closed). Qed.

Lemma sub_matches k w : matches (Sub k) w <-> exists r, defs !! k = Some r /\ matches r w.
Proof. split; [inversion 1; subst; eauto|]. intros (r & Hr & Hm). by econstructor. Qed.

Lemma def_out_tells k : tells_final def_out k.
Proof.
  unfold tells_final, def_out. rewrite sub_matches. destruct (defs !! k) as [r|] eqn:Ek.
  - pose proof (final_with_matches (fun _ => None) r) as Hf. rewrite (def_no_subs _ _ Ek) in Hf. specialize (Hf (Forall_nil_2 _)).
    unfold final_with in Hf. fold (out0 r) in Hf. destruct (out0 r); naive_solver.
  - naive_solver.
Qed.

Lemma final_matches r : final r = true <-> matches r [].
Proof. apply final_with_matches, Forall_forall. intros k _. apply def_out_tells. Qed.

Lemma cat_matches r s w : matches (cat r s) w <-> matches (Cat r s) w.
Proof.
  destruct r; try done. cbn. split.
  - intros Hm. rewrite <- (app_nil_l w). constructor; [constructor|done].
  - inversion 1 as [| | |? ? v v' Hr Hs| | | | | | | | | |]; subst. by inversion Hr; subst.
Qed.

(** A word that begins with [x] is one that a transition on [x] leaves to be read. *)
Definition reads (l : list trans) (x : ascii) (w : list ascii) : Prop :=
  exists t, t ∈ l /\ mem (t_on t) x = true /\ matches (t_to t) w.

Lemma reads_app l l' x w : reads (l ++ l') x w <-> reads l x w \/ reads l' x w.
Proof. unfold reads. setoid_rewrite elem_of_app. naive_solver. Qed.

Lemma reads_map (f : trans -> trans) (Q : list ascii -> list ascii -> Prop) l x w :
  (forall t, t_on (f t) = t_on t) -> (forall t, t ∈ l -> matches (t_to (f t)) w <-> exists v, matches (t_to t) v /\ Q v w) ->
  reads (map f l) x w <-> exists v, reads l x v /\ Q v w.
Proof.
  intros Hon Hto. unfold reads. split.
  - intros (t & (t0 & -> & Ht0)%list_elem_of_fmap & Hm & Hw). rewrite Hon in Hm. apply Hto in Hw as (v & Hv & HQ); [|done].
    exists v. split; [|done]. by exists t0.
  - intros (v & (t & Ht & Hm & Hv) & HQ). exists (f t). split; [by apply list_elem_of_fmap_2|]. rewrite Hon. split; [done|].
    apply Hto; [done|]. by exists v.
Qed.

Lemma reads_same (f : trans -> trans) l x w :
  (forall t, t_on (f t) = t_on t) -> (forall t, matches (t_to (f t)) w <-> matches (t_to t) w) ->
  reads (map f l) x w <-> reads l x w.
Proof.
  intros Hon Hto. rewrite (reads_map f (fun v w => v = w)); [|done|].
  - split; [by intros (v & Hv & ->)|]. intros Hr. by exists w.
  - intros t Ht. rewrite Hto. split; [|by intros (v & Hv & ->)]. intros Hr. by exists w.
Qed.

(** What follows in a concatenation. *)
Definition then_ (s : rx) (v w : list ascii) : Prop := exists u, w = v ++ u /\ matches s u.

Lemma cat_split r s w : matches (Cat r s) w <-> exists v, matches r v /\ then_ s v w.
Proof.
  split.
  - inversion 1; subst. eexists. split; [done|]. by eexists.
  - intros (v & Hr & u & -> & Hs). by constructor.
Qed.

(** The two parts of the transitions of a concatenation. *)
Lemma cat_reads (r_ends : bool) r s w x l l' : (r_ends = true <-> matches r []) ->
  (forall v, matches r (x :: v) <-> reads l x v) -> (forall v, matches s (x :: v) <-> reads l' x v) ->
  (exists v, matches r v /\ then_ s v (x :: w)) <-> (exists v, reads l x v /\ then_ s v w) \/ (r_ends = true /\ reads l' x w).
Proof.
  intros He Hr Hs. rewrite He. setoid_rewrite <- Hr. rewrite <- Hs. split.
  - intros ([|y v] & Hv & u & Eu & Hu); [right; by rewrite Eu|]. injection Eu as <- ->. left. exists v. split; [done|]. by exists u.
  - intros [(v & Hv & u & -> & Hu)|[Hv Hu]]; [exists (x :: v)|exists []]; (split; [done|]); by eexists.
Qed.

Lemma star_split o r x w : matches (Star o r) (x :: w) <-> exists v, matches r (x :: v) /\ then_ (Star o r) v w.
Proof.
  split.
  - intros Hm. remember (Star o r) as q eqn:Eq. remember (x :: w) as z eqn:Ez. revert x w Ez.
    induction Hm; intros y0 z Ez; try discriminate. injection Eq as -> ->. destruct v as [|y v]; [by apply IHHm2|].
    injection Ez as -> <-. exists v. split; [done|]. by eexists.
  - intros (v & Hv & u & -> & Hu). by apply (m_more o r (x :: v) u).
Qed.

(** The transitions read exactly the words that are not empty. *)
Lemma lf_with_reads sub sub_lf r x w :
  Forall (fun k => tells_final sub k /\ forall v, matches (Sub k) (x :: v) <-> reads (sub_lf k) x v) (subs r) ->
  matches r (x :: w) <-> reads (lf_with sub sub_lf r) x w.
Proof.
  intros Hsub. revert w. assert (forall q, Forall (fun k => tells_final sub k /\ forall v, matches (Sub k) (x :: v) <-> reads (sub_lf k) x v) (subs q) ->
    final_with sub q = true <-> matches q []) as Hfin.
  { intros q Hq. apply final_with_matches. eapply Forall_impl; [exact Hq|]. by intros k [? _]. }
  induction r as [|c|k|r IHr s IHs|r IHr s IHs|o r IH|o a r IH|o a r IH|o a r IH|k r IHr s IHs|k r IHr s IHs|k r IH]; intros w; cbn [lf_with];
    cbn [subs] in Hsub; try match type of Hsub with Forall _ (_ ++ _) => apply Forall_app in Hsub as [Hs1 Hs2]; specialize (IHr Hs1); specialize (IHs Hs2) end; try specialize (IH Hsub).
  - split; [by inversion 1|]. by intros (t & Ht%elem_of_nil & _).
  - split.
    + inversion 1; subst. exists (mkTrans c [] [] Eps). split; [by left|]. split; [done|constructor].
    + intros (t & Ht%list_elem_of_singleton & Hm & Hw). subst t. cbn in *. inversion Hw; subst. by constructor.
  - rewrite Forall_singleton in Hsub. destruct Hsub as [_ Hr]. apply Hr.
  - rewrite reads_app, cat_split, (cat_reads (final_with sub r) r s w x _ _ (Hfin r Hs1) IHr IHs), (reads_map _ (then_ s)); [|done|intros t _; cbn; by rewrite cat_matches, cat_split].
    unfold final_with. destruct (out_with sub r) as [o|]; [rewrite reads_same by done; naive_solver|]. split; [by intros [?|[? _]]; [left|]|intros [?|(t & []%elem_of_nil & _)]; by left].
  - rewrite reads_app, <- IHr, <- IHs. split; [inversion 1; subst; auto|intros [?|?]; by constructor].
  - rewrite star_split. rewrite (reads_map _ (then_ (Star o r))); [|done|intros t _; cbn; by rewrite cat_matches, cat_split].
    by setoid_rewrite IH.
  - rewrite reads_same by done. rewrite <- IH. split; [by inversion 1|by constructor].
  - rewrite reads_same; [|done|intros t; cbn; split; [by inversion 1|by constructor]]. rewrite <- IH. split; [by inversion 1|by constructor].
  - rewrite reads_same; [rewrite <- IH; split; [by inversion 1|by constructor]|by intros t; cbn; destruct (final_with _ _)|].
    intros t. cbn. destruct (final_with _ _); cbn; (split; [by inversion 1|by constructor]).
  - assert (forall q v, matches (Guard k q s) v <-> matches (Cat q s) v) as Hg by (intros q v; split; inversion 1; subst; by constructor).
    rewrite Hg, reads_app, cat_split, (cat_reads (final_with sub r) r s w x _ _ (Hfin r Hs1) IHr IHs), (reads_map _ (then_ s)); [|done|intros t _; cbn; by rewrite Hg, cat_split].
    unfold final_with. destruct (out_with sub r) as [o|]; [rewrite reads_same by done; naive_solver|]. split; [by intros [?|[? _]]; [left|]|intros [?|(t & []%elem_of_nil & _)]; by left].
  - assert (forall q v, matches (FGuard k q s) v <-> matches (Cat q s) v) as Hg by (intros q v; split; inversion 1; subst; by constructor).
    rewrite Hg, reads_app, cat_split, (cat_reads (final_with sub r) r s w x _ _ (Hfin r Hs1) IHr IHs), (reads_map _ (then_ s)); [|done|intros t _; cbn; by rewrite Hg, cat_split].
    unfold final_with at 1. destruct (out_with sub r) as [o|];
      [|split; [by intros [?|[? _]]; [left|]|intros [?|(t & []%elem_of_nil & _)]; by left]].
    rewrite reads_same; [naive_solver|by intros t; cbn; destruct (final_with _ _)|]. intros t. cbn. destruct (final_with _ _); cbn; (split; [by inversion 1|by constructor]).
  - rewrite reads_same; [rewrite <- IH; split; [by inversion 1|by constructor]|by intros t; cbn; destruct (final_with _ _)|].
    intros t. cbn. destruct (final_with _ _); cbn; (split; [by inversion 1|by constructor]).
Qed.

Lemma lf_reads r x w : matches r (x :: w) <-> reads (lf r) x w.
Proof.
  apply lf_with_reads, Forall_forall. intros k _. split; [apply def_out_tells|]. intros v. rewrite sub_matches. unfold def_lf.
  destruct (defs !! k) as [q|] eqn:Ek.
  - pose proof (lf_with_reads (fun _ => None) (fun _ => []) q x v) as Hq. rewrite (def_no_subs _ _ Ek) in Hq. specialize (Hq (Forall_nil_2 _)).
    fold (lf0 q) in Hq. rewrite <- Hq. naive_solver.
  - split; [naive_solver|]. by intros (t & []%elem_of_nil & _).
Qed.

(** *** States *)

Lemma nub_elem l r : r ∈ nub l <-> r ∈ l.
Proof.
  induction l as [|q l IH]; [done|]. cbn. rewrite elem_of_cons. destruct (existsb (rx_eqb q) (nub l)) eqn:Eq.
  - rewrite IH. split; [by right|]. intros [->|]; [|done]. apply existsb_exists in Eq as (p & Hp & ->%rx_eqb_eq). by apply IH, list_elem_of_In.
  - by rewrite elem_of_cons, IH.
Qed.

Definition some_matches (s : state) (w : list ascii) : Prop := exists r, r ∈ s /\ matches r w.

Lemma accepting_matches s : accepting s = true <-> some_matches s [].
Proof.
  unfold accepting, some_matches. rewrite existsb_exists. setoid_rewrite list_elem_of_In. by setoid_rewrite final_matches.
Qed.

Lemma transitions_read s x w : some_matches s (x :: w) <-> reads (transitions s) x w.
Proof.
  unfold some_matches, transitions, reads. setoid_rewrite list_elem_of_join. setoid_rewrite list_elem_of_fmap. split.
  - intros (r & Hr & (t & Ht & Hm)%lf_reads). exists t. split; [|done]. exists (lf r). split; [done|]. by exists r.
  - intros (t & (l & Ht & r & -> & Hr) & Hm). exists r. split; [done|]. apply lf_reads. by exists t.
Qed.

Lemma taken_read l x w : (forall t, t ∈ l -> mem (t_on t) x = true) ->
  (match taken l with Some (_, s) => some_matches s w | None => False end <-> reads (survivors l) x w).
Proof.
  intros Hl. assert (forall t, t ∈ survivors l -> mem (t_on t) x = true) as Hs by (intros t [_ Ht]%list_elem_of_filter; by apply Hl).
  unfold taken. destruct (survivors l) as [|t0 l0]; [split; [done|by intros (t & []%elem_of_nil & _)]|].
  unfold some_matches, reads. setoid_rewrite nub_elem. setoid_rewrite list_elem_of_fmap. split.
  - intros (r & (t & -> & Ht) & Hm). exists t. auto.
  - intros (t & Ht & _ & Hm). exists (t_to t). split; [by exists t|done].
Qed.

(** A word that is accepted is one of the language. *)
Lemma step_sound s x w l s' : step s x = Some (l, s') -> some_matches s' w -> some_matches s (x :: w).
Proof.
  intros E Hm. apply transitions_read. unfold step in E.
  destruct (taken_read (filter (fun t => mem (t_on t) x = true) (transitions s)) x w) as [Htk _]; [by intros t [? _]%list_elem_of_filter|].
  rewrite E in Htk. destruct (Htk Hm) as (t & [_ [_ Ht]%list_elem_of_filter]%list_elem_of_filter & Hr). by exists t.
Qed.

(** Expressions without guards. *)
Fixpoint unguarded (r : rx) : bool :=
  match r with
  | Eps | Chr _ | Sub _ => true
  | Cat r s | Alt r s => unguarded r && unguarded s
  | Star _ r | Enter _ _ r | Leave _ _ r | Finish _ _ r => unguarded r
  | Guard _ _ _ | FGuard _ _ _ | FPri _ _ => false
  end.

Definition free (t : trans) : Prop := t_pri t = [] /\ unguarded (t_to t) = true.

Lemma unguarded_lf_with sub sub_lf r : unguarded r = true -> Forall (fun k => Forall free (sub_lf k)) (subs r) -> Forall free (lf_with sub sub_lf r).
Proof.
  assert (forall q s, unguarded q = true -> unguarded s = true -> unguarded (cat q s) = true) as Hcat.
  { intros q s Hq Hs. destruct q; cbn in *; rewrite ?Hq, ?Hs; done. }
  induction r; cbn; try done; rewrite ?andb_true_iff, ?Forall_app, ?Forall_singleton; intros Hu Hsub.
  - by repeat constructor.
  - done.
  - destruct Hu as [H1 H2], Hsub as [Hs1 Hs2]. split.
    + apply Forall_map. eapply Forall_impl; [by apply IHr1|]. intros t [? ?]. split; [done|]. by apply Hcat.
    + destruct (out_with sub r1); [|done]. apply Forall_map. by apply IHr2.
  - destruct Hu as [H1 H2], Hsub as [Hs1 Hs2]. auto.
  - apply Forall_map. eapply Forall_impl; [by apply IHr|]. intros t [? ?]. split; [done|]. by apply Hcat.
  - apply Forall_map. eapply Forall_impl; [by apply IHr|]. by intros t [? ?].
  - apply Forall_map. eapply Forall_impl; [by apply IHr|]. by intros t [? ?].
  - apply Forall_map. eapply Forall_impl; [by apply IHr|]. intros t [? ?]. by destruct (final_with sub (t_to t)).
Qed.

(** None of the definitions has a guard. *)
Definition plain_defs : Prop := Forall (fun r => unguarded r = true) defs.

Lemma unguarded_lf r : plain_defs -> unguarded r = true -> Forall free (lf r).
Proof.
  intros Hd Hr. apply unguarded_lf_with; [done|]. apply Forall_forall. intros k _. unfold def_lf.
  destruct (defs !! k) as [q|] eqn:Ek; [|done]. apply unguarded_lf_with; [by apply (Forall_lookup_1 _ _ _ _ Hd Ek)|].
  by rewrite (def_no_subs _ _ Ek).
Qed.

Lemma survivors_all l : Forall (fun t => t_pri t = []) l -> survivors l = l.
Proof.
  intros Hl. unfold survivors. assert (forall k, Forall (fun t => t_pri t = []) k -> filter (fun t => existsb (beats t) l = false) k = k) as Hk; [|auto].
  induction 1 as [|t k Ht Hk IH]; [done|]. rewrite filter_cons, decide_True, IH; [done|]. apply not_true_is_false.
  rewrite existsb_exists. intros (u & _ & Hu). unfold beats in Hu. by rewrite Ht in Hu.
Qed.

Definition plain (s : state) : Prop := plain_defs /\ Forall (fun r => unguarded r = true) s.

Lemma plain_transitions s : plain s -> Forall free (transitions s).
Proof.
  intros [Hd Hs]. apply Forall_forall. intros t (l & Ht & (r & -> & Hr)%list_elem_of_fmap)%list_elem_of_join.
  pose proof (proj1 (Forall_forall _ _) (unguarded_lf r Hd (proj1 (Forall_forall _ _) Hs r Hr)) t Ht). done.
Qed.

(** Without guards a step loses no word, and leads to a state without guards. *)
Lemma step_exact s x w : plain s ->
  some_matches s (x :: w) <-> exists l s', step s x = Some (l, s') /\ plain s' /\ some_matches s' w.
Proof.
  intros Hs. split; [|intros (l & s' & E & _ & Hm); by eapply step_sound].
  intros (t & Ht & Hx & Hm)%transitions_read. pose proof (plain_transitions s Hs) as Hp.
  set (l := filter (fun t => mem (t_on t) x = true) (transitions s)).
  assert (Forall free l) as Hl.
  { apply Forall_forall. intros u [_ Hu]%list_elem_of_filter. by apply (proj1 (Forall_forall _ _) Hp). }
  assert (t ∈ l) as Htl by by apply list_elem_of_filter.
  unfold step. fold l. unfold taken. rewrite survivors_all by (eapply Forall_impl; [exact Hl|by intros u [? _]]).
  destruct l as [|t0 l0] eqn:El; [by apply elem_of_nil in Htl|]. eexists _, _. split; [done|]. split.
  - split; [apply Hs|]. apply Forall_forall. intros r (u & -> & Hu)%nub_elem%list_elem_of_fmap. by destruct (proj1 (Forall_forall _ _) Hl u Hu).
  - exists (t_to t). split; [apply nub_elem; by apply list_elem_of_fmap_2|done].
Qed.

(** The state after a word, without the actions. *)
Fixpoint steps (s : state) (w : list ascii) : option state :=
  match w with
  | [] => Some s
  | x :: w => match step s x with Some (_, s) => steps s w | None => None end
  end.

Lemma steps_exact s w : plain s -> (match steps s w with Some s' => accepting s' | None => false end = true <-> some_matches s w).
Proof.
  revert s. induction w as [|x w IH]; intros s Hs; cbn [steps]; [by apply accepting_matches|]. rewrite (step_exact s x w Hs). split.
  - destruct (step s x) as [[l s']|] eqn:E; [|done]. intros Ha. exists l, s'.
    assert (plain s') as Hs'; [|split_and!; [done|done|by apply IH]].
    clear IH Ha. pose proof (plain_transitions s Hs) as Hp. unfold step, taken in E. rewrite survivors_all in E.
    + destruct (filter _ _) as [|t0 l0] eqn:El; [done|]. assert (s' = nub (t_to <$> t0 :: l0)) as -> by congruence. split; [apply Hs|]. apply Forall_forall.
      intros r (u & -> & Hu)%nub_elem%list_elem_of_fmap. rewrite <- El in Hu. apply list_elem_of_filter in Hu as [_ Hu]. by destruct (proj1 (Forall_forall _ _) Hp u Hu).
    + apply Forall_forall. intros u [_ Hu]%list_elem_of_filter. by destruct (proj1 (Forall_forall _ _) Hp u Hu).
  - intros (l & s' & -> & Hs' & Hm). by apply IH.
Qed.

Definition accepts (r : rx) (w : list ascii) : bool := match steps [r] w with Some s => accepting s | None => false end.

Lemma accepts_sound r w : accepts r w = true -> matches r w.
Proof.
  assert (forall s, match steps s w with Some s' => accepting s' | None => false end = true -> some_matches s w) as Hs.
  { induction w as [|x w IH]; intros s; cbn [steps]; [by rewrite accepting_matches|].
    destruct (step s x) as [[l s']|] eqn:E; [|done]. intros Ha. eapply step_sound; [exact E|by apply IH]. }
  intros (r' & ->%list_elem_of_singleton & Hm)%Hs. exact Hm.
Qed.

(** A machine without [fbreak] goes through these states. *)
Lemma run_states {E} (act : A -> nat -> E -> result (E * bool)) s i w e o j e' :
  (forall a k d d', act a k d <> Ok (d', true)) -> run act s i w e = Ok (o, j, e') -> o = steps s w.
Proof.
  intros Hact. assert (forall l k d d', do_actions act l k d <> Ok (d', true)) as Hl.
  { induction l as [|a l IH]; intros k d d'; cbn; [done|]. destruct (act a k d) as [[? []]|] eqn:Ea; [by apply Hact in Ea|apply IH|done]. }
  revert s i e. induction w as [|x w IH]; intros s i e; cbn; [by intros [= <- <- <-]|].
  destruct (step s x) as [[l s']|]; [|by intros [= <- <- <-]].
  destruct (do_actions act l i e) as [[? []]|] eqn:Ed; [by apply Hl in Ed|apply IH|done].
Qed.

(** A run fails where an action does. *)
Lemma run_fails {E} (act : A -> nat -> E -> result (E * bool)) s i w e x :
  run act s i w e = Fail x -> exists a k d, act a k d = Fail x.
Proof.
  assert (forall l k d, do_actions act l k d = Fail x -> exists a k d, act a k d = Fail x) as Hl.
  { induction l as [|a l IH]; intros k d; cbn; [done|]. destruct (act a k d) as [[? []]|] eqn:Ea; [done|apply IH|]. intros [= ->]. by eexists _, _, _. }
  revert s i e. induction w as [|y w IH]; intros s i e; cbn; [done|]. destruct (step s y) as [[l s']|]; [|done].
  destruct (do_actions act l i e) as [[? []]|] eqn:Ed; [done|apply IH|]. intros [= ->]. by eapply Hl.
Qed.

(** ** Steps on classes of characters

    A state often goes the same way on all characters of a class.  What follows decides
    this by evaluation, so that the runs on words of unknown length can be followed. *)

Definition step_cls (s : state) (c : cls) : option (list A * state) :=
  let l := transitions s in
  if forallb (fun t => inside c (t_on t) || apart c (t_on t)) l then taken (filter (fun t => inside c (t_on t) = true) l) else None.

Lemma step_cls_ok s c x r : step_cls s c = Some r -> mem c x = true -> step s x = Some r.
Proof.
  unfold step_cls, step. destruct (forallb _ _) eqn:Ef; [|done]. intros <- Hx. f_equal.
  rewrite forallb_forall in Ef. setoid_rewrite <- list_elem_of_In in Ef.
  induction (transitions s) as [|t l IH]; [done|]. rewrite !filter_cons.
  pose proof (Ef t ltac:(by left)) as Ht. specialize (IH ltac:(intros u Hu; apply Ef; by right)). rewrite IH.
  destruct (inside c (t_on t)) eqn:Ei; cbn in Ht; [by rewrite !decide_True by (done || by eapply inside_mem)|].
  pose proof (apart_mem _ _ _ Ht Hx) as Hm. rewrite !decide_False by congruence. done.
Qed.

Definition acts_eqb (l l' : list A) : bool := bool_decide (l = l').
Fixpoint state_eqb (s s' : state) : bool :=
  match s, s' with
  | [], [] => true
  | r :: s, r' :: s' => rx_eqb r r' && state_eqb s s'
  | _, _ => false
  end.

Lemma state_eqb_eq s s' : state_eqb s s' = true -> s = s'.
Proof. revert s'. induction s; intros []; cbn; try done. intros [?%rx_eqb_eq ?]%andb_true_iff. f_equal; auto. Qed.

(** From every state of [g] a character of [c] runs the actions [l] and leads to a state
    of [g']. *)
Definition edge (g : list state) (c : cls) (l : list A) (g' : list state) : bool :=
  forallb (fun s => match step_cls s c with
                    | Some (l', s') => acts_eqb l' l && existsb (state_eqb s') g'
                    | None => false
                    end) g.

Lemma edge_step g c l g' s x : edge g c l g' = true -> s ∈ g -> mem c x = true -> exists s', step s x = Some (l, s') /\ s' ∈ g'.
Proof.
  unfold edge. rewrite forallb_forall. intros He Hs Hx. specialize (He s (proj1 (list_elem_of_In _ _) Hs)).
  destruct (step_cls s c) as [[l' s']|] eqn:E; [|done]. apply andb_true_iff in He as [El (s0 & Hin & Es%state_eqb_eq)%existsb_exists].
  apply bool_decide_eq_true in El as ->. subst s0. exists s'. split; [by eapply step_cls_ok|by apply list_elem_of_In].
Qed.

(** Words made of pieces, each of which is a sequence of classes. *)
Inductive spelt : list cls -> list ascii -> Prop :=
  | spelt_nil : spelt [] []
  | spelt_cons c u x w : mem c x = true -> spelt u w -> spelt (c :: u) (x :: w).

Inductive made (units : list (list cls)) : list ascii -> Prop :=
  | made_nil : made units []
  | made_app u v w : u ∈ units -> spelt u v -> made units w -> made units (v ++ w).

(** From a state of [g], the sequence [u] runs no action and leads back. *)
Fixpoint quiet (s : state) (u : list cls) : option state :=
  match u with
  | [] => Some s
  | c :: u => match step_cls s c with Some ([], s) => quiet s u | _ => None end
  end.

Definition loops (g : list state) (units : list (list cls)) : bool :=
  forallb (fun s => forallb (fun u => match quiet s u with Some s' => existsb (state_eqb s') g | None => false end) units) g.

(** The states that [units] lead to. *)
Fixpoint closure (fuel : nat) (units : list (list cls)) (todo g : list state) : list state :=
  match fuel, todo with
  | S fuel, s :: todo =>
      if existsb (state_eqb s) g then closure fuel units todo g
      else closure fuel units (omap (quiet s) units ++ todo) (s :: g)
  | _, _ => g
  end.

(** The states that the characters of [c] lead to. *)
Definition states_nub (g : list state) : list state := foldr (fun s g => if existsb (state_eqb s) g then g else s :: g) [] g.
Definition follow (g : list state) (c : cls) : list state := states_nub (omap (fun s => snd <$> step_cls s c) g).

(** From every state of [g] each piece of [units] runs [l] on its first character and leads
    to a state of [g']. *)
Definition enters (g : list state) (l : list A) (units : list (list cls)) (g' : list state) : bool :=
  forallb (fun u => match u with
    | c :: u => forallb (fun s => match step_cls s c with
        | Some (l', s') => acts_eqb l' l && match quiet s' u with Some s' => existsb (state_eqb s') g' | None => false end
        | None => false
        end) g
    | [] => false
    end) units.

(** The states behind one piece. *)
Definition follow_units (g : list state) (units : list (list cls)) : list state :=
  mjoin ((fun u => match u with c :: u => omap (fun s => quiet s u) (follow g c) | [] => [] end) <$> units).

(** A script: the class of each character, and the actions it runs. *)
Fixpoint play (s : state) (w : list (cls * list A)) : option state :=
  match w with
  | [] => Some s
  | (c, l) :: w => match step_cls s c with Some (l', s') => if acts_eqb l' l then play s' w else None | None => None end
  end.

Definition plays (g : list state) (w : list (cls * list A)) (g' : list state) : bool :=
  forallb (fun s => match play s w with Some s' => existsb (state_eqb s') g' | None => false end) g.

Definition follow_play (g : list state) (w : list (cls * list A)) : list state := states_nub (omap (fun s => play s w) g).

(** *** Expressions spelt with pieces *)

Lemma made_unit units u v : u ∈ units -> spelt u v -> made units v.
Proof. intros Hu Hv. rewrite <- (app_nil_r v). econstructor; [done|done|constructor]. Qed.

Lemma made_cat units v w : made units v -> made units w -> made units (v ++ w).
Proof. intros Hv Hw. induction Hv; [done|]. rewrite <- app_assoc. by econstructor. Qed.

(** Pieces of one character. *)
Definition singles (l : list cls) : list (list cls) := map (fun c => [c]) l.

Lemma made_chars l w : Forall (fun x => existsb (fun c => mem c x) l = true) w -> made (singles l) w.
Proof.
  induction 1 as [|x w (c & Hc & Hx)%existsb_exists Hw IH]; [constructor|]. apply (made_app _ [c] [x]); [|by repeat constructor|done].
  apply list_elem_of_fmap. exists c. split; [done|]. by apply list_elem_of_In.
Qed.

Fixpoint unit_rx (u : list cls) : rx := match u with [] => Eps | [c] => Chr c | c :: u => Cat (Chr c) (unit_rx u) end.

Lemma unit_rx_spelt u v : matches (unit_rx u) v -> spelt u v.
Proof.
  revert v. induction u as [|c [|d u] IH]; intros v Hv; cbn in Hv.
  - inversion Hv. constructor.
  - inversion Hv; subst. repeat constructor; done.
  - inversion Hv as [| | |? ? v1 v2 H1 H2| | | | | | | | | |]; subst. inversion H1; subst. constructor; [done|]. by apply IH.
Qed.

(** The classes that are pieces by themselves. *)
Definition single_classes (units : list (list cls)) : cls := mjoin ((fun u => match u with [c] => c | _ => [] end) <$> units).

Fixpoint covers (units : list (list cls)) (r : rx) : bool :=
  existsb (fun u => rx_eqb r (unit_rx u)) units ||
  match r with
  | Eps => true
  | Chr c => match cls_minus c (single_classes units) with [] => true | _ => false end
  | Cat r s | Alt r s | Guard _ r s | FGuard _ r s => covers units r && covers units s
  | Star _ r | Enter _ _ r | Leave _ _ r | Finish _ _ r | FPri _ r => covers units r
  | Sub _ => false
  end.

Lemma cut_range_mem d r x : mem (cut_range d r) x = mem [r] x && negb (mem [d] x).
Proof.
  unfold cut_range, mem. destruct r as [a b], d as [c e]. cbn [fst snd existsb]. set (n := N_of_ascii x). apply Bool.eq_iff_eq_true.
  destruct (N.ltb_spec b c), (N.ltb_spec e a), (N.ltb_spec a c), (N.ltb_spec e b); cbn [orb app existsb fst snd];
    rewrite ?orb_false_r, ?orb_true_iff, ?andb_true_iff, ?negb_true_iff, ?andb_false_iff, ?N.leb_le, ?N.leb_gt; lia.
Qed.

Lemma mem_app c d x : mem (c ++ d) x = mem c x || mem d x.
Proof. apply existsb_app. Qed.

Lemma cls_minus_mem c d x : mem (cls_minus c d) x = mem c x && negb (mem d x).
Proof.
  assert (forall l r, mem (mjoin (cut_range r <$> l)) x = mem l x && negb (mem [r] x)) as Hone.
  { intros l r. induction l as [|s l IH]; [done|]. change (mjoin (cut_range r <$> s :: l)) with (cut_range r s ++ mjoin (cut_range r <$> l)).
    rewrite mem_app, IH, cut_range_mem, (mem_app [s] l x : mem (s :: l) x = _). btauto. }
  unfold cls_minus. revert c. induction d as [|r d IH]; intros c; cbn [foldl]; [cbn; by rewrite andb_true_r|].
  rewrite IH, Hone, (mem_app [r] d x : mem (r :: d) x = _). btauto.
Qed.

Lemma covers_made units r w : covers units r = true -> matches r w -> made units w.
Proof.
  intros Hc Hm. induction Hm; cbn [covers] in Hc; apply orb_true_iff in Hc as [(u & Hu & Eu%rx_eqb_eq)%existsb_exists|Hc];
    try (apply (made_unit units u); [by apply list_elem_of_In|apply unit_rx_spelt; rewrite <- Eu; solve [econstructor; eassumption | by constructor | by apply m_right]]);
    try apply andb_true_iff in Hc as [H1 H2]; try (by constructor); auto using made_cat.
  - destruct (cls_minus c (single_classes units)) eqn:Em; [|done].
    assert (mem (single_classes units) x = true) as Hx.
    { pose proof (cls_minus_mem c (single_classes units) x) as Hx. rewrite Em, H0 in Hx. by destruct (mem (single_classes units) x). }
    unfold mem, single_classes in Hx. apply existsb_exists in Hx as (rg & Hin & Hrg). apply list_elem_of_In in Hin.
    apply list_elem_of_join in Hin as (d & Hd & (u & -> & Hu)%list_elem_of_fmap). destruct u as [|d [|]]; [by apply elem_of_nil in Hd| |by apply elem_of_nil in Hd].
    apply (made_unit units [d]); [done|]. constructor; [|constructor]. unfold mem. apply existsb_exists. exists rg. split; [by apply list_elem_of_In|done].
  - done.
  - apply made_cat; [by apply IHHm1|]. apply IHHm2. cbn [covers]. rewrite Hc. apply orb_true_r.
Qed.

(** The first character of a word, and what the rest is made of. *)
Lemma first_made r c units x w :
  forallb (fun t => cls_eqb (t_on t) c && covers units (t_to t)) (lf r) = true -> matches r (x :: w) -> mem c x = true /\ made units w.
Proof.
  rewrite forallb_forall. intros Hf (t & Ht & Hx & Hw)%lf_reads. apply list_elem_of_In in Ht.
  specialize (Hf t Ht) as [<-%cls_eqb_eq Hc]%andb_true_iff. split; [done|by eapply covers_made].
Qed.

Section Follow.
Context {E : Type} (act : A -> nat -> E -> result (E * bool)).

Lemma run_cons s x l s' : step s x = Some (l, s') -> forall i w e, run act s i (x :: w) e =
    match do_actions act l i e with Ok (e, true) => Ok (Some s', S i, e) | Ok (e, false) => run act s' (S i) w e | Fail x => Fail x end.
Proof. intros E' i w e. cbn. by rewrite E'. Qed.

Lemma run_edge g c l g' s x : edge g c l g' = true -> s ∈ g -> mem c x = true ->
  exists s', s' ∈ g' /\ forall i w e, run act s i (x :: w) e =
    match do_actions act l i e with Ok (e, true) => Ok (Some s', S i, e) | Ok (e, false) => run act s' (S i) w e | Fail x => Fail x end.
Proof. intros He Hs Hx. destruct (edge_step _ _ _ _ _ _ He Hs Hx) as (s' & E' & Hs'). exists s'. split; [done|]. by apply run_cons. Qed.

(** What the actions of a script do. *)
Fixpoint do_script (w : list (list A)) (i : nat) (e : E) : result E :=
  match w with
  | [] => Ok e
  | l :: w => match do_actions act l i e with Ok (e, false) => do_script w (S i) e | Ok (_, true) => Fail undefined | Fail x => Fail x end
  end.

Lemma do_script_app w w' i e : do_script (w ++ w') i e = match do_script w i e with Ok e' => do_script w' (i + length w) e' | Fail x => Fail x end.
Proof.
  revert i e. induction w as [|l w IH]; intros i e; cbn; [by rewrite Nat.add_0_r|]. destruct (do_actions act l i e) as [[e1 []]|]; [done| |done].
  rewrite IH. by rewrite Nat.add_succ_r.
Qed.

Lemma run_play s w s' v : play s w = Some s' -> spelt (map fst w) v ->
  forall i z e e', do_script (map snd w) i e = Ok e' -> run act s i (v ++ z) e = run act s' (i + length v) z e'.
Proof.
  revert s v. induction w as [|[c l] w IH]; intros s v Hp Hv i z e e'; cbn in Hp; inversion Hv as [|? ? x v' Hx Hv']; subst; cbn [map snd do_script].
  - injection Hp as ->. intros [= ->]. cbn. by rewrite Nat.add_0_r.
  - destruct (step_cls s c) as [[l' s1]|] eqn:Es; [|done]. destruct (acts_eqb l' l) eqn:El; [|done]. apply bool_decide_eq_true in El as ->.
    intros Hd. cbn [app run]. rewrite (step_cls_ok _ _ _ _ Es Hx). destruct (do_actions act l i e) as [[e1 []]|]; [done| |done].
    rewrite (IH s1 v' Hp Hv' _ z e1 e' Hd). cbn [length]. by rewrite Nat.add_succ_r.
Qed.

Lemma run_plays g w g' s v : plays g w g' = true -> s ∈ g -> spelt (map fst w) v -> exists s', s' ∈ g' /\
  forall i z e e', do_script (map snd w) i e = Ok e' -> run act s i (v ++ z) e = run act s' (i + length v) z e'.
Proof.
  unfold plays. rewrite forallb_forall. intros Hp Hs Hv. specialize (Hp s (proj1 (list_elem_of_In _ _) Hs)).
  destruct (play s w) as [s'|] eqn:E'; [|done]. apply existsb_exists in Hp as (s0 & Hin & <-%state_eqb_eq).
  exists s'. split; [by apply list_elem_of_In|]. by apply run_play.
Qed.

Lemma run_quiet s u s' v : quiet s u = Some s' -> spelt u v -> forall i w e, run act s i (v ++ w) e = run act s' (i + length v) w e.
Proof.
  intros Hq Hv. revert s Hq. induction Hv as [|c u x v Hx Hv IH]; intros s Hq i w e; cbn in Hq.
  - injection Hq as ->. cbn. by rewrite Nat.add_0_r.
  - destruct (step_cls s c) as [[[|] s1]|] eqn:Es; try done. cbn. rewrite (step_cls_ok _ _ _ _ Es Hx). cbn. rewrite IH by done. by rewrite Nat.add_succ_r.
Qed.

Lemma run_loops g units s v : loops g units = true -> s ∈ g -> made units v ->
  exists s', s' ∈ g /\ forall i w e, run act s i (v ++ w) e = run act s' (i + length v) w e.
Proof.
  intros Hl Hs Hv. revert s Hs. induction Hv as [|u v w Hu Hv Hw IH]; intros s Hs.
  - exists s. split; [done|]. intros i w e. cbn. by rewrite Nat.add_0_r.
  - unfold loops in Hl. rewrite forallb_forall in Hl. pose proof (Hl s (proj1 (list_elem_of_In _ _) Hs)) as H1. rewrite forallb_forall in H1.
    specialize (H1 u (proj1 (list_elem_of_In _ _) Hu)). destruct (quiet s u) as [s1|] eqn:Eq; [|done].
    apply existsb_exists in H1 as (s0 & Hin & <-%state_eqb_eq). destruct (IH s1 (proj2 (list_elem_of_In _ _) Hin)) as (s' & Hs' & Hr).
    exists s'. split; [done|]. intros i z e. rewrite <- app_assoc, (run_quiet _ _ _ _ Eq Hv), Hr, length_app. by rewrite Nat.add_assoc.
Qed.

(** A word of at least one piece, the first one of [first]. *)
Definition begins (first units : list (list cls)) (v : list ascii) : Prop :=
  exists u v1 v2, u ∈ first /\ spelt u v1 /\ made units v2 /\ v = v1 ++ v2.

Lemma made_begins units v : made units v -> v <> [] -> begins units units v.
Proof. intros Hv Hne. destruct Hv as [|u v w Hu Hv Hw]; [done|]. by exists u, v, w. Qed.

Lemma run_begins g l first units g' s v : enters g l first g' = true -> loops g' units = true -> s ∈ g -> begins first units v ->
  exists s', s' ∈ g' /\ forall i w e e', do_actions act l i e = Ok (e', false) -> run act s i (v ++ w) e = run act s' (i + length v) w e'.
Proof.
  intros He Hl Hs (u & v1 & v2 & Hu & Hv & Hw & ->). unfold enters in He. rewrite forallb_forall in He.
  specialize (He u (proj1 (list_elem_of_In _ _) Hu)). destruct u as [|c u]; [done|]. inversion Hv as [|? ? x v' Hx Hv']; subst.
  rewrite forallb_forall in He. specialize (He s (proj1 (list_elem_of_In _ _) Hs)).
  destruct (step_cls s c) as [[l' s1]|] eqn:E1; [|done]. apply andb_true_iff in He as [El%bool_decide_eq_true Hq]. subst l'.
  destruct (quiet s1 u) as [s2|] eqn:E2; [|done]. apply existsb_exists in Hq as (s3 & Hin & <-%state_eqb_eq).
  destruct (run_loops _ _ _ _ Hl (proj2 (list_elem_of_In _ _) Hin) Hw) as (s' & Hs' & Hr). exists s'. split; [done|].
  intros i z e e' Ha. rewrite <- app_assoc. cbn [app run]. rewrite (step_cls_ok _ _ _ _ E1 Hx), Ha, (run_quiet _ _ _ _ E2 Hv'), Hr.
  cbn [length app]. rewrite length_app. f_equal. lia.
Qed.

Lemma run_enters g l units g' s v : enters g l units g' = true -> loops g' units = true -> s ∈ g -> made units v -> v <> [] ->
  exists s', s' ∈ g' /\ forall i w e e', do_actions act l i e = Ok (e', false) -> run act s i (v ++ w) e = run act s' (i + length v) w e'.
Proof. intros He Hl Hs Hv Hne. by eapply run_begins, made_begins. Qed.
End Follow.

(** A text that runs no action. *)
Definition quiet_script (s : string) : list (cls * list A) := map (fun x => (chr x, [])) (String.list_ascii_of_string s).

Lemma quiet_spelt s : spelt (map fst (quiet_script s)) (String.list_ascii_of_string s).
Proof.
  unfold quiet_script. induction (String.list_ascii_of_string s) as [|x l IH]; cbn; constructor; [|done].
  unfold mem, chr. cbn. by rewrite !N.leb_refl.
Qed.

Lemma quiet_do {E} (act : A -> nat -> E -> result (E * bool)) s i e : do_script act (map snd (quiet_script s)) i e = Ok e.
Proof. unfold quiet_script. revert i. induction (String.list_ascii_of_string s) as [|x l IH]; intros i; cbn; [done|]. apply IH. Qed.

Lemma spelt_app u u' v v' : spelt u v -> spelt u' v' -> spelt (u ++ u') (v ++ v').
Proof. induction 1; [done|]. intros Hs. cbn. constructor; auto. Qed.
End Machine.
Arguments state : clear implicits.
Arguments trans : clear implicits.

(** ** Writing grammars

    [r ~. s] is concatenation, [r |. s] alternation; [r >. a], [r %. a] and [r @. a]
    embed an action; [r :>. s] and [r :>>. s] are the guarded concatenations.  The
    expressions that are repeated in the grammars have no actions inside, so that it does
    not matter that the copies of [many1] and [rep] are numbered one by one. *)

Declare Scope ragel_scope.
Delimit Scope ragel_scope with ragel.
Notation "r ~. s" := (Cat r s) (at level 45, right associativity) : ragel_scope.
Notation "r |. s" := (Alt r s) (at level 50, left associativity) : ragel_scope.
Notation "r >. a" := (Enter 0 a r) (at level 38, left associativity) : ragel_scope.
Notation "r %. a" := (Leave 0 a r) (at level 38, left associativity) : ragel_scope.
Notation "r @. a" := (Finish 0 a r) (at level 38, left associativity) : ragel_scope.
Notation "r :>. s" := (Guard 0 r s) (at level 46, left associativity) : ragel_scope.
Notation "r :>>. s" := (FGuard 0 r s) (at level 46, left associativity) : ragel_scope.

Section Grammar.
Context {A : Type}.

Definition star (r : rx A) : rx A := Star 0 r.
Definition opt (r : rx A) : rx A := Alt r Eps.
Definition many1 (r : rx A) : rx A := Cat r (star r).

Fixpoint rep (n : nat) (r : rx A) : rx A := match n with O => Eps | 1%nat => r | S n => Cat r (rep n r) end.

(** [r{n,m}], from [n] to [n + k] times. *)
Fixpoint upto (k : nat) (r : rx A) : rx A := match k with O => Eps | S k => opt (Cat r (upto k r)) end.
Definition rep_upto (n k : nat) (r : rx A) : rx A := match k with O => rep n r | _ => Cat (rep n r) (upto k r) end.

(** A string, also without regard to case. *)
Fixpoint lit (s : string) : rx A :=
  match s with
  | EmptyString => Eps
  | String x EmptyString => Chr (chr x)
  | String x s => Cat (Chr (chr x)) (lit s)
  end.

Definition chr_i (x : ascii) : cls :=
  let n := N_of_ascii x in
  if ((65 <=? n) && (n <=? 90))%N then [(n, n); (n + 32, n + 32)]%N
  else if ((97 <=? n) && (n <=? 122))%N then [(n - 32, n - 32); (n, n)]%N
  else [(n, n)].

Fixpoint lit_i (s : string) : rx A :=
  match s with
  | EmptyString => Eps
  | String x EmptyString => Chr (chr_i x)
  | String x s => Cat (Chr (chr_i x)) (lit_i s)
  end.
End Grammar.

(** The characters of a string as a class, neighbours in one range. *)
Definition add_char (x : ascii) (c : cls) : cls :=
  let n := N_of_ascii x in
  match c with
  | (a, b) :: c' => if (a =? n + 1)%N then (n, b) :: c' else (n, n) :: c
  | [] => [(n, n)]
  end.
Definition one_of (s : string) : cls := foldr add_char [] (String.list_ascii_of_string s).
