(* ===== verification/Endian.v ===== *)
(** * Byte order: [gudov/endian.h]

    Integer types at their width, their representation in the memory of the host,
    and the [ByteSwap] templates.  The host's byte order is a parameter: the
    preprocessor picks it, and every theorem holds for both choices. *)

From S2P Require Import Prelude.
From stdpp Require Import base list numbers.
From Stdlib Require Import ZArith Lia Strings.Byte.
Open Scope Z_scope.
Open Scope prog_scope.

Definition GUDOV_LITTLE_ENDIAN : Z := 1.
Definition GUDOV_BIG_ENDIAN : Z := 2.

(** [GUDOV_BYTE_ORDER], set from the compiler's [BYTE_ORDER]. *)
Class Host := {
  GUDOV_BYTE_ORDER : Z;
  host_order : GUDOV_BYTE_ORDER = GUDOV_LITTLE_ENDIAN \/ GUDOV_BYTE_ORDER = GUDOV_BIG_ENDIAN;
}.

Definition host_x86 : Host := {| GUDOV_BYTE_ORDER := 1; host_order := or_introl eq_refl |}.
Definition host_s390x : Host := {| GUDOV_BYTE_ORDER := 2; host_order := or_intror eq_refl |}.

(** ** Fixed-width integer types *)

Record int_type := IntType { ibytes : nat; isigned : bool }.

Definition int8_t := IntType 1 true.
Definition uint8_t := IntType 1 false.
Definition int16_t := IntType 2 true.
Definition uint16_t := IntType 2 false.
Definition int32_t := IntType 4 true.
Definition uint32_t := IntType 4 false.
Definition int64_t := IntType 8 true.
Definition uint64_t := IntType 8 false.

Definition ibits (T : int_type) : Z := 8 * Z.of_nat (ibytes T).

(** The C++ conversion [(T)z]. *)
Definition cast (T : int_type) (z : Z) : Z :=
  if isigned T then wraps (ibits T) z else wrapu (ibits T) z.

Definition in_range (T : int_type) (z : Z) : Prop :=
  if isigned T then - 2 ^ (ibits T - 1) <= z < 2 ^ (ibits T - 1) else 0 <= z < 2 ^ ibits T.

Lemma cast_in_range T z : (0 < ibytes T)%nat -> in_range T z -> cast T z = z.
Proof.
  intros HT. unfold cast, in_range. destruct (isigned T).
  - apply wraps_small. unfold ibits. lia.
  - apply wrapu_small.
Qed.

(** A value is determined by the unsigned number its representation spells. *)
Lemma cast_wrapu T z :
  (0 < ibytes T)%nat -> in_range T z -> cast T (wrapu (ibits T) z) = z.
Proof.
  intros HT. unfold cast, in_range. destruct (isigned T); intros Hz.
  - apply wraps_wrapu; [unfold ibits; lia|done].
  - by rewrite !wrapu_small by (rewrite ?wrapu_small; lia).
Qed.

(** ** [ByteSwap]: the bytes of a value in the opposite order. *)

Definition bswap (n : nat) (z : Z) : Z := le_value (rev (le_bytes n z)).

Definition ByteSwap (T : int_type) (value : Z) : Z :=
  cast T (bswap (ibytes T) (wrapu (ibits T) value)).

Section WithHost.
Context `{Host}.

(** On a little-endian host [ByteSwapOnLittleEndian] swaps; on a big-endian one
    it is the identity. *)
Definition ByteSwapOnLittleEndian (T : int_type) (t : Z) : Z :=
  if Z.eqb GUDOV_BYTE_ORDER GUDOV_BIG_ENDIAN then t else ByteSwap T t.

Definition ByteSwapOnBigEndian (T : int_type) (t : Z) : Z :=
  if Z.eqb GUDOV_BYTE_ORDER GUDOV_BIG_ENDIAN then ByteSwap T t else t.

(** The bytes of an object of type [T] in the memory of the host, and the value
    of an object made of given bytes: what [memcpy] from and to [&value] moves. *)
Definition mem_bytes (T : int_type) (z : Z) : list byte :=
  let bs := le_bytes (ibytes T) z in
  if Z.eqb GUDOV_BYTE_ORDER GUDOV_LITTLE_ENDIAN then bs else rev bs.

Definition mem_value (T : int_type) (bs : list byte) : Z :=
  cast T (le_value (if Z.eqb GUDOV_BYTE_ORDER GUDOV_LITTLE_ENDIAN then bs else rev bs)).
End WithHost.

(** The specification the wire format follows: [T] in the byte order [e]. *)
Definition wire_bytes (e : Z) (T : int_type) (z : Z) : list byte :=
  if Z.eqb e GUDOV_LITTLE_ENDIAN then le_bytes (ibytes T) z else rev (le_bytes (ibytes T) z).

Definition wire_value (e : Z) (T : int_type) (bs : list byte) : Z :=
  cast T (le_value (if Z.eqb e GUDOV_LITTLE_ENDIAN then bs else rev bs)).

Lemma le_bytes_wrapu n z : le_bytes n (wrapu (8 * Z.of_nat n) z) = le_bytes n z.
Proof.
  rewrite <- (le_bytes_value (le_bytes n z)), le_bytes_length. f_equal.
  by rewrite le_value_bytes.
Qed.

Lemma bswap_bytes n z : le_bytes n (bswap n z) = rev (le_bytes n z).
Proof.
  unfold bswap.
  assert (n = length (rev (le_bytes n z))) as Hn by (by rewrite length_rev, le_bytes_length).
  rewrite Hn at 1. apply le_bytes_value.
Qed.

Lemma bswap_range n z : 0 <= bswap n z < 2 ^ (8 * Z.of_nat n).
Proof.
  unfold bswap. pose proof (le_value_range (rev (le_bytes n z))) as Hr.
  by rewrite length_rev, le_bytes_length in Hr.
Qed.

Lemma cast_bytes T z : le_bytes (ibytes T) (cast T z) = le_bytes (ibytes T) z.
Proof.
  rewrite <- (le_bytes_wrapu _ (cast T z)), <- (le_bytes_wrapu _ z). f_equal.
  unfold cast, ibits. destruct (isigned T).
  - destruct (ibytes T) as [|n]; [by unfold wrapu; rewrite !Z.mod_1_r|].
    unfold wraps, wrapu. rewrite Zminus_mod_idemp_l. f_equal. lia.
  - unfold wrapu. apply Zmod_mod.
Qed.

Lemma ByteSwap_bytes T z : le_bytes (ibytes T) (ByteSwap T z) = rev (le_bytes (ibytes T) z).
Proof.
  unfold ByteSwap. rewrite cast_bytes, bswap_bytes. unfold ibits. by rewrite le_bytes_wrapu.
Qed.

Lemma mem_bytes_length `{Host} T z : length (mem_bytes T z) = ibytes T.
Proof. unfold mem_bytes. case_match; rewrite ?length_rev; apply le_bytes_length. Qed.

Lemma wire_bytes_length e T z : length (wire_bytes e T z) = ibytes T.
Proof. unfold wire_bytes. case_match; rewrite ?length_rev; apply le_bytes_length. Qed.

Lemma wire_value_bytes e T z :
  (0 < ibytes T)%nat -> in_range T z -> wire_value e T (wire_bytes e T z) = z.
Proof.
  intros HT Hz. unfold wire_value, wire_bytes.
  assert (cast T (le_value (le_bytes (ibytes T) z)) = z) as E.
  { rewrite le_value_bytes. by apply cast_wrapu. }
  case_match; [done|]. by rewrite rev_involutive.
Qed.

Section HostOrder.
Context `{Host}.

(** Swapping unless the host's order is the wanted one yields the wanted order,
    whatever the host. *)
Lemma mem_bytes_swapped e T z :
  e = GUDOV_LITTLE_ENDIAN \/ e = GUDOV_BIG_ENDIAN ->
  mem_bytes T (if Z.eqb e GUDOV_BYTE_ORDER then z else ByteSwap T z) = wire_bytes e T z.
Proof.
  intros He. unfold mem_bytes, wire_bytes.
  destruct host_order as [Ho|Ho]; rewrite Ho; destruct He as [->| ->]; cbn;
    rewrite ?ByteSwap_bytes; rewrite ?rev_involutive; done.
Qed.

Lemma mem_value_swapped e T bs :
  e = GUDOV_LITTLE_ENDIAN \/ e = GUDOV_BIG_ENDIAN -> length bs = ibytes T ->
  (if Z.eqb e GUDOV_BYTE_ORDER then mem_value T bs else ByteSwap T (mem_value T bs))
  = wire_value e T bs.
Proof.
  intros He Hl. unfold mem_value, wire_value.
  assert (forall cs, length cs = ibytes T ->
            ByteSwap T (cast T (le_value cs)) = cast T (le_value (rev cs))) as Hs.
  { intros cs Hc. unfold ByteSwap, bswap. f_equal. f_equal. f_equal.
    rewrite le_bytes_wrapu, cast_bytes, <- Hc. apply le_bytes_value. }
  destruct host_order as [Ho|Ho]; rewrite Ho; destruct He as [->| ->]; cbn; try done;
    rewrite Hs; rewrite ?length_rev, ?rev_involutive; done.
Qed.
End HostOrder.
