(* ===== verification/ByteArray.v ===== *)
(** * The chained byte buffer: [gudov/bytearray.h], [gudov/bytearray.cpp]

    A [ByteArray] is a singly linked chain of nodes of [base_size_] bytes, a
    cursor [position_] with a pointer [cur_] to the node it lies in, and the
    number [size_] of valid bytes.  The chain is a list of nodes, its head the
    node [root_]; a [Node*] is an index into the chain or [nullptr].

    This file has the record, the primitive operations and their refinement of a
    flat byte area; the typed reads and writes are in [ByteCodec]. *)

From S2P Require Import Prelude Endian.
From stdpp Require Import base list numbers.
From Stdlib Require Import ZArith Lia Strings.Byte.
Open Scope Z_scope.
Open Scope prog_scope.

(** The bytes of [new char[s]] are indeterminate: cell [i] of the [k]-th node of
    a chain starts as an arbitrary [uninit k i]. *)
Class Uninit := uninit : nat -> nat -> byte.

(** [ByteArray::Node]: the bytes behind [ptr]; [size] is their number and [next]
    the following node of the chain. *)
Abbreviation Node := (list byte).

Definition new_Node `{Uninit} (k : nat) (s : Z) : Node := map (uninit k) (seq 0 (Z.to_nat s)).

Record ByteArray := mkByteArray {
  base_size_ : Z;
  position_ : Z;
  capacity_ : Z;
  size_ : Z;
  endian_ : Z;
  nodes_ : list Node;
  cur_ : option nat;
}.

(** [ByteArray::ByteArray(size_t baseSize)] *)
Definition new_ByteArray `{Uninit} (baseSize : Z) : ByteArray :=
  {| base_size_ := baseSize; position_ := 0; capacity_ := baseSize; size_ := 0;
     endian_ := GUDOV_LITTLE_ENDIAN; nodes_ := [new_Node 0 baseSize]; cur_ := Some 0%nat |}.

Definition with_position (p : Z) (ba : ByteArray) : ByteArray :=
  {| base_size_ := base_size_ ba; position_ := p; capacity_ := capacity_ ba;
     size_ := size_ ba; endian_ := endian_ ba; nodes_ := nodes_ ba; cur_ := cur_ ba |}.
Definition with_capacity (c : Z) (ba : ByteArray) : ByteArray :=
  {| base_size_ := base_size_ ba; position_ := position_ ba; capacity_ := c;
     size_ := size_ ba; endian_ := endian_ ba; nodes_ := nodes_ ba; cur_ := cur_ ba |}.
Definition with_size (n : Z) (ba : ByteArray) : ByteArray :=
  {| base_size_ := base_size_ ba; position_ := position_ ba; capacity_ := capacity_ ba;
     size_ := n; endian_ := endian_ ba; nodes_ := nodes_ ba; cur_ := cur_ ba |}.
Definition with_endian (e : Z) (ba : ByteArray) : ByteArray :=
  {| base_size_ := base_size_ ba; position_ := position_ ba; capacity_ := capacity_ ba;
     size_ := size_ ba; endian_ := e; nodes_ := nodes_ ba; cur_ := cur_ ba |}.
Definition with_nodes (ns : list Node) (ba : ByteArray) : ByteArray :=
  {| base_size_ := base_size_ ba; position_ := position_ ba; capacity_ := capacity_ ba;
     size_ := size_ ba; endian_ := endian_ ba; nodes_ := ns; cur_ := cur_ ba |}.
Definition with_cur (c : option nat) (ba : ByteArray) : ByteArray :=
  {| base_size_ := base_size_ ba; position_ := position_ ba; capacity_ := capacity_ ba;
     size_ := size_ ba; endian_ := endian_ ba; nodes_ := nodes_ ba; cur_ := c |}.

(** ** Pointers into the chain *)

(** [*p] for a [Node* p]. *)
Definition deref (ba : ByteArray) (p : option nat) : result Node :=
  match p with
  | None => Fail null_deref
  | Some i => match nodes_ ba !! i with Some nd => Ok nd | None => Fail undefined end
  end.

(** [p->size] *)
Definition node_size (ba : ByteArray) (p : option nat) : result Z :=
  match deref ba p with Ok nd => Ok (Z.of_nat (length nd)) | Fail e => Fail e end.

(** [p->next] *)
Definition node_next (ba : ByteArray) (p : option nat) : result (option nat) :=
  match p with
  | None => Fail null_deref
  | Some i => Ok (if Nat.ltb (S i) (length (nodes_ ba)) then Some (S i) else None)
  end.

(** [memcpy(p->ptr + off, src, n)] and [memcpy(dst, p->ptr + off, n)]: outside the
    bounds of the node the behaviour is undefined. *)
Definition memcpy_to (p : option nat) (off : Z) (src : list byte) : prog ByteArray unit :=
  fun ba => match deref ba p, p with
  | Ok nd, Some i =>
      if (0 <=? off) && (off + Z.of_nat (length src) <=? Z.of_nat (length nd))
      then (Ok tt, with_nodes (<[i := splice (Z.to_nat off) src nd]> (nodes_ ba)) ba)
      else (Fail undefined, ba)
  | Fail e, _ => (Fail e, ba)
  | _, None => (Fail null_deref, ba)
  end.

Definition memcpy_from (ba : ByteArray) (p : option nat) (off n : Z) : result (list byte) :=
  match deref ba p with
  | Fail e => Fail e
  | Ok nd =>
      if (0 <=? off) && (0 <=? n) && (off + n <=? Z.of_nat (length nd))
      then Ok (slice (Z.to_nat off) (Z.to_nat n) nd)
      else Fail undefined
  end.

(** [a % b] on [size_t]. *)
Definition umod (a b : Z) : result Z := if b =? 0 then Fail undefined else Ok (a mod b).

(** ** Observers *)

Definition GetPosition (ba : ByteArray) : Z := position_ ba.
Definition GetBaseSize (ba : ByteArray) : Z := base_size_ ba.
Definition GetSize (ba : ByteArray) : Z := size_ ba.
Definition GetReadSize (ba : ByteArray) : Z := u64 (size_ ba - position_ ba).
Definition GetCapacity (ba : ByteArray) : Z := u64 (capacity_ ba - position_ ba).

Definition IsLittleEndian (ba : ByteArray) : bool := endian_ ba =? GUDOV_LITTLE_ENDIAN.

Definition SetIsLittleEndian (val : bool) : prog ByteArray unit :=
  modify (with_endian (if val then GUDOV_LITTLE_ENDIAN else GUDOV_BIG_ENDIAN)).

(** ** Growing the chain *)

(** [ceil(1.0 * size / base_size_)]; the division is exact for the sizes a
    process can allocate. *)
Definition ceil_div (a b : Z) : Z := (a + b - 1) / b.

Definition AddCapacity `{Uninit} (size : Z) : prog ByteArray unit := fun ba =>
  if size =? 0 then (Ok tt, ba)
  else
    let old_capacity := GetCapacity ba in
    if size <=? old_capacity then (Ok tt, ba)
    else if base_size_ ba =? 0 then (Fail undefined, ba)
    else
      let size := size - old_capacity in
      let count := Z.to_nat (ceil_div size (base_size_ ba)) in
      let tail := length (nodes_ ba) in
      let ba := with_nodes (nodes_ ba ++ map (fun k => new_Node k (base_size_ ba)) (seq tail count)) ba in
      let ba := with_capacity (capacity_ ba + base_size_ ba * Z.of_nat count) ba in
      if old_capacity =? 0
      then (Ok tt, with_cur (if Nat.ltb 0 count then Some tail else None) ba)
      else (Ok tt, ba).

(** [ByteArray::Clear]: the nodes after [root_] are freed. *)
Definition Clear : prog ByteArray unit := fun ba =>
  (Ok tt, {| base_size_ := base_size_ ba; position_ := 0; capacity_ := base_size_ ba; size_ := 0;
             endian_ := endian_ ba; nodes_ := take 1 (nodes_ ba); cur_ := Some 0%nat |}).

(** ** Raw writes and reads *)

(** The loop of [ByteArray::Write]; [buf] is what is left of the caller's buffer. *)
Fixpoint write_loop (fuel : nat) (npos ncap : Z) (buf : list byte) : prog ByteArray unit :=
  match fuel with
  | O => fail out_of_fuel
  | S fuel =>
    let size := Z.of_nat (length buf) in
    if 0 <? size then
      if size <=? ncap then
        let* cur := gets cur_ in
        memcpy_to cur npos buf ;;
        let* csize := (fun ba => (node_size ba cur, ba)) in
        (if csize =? npos + size
         then let* nxt := (fun ba => (node_next ba cur, ba)) in modify (with_cur nxt)
         else ret tt) ;;
        modify (fun ba => with_position (position_ ba + size) ba)
      else
        let* cur := gets cur_ in
        memcpy_to cur npos (take (Z.to_nat ncap) buf) ;;
        modify (fun ba => with_position (position_ ba + ncap) ba) ;;
        let* nxt := (fun ba => (node_next ba cur, ba)) in
        modify (with_cur nxt) ;;
        let* ncap' := (fun ba => (node_size ba nxt, ba)) in
        write_loop fuel 0 ncap' (drop (Z.to_nat ncap) buf)
    else ret tt
  end.

Definition Write `{Uninit} (buf : list byte) : prog ByteArray unit :=
  if Z.of_nat (length buf) =? 0 then ret tt
  else
    AddCapacity (Z.of_nat (length buf)) ;;
    let* npos := (fun ba => (umod (position_ ba) (base_size_ ba), ba)) in
    let* csize := (fun ba => (node_size ba (cur_ ba), ba)) in
    let* chain := gets (fun ba => length (nodes_ ba)) in
    write_loop (S chain) npos (u64 (csize - npos)) buf ;;
    modify (fun ba => if size_ ba <? position_ ba then with_size (position_ ba) ba else ba).

(** The loop both [Read]s share: the bytes copied and the node pointer at the end. *)
Fixpoint read_loop (fuel : nat) (ba : ByteArray) (cur : option nat) (npos ncap size : Z)
  : result (list byte * option nat) :=
  match fuel with
  | O => Fail out_of_fuel
  | S fuel =>
    if 0 <? size then
      if size <=? ncap then
        match memcpy_from ba cur npos size, node_size ba cur, node_next ba cur with
        | Ok bs, Ok csize, Ok nxt => Ok (bs, if csize =? npos + size then nxt else cur)
        | Fail e, _, _ | _, Fail e, _ | _, _, Fail e => Fail e
        end
      else
        match memcpy_from ba cur npos ncap, node_next ba cur with
        | Ok bs, Ok nxt =>
            match node_size ba nxt with
            | Fail e => Fail e
            | Ok ncap' =>
                match read_loop fuel ba nxt 0 ncap' (size - ncap) with
                | Ok (bs', c) => Ok (bs ++ bs', c)
                | Fail e => Fail e
                end
            end
        | Fail e, _ | _, Fail e => Fail e
        end
    else Ok ([], cur)
  end.

(** [npos], [ncap] and the loop, from a position and a node pointer. *)
Definition read_from (ba : ByteArray) (cur : option nat) (position size : Z)
  : result (list byte * option nat) :=
  match umod position (base_size_ ba), node_size ba cur with
  | Ok npos, Ok csize => read_loop (S (length (nodes_ ba))) ba cur npos (u64 (csize - npos)) size
  | Fail e, _ | _, Fail e => Fail e
  end.

(** [void Read(void* buf, size_t size)] *)
Definition Read (size : Z) : prog ByteArray (list byte) := fun ba =>
  if GetReadSize ba <? size then (Fail out_of_range, ba)
  else match read_from ba (cur_ ba) (position_ ba) size with
       | Ok (bs, c) => (Ok bs, with_cur c (with_position (position_ ba + size) ba))
       | Fail e => (Fail e, ba)
       end.

(** [void Read(void* buf, size_t size, size_t position) const] *)
Definition ReadAt (ba : ByteArray) (size position : Z) : result (list byte) :=
  if u64 (size_ ba - position) <? size then Fail out_of_range
  else match read_from ba (cur_ ba) position size with
       | Ok (bs, _) => Ok bs
       | Fail e => Fail e
       end.

(** The walk of [ByteArray::SetPosition] from [root_]. *)
Fixpoint seek_loop (fuel : nat) (ba : ByteArray) (cur : option nat) (v : Z) : result (option nat) :=
  match fuel with
  | O => Fail out_of_fuel
  | S fuel =>
    match node_size ba cur, node_next ba cur with
    | Ok csize, Ok nxt =>
        if csize <? v then seek_loop fuel ba nxt (v - csize)
        else Ok (if v =? csize then nxt else cur)
    | Fail e, _ | _, Fail e => Fail e
    end
  end.

Definition SetPosition (v : Z) : prog ByteArray unit := fun ba =>
  if capacity_ ba <? v then (Fail out_of_range, ba)
  else
    let ba := with_position v ba in
    let ba := if size_ ba <? v then with_size v ba else ba in
    match seek_loop (S (length (nodes_ ba))) ba (Some 0%nat) v with
    | Ok c => (Ok tt, with_cur c ba)
    | Fail e => (Fail e, ba)
    end.

(** ** Scatter/gather views *)

(** A [struct iovec] into the chain: node, offset in it, and length. *)
Record iovec := Iov { iov_node : nat; iov_off : Z; iov_len : Z }.

(** The loop of the three [Get*Buffers] functions. *)
Fixpoint iov_loop (fuel : nat) (ba : ByteArray) (cur : option nat) (npos ncap len : Z)
  : result (list iovec) :=
  match fuel with
  | O => Fail out_of_fuel
  | S fuel =>
    if 0 <? len then
      match cur with
      | None => Fail null_deref
      | Some i =>
          if len <=? ncap then Ok [Iov i npos len]
          else
            match node_next ba cur with
            | Fail e => Fail e
            | Ok nxt =>
                match node_size ba nxt with
                | Fail e => Fail e
                | Ok ncap' =>
                    match iov_loop fuel ba nxt 0 ncap' (len - ncap) with
                    | Ok iovs => Ok (Iov i npos ncap :: iovs)
                    | Fail e => Fail e
                    end
                end
            end
      end
    else Ok []
  end.

Definition iov_from (ba : ByteArray) (cur : option nat) (position len : Z) : result (list iovec) :=
  match umod position (base_size_ ba), node_size ba cur with
  | Ok npos, Ok csize => iov_loop (S (length (nodes_ ba))) ba cur npos (u64 (csize - npos)) len
  | Fail e, _ | _, Fail e => Fail e
  end.

(** [uint64_t GetReadBuffers(buffers, len) const]: the iovecs appended and the length. *)
Definition GetReadBuffers (ba : ByteArray) (len : Z) : result (list iovec * Z) :=
  let len := if GetReadSize ba <? len then GetReadSize ba else len in
  if len =? 0 then Ok ([], 0)
  else match iov_from ba (cur_ ba) (position_ ba) len with
       | Ok iovs => Ok (iovs, len)
       | Fail e => Fail e
       end.

(** [count] steps along [next] from a node. *)
Fixpoint walk (count : nat) (ba : ByteArray) (cur : option nat) : result (option nat) :=
  match count with
  | O => Ok cur
  | S count => match node_next ba cur with Ok nxt => walk count ba nxt | Fail e => Fail e end
  end.

(** [uint64_t GetReadBuffers(buffers, len, position) const] *)
Definition GetReadBuffersAt (ba : ByteArray) (len position : Z) : result (list iovec * Z) :=
  let len := if GetReadSize ba <? len then GetReadSize ba else len in
  if len =? 0 then Ok ([], 0)
  else if base_size_ ba =? 0 then Fail undefined
  else match walk (Z.to_nat (position / base_size_ ba)) ba (Some 0%nat) with
       | Fail e => Fail e
       | Ok cur =>
           match iov_from ba cur position len with
           | Ok iovs => Ok (iovs, len)
           | Fail e => Fail e
           end
       end.

Definition GetWriteBuffers `{Uninit} (len : Z) : prog ByteArray (list iovec * Z) :=
  if len =? 0 then ret ([], 0)
  else
    AddCapacity len ;;
    (fun ba => match iov_from ba (cur_ ba) (position_ ba) len with
               | Ok iovs => (Ok (iovs, len), ba)
               | Fail e => (Fail e, ba)
               end).

(** The memory the iovecs designate, in order. *)
Definition iov_bytes (ba : ByteArray) (iovs : list iovec) : list byte :=
  concat (map (fun v => slice (Z.to_nat (iov_off v)) (Z.to_nat (iov_len v))
                          (default [] (nodes_ ba !! iov_node v))) iovs).

(** ** Dumps and files *)

Definition ToString (ba : ByteArray) : result (list byte) :=
  if GetReadSize ba =? 0 then Ok [] else ReadAt ba (GetReadSize ba) (position_ ba).

Definition hex_digit (z : Z) : byte := if z <? 10 then z2b (48 + z) else z2b (87 + z).

(** One byte of [ToHexString] at index [i], with the line break before it. *)
Definition hex_cell (i : nat) (b : byte) : list byte :=
  (if (Nat.ltb 0 i && Nat.eqb (i mod 32) 0)%nat then [x0a] else []) ++
  [hex_digit (b2z b / 16); hex_digit (b2z b mod 16); x20].

Definition ToHexString (ba : ByteArray) : result (list byte) :=
  match ToString ba with
  | Ok str => Ok (concat (imap hex_cell str))
  | Fail e => Fail e
  end.

(** The loop of [WriteToFile]: the bytes handed to [ofs.write], in order. *)
Fixpoint write_file_loop (fuel : nat) (ba : ByteArray) (cur : option nat) (pos readSize : Z)
  : result (list byte) :=
  match fuel with
  | O => Fail out_of_fuel
  | S fuel =>
    if 0 <? readSize then
      match umod pos (base_size_ ba) with
      | Fail e => Fail e
      | Ok m =>
          let diff := s32 m in
          let len := (if base_size_ ba <? readSize then base_size_ ba else readSize) - diff in
          match memcpy_from ba cur diff len, node_next ba cur with
          | Ok bs, Ok nxt =>
              match write_file_loop fuel ba nxt (pos + len) (readSize - len) with
              | Ok bs' => Ok (bs ++ bs')
              | Fail e => Fail e
              end
          | Fail e, _ | _, Fail e => Fail e
          end
      end
    else Ok []
  end.

(** [bool WriteToFile(name) const]: [opened] is the outcome of [ofs.open]; the
    result is the contents of the truncated file, or [None] when it returns false. *)
Definition WriteToFile (ba : ByteArray) (opened : bool) : result (option (list byte)) :=
  if opened then
    match write_file_loop (S (length (nodes_ ba))) ba (cur_ ba) (position_ ba) (GetReadSize ba) with
    | Ok bs => Ok (Some bs)
    | Fail e => Fail e
    end
  else Ok None.

(** The loop of [ReadFromFile] on what is left of the file: [ifs.read] delivers at
    most [base_size_] bytes and sets [eof] when it could not deliver them all. *)
Fixpoint read_file_loop `{Uninit} (fuel : nat) (rest : list byte) : prog ByteArray unit :=
  match fuel with
  | O => fail out_of_fuel
  | S fuel =>
    let* base := gets base_size_ in
    Write (take (Z.to_nat base) rest) ;;
    if Z.of_nat (length rest) <? base then ret tt
    else read_file_loop fuel (drop (Z.to_nat base) rest)
  end.

(** [bool ReadFromFile(name)]: [file] is the contents of the file, [None] when it
    cannot be opened. *)
Definition ReadFromFile `{Uninit} (file : option (list byte)) : prog ByteArray bool :=
  match file with
  | None => ret false
  | Some bs => read_file_loop (S (length bs)) bs ;; ret true
  end.

(** ** Well-formed buffers

    The node pointer that belongs to offset [p] of a chain of [n] nodes of [b]
    bytes: null at the very end of the chain. *)
Definition ptr_at (b n p : nat) : option nat :=
  if Nat.ltb p (b * n) then Some (p / b)%nat else None.

(** The chain read as one area of [capacity_] bytes, and the bytes that are valid. *)
Definition flat (ba : ByteArray) : list byte := concat (nodes_ ba).
Definition contents (ba : ByteArray) : list byte := take (Z.to_nat (size_ ba)) (flat ba).

(** The class invariant. *)
Record wf (ba : ByteArray) : Prop := {
  wf_base : 0 < base_size_ ba;
  wf_blocks : blocks (Z.to_nat (base_size_ ba)) (nodes_ ba);
  wf_nodes : (0 < length (nodes_ ba))%nat;
  wf_cap : capacity_ ba = base_size_ ba * Z.of_nat (length (nodes_ ba));
  wf_pos : 0 <= position_ ba <= size_ ba;
  wf_size : size_ ba <= capacity_ ba;
  wf_cap64 : capacity_ ba < 2 ^ 64;
  wf_endian : endian_ ba = GUDOV_LITTLE_ENDIAN \/ endian_ ba = GUDOV_BIG_ENDIAN;
  wf_cur : cur_ ba = ptr_at (Z.to_nat (base_size_ ba)) (length (nodes_ ba)) (Z.to_nat (position_ ba));
}.

Lemma flat_length ba : wf ba -> Z.of_nat (length (flat ba)) = capacity_ ba.
Proof.
  intros H. unfold flat. rewrite (blocks_concat_length _ _ (wf_blocks _ H)), (wf_cap _ H).
  pose proof (wf_base _ H). rewrite Nat2Z.inj_mul, Z2Nat.id; lia.
Qed.

(** *** Arithmetic of offsets *)

Section Offsets.
Context (b n : nat) (Hb : (0 < b)%nat).

Lemma ptr_at_in i off : (i < n)%nat -> (off < b)%nat -> ptr_at b n (b * i + off) = Some i.
Proof.
  intros Hi Ho. unfold ptr_at. pose proof (Nat.mul_le_mono_l (S i) n b ltac:(lia)).
  destruct (Nat.ltb_spec (b * i + off) (b * n)); [|lia].
  f_equal. rewrite Nat.mul_comm, Nat.div_add_l by lia. rewrite Nat.div_small; lia.
Qed.

(** The end of node [i] is the pointer [next] of node [i]. *)
Lemma ptr_at_next i :
  (i < n)%nat -> ptr_at b n (b * S i) = if Nat.ltb (S i) n then Some (S i) else None.
Proof.
  intros Hi. destruct (Nat.ltb_spec (S i) n).
  - rewrite <- (Nat.add_0_r (b * S i)). by apply ptr_at_in.
  - unfold ptr_at. pose proof (Nat.mul_le_mono_l n (S i) b ltac:(lia)).
    destruct (Nat.ltb_spec (b * S i) (b * n)); [lia|done].
Qed.

Lemma ptr_at_Some p i : ptr_at b n p = Some i ->
  (i < n)%nat /\ (p = b * i + p mod b)%nat /\ (p mod b < b)%nat.
Proof.
  unfold ptr_at. destruct (Nat.ltb_spec p (b * n)); [|done]. intros [= <-].
  pose proof (Nat.div_mod p b ltac:(lia)). pose proof (Nat.mod_upper_bound p b ltac:(lia)).
  split; [|lia]. apply Nat.Div0.div_lt_upper_bound. lia.
Qed.
End Offsets.

Lemma deref_lookup ba i nd : nodes_ ba !! i = Some nd -> deref ba (Some i) = Ok nd.
Proof. intros E. simpl. by rewrite E. Qed.

Lemma block_lookup {A} b (ls : list (list A)) i :
  blocks b ls -> (i < length ls)%nat -> exists nd, ls !! i = Some nd /\ length nd = b.
Proof.
  intros Hb Hi. destruct (lookup_lt_is_Some_2 ls i Hi) as [nd E].
  exists nd. split; [done|]. by apply (Forall_lookup_1 _ _ _ _ Hb E).
Qed.

Lemma memcpy_to_ok ba i nd off src :
  nodes_ ba !! i = Some nd -> 0 <= off -> off + Z.of_nat (length src) <= Z.of_nat (length nd) ->
  memcpy_to (Some i) off src ba
  = (Ok tt, with_nodes (<[i := splice (Z.to_nat off) src nd]> (nodes_ ba)) ba).
Proof.
  intros E H1 H2. unfold memcpy_to. rewrite (deref_lookup _ _ _ E).
  rewrite (proj2 (Z.leb_le _ _) H1), (proj2 (Z.leb_le _ _) H2). done.
Qed.

Lemma memcpy_from_ok ba i nd off n :
  nodes_ ba !! i = Some nd -> 0 <= off -> 0 <= n -> off + n <= Z.of_nat (length nd) ->
  memcpy_from ba (Some i) off n = Ok (slice (Z.to_nat off) (Z.to_nat n) nd).
Proof.
  intros E H1 H2 H3. unfold memcpy_from. rewrite (deref_lookup _ _ _ E).
  rewrite (proj2 (Z.leb_le _ _) H1), (proj2 (Z.leb_le _ _) H2), (proj2 (Z.leb_le _ _) H3). done.
Qed.

Lemma node_size_ok ba i nd :
  nodes_ ba !! i = Some nd -> node_size ba (Some i) = Ok (Z.of_nat (length nd)).
Proof. intros E. unfold node_size. by rewrite (deref_lookup _ _ _ E). Qed.

(** *** The write loop *)

Lemma write_loop_ok fuel ba b i off buf :
  (0 < b)%nat -> blocks b (nodes_ ba) -> (i < length (nodes_ ba))%nat -> (off < b)%nat ->
  cur_ ba = Some i -> (0 < length buf)%nat ->
  (b * i + off + length buf <= b * length (nodes_ ba))%nat ->
  (length (nodes_ ba) - i <= fuel)%nat ->
  exists ns, blocks b ns /\ length ns = length (nodes_ ba) /\
    concat ns = splice (b * i + off) buf (flat ba) /\
    write_loop fuel (Z.of_nat off) (Z.of_nat b - Z.of_nat off) buf ba
    = (Ok tt, with_cur (ptr_at b (length ns) (b * i + off + length buf))
                (with_position (position_ ba + Z.of_nat (length buf)) (with_nodes ns ba))).
Proof.
  intros Hb. revert ba i off buf.
  induction fuel as [|fuel IH]; intros ba i off buf Hbl Hi Ho Hc Hl Hfit Hf; [lia|].
  destruct (block_lookup _ _ _ Hbl Hi) as (nd & End & Hnd). cbn [write_loop].
  destruct (Z.ltb_spec 0 (Z.of_nat (length buf))); [|lia].
  destruct (Z.leb_spec (Z.of_nat (length buf)) (Z.of_nat b - Z.of_nat off)).
  - set (ns := <[i := splice off buf nd]> (nodes_ ba)).
    assert (blocks b ns) as Hns.
    { apply blocks_insert; [done|]. rewrite splice_length; lia. }
    assert (length ns = length (nodes_ ba)) as Hln by apply length_insert.
    exists ns. split_and!; [done|done| |].
    { unfold ns, flat. apply splice_block; [done|done|lia]. }
    prog_ok (eq_refl : gets cur_ ba = (Ok (cur_ ba), ba)). rewrite Hc.
    prog_ok (memcpy_to_ok ba i nd (Z.of_nat off) buf End ltac:(lia) ltac:(lia)).
    rewrite Nat2Z.id. fold ns.
    destruct (block_lookup _ _ _ Hns (ltac:(lia) : (i < length ns)%nat)) as (nd' & End' & Hnd').
    erewrite bind_ok; [|unfold node_size; simpl; rewrite End'; reflexivity].
    rewrite Hnd'. destruct (Z.eqb_spec (Z.of_nat b) (Z.of_nat off + Z.of_nat (length buf))).
    + replace (b * i + off + length buf)%nat with (b * S i)%nat by nia.
      rewrite ptr_at_next by lia. prog_run. done.
    + rewrite <- Nat.add_assoc, ptr_at_in by lia. prog_run.
      destruct ba; simpl in *; subst; done.
  - set (d1 := take (b - off) buf). set (d2 := drop (b - off) buf).
    assert (length d1 = (b - off)%nat) as Hd1 by (unfold d1; rewrite length_take; lia).
    assert (length d2 = (length buf - (b - off))%nat) as Hd2 by (unfold d2; rewrite length_drop; lia).
    set (ns1 := <[i := splice off d1 nd]> (nodes_ ba)).
    assert (blocks b ns1) as Hns1.
    { apply blocks_insert; [done|]. rewrite splice_length; lia. }
    assert (length ns1 = length (nodes_ ba)) as Hln1 by apply length_insert.
    set (ba1 := with_cur (Some (S i))
                  (with_position (position_ ba + Z.of_nat (b - off)) (with_nodes ns1 ba))).
    assert (S i < length (nodes_ ba))%nat as HSi by nia.
    destruct (IH ba1 (S i) 0%nat d2) as (ns & HB & HL & HC & HW); try done; try (simpl; nia).
    exists ns. split_and!; [done|by rewrite HL| |].
    { rewrite HC. unfold ba1, flat. simpl.
      replace (b * S i + 0)%nat with (b * i + off + length d1)%nat by nia.
      unfold ns1. rewrite (splice_block b) by (done || lia).
      rewrite splice_app by (rewrite (blocks_concat_length b) by done; lia).
      unfold d1, d2. by rewrite take_drop. }
    replace (Z.to_nat (Z.of_nat b - Z.of_nat off)) with (b - off)%nat by lia.
    fold d1 d2.
    prog_ok (eq_refl : gets cur_ ba = (Ok (cur_ ba), ba)). rewrite Hc.
    prog_ok (memcpy_to_ok ba i nd (Z.of_nat off) d1 End ltac:(lia) ltac:(lia)).
    rewrite Nat2Z.id. fold ns1.
    destruct (block_lookup _ _ _ Hns1 (ltac:(lia) : (S i < length ns1)%nat)) as (nd' & End' & Hnd').
    assert (Nat.ltb (S i) (length ns1) = true) as Elt by (apply Nat.ltb_lt; lia).
    unfold bind at 1. cbn [modify].
    replace (Z.of_nat b - Z.of_nat off) with (Z.of_nat (b - off)) by lia.
    erewrite bind_ok; [|simpl; rewrite Elt; reflexivity].
    unfold bind at 1. cbn [modify].
    erewrite bind_ok; [|unfold node_size; simpl; rewrite End'; reflexivity].
    rewrite Hnd'. fold ba1.
    replace (Z.of_nat b) with (Z.of_nat b - Z.of_nat 0) by lia.
    etransitivity; [exact HW|]. unfold ba1, with_cur, with_position, with_nodes. cbn.
    f_equal. f_equal; [lia|]. f_equal. rewrite Nat.mul_succ_r. lia.
Qed.

(** *** Growing *)

Lemma ceil_div_bounds a b : 0 < b -> 0 < a -> a <= b * ceil_div a b < a + b.
Proof.
  intros Hb Ha. unfold ceil_div.
  pose proof (Z.div_mod (a + b - 1) b ltac:(lia)) as E.
  pose proof (Z.mod_pos_bound (a + b - 1) b ltac:(lia)). lia.
Qed.

Section Operations.
Context `{Uninit}.

Lemma new_Nodes_blocks b l : 0 <= b -> blocks (Z.to_nat b) (map (fun k => new_Node k b) l).
Proof.
  intros Hb. apply List.Forall_forall. intros x (k & <- & _)%in_map_iff. unfold new_Node. by rewrite length_map, length_seq.
Qed.

(** What an operation that does not touch the configuration keeps. *)
Definition same_config (ba ba' : ByteArray) : Prop :=
  base_size_ ba' = base_size_ ba /\ endian_ ba' = endian_ ba.

Lemma AddCapacity_ok ba n :
  wf ba -> 0 <= n -> position_ ba + n + base_size_ ba <= 2 ^ 64 ->
  exists ba' extra, AddCapacity n ba = (Ok tt, ba') /\ wf ba' /\ same_config ba ba' /\
    position_ ba' = position_ ba /\ size_ ba' = size_ ba /\
    flat ba' = flat ba ++ extra /\ position_ ba + n <= capacity_ ba' /\
    capacity_ ba' <= capacity_ ba + n + base_size_ ba.
Proof.
  intros W Hn Hfit. pose proof W as [Hb Hbl Hns Hcap Hp Hs H64 He Hc].
  unfold AddCapacity. destruct (Z.eqb_spec n 0).
  { exists ba, []. rewrite app_nil_r. split_and!; try done; lia. }
  unfold GetCapacity. rewrite u64_sub by lia.
  destruct (Z.leb_spec n (capacity_ ba - position_ ba)).
  { exists ba, []. rewrite app_nil_r. split_and!; try done; lia. }
  destruct (Z.eqb_spec (base_size_ ba) 0); [lia|].
  set (sz := n - (capacity_ ba - position_ ba)).
  pose proof (ceil_div_bounds sz (base_size_ ba) Hb ltac:(lia)) as Hq.
  set (count := Z.to_nat (ceil_div sz (base_size_ ba))).
  assert (0 < ceil_div sz (base_size_ ba)) by nia.
  assert (Z.of_nat count = ceil_div sz (base_size_ ba)) as Hcount by lia.
  set (nn := map (fun k => new_Node k (base_size_ ba)) (seq (length (nodes_ ba)) count)).
  assert (length nn = count) as Hnn by (unfold nn; by rewrite length_map, length_seq).
  assert (blocks (Z.to_nat (base_size_ ba)) (nodes_ ba ++ nn)) as Hbl'.
  { apply Forall_app. split; [done|]. apply new_Nodes_blocks. lia. }
  set (len := length (nodes_ ba)) in *.
  assert (ptr_at (Z.to_nat (base_size_ ba)) (length (nodes_ ba ++ nn)) (Z.to_nat (position_ ba))
          = if capacity_ ba - position_ ba =? 0 then Some len else cur_ ba) as Hptr.
  { rewrite length_app, Hnn. fold len.
    destruct (Z.eqb_spec (capacity_ ba - position_ ba) 0).
    - replace (Z.to_nat (position_ ba)) with (Z.to_nat (base_size_ ba) * len + 0)%nat.
      + apply ptr_at_in; lia.
      + rewrite Nat.add_0_r, <- (Nat2Z.id len) at 1. rewrite <- Z2Nat.inj_mul by lia. f_equal. lia.
    - rewrite Hc. unfold ptr_at.
      assert (Z.to_nat (position_ ba) < Z.to_nat (base_size_ ba) * len)%nat.
      { rewrite <- (Nat2Z.id len). rewrite <- Z2Nat.inj_mul by lia. lia. }
      pose proof (Nat.mul_le_mono_l len (len + count) (Z.to_nat (base_size_ ba)) ltac:(lia)).
      by rewrite !(proj2 (Nat.ltb_lt _ _)) by lia. }
  destruct (Nat.ltb_spec 0 count); [|lia].
  assert (length (nodes_ ba ++ nn) = (len + count)%nat) as Hlen by (rewrite length_app; lia).
  rewrite <- Hcount in Hq.
  assert (capacity_ ba + base_size_ ba * Z.of_nat count
          = base_size_ ba * Z.of_nat (length (nodes_ ba ++ nn))) by (rewrite Hlen; nia).
  destruct (capacity_ ba - position_ ba =? 0) eqn:E0;
    (eexists _, (concat nn); split; [reflexivity|]);
    (split_and!; [constructor; cbn; try done; lia|done|done|done|apply concat_app|cbn; lia|cbn; lia]).
Qed.

(** ** The abstract buffer

    What a [ByteArray] promises: a byte sequence with a cursor, like a file. *)

Record file := File { fbytes : list byte; fpos : nat }.

Definition spec_write (d : list byte) (f : file) : file :=
  File (splice (fpos f) d (fbytes f)) (fpos f + length d).

Definition spec_read (n : nat) (f : file) : option (list byte * file) :=
  if Nat.leb (fpos f + n) (length (fbytes f))
  then Some (slice (fpos f) n (fbytes f), File (fbytes f) (fpos f + n))
  else None.

Definition abs (ba : ByteArray) : file := File (contents ba) (Z.to_nat (position_ ba)).

Lemma contents_length ba : wf ba -> length (contents ba) = Z.to_nat (size_ ba).
Proof.
  intros W. unfold contents. rewrite length_take. pose proof (flat_length _ W).
  pose proof (wf_size _ W). lia.
Qed.

Lemma wf_base_cap ba : wf ba -> base_size_ ba <= capacity_ ba.
Proof.
  intros W. rewrite (wf_cap _ W). pose proof (wf_base _ W). pose proof (wf_nodes _ W).
  rewrite <- (Z.mul_1_r (base_size_ ba)) at 1. apply Z.mul_le_mono_nonneg_l; lia.
Qed.

(** The node and the offset the cursor of a buffer is at. *)
Lemma wf_cursor ba :
  wf ba -> position_ ba < capacity_ ba ->
  exists i off, cur_ ba = Some i /\ (i < length (nodes_ ba))%nat /\
    (off < Z.to_nat (base_size_ ba))%nat /\
    Z.to_nat (position_ ba) = (Z.to_nat (base_size_ ba) * i + off)%nat /\
    umod (position_ ba) (base_size_ ba) = Ok (Z.of_nat off) /\
    node_size ba (cur_ ba) = Ok (base_size_ ba) /\
    u64 (base_size_ ba - Z.of_nat off) = base_size_ ba - Z.of_nat off.
Proof.
  intros W Hlt. pose proof W as [Hb Hbl Hns Hcap Hp Hs H64 He Hc].
  assert (Z.to_nat (position_ ba) < Z.to_nat (base_size_ ba) * length (nodes_ ba))%nat as Hin.
  { rewrite <- (Nat2Z.id (length (nodes_ ba))). rewrite <- Z2Nat.inj_mul by lia. lia. }
  destruct (ptr_at (Z.to_nat (base_size_ ba)) (length (nodes_ ba)) (Z.to_nat (position_ ba)))
    as [i|] eqn:Ep; cycle 1.
  { unfold ptr_at in Ep. rewrite (proj2 (Nat.ltb_lt _ _) Hin) in Ep. done. }
  destruct (ptr_at_Some (Z.to_nat (base_size_ ba)) (length (nodes_ ba)) ltac:(lia) _ _ Ep) as (Hi & Hpos & Hoff).
  exists i, (Z.to_nat (position_ ba) mod Z.to_nat (base_size_ ba))%nat.
  destruct (block_lookup _ _ _ Hbl Hi) as (nd & End & Hnd).
  split_and!; try done; try lia.
  - unfold umod. destruct (Z.eqb_spec (base_size_ ba) 0); [lia|].
    rewrite Nat2Z.inj_mod, !Z2Nat.id by lia. done.
  - rewrite Hc. rewrite (node_size_ok _ _ _ End), Hnd, Z2Nat.id by lia. done.
  - pose proof (wf_base_cap _ W). apply u64_sub; lia.
Qed.

Lemma Write_ok ba buf :
  wf ba -> position_ ba + Z.of_nat (length buf) + base_size_ ba <= 2 ^ 64 ->
  exists ba', Write buf ba = (Ok tt, ba') /\ wf ba' /\ same_config ba ba' /\
    abs ba' = spec_write buf (abs ba) /\
    capacity_ ba' <= capacity_ ba + Z.of_nat (length buf) + base_size_ ba.
Proof.
  intros W Hfit. unfold Write, spec_write.
  destruct (Z.eqb_spec (Z.of_nat (length buf)) 0).
  { destruct buf; [|simpl in *; lia]. exists ba. pose proof (wf_base _ W). split_and!; try done.
    - unfold abs. simpl. by rewrite splice_nil, Nat.add_0_r.
    - simpl. lia. }
  destruct (AddCapacity_ok ba (Z.of_nat (length buf)) W ltac:(lia) Hfit)
    as (ba1 & extra & E1 & W1 & [Hbase Hend] & Hpos & Hsize & Hflat & Hcap & Hgrow).
  prog_ok E1. pose proof (wf_pos _ W). pose proof (wf_size _ W).
  destruct (wf_cursor ba1 W1 ltac:(lia)) as (i & off & Hcur & Hi & Hoff & Hp & Hmod & Hsz & Hu).
  pose proof W1 as [Hb1 Hbl1 Hns1 Hcap1 Hp1 Hs1 H641 He1 Hc1].
  erewrite bind_ok by (rewrite Hmod; reflexivity).
  erewrite bind_ok by (rewrite Hsz; reflexivity).
  erewrite bind_ok by reflexivity. rewrite Hu.
  assert (length (flat ba1) = Z.to_nat (capacity_ ba1)) as Hfl.
  { pose proof (flat_length _ W1). lia. }
  destruct (write_loop_ok (S (length (nodes_ ba1))) ba1 (Z.to_nat (base_size_ ba1)) i off buf)
    as (ns & HB & HL & HC & HW); try done; try lia.
  rewrite Z2Nat.id in HW by lia. prog_ok HW. rewrite <- Hp in *.
  eexists. split; [reflexivity|].
  set (ba2 := with_cur _ _).
  assert (length buf + Z.to_nat (position_ ba1) <= length (flat ba1))%nat by lia.
  assert (flat (if size_ ba2 <? position_ ba2 then with_size (position_ ba2) ba2 else ba2)
          = splice (Z.to_nat (position_ ba)) buf (flat ba ++ extra)) as Hflat'.
  { rewrite <- Hflat, <- Hpos, <- HC. by destruct (_ <? _). }
  assert (length (flat ba) = Z.to_nat (capacity_ ba)) as Hfl0.
  { pose proof (flat_length _ W). lia. }
  split_and!.
  - assert (Z.to_nat (position_ ba1) + length buf
            = Z.to_nat (position_ ba1 + Z.of_nat (length buf)))%nat as Hadd by lia.
    destruct (Z.ltb_spec (size_ ba2) (position_ ba2)); constructor; cbn in *; try done;
      rewrite ?HL, ?Hadd; try done; lia.
  - by destruct (_ <? _).
  - unfold abs, contents. rewrite Hflat'. cbn [fbytes fpos].
    rewrite <- (take_app_le (flat ba) extra (Z.to_nat (size_ ba))) by lia.
    rewrite <- take_splice; [|lia|rewrite length_app; lia|rewrite <- Hflat; lia].
    destruct (Z.ltb_spec (size_ ba2) (position_ ba2)); cbn in *; repeat f_equal; lia.
  - destruct (_ <? _); cbn; lia.
Qed.
End Operations.

(** *** The read loops *)

Section Loops.
Context (b : nat) (Hb : (0 < b)%nat) (ba : ByteArray) (Hbl : blocks b (nodes_ ba)).

Lemma node_next_in i :
  (S i < length (nodes_ ba))%nat -> node_next ba (Some i) = Ok (Some (S i)).
Proof. intros. simpl. by rewrite (proj2 (Nat.ltb_lt _ _)). Qed.

Lemma node_next_end i off n :
  (i < length (nodes_ ba))%nat -> (off + n = b)%nat ->
  node_next ba (Some i) = Ok (ptr_at b (length (nodes_ ba)) (b * i + off + n)).
Proof.
  intros Hi Hn. replace (b * i + off + n)%nat with (b * S i)%nat by lia.
  by rewrite ptr_at_next.
Qed.

Lemma node_size_in i : (i < length (nodes_ ba))%nat -> node_size ba (Some i) = Ok (Z.of_nat b).
Proof.
  intros Hi. destruct (block_lookup _ _ _ Hbl Hi) as (nd & End & Hnd).
  by rewrite (node_size_ok _ _ _ End), Hnd.
Qed.

Lemma memcpy_from_in i off n :
  (i < length (nodes_ ba))%nat -> (off + n <= b)%nat ->
  memcpy_from ba (Some i) (Z.of_nat off) (Z.of_nat n) = Ok (slice (b * i + off) n (flat ba)).
Proof using Hbl.
  clear Hb.
  intros Hi Hn. destruct (block_lookup _ _ _ Hbl Hi) as (nd & End & Hnd).
  rewrite (memcpy_from_ok _ _ _ _ _ End) by lia. rewrite !Nat2Z.id. f_equal.
  symmetry. by apply (slice_block b).
Qed.

Lemma read_loop_ok fuel i off n :
  (i < length (nodes_ ba))%nat -> (off < b)%nat ->
  (b * i + off + n <= b * length (nodes_ ba))%nat -> (length (nodes_ ba) - i < fuel)%nat ->
  read_loop fuel ba (Some i) (Z.of_nat off) (Z.of_nat b - Z.of_nat off) (Z.of_nat n)
  = Ok (slice (b * i + off) n (flat ba), ptr_at b (length (nodes_ ba)) (b * i + off + n)).
Proof.
  revert i off n. induction fuel as [|fuel IH]; intros i off n Hi Ho Hfit Hf; [lia|].
  cbn [read_loop]. destruct (Z.ltb_spec 0 (Z.of_nat n)); cycle 1.
  { replace n with 0%nat by lia. by rewrite slice_0, Nat.add_0_r, ptr_at_in. }
  destruct (Z.leb_spec (Z.of_nat n) (Z.of_nat b - Z.of_nat off)).
  - rewrite memcpy_from_in, node_size_in by lia.
    destruct (Z.eqb_spec (Z.of_nat b) (Z.of_nat off + Z.of_nat n)).
    + by rewrite (node_next_end i off n) by lia.
    + rewrite <- Nat.add_assoc, ptr_at_in by lia. by cbn [node_next].
  - assert (S i < length (nodes_ ba))%nat by nia.
    replace (Z.of_nat b - Z.of_nat off) with (Z.of_nat (b - off)) by lia.
    rewrite memcpy_from_in, node_next_in, node_size_in by lia.
    replace (Z.of_nat n - Z.of_nat (b - off)) with (Z.of_nat (n - (b - off))) by lia.
    pose proof (IH (S i) 0%nat (n - (b - off))%nat ltac:(lia) ltac:(lia) ltac:(nia) ltac:(lia)) as E.
    change (Z.of_nat 0) with 0 in E. rewrite Z.sub_0_r in E. rewrite E.
    replace (b * S i + 0)%nat with (b * i + off + (b - off))%nat by nia.
    rewrite <- slice_split. do 3 f_equal; lia.
Qed.

Lemma iov_loop_ok fuel i off n :
  (i < length (nodes_ ba))%nat -> (off < b)%nat ->
  (b * i + off + n <= b * length (nodes_ ba))%nat -> (length (nodes_ ba) - i < fuel)%nat ->
  exists iovs,
    iov_loop fuel ba (Some i) (Z.of_nat off) (Z.of_nat b - Z.of_nat off) (Z.of_nat n) = Ok iovs /\
    iov_bytes ba iovs = slice (b * i + off) n (flat ba).
Proof.
  revert i off n. induction fuel as [|fuel IH]; intros i off n Hi Ho Hfit Hf; [lia|].
  cbn [iov_loop]. destruct (Z.ltb_spec 0 (Z.of_nat n)); cycle 1.
  { replace n with 0%nat by lia. exists []. by rewrite slice_0. }
  destruct (block_lookup _ _ _ Hbl Hi) as (nd & End & Hnd).
  destruct (Z.leb_spec (Z.of_nat n) (Z.of_nat b - Z.of_nat off)).
  - eexists; split; [reflexivity|]. unfold iov_bytes. cbn -[Z.to_nat].
    rewrite End, !Nat2Z.id, app_nil_r. simpl. symmetry. apply slice_block; [done|done|lia].
  - assert (S i < length (nodes_ ba))%nat by nia.
    rewrite node_next_in, node_size_in by lia.
    replace (Z.of_nat n - (Z.of_nat b - Z.of_nat off)) with (Z.of_nat (n - (b - off))) by lia.
    destruct (IH (S i) 0%nat (n - (b - off))%nat) as (iovs & E & Hv); [lia|lia|nia|lia|].
    change (Z.of_nat 0) with 0 in *. rewrite Z.sub_0_r in E. rewrite E.
    eexists; split; [reflexivity|]. unfold iov_bytes in *. cbn -[Z.to_nat].
    rewrite Hv, End. simpl. rewrite Nat2Z.id.
    replace (Z.to_nat (Z.of_nat b - Z.of_nat off)) with (b - off)%nat by lia.
    rewrite <- (slice_block b (nodes_ ba) i nd off (b - off)) by (done || lia).
    fold (flat ba). replace (b * S i + 0)%nat with (b * i + off + (b - off))%nat by nia.
    rewrite <- slice_split. f_equal. lia.
Qed.

Lemma seek_loop_ok fuel i v :
  (i < length (nodes_ ba))%nat -> (b * i + v <= b * length (nodes_ ba))%nat ->
  (length (nodes_ ba) - i <= fuel)%nat ->
  seek_loop fuel ba (Some i) (Z.of_nat v) = Ok (ptr_at b (length (nodes_ ba)) (b * i + v)).
Proof.
  revert i v. induction fuel as [|fuel IH]; intros i v Hi Hfit Hf; [lia|].
  cbn [seek_loop]. rewrite node_size_in by lia.
  destruct (Z.ltb_spec (Z.of_nat b) (Z.of_nat v)).
  - assert (S i < length (nodes_ ba))%nat by nia. rewrite node_next_in by lia.
    replace (Z.of_nat v - Z.of_nat b) with (Z.of_nat (v - b)) by lia.
    rewrite IH by nia. do 2 f_equal. nia.
  - destruct (Z.eqb_spec (Z.of_nat v) (Z.of_nat b)).
    + rewrite (node_next_end i 0%nat b) by lia. do 2 f_equal. lia.
    + rewrite ptr_at_in by lia. by cbn [node_next].
Qed.

Lemma walk_ok count i :
  (i + count < length (nodes_ ba))%nat -> walk count ba (Some i) = Ok (Some (i + count)%nat).
Proof using Type.
  clear Hb Hbl.
  revert i. induction count as [|count IH]; intros i Hi; cbn [walk].
  - do 2 f_equal. lia.
  - rewrite node_next_in by lia. rewrite IH by lia. do 2 f_equal. lia.
Qed.
End Loops.

(** *** Reading and seeking *)

Section Reading.
Implicit Types (ba : ByteArray).

(** Both cursors of a read: the byte slice and the pointer it ends at. *)
Lemma read_from_ok ba p n i off :
  wf ba -> 0 <= n -> cur_ ba = Some i -> (i < length (nodes_ ba))%nat ->
  (off < Z.to_nat (base_size_ ba))%nat ->
  Z.to_nat p = (Z.to_nat (base_size_ ba) * i + off)%nat ->
  umod p (base_size_ ba) = Ok (Z.of_nat off) ->
  0 <= p -> p + n <= capacity_ ba ->
  read_from ba (cur_ ba) p n
  = Ok (slice (Z.to_nat p) (Z.to_nat n) (flat ba),
        ptr_at (Z.to_nat (base_size_ ba)) (length (nodes_ ba)) (Z.to_nat (p + n))).
Proof.
  intros W Hn Hc Hi Ho Hp Hm Hp0 Hfit. pose proof (wf_base _ W). pose proof (flat_length _ W) as Hfl.
  unfold flat in Hfl. rewrite (blocks_concat_length _ _ (wf_blocks _ W)) in Hfl.
  unfold read_from. rewrite Hm, Hc.
  rewrite (node_size_in (Z.to_nat (base_size_ ba)) ba (wf_blocks _ W)) by done.
  pose proof (wf_base_cap _ W). pose proof (wf_cap64 _ W). rewrite u64_sub by lia.
  rewrite <- (Z2Nat.id n) at 1 by lia.
  rewrite (read_loop_ok (Z.to_nat (base_size_ ba))); [|lia|apply (wf_blocks _ W)|lia|lia|lia|lia].
  rewrite <- Hp. do 3 f_equal. lia.
Qed.

Lemma Read_ok ba n :
  wf ba -> 0 <= n -> position_ ba + n <= size_ ba -> position_ ba < capacity_ ba ->
  exists ba', Read n ba = (Ok (slice (Z.to_nat (position_ ba)) (Z.to_nat n) (contents ba)), ba') /\
    wf ba' /\ same_config ba ba' /\ capacity_ ba' = capacity_ ba /\
    position_ ba' = position_ ba + n /\ contents ba' = contents ba.
Proof.
  intros W Hn Hfit Hlt. pose proof W as [Hb Hbl Hns Hcap Hp Hs H64 He Hc].
  destruct (wf_cursor ba W Hlt) as (i & off & Hcur & Hi & Hoff & Hpos & Hmod & _ & _).
  unfold Read, GetReadSize. rewrite u64_sub by lia.
  destruct (Z.ltb_spec (size_ ba - position_ ba) n); [lia|].
  rewrite (read_from_ok ba (position_ ba) n i off) by (done || lia).
  eexists. split; [unfold contents; rewrite slice_take by lia; reflexivity|].
  split_and!; try done. constructor; cbn; try done; lia.
Qed.

(** A short buffer: [Read] throws and leaves the object as it was. *)
Lemma Read_short ba n :
  wf ba -> size_ ba < position_ ba + n -> Read n ba = (Fail out_of_range, ba).
Proof.
  intros W Hn. pose proof (wf_pos _ W). pose proof (wf_size _ W). pose proof (wf_cap64 _ W).
  unfold Read, GetReadSize. rewrite u64_sub by lia.
  by destruct (Z.ltb_spec (size_ ba - position_ ba) n); [|lia].
Qed.

(** At the end of a full chain [cur_] is null, and [Read] looks at [cur_->size]
    before it looks at the length. *)
Lemma Read_zero_at_end ba :
  wf ba -> position_ ba = capacity_ ba -> Read 0 ba = (Fail null_deref, ba).
Proof.
  intros W E. pose proof W as [Hb Hbl Hns Hcap Hp Hs H64 He Hc].
  unfold Read, GetReadSize. rewrite u64_sub by lia.
  destruct (Z.ltb_spec (size_ ba - position_ ba) 0); [lia|].
  unfold read_from, umod. destruct (Z.eqb_spec (base_size_ ba) 0); [lia|].
  rewrite Hc. unfold ptr_at. rewrite (proj2 (Nat.ltb_ge _ _)); [done|].
  rewrite E, Hcap, Z2Nat.inj_mul, Nat2Z.id; lia.
Qed.

Lemma SetPosition_ok ba v :
  wf ba -> 0 <= v <= capacity_ ba ->
  exists ba', SetPosition v ba = (Ok tt, ba') /\ wf ba' /\ same_config ba ba' /\
    flat ba' = flat ba /\ capacity_ ba' = capacity_ ba /\
    position_ ba' = v /\ size_ ba' = Z.max (size_ ba) v.
Proof.
  intros W Hv. pose proof W as [Hb Hbl Hns Hcap Hp Hs H64 He Hc].
  pose proof (flat_length _ W) as Hfl. unfold flat in Hfl.
  rewrite (blocks_concat_length _ _ Hbl) in Hfl.
  unfold SetPosition. destruct (Z.ltb_spec (capacity_ ba) v); [lia|]. cbv zeta.
  set (ba1 := if size_ (with_position v ba) <? v then with_size v (with_position v ba) else with_position v ba).
  assert (nodes_ ba1 = nodes_ ba) as Hn1 by (unfold ba1; by destruct (_ <? _)).
  assert (seek_loop (S (length (nodes_ ba1))) ba1 (Some 0%nat) v
          = Ok (ptr_at (Z.to_nat (base_size_ ba)) (length (nodes_ ba)) (Z.to_nat v))) as ->.
  { rewrite <- (Z2Nat.id v) at 1 by lia.
    rewrite (seek_loop_ok (Z.to_nat (base_size_ ba))); rewrite ?Hn1; try done; try lia.
    do 2 f_equal. lia. }
  eexists. split; [reflexivity|].
  assert (size_ ba1 = Z.max (size_ ba) v /\ position_ ba1 = v /\ same_config ba ba1 /\
          capacity_ ba1 = capacity_ ba) as (Hs1 & Hp1 & [Hb1 He1] & Hc1).
  { unfold ba1. cbn. destruct (Z.ltb_spec (size_ ba) v); cbn; split_and!; try done; lia. }
  split_and!; try done; [|by unfold flat; cbn; rewrite Hn1].
  constructor; cbn; rewrite ?Hs1, ?Hp1, ?Hb1, ?He1, ?Hc1, ?Hn1; try done; lia.
Qed.

Lemma SetPosition_far ba v :
  capacity_ ba < v -> SetPosition v ba = (Fail out_of_range, ba).
Proof. intros Hv. unfold SetPosition. by destruct (Z.ltb_spec (capacity_ ba) v); [|lia]. Qed.
End Reading.
