(* ===== verification/ByteArraySpec.v ===== *)
(** * What the byte buffer promises

    The theorems about [ByteArray] as its callers see it: sequences of calls
    refine the abstract [file] of [ByteArray], scatter/gather views designate the
    right memory, and files are written and read back. *)

From S2P Require Import Prelude Endian ByteArray.
From stdpp Require Import base list numbers.
From Stdlib Require Import ZArith Lia Strings.Byte.
Open Scope Z_scope.
Open Scope prog_scope.

Lemma new_ByteArray_wf `{Uninit} b : 0 < b < 2 ^ 64 -> wf (new_ByteArray b).
Proof.
  intros Hb. constructor; cbn -[Z.to_nat]; try lia; try by left.
  - repeat constructor. unfold new_Node. by rewrite length_map, length_seq.
  - unfold ptr_at. rewrite (proj2 (Nat.ltb_lt _ _)) by lia. by rewrite Nat.Div0.div_0_l.
Qed.

Lemma Clear_ok ba :
  wf ba -> exists ba', Clear ba = (Ok tt, ba') /\ wf ba' /\ same_config ba ba' /\ abs ba' = File [] 0.
Proof.
  intros W. pose proof W as [Hb Hbl Hns Hcap Hp Hs H64 He Hc]. pose proof (wf_base_cap _ W).
  eexists. split; [reflexivity|]. destruct (nodes_ ba) as [|nd ns] eqn:E; [simpl in *; lia|].
  split_and!; try done. constructor; cbn -[Z.to_nat]; rewrite ?E; cbn -[Z.to_nat]; try lia.
  - apply Forall_cons_iff in Hbl as [??]. by repeat constructor.
  - rewrite take_0. cbn. lia.
  - rewrite take_0. cbn. unfold ptr_at. rewrite (proj2 (Nat.ltb_lt _ _)) by lia. by rewrite Nat.Div0.div_0_l.
Qed.

Lemma spec_write_app d1 d2 f :
  (fpos f <= length (fbytes f))%nat -> spec_write d2 (spec_write d1 f) = spec_write (d1 ++ d2) f.
Proof.
  intros Hf. unfold spec_write. cbn [fbytes fpos]. rewrite splice_app, length_app by done. f_equal. lia.
Qed.

Lemma abs_in_range ba : wf ba -> (fpos (abs ba) <= length (fbytes (abs ba)))%nat.
Proof. intros W. cbn. rewrite contents_length by done. pose proof (wf_pos _ W). lia. Qed.

(** ** Sequences of calls *)

Inductive cmd :=
  | CWrite (d : list byte)
  | CRead (n : Z)
  | CSeek (v : Z).

Definition exec `{Uninit} (c : cmd) : prog ByteArray (list byte) :=
  match c with
  | CWrite d => Write d ;; ret []
  | CRead n => Read n
  | CSeek v => SetPosition v ;; ret []
  end.

(** The caller catches what a call throws and goes on. *)
Fixpoint exec_all `{Uninit} (cs : list cmd) (ba : ByteArray) : list (result (list byte)) * ByteArray :=
  match cs with
  | [] => ([], ba)
  | c :: cs =>
      let '(r, ba) := exec c ba in
      let '(rs, ba) := exec_all cs ba in (r :: rs, ba)
  end.

(** The abstract machine: a file with a cursor.  Seeking past the valid bytes
    makes the bytes in between valid, whatever they hold; how far one may seek is
    not promised, only that a refused seek changes nothing. *)
Inductive spec_step (f : file) : cmd -> result (list byte) -> file -> Prop :=
  | step_write d : spec_step f (CWrite d) (Ok []) (spec_write d f)
  | step_read n bs f' : spec_read (Z.to_nat n) f = Some (bs, f') -> spec_step f (CRead n) (Ok bs) f'
  | step_short n : spec_read (Z.to_nat n) f = None -> spec_step f (CRead n) (Fail out_of_range) f
  | step_seek v ext :
      length ext = (Z.to_nat v - length (fbytes f))%nat ->
      spec_step f (CSeek v) (Ok []) (File (fbytes f ++ ext) (Z.to_nat v))
  | step_far v :
      (length (fbytes f) < Z.to_nat v)%nat -> spec_step f (CSeek v) (Fail out_of_range) f.

Inductive spec_trace : file -> list cmd -> list (result (list byte)) -> file -> Prop :=
  | trace_nil f : spec_trace f [] [] f
  | trace_cons f c r f1 cs rs f2 :
      spec_step f c r f1 -> spec_trace f1 cs rs f2 -> spec_trace f (c :: cs) (r :: rs) f2.

(** The calls callers make: reads of at least one byte, and [size_t] arguments. *)
Definition valid_cmd (c : cmd) : Prop :=
  match c with CWrite _ => True | CRead n => 0 < n | CSeek v => 0 <= v end.

(** How much a call can grow the chain of a buffer with nodes of [b] bytes. *)
Definition growth (b : Z) (c : cmd) : Z :=
  match c with CWrite d => Z.of_nat (length d) + b | _ => 0 end.

Definition total_growth (b : Z) (cs : list cmd) : Z := foldr (fun c t => growth b c + t) 0 cs.

Lemma growth_nonneg b cs : 0 <= b -> 0 <= total_growth b cs.
Proof. intros. unfold total_growth. induction cs as [|[] ? IH]; cbn; lia. Qed.

Section Traces.
Context `{Uninit}.

Lemma exec_refines ba c :
  wf ba -> valid_cmd c -> capacity_ ba + growth (base_size_ ba) c <= 2 ^ 64 ->
  exists r ba', exec c ba = (r, ba') /\ wf ba' /\ base_size_ ba' = base_size_ ba /\
    capacity_ ba' <= capacity_ ba + growth (base_size_ ba) c /\ spec_step (abs ba) c r (abs ba').
Proof.
  intros W V G. pose proof (wf_pos _ W). pose proof (wf_size _ W). destruct c as [d|n|v]; cbn in *.
  - destruct (Write_ok ba d W ltac:(lia)) as (ba' & E & W' & [Hb _] & A & Hc).
    exists (Ok []), ba'. rewrite (bind_ok _ _ _ _ _ E). split_and!; try done; [lia|].
    rewrite A. constructor.
  - destruct (decide (position_ ba + n <= size_ ba)).
    + destruct (Read_ok ba n W ltac:(lia) ltac:(lia) ltac:(lia))
        as (ba' & E & W' & [Hb _] & Hc & Hp & Hcs).
      eexists _, ba'. split_and!; try done; [lia|]. constructor. unfold spec_read.
      cbn. rewrite contents_length by done. rewrite (proj2 (Nat.leb_le _ _)) by lia.
      unfold abs. rewrite Hcs, Hp. do 3 f_equal. lia.
    + exists (Fail out_of_range), ba. rewrite Read_short by (done || lia).
      split_and!; try done; [lia|]. constructor. unfold spec_read.
      cbn. rewrite contents_length by done. rewrite (proj2 (Nat.leb_gt _ _)); [done|lia].
  - destruct (decide (v <= capacity_ ba)).
    + destruct (SetPosition_ok ba v W ltac:(lia)) as (ba' & E & W' & [Hb _] & Hf & Hc & Hp & Hs).
      exists (Ok []), ba'. rewrite (bind_ok _ _ _ _ _ E). split_and!; try done; [lia|].
      assert (abs ba' = File (fbytes (abs ba) ++
                slice (Z.to_nat (size_ ba)) (Z.to_nat v - Z.to_nat (size_ ba)) (flat ba)) (Z.to_nat v)) as ->.
      { unfold abs, contents, slice. rewrite Hf, Hp, Hs. f_equal. cbn.
        rewrite take_take_drop. f_equal. lia. }
      constructor. pose proof (flat_length _ W). rewrite slice_length by lia. cbn.
      by rewrite contents_length.
    + exists (Fail out_of_range), ba. rewrite (bind_fail _ _ _ _ _ (SetPosition_far ba v ltac:(lia))).
      split_and!; try done; [lia|]. constructor. cbn. rewrite contents_length by done. lia.
Qed.

End Traces.

(** A buffer with nodes of four bytes whose memory starts out zeroed. *)
Definition zeroed : Uninit := fun _ _ => x00.
Definition demo (b : Z) : ByteArray := @new_ByteArray zeroed b.
Definition demo_bytes (n : nat) : list byte := map (fun i => z2b (97 + Z.of_nat i)) (seq 0 n).


Section Claims.
Context `{Uninit}.

(** Bytes written at the cursor are the bytes read back from there, for every
    node size and every position of the cursor: the data survives being cut at
    node boundaries. *)
Theorem write_read_roundtrip ba d :
  wf ba -> d <> [] -> position_ ba + Z.of_nat (length d) + base_size_ ba <= 2 ^ 64 ->
  exists ba',
    (Write d ;; SetPosition (position_ ba) ;; Read (Z.of_nat (length d))) ba = (Ok d, ba') /\
    wf ba' /\ abs ba' = spec_write d (abs ba).
Proof.
  intros W Hd Hfit. assert (0 < length d)%nat by (destruct d; simpl; [done|lia]).
  destruct (Write_ok ba d W Hfit) as (ba1 & E1 & W1 & _ & A1 & _). prog_ok E1.
  pose proof (contents_length _ W1) as Hl1. pose proof (wf_pos _ W1). pose proof (wf_size _ W1).
  pose proof (wf_pos _ W). pose proof (abs_in_range _ W) as Hr.
  pose proof (f_equal fpos A1) as Hp1. pose proof (f_equal fbytes A1) as Hb1.
  cbn [abs spec_write fpos fbytes] in *.
  destruct (SetPosition_ok ba1 (position_ ba) W1 ltac:(lia))
    as (ba2 & E2 & W2 & _ & Hf2 & Hc2 & Hp2 & Hs2). prog_ok E2.
  assert (contents ba2 = contents ba1) as Hcs.
  { unfold contents. rewrite Hf2, Hs2. do 2 f_equal. lia. }
  destruct (Read_ok ba2 (Z.of_nat (length d)) W2 ltac:(lia) ltac:(lia) ltac:(lia))
    as (ba3 & E3 & W3 & _ & Hc3 & Hp3 & Hcs3). rewrite E3.
  exists ba3. rewrite Hp2, Hcs, Hb1, Nat2Z.id, slice_splice by done. split_and!; try done.
  rewrite <- A1. unfold abs. rewrite Hcs3, Hcs. f_equal. lia.
Qed.

(** ** Scatter/gather *)

(** Where the loop over the nodes starts. *)
Lemma iov_from_eq ba p n :
  wf ba -> 0 <= n -> 0 <= p < capacity_ ba -> p + n <= capacity_ ba ->
  exists i off, let b := Z.to_nat (base_size_ ba) in
    Z.to_nat p = (b * i + off)%nat /\ (i < length (nodes_ ba))%nat /\ (off < b)%nat /\
    (b * i + off + Z.to_nat n <= b * length (nodes_ ba))%nat /\
    iov_from ba (Some (Z.to_nat (p / base_size_ ba))) p n =
      iov_loop (S (length (nodes_ ba))) ba (Some i) (Z.of_nat off) (Z.of_nat b - Z.of_nat off) (Z.of_nat (Z.to_nat n)).
Proof.
  intros W Hn Hp Hfit. pose proof (wf_base _ W). pose proof (wf_base_cap _ W). pose proof (wf_cap64 _ W).
  pose proof (flat_length _ W) as Hfl. unfold flat in Hfl.
  rewrite (blocks_concat_length _ _ (wf_blocks _ W)) in Hfl.
  pose proof (Z.div_mod p (base_size_ ba) ltac:(lia)) as Hdm.
  pose proof (Z.mod_pos_bound p (base_size_ ba) ltac:(lia)).
  pose proof (Z.div_pos p (base_size_ ba) ltac:(lia) ltac:(lia)).
  assert (p / base_size_ ba < Z.of_nat (length (nodes_ ba))).
  { apply Z.div_lt_upper_bound; [lia|]. rewrite <- (wf_cap _ W). lia. }
  assert (Z.to_nat p = Z.to_nat (base_size_ ba) * Z.to_nat (p / base_size_ ba)
                       + Z.to_nat (p mod base_size_ ba))%nat as Hpn.
  { rewrite <- Z2Nat.inj_mul, <- Z2Nat.inj_add by lia. f_equal. lia. }
  exists (Z.to_nat (p / base_size_ ba)), (Z.to_nat (p mod base_size_ ba)). split_and!; [done|lia|lia|lia|].
  unfold iov_from, umod. destruct (Z.eqb_spec (base_size_ ba) 0); [lia|].
  rewrite (node_size_in (Z.to_nat (base_size_ ba)) ba (wf_blocks _ W)) by lia.
  rewrite u64_sub by lia. by rewrite !Z2Nat.id by lia.
Qed.

Lemma iov_from_ok ba p n :
  wf ba -> 0 <= n -> 0 <= p < capacity_ ba -> p + n <= capacity_ ba ->
  exists iovs,
    iov_from ba (Some (Z.to_nat (p / base_size_ ba))) p n = Ok iovs /\
    iov_bytes ba iovs = slice (Z.to_nat p) (Z.to_nat n) (flat ba).
Proof.
  intros W Hn Hp Hfit. destruct (iov_from_eq ba p n W Hn Hp Hfit) as (i & off & -> & Hi & Ho & Hf & ->).
  pose proof (wf_base _ W). apply iov_loop_ok; [lia|apply (wf_blocks _ W)|lia|lia|lia|lia].
Qed.

Lemma cursor_ptr ba :
  wf ba -> position_ ba < capacity_ ba -> cur_ ba = Some (Z.to_nat (position_ ba / base_size_ ba)).
Proof.
  intros W Hlt. destruct (wf_cursor ba W Hlt) as (i & off & Hc & _ & Ho & Hp & _).
  pose proof (wf_base _ W). pose proof (wf_pos _ W). rewrite Hc. f_equal.
  rewrite Z2Nat.inj_div by lia. rewrite Hp, Nat.mul_comm, Nat.div_add_l by lia.
  rewrite Nat.div_small by done. lia.
Qed.

(** [GetReadBuffers] describes, without moving the cursor, exactly the next
    [min(len, readable)] bytes after it, split over the nodes they lie in. *)
Theorem GetReadBuffers_ok ba len :
  wf ba -> 0 <= len ->
  exists iovs, GetReadBuffers ba len = Ok (iovs, Z.min len (size_ ba - position_ ba)) /\
    iov_bytes ba iovs
    = slice (Z.to_nat (position_ ba)) (Z.to_nat (Z.min len (size_ ba - position_ ba))) (contents ba).
Proof.
  intros W Hl. pose proof (wf_pos _ W). pose proof (wf_size _ W). pose proof (wf_cap64 _ W).
  unfold GetReadBuffers, GetReadSize. rewrite u64_sub by lia.
  replace (if size_ ba - position_ ba <? len then size_ ba - position_ ba else len)
    with (Z.min len (size_ ba - position_ ba)) by (bool_cases; lia).
  destruct (Z.eqb_spec (Z.min len (size_ ba - position_ ba)) 0) as [E|E].
  { exists []. rewrite E. by rewrite slice_0. }
  rewrite cursor_ptr by (done || lia).
  destruct (iov_from_ok ba (position_ ba) (Z.min len (size_ ba - position_ ba)) W) as (iovs & Ei & Hv); try lia.
  rewrite Ei. exists iovs. split; [done|]. rewrite Hv. unfold contents.
  by rewrite slice_take by lia.
Qed.

(** [GetWriteBuffers] grows the chain and hands out exactly [len] bytes of
    it starting at the cursor; neither the valid bytes nor the cursor change. *)
Theorem GetWriteBuffers_ok ba len :
  wf ba -> 0 <= len -> position_ ba + len + base_size_ ba <= 2 ^ 64 ->
  exists iovs ba', GetWriteBuffers len ba = (Ok (iovs, len), ba') /\ wf ba' /\ abs ba' = abs ba /\
    iov_bytes ba' iovs = slice (Z.to_nat (position_ ba)) (Z.to_nat len) (flat ba') /\
    length (iov_bytes ba' iovs) = Z.to_nat len.
Proof.
  intros W Hl Hfit. unfold GetWriteBuffers. destruct (Z.eqb_spec len 0) as [->|Hne].
  { exists [], ba. by rewrite slice_0. }
  destruct (AddCapacity_ok ba len W Hl Hfit) as (ba' & extra & E & W' & _ & Hp & Hs & Hf & Hc & _).
  prog_ok E. pose proof (wf_pos _ W'). pose proof (wf_size _ W).
  rewrite cursor_ptr by (done || lia).
  destruct (iov_from_ok ba' (position_ ba') len W') as (iovs & Ei & Hv); try lia.
  rewrite Ei. exists iovs, ba'. rewrite Hv, Hp. pose proof (flat_length _ W').
  pose proof (flat_length _ W). split_and!; try done.
  - unfold abs, contents. rewrite Hf, Hp, Hs. by rewrite take_app_le by lia.
  - apply slice_length. lia.
Qed.

(** The overload of [GetReadBuffers] that takes a position describes the bytes
    at that position, provided they lie inside the chain; the length it clips to
    is the one readable from the cursor, not from [position]. *)
Theorem GetReadBuffersAt_ok ba len position :
  wf ba -> 0 <= len -> 0 <= position ->
  position + Z.min len (size_ ba - position_ ba) <= capacity_ ba ->
  exists iovs, GetReadBuffersAt ba len position = Ok (iovs, Z.min len (size_ ba - position_ ba)) /\
    iov_bytes ba iovs
    = slice (Z.to_nat position) (Z.to_nat (Z.min len (size_ ba - position_ ba))) (flat ba).
Proof.
  intros W Hl Hp Hfit. pose proof (wf_pos _ W). pose proof (wf_size _ W). pose proof (wf_cap64 _ W).
  pose proof (wf_base _ W). unfold GetReadBuffersAt, GetReadSize. rewrite u64_sub by lia.
  replace (if size_ ba - position_ ba <? len then size_ ba - position_ ba else len)
    with (Z.min len (size_ ba - position_ ba)) by (bool_cases; lia).
  destruct (Z.eqb_spec (Z.min len (size_ ba - position_ ba)) 0) as [E|E].
  { exists []. rewrite E. by rewrite slice_0. }
  destruct (Z.eqb_spec (base_size_ ba) 0); [lia|].
  pose proof (Z.div_pos position (base_size_ ba) ltac:(lia) ltac:(lia)).
  assert (position / base_size_ ba < Z.of_nat (length (nodes_ ba))).
  { apply Z.div_lt_upper_bound; [lia|]. rewrite <- (wf_cap _ W). lia. }
  rewrite walk_ok by lia. rewrite Nat.add_0_l.
  destruct (iov_from_ok ba position (Z.min len (size_ ba - position_ ba)) W) as (iovs & Ei & Hv); try lia.
  rewrite Ei. by exists iovs.
Qed.
End Claims.

(** ** Dumps and files *)

Section Files.
Context `{Uninit}.

Lemma readable_slice ba :
  wf ba -> drop (Z.to_nat (position_ ba)) (contents ba)
  = slice (Z.to_nat (position_ ba)) (Z.to_nat (size_ ba - position_ ba)) (flat ba).
Proof.
  intros W. pose proof (wf_pos _ W). rewrite <- (slice_take _ _ (Z.to_nat (size_ ba))) by lia.
  unfold slice. symmetry. apply take_ge. rewrite length_drop, contents_length by done. lia.
Qed.

Lemma ToString_ok ba :
  wf ba -> ToString ba = Ok (drop (Z.to_nat (position_ ba)) (contents ba)).
Proof.
  intros W. pose proof (wf_pos _ W). pose proof (wf_size _ W). pose proof (wf_cap64 _ W).
  rewrite readable_slice by done. unfold ToString, ReadAt, GetReadSize. rewrite !u64_sub by lia.
  destruct (Z.eqb_spec (size_ ba - position_ ba) 0) as [E|E]; [by rewrite E, slice_0|].
  destruct (Z.ltb_spec (size_ ba - position_ ba) (size_ ba - position_ ba)); [lia|].
  destruct (wf_cursor ba W ltac:(lia)) as (i & off & Hcur & Hi & Hoff & Hpos & Hmod & _ & _).
  by rewrite (read_from_ok ba (position_ ba) (size_ ba - position_ ba) i off) by (done || lia).
Qed.

Lemma s32_small z : 0 <= z < 2 ^ 31 -> s32 z = z.
Proof. intros. apply wraps_small; lia. Qed.

Lemma write_file_loop_0 fuel ba c p : (0 < fuel)%nat -> write_file_loop fuel ba c p 0 = Ok [].
Proof. destruct fuel; [lia|done]. Qed.

(** One node per round once the position is at the start of a node. *)
Lemma write_file_loop_aligned ba fuel i n :
  wf ba -> base_size_ ba <= 2 ^ 31 -> (0 < n)%nat ->
  (Z.to_nat (base_size_ ba) * i + n <= Z.to_nat (base_size_ ba) * length (nodes_ ba))%nat ->
  (length (nodes_ ba) - i < fuel)%nat ->
  write_file_loop fuel ba (Some i) (base_size_ ba * Z.of_nat i) (Z.of_nat n)
  = Ok (slice (Z.to_nat (base_size_ ba) * i) n (flat ba)).
Proof.
  intros W H31. pose proof (wf_base _ W). pose proof (wf_blocks _ W) as Hbl.
  set (b := Z.to_nat (base_size_ ba)) in *. assert (base_size_ ba = Z.of_nat b) as Eb by lia.
  revert i n. induction fuel as [|fuel IH]; intros i n Hn Hfit Hf; [lia|].
  assert (i < length (nodes_ ba))%nat by nia.
  cbn [write_file_loop]. destruct (Z.ltb_spec 0 (Z.of_nat n)); [|lia].
  unfold umod. destruct (Z.eqb_spec (base_size_ ba) 0); [lia|].
  rewrite Z.mul_comm, Z.mod_mul, s32_small, Z.sub_0_r by lia. rewrite Eb.
  destruct (Z.ltb_spec (Z.of_nat b) (Z.of_nat n)).
  - rewrite (memcpy_from_in b ba Hbl i 0 b : _ -> _ -> memcpy_from ba (Some i) 0 _ = _) by lia.
    assert (S i < length (nodes_ ba))%nat by nia.
    rewrite node_next_in by done.
    replace (Z.of_nat i * Z.of_nat b + Z.of_nat b) with (base_size_ ba * Z.of_nat (S i)) by (rewrite Eb; nia).
    replace (Z.of_nat n - Z.of_nat b) with (Z.of_nat (n - b)) by lia.
    rewrite IH by nia. rewrite !Nat.add_0_r, Nat.mul_succ_r, <- slice_split. do 2 f_equal. lia.
  - rewrite (memcpy_from_in b ba Hbl i 0 n : _ -> _ -> memcpy_from ba (Some i) 0 _ = _) by lia.
    cbn [node_next]. rewrite Z.sub_diag, write_file_loop_0 by lia.
    by rewrite app_nil_r, Nat.add_0_r.
Qed.

(** [WriteToFile] stores exactly the bytes from the cursor to the end,
    provided the cursor is at the start of a node or at least a whole node's
    worth of bytes is readable. *)
Theorem WriteToFile_ok ba :
  wf ba -> base_size_ ba <= 2 ^ 31 ->
  position_ ba mod base_size_ ba = 0 \/ base_size_ ba <= size_ ba - position_ ba ->
  WriteToFile ba true = Ok (Some (drop (Z.to_nat (position_ ba)) (contents ba))).
Proof.
  intros W H31 Hcase. pose proof W as [Hb Hbl Hns Hcap Hp Hs H64 He Hc].
  rewrite readable_slice by done. unfold WriteToFile, GetReadSize. rewrite u64_sub by lia.
  destruct (decide (size_ ba = position_ ba)) as [E|Hne].
  { rewrite E, Z.sub_diag. cbn [write_file_loop]. by rewrite slice_0. }
  pose proof (flat_length _ W) as Hfl. unfold flat in Hfl. rewrite (blocks_concat_length _ _ Hbl) in Hfl.
  destruct (wf_cursor ba W ltac:(lia)) as (i & off & Hcur & Hi & Hoff & Hpos & Hmod & _ & _).
  unfold umod in Hmod. destruct (Z.eqb_spec (base_size_ ba) 0) as [|_]; [lia|].
  injection Hmod as Hmod. rewrite Hcur.
  set (b := Z.to_nat (base_size_ ba)) in *. set (n := Z.to_nat (size_ ba - position_ ba)).
  replace (size_ ba - position_ ba) with (Z.of_nat n) by lia.
  assert (b * i + off + n <= b * length (nodes_ ba))%nat by lia.
  destruct (decide (off = 0%nat)) as [->|Ho].
  - replace (position_ ba) with (base_size_ ba * Z.of_nat i) at 1 by lia.
    rewrite write_file_loop_aligned by (done || lia). fold b. do 3 f_equal. lia.
  - cbn [write_file_loop]. destruct (Z.ltb_spec 0 (Z.of_nat n)); [|lia].
    unfold umod. destruct (Z.eqb_spec (base_size_ ba) 0); [lia|].
    rewrite Hmod, s32_small by lia.
    replace (if base_size_ ba <? Z.of_nat n then base_size_ ba else Z.of_nat n)
      with (Z.of_nat b) by (bool_cases; lia).
    replace (Z.of_nat b - Z.of_nat off) with (Z.of_nat (b - off)) by lia.
    rewrite (memcpy_from_in b ba Hbl i off (b - off)) by lia. fold n. rewrite Hpos.
    destruct (decide (n = b - off)%nat) as [E|Hn2].
    + cbn [node_next]. rewrite E, Z.sub_diag, write_file_loop_0 by done. by rewrite app_nil_r.
    + assert (S i < length (nodes_ ba))%nat by nia. rewrite node_next_in by done.
      replace (position_ ba + Z.of_nat (b - off)) with (base_size_ ba * Z.of_nat (S i)) by nia.
      replace (Z.of_nat n - Z.of_nat (b - off)) with (Z.of_nat (n - (b - off))) by lia.
      rewrite write_file_loop_aligned by (done || lia || (fold b; nia)). fold b.
      replace (b * S i)%nat with (b * i + off + (b - off))%nat by lia.
      rewrite <- slice_split. do 3 f_equal. lia.
Qed.

Lemma read_file_loop_ok fuel ba rest :
  wf ba -> position_ ba + Z.of_nat (length rest) + base_size_ ba <= 2 ^ 64 ->
  (length rest < fuel)%nat ->
  exists ba', read_file_loop fuel rest ba = (Ok tt, ba') /\ wf ba' /\ same_config ba ba' /\
    abs ba' = spec_write rest (abs ba).
Proof.
  revert ba rest. induction fuel as [|fuel IH]; intros ba rest W Hfit Hf; [lia|].
  pose proof (wf_base _ W). cbn [read_file_loop].
  prog_ok (eq_refl : gets base_size_ ba = (Ok (base_size_ ba), ba)).
  set (d := take (Z.to_nat (base_size_ ba)) rest).
  assert (length d <= length rest)%nat by (unfold d; rewrite length_take; lia).
  destruct (Write_ok ba d W ltac:(lia)) as (ba1 & E1 & W1 & [Hb1 He1] & A1 & _). prog_ok E1.
  destruct (Z.ltb_spec (Z.of_nat (length rest)) (base_size_ ba)).
  { assert (d = rest) as -> by (apply take_ge; lia). by exists ba1. }
  assert (length d = Z.to_nat (base_size_ ba)) by (unfold d; rewrite length_take; lia).
  pose proof (f_equal fpos A1) as Hp1. cbn in Hp1. pose proof (wf_pos _ W). pose proof (wf_pos _ W1).
  destruct (IH ba1 (drop (Z.to_nat (base_size_ ba)) rest)) as (ba2 & E2 & W2 & [Hb2 He2] & A2);
    [done|rewrite length_drop, Hb1; lia|rewrite length_drop; lia|].
  exists ba2. rewrite E2. split_and!; try done; [split; congruence|].
  rewrite A2, A1, spec_write_app by (by apply abs_in_range). unfold d. by rewrite take_drop.
Qed.

(** Reading a file into a buffer appends the whole file at the cursor, in
    chunks of [base_size_], whatever the file's length. *)
Theorem ReadFromFile_ok ba bs :
  wf ba -> position_ ba + Z.of_nat (length bs) + base_size_ ba <= 2 ^ 64 ->
  exists ba', ReadFromFile (Some bs) ba = (Ok true, ba') /\ wf ba' /\
    abs ba' = spec_write bs (abs ba).
Proof.
  intros W Hfit. destruct (read_file_loop_ok (S (length bs)) ba bs W Hfit) as (ba' & E & W' & _ & A); [lia|].
  exists ba'. unfold ReadFromFile. prog_ok E. done.
Qed.
End Files.

(** One node of eight bytes holding [abcde], cursor at 1. *)
Definition mid_node : ByteArray := (SetPosition 1 (@Write zeroed (demo_bytes 5) (demo 8)).2).2.

(** With the cursor inside a node and less than a node to write, [WriteToFile]
    writes a part of the bytes and then follows a null pointer. *)
Theorem WriteToFile_mid_node : wf mid_node /\ WriteToFile mid_node true = Fail null_deref.
Proof.
  split; [|reflexivity].
  constructor; vm_compute; try done; try (by left). by repeat constructor.
Qed.

(** ** The theorems at concrete buffers *)

Lemma demo_wf : wf (demo 4).
Proof. apply new_ByteArray_wf. lia. Qed.

(** Six bytes in two nodes of four, cursor at 2. *)
Definition demo6 : ByteArray := (SetPosition 2 (@Write zeroed (demo_bytes 6) (demo 4)).2).2.

Lemma demo6_wf : wf demo6.
Proof. constructor; vm_compute; try done; try (by left); by repeat constructor. Qed.

Lemma write_read_roundtrip_witness :
  wf demo6 /\
  exists ba', (@Write zeroed (demo_bytes 7) ;; SetPosition 2 ;; Read 7) demo6 = (Ok (demo_bytes 7), ba') /\
    wf ba' /\ abs ba' = spec_write (demo_bytes 7) (abs demo6).
Proof.
  split; [apply demo6_wf|].
  apply (@write_read_roundtrip zeroed demo6 (demo_bytes 7)); [apply demo6_wf|discriminate|vm_compute; discriminate].
Defined.

Lemma GetReadBuffers_ok_witness :
  GetReadBuffers demo6 9 = Ok ([Iov 0 2 2; Iov 1 0 2], 4) /\
  exists iovs, GetReadBuffers demo6 9 = Ok (iovs, 4) /\ iov_bytes demo6 iovs = slice 2 4 (contents demo6).
Proof.
  split; [reflexivity|]. apply (GetReadBuffers_ok demo6 9); [apply demo6_wf|lia].
Defined.

Lemma GetWriteBuffers_ok_witness :
  exists iovs ba', @GetWriteBuffers zeroed 11 demo6 = (Ok (iovs, 11), ba') /\ wf ba' /\ abs ba' = abs demo6 /\
    iov_bytes ba' iovs = slice 2 11 (flat ba') /\ length (iov_bytes ba' iovs) = 11%nat.
Proof.
  apply (@GetWriteBuffers_ok zeroed demo6 11); [apply demo6_wf|lia|vm_compute; discriminate].
Defined.

Lemma GetReadBuffersAt_ok_witness :
  exists iovs, GetReadBuffersAt demo6 9 3 = Ok (iovs, 4) /\ iov_bytes demo6 iovs = slice 3 4 (flat demo6).
Proof.
  apply (GetReadBuffersAt_ok demo6 9 3); [apply demo6_wf|lia|lia|vm_compute; discriminate].
Defined.

Lemma WriteToFile_ok_witness : WriteToFile demo6 true = Ok (Some (drop 2 (demo_bytes 6))).
Proof.
  apply (WriteToFile_ok demo6); [apply demo6_wf|vm_compute; discriminate|right; vm_compute; discriminate].
Defined.

Lemma ReadFromFile_ok_witness :
  exists ba', @ReadFromFile zeroed (Some (demo_bytes 9)) demo6 = (Ok true, ba') /\ wf ba' /\
    abs ba' = spec_write (demo_bytes 9) (abs demo6).
Proof.
  apply (@ReadFromFile_ok zeroed demo6 (demo_bytes 9)); [apply demo6_wf|vm_compute; discriminate].
Defined.
