(* ===== verification/ByteCodec.v ===== *)
(** * Typed reads and writes of the byte buffer: [gudov/bytearray.cpp]

    Fixed-width integers in the buffer's byte order, variable-length integers,
    zigzag-coded signed integers, floating-point numbers as their bit patterns,
    and length-prefixed strings. *)

From S2P Require Import Prelude Endian ByteArray ByteArraySpec.
From stdpp Require Import base list numbers.
From Stdlib Require Import ZArith Lia Strings.Byte.
Open Scope Z_scope.
Open Scope prog_scope.

Section Codec.
Context `{Uninit} `{Host}.

(** ** Fixed width *)

(** The common body of the [WriteF*] functions of two bytes and more. *)
Definition write_fixed (T : int_type) (value : Z) : prog ByteArray unit :=
  let* endian := gets endian_ in
  let value := if negb (endian =? GUDOV_BYTE_ORDER) then ByteSwap T value else value in
  Write (mem_bytes T value).

Definition WriteFint8 (value : Z) : prog ByteArray unit := Write (mem_bytes int8_t value).
Definition WriteFuint8 (value : Z) : prog ByteArray unit := Write (mem_bytes uint8_t value).
Definition WriteFint16 (value : Z) : prog ByteArray unit := write_fixed int16_t value.
Definition WriteFuint16 (value : Z) : prog ByteArray unit := write_fixed uint16_t value.
Definition WriteFint32 (value : Z) : prog ByteArray unit := write_fixed int32_t value.
Definition WriteFuint32 (value : Z) : prog ByteArray unit := write_fixed uint32_t value.
Definition WriteFint64 (value : Z) : prog ByteArray unit := write_fixed int64_t value.
Definition WriteFuint64 (value : Z) : prog ByteArray unit := write_fixed uint64_t value.

(** The macro [XX(type)] of the [ReadF*] functions. *)
Definition read_fixed (T : int_type) : prog ByteArray Z :=
  let* bs := Read (Z.of_nat (ibytes T)) in
  let* endian := gets endian_ in
  let v := mem_value T bs in
  ret (if endian =? GUDOV_BYTE_ORDER then v else ByteSwap T v).

Definition ReadFint8 : prog ByteArray Z := let* bs := Read 1 in ret (mem_value int8_t bs).
Definition ReadFuint8 : prog ByteArray Z := let* bs := Read 1 in ret (mem_value uint8_t bs).
Definition ReadFint16 : prog ByteArray Z := read_fixed int16_t.
Definition ReadFuint16 : prog ByteArray Z := read_fixed uint16_t.
Definition ReadFint32 : prog ByteArray Z := read_fixed int32_t.
Definition ReadFuint32 : prog ByteArray Z := read_fixed uint32_t.
Definition ReadFint64 : prog ByteArray Z := read_fixed int64_t.
Definition ReadFuint64 : prog ByteArray Z := read_fixed uint64_t.

(** A [float] or [double] is its bit pattern, moved by [memcpy]. *)
Definition WriteFloat (bits : Z) : prog ByteArray unit := WriteFuint32 bits.
Definition WriteDouble (bits : Z) : prog ByteArray unit := WriteFuint64 bits.
Definition ReadFloat : prog ByteArray Z := ReadFuint32.
Definition ReadDouble : prog ByteArray Z := ReadFuint64.

(** ** Zigzag

    The signed negation and the signed doubling overflow, which is undefined, at
    the edges of the type. *)

Definition EncodeZigzag32 (v : Z) : result Z :=
  if v <? 0 then
    if v =? - 2 ^ 31 then Fail undefined else Ok (u32 (u32 (- v) * 2 - 1))
  else
    if 2 ^ 31 <=? v * 2 then Fail undefined else Ok (u32 (v * 2)).

Definition EncodeZigzag64 (v : Z) : result Z :=
  if v <? 0 then
    if v =? - 2 ^ 63 then Fail undefined else Ok (u64 (u64 (- v) * 2 - 1))
  else
    if 2 ^ 63 <=? v * 2 then Fail undefined else Ok (u64 (v * 2)).

Definition DecodeZigzag32 (v : Z) : Z := s32 (Z.lxor (Z.shiftr v 1) (u32 (- Z.land v 1))).

Definition DecodeZigzag64 (v : Z) : Z := s64 (Z.lxor (Z.shiftr v 1) (u64 (- Z.land v 1))).

(** ** Variable-length integers *)

(** The loop of [WriteUint32] and [WriteUint64] over [uint8_t tmp[cap]]: storing
    past the end of [tmp] is undefined. *)
Fixpoint varint_loop (fuel cap : nat) (value : Z) (tmp : list byte) : result (list byte) :=
  match fuel with
  | O => Fail out_of_fuel
  | S fuel =>
    if negb (Nat.ltb (length tmp) cap) then Fail undefined
    else if 128 <=? value then
      varint_loop fuel cap (Z.shiftr value 7) (tmp ++ [z2b (Z.lor (Z.land value 127) 128)])
    else Ok (tmp ++ [z2b value])
  end.

Definition WriteUint32 (value : Z) : prog ByteArray unit :=
  let* tmp := lift (varint_loop 6 5 value []) in Write tmp.

Definition WriteUint64 (value : Z) : prog ByteArray unit :=
  let* tmp := lift (varint_loop 11 10 value []) in Write tmp.

Definition WriteInt32 (value : Z) : prog ByteArray unit :=
  let* v := lift (EncodeZigzag32 value) in WriteUint32 v.

Definition WriteInt64 (value : Z) : prog ByteArray unit :=
  let* v := lift (EncodeZigzag64 value) in WriteUint64 v.

(** [(uint32_t)x << i]: undefined from 32 on. *)
Definition shl32 (x i : Z) : result Z :=
  if i <? 32 then Ok (u32 (Z.shiftl x i)) else Fail undefined.

(** The loop [for (int i = 0; i < bits; i += 7)] of [ReadUint32] and [ReadUint64];
    both shift a [uint32_t]. *)
Fixpoint read_varint (fuel : nat) (bits i result : Z) : prog ByteArray Z :=
  match fuel with
  | O => fail out_of_fuel
  | S fuel =>
    if i <? bits then
      let* b := ReadFuint8 in
      if b <? 128 then
        let* s := lift (shl32 b i) in ret (Z.lor result s)
      else
        let* s := lift (shl32 (Z.land b 127) i) in
        read_varint fuel bits (i + 7) (Z.lor result s)
    else ret result
  end.

Definition ReadUint32 : prog ByteArray Z := read_varint 6 32 0 0.

Definition ReadUint64 : prog ByteArray Z := read_varint 11 64 0 0.

Definition ReadInt32 : prog ByteArray Z := let* v := ReadUint32 in ret (DecodeZigzag32 v).

Definition ReadInt64 : prog ByteArray Z := let* v := ReadUint64 in ret (DecodeZigzag64 v).

(** ** Strings *)

Definition WriteStringF16 (value : list byte) : prog ByteArray unit :=
  WriteFuint16 (u16 (Z.of_nat (length value))) ;; Write value.
Definition WriteStringF32 (value : list byte) : prog ByteArray unit :=
  WriteFuint32 (u32 (Z.of_nat (length value))) ;; Write value.
Definition WriteStringF64 (value : list byte) : prog ByteArray unit :=
  WriteFuint64 (Z.of_nat (length value)) ;; Write value.
Definition WriteStringVint (value : list byte) : prog ByteArray unit :=
  WriteUint64 (Z.of_nat (length value)) ;; Write value.
Definition WriteStringWithoutLength (value : list byte) : prog ByteArray unit := Write value.

(** [std::string::max_size()] *)
Definition max_string : Z := 2 ^ 63 - 1.

(** [buff.resize(len); Read(&buff[0], len)] *)
Definition read_string (len : Z) : prog ByteArray (list byte) :=
  require (len <=? max_string) length_error ;; Read len.

Definition ReadStringF16 : prog ByteArray (list byte) := let* len := ReadFuint16 in read_string len.
Definition ReadStringF32 : prog ByteArray (list byte) := let* len := ReadFuint32 in read_string len.
Definition ReadStringF64 : prog ByteArray (list byte) := let* len := ReadFuint64 in read_string len.
Definition ReadStringVint : prog ByteArray (list byte) := let* len := ReadUint64 in read_string len.
End Codec.

(** ** Writers emit, readers parse

    [emits m e d]: on a buffer in byte order [e] the writer [m] puts the bytes [d]
    at the cursor and moves past them.  [parses m e d a]: on a buffer in byte order [e] whose
    readable bytes start with [d], the reader [m] returns [a] and moves past [d]. *)

Definition readable (ba : ByteArray) : list byte := drop (Z.to_nat (position_ ba)) (contents ba).

Definition emits (m : prog ByteArray unit) (e : Z) (d : list byte) : Prop :=
  forall ba, wf ba -> endian_ ba = e ->
  position_ ba + Z.of_nat (length d) + base_size_ ba <= 2 ^ 64 ->
  exists ba', m ba = (Ok tt, ba') /\ wf ba' /\ same_config ba ba' /\
    abs ba' = spec_write d (abs ba).

Definition parses {A} (m : prog ByteArray A) (e : Z) (d : list byte) (a : A) : Prop :=
  forall ba rest, wf ba -> endian_ ba = e -> readable ba = d ++ rest ->
  exists ba', m ba = (Ok a, ba') /\ wf ba' /\ same_config ba ba' /\
    readable ba' = rest /\ contents ba' = contents ba.

Definition order_ok (e : Z) : Prop := e = GUDOV_LITTLE_ENDIAN \/ e = GUDOV_BIG_ENDIAN.

Lemma readable_length ba :
  wf ba -> Z.of_nat (length (readable ba)) = size_ ba - position_ ba.
Proof.
  intros W. unfold readable. rewrite length_drop, contents_length by done.
  pose proof (wf_pos _ W). lia.
Qed.

Lemma parses_ret {A} e (a : A) : parses (ret a) e [] a.
Proof. intros ba rest W He Hr. by exists ba. Qed.

Lemma parses_bind {A B} (m : prog ByteArray A) (k : A -> prog ByteArray B) e d1 d2 a b :
  parses m e d1 a -> parses (k a) e d2 b -> parses (bind m k) e (d1 ++ d2) b.
Proof.
  intros Hm Hk ba rest W He Hr. rewrite <- app_assoc in Hr.
  destruct (Hm ba _ W He Hr) as (ba1 & E1 & W1 & [Hb1 He1] & Hr1 & Hc1).
  destruct (Hk ba1 rest W1 ltac:(congruence) Hr1) as (ba2 & E2 & W2 & [Hb2 He2] & Hr2 & Hc2).
  exists ba2. rewrite (bind_ok _ _ _ _ _ E1). split_and!; try done; [split|]; congruence.
Qed.

Lemma parses_map {A B} (m : prog ByteArray A) (f : A -> B) e d a :
  parses m e d a -> parses (let* x := m in ret (f x)) e d (f a).
Proof.
  intros Hm. rewrite <- (app_nil_r d). eapply parses_bind; [exact Hm|]. apply parses_ret.
Qed.

Lemma parses_lift {A B} (r : result A) (k : A -> prog ByteArray B) e d a b :
  r = Ok a -> parses (k a) e d b -> parses (bind (lift r) k) e d b.
Proof. intros -> Hk. by apply (parses_bind (ret a) k e [] d a b (parses_ret e a)). Qed.

Lemma parses_endian {B} (k : Z -> prog ByteArray B) e d b :
  parses (k e) e d b -> parses (bind (gets endian_) k) e d b.
Proof. intros Hk ba rest W He Hr. unfold bind, gets. rewrite He. by apply Hk. Qed.

Lemma parses_Read e d n : d <> [] -> Z.of_nat (length d) = n -> parses (Read n) e d d.
Proof.
  intros Hd <- ba rest W He Hr. pose proof (readable_length _ W) as Hl.
  rewrite Hr, length_app in Hl. pose proof (wf_size _ W).
  assert (0 < length d)%nat by (destruct d; simpl; [done|lia]).
  destruct (Read_ok ba (Z.of_nat (length d)) W) as (ba' & E & W' & C & _ & Hp & Hcs); try lia.
  pose proof (wf_pos _ W). exists ba'. split_and!; try done; try apply C.
  - rewrite E. do 2 f_equal. unfold slice. fold (readable ba). rewrite Hr, Nat2Z.id.
    rewrite take_app_le by done. by apply take_ge.
  - unfold readable. rewrite Hcs, Hp.
    rewrite Z2Nat.inj_add, Nat2Z.id by lia. rewrite <- drop_drop. fold (readable ba).
    rewrite Hr. apply drop_app_length.
Qed.

Lemma emits_ret e : emits (ret tt) e [].
Proof.
  intros ba W He Hfit. exists ba. split_and!; try done.
  unfold spec_write. cbn [length]. by rewrite splice_nil, Nat.add_0_r.
Qed.

Lemma emits_Write `{Uninit} e d : emits (Write d) e d.
Proof.
  intros ba W He Hfit. destruct (Write_ok ba d W Hfit) as (ba' & E & W' & C & A & _). by exists ba'.
Qed.

Lemma emits_lift {A} (r : result A) (k : A -> prog ByteArray unit) e d a :
  r = Ok a -> emits (k a) e d -> emits (bind (lift r) k) e d.
Proof. intros -> Hk ba. by apply Hk. Qed.

Lemma emits_endian (k : Z -> prog ByteArray unit) e d :
  emits (k e) e d -> emits (bind (gets endian_) k) e d.
Proof. intros Hk ba W He. unfold bind, gets. rewrite He. by apply Hk. Qed.

(** Writers one after the other emit their bytes one after the other. *)
Lemma emits_bind (m1 m2 : prog ByteArray unit) e d1 d2 :
  emits m1 e d1 -> emits m2 e d2 -> emits (m1 ;; m2) e (d1 ++ d2).
Proof.
  intros H1 H2 ba W He. rewrite length_app. intros Hfit.
  destruct (H1 ba W He ltac:(lia)) as (ba1 & E1 & W1 & [Hb1 He1] & A1). prog_ok E1.
  pose proof (f_equal fpos A1) as Hp. cbn in Hp. pose proof (wf_pos _ W). pose proof (wf_pos _ W1).
  destruct (H2 ba1 W1 ltac:(congruence) ltac:(lia)) as (ba2 & E2 & W2 & [Hb2 He2] & A2).
  exists ba2. split_and!; try done; [split; congruence|].
  rewrite A2, A1. apply spec_write_app. by apply abs_in_range.
Qed.

(** After a write, going back to where it started leaves what was written, and
    what followed it, to be read. *)
Lemma rewind (w : prog ByteArray unit) e d ba :
  emits w e d -> wf ba -> endian_ ba = e ->
  position_ ba + Z.of_nat (length d) + base_size_ ba <= 2 ^ 64 ->
  exists ba',
    (forall A (r : prog ByteArray A), (w ;; SetPosition (position_ ba) ;; r) ba = r ba') /\
    wf ba' /\ same_config ba ba' /\
    readable ba' = d ++ drop (Z.to_nat (position_ ba) + length d) (contents ba) /\
    contents ba' = splice (Z.to_nat (position_ ba)) d (contents ba).
Proof.
  intros Hw W He Hfit. destruct (Hw ba W He Hfit) as (ba1 & E1 & W1 & [Hb1 He1] & A1).
  pose proof (f_equal fpos A1) as Hp1. pose proof (f_equal fbytes A1) as Hf1.
  cbn [abs spec_write fpos fbytes] in *.
  pose proof (wf_pos _ W). pose proof (wf_pos _ W1). pose proof (wf_size _ W1).
  destruct (SetPosition_ok ba1 (position_ ba) W1 ltac:(lia))
    as (ba2 & E2 & W2 & [Hb2 He2] & Hfl & Hc2 & Hp2 & Hs2).
  assert (contents ba2 = contents ba1) as Hcs.
  { unfold contents. rewrite Hfl, Hs2. do 2 f_equal. lia. }
  pose proof (abs_in_range _ W) as Hin. cbn in Hin.
  exists ba2. split_and!; try done; [|split; congruence| |congruence].
  - intros A r. prog_ok E1. by prog_ok E2.
  - unfold readable. rewrite Hcs, Hf1, Hp2. unfold splice.
    rewrite drop_app_ge by (rewrite length_take; lia).
    rewrite length_take, Nat.min_l by lia. by rewrite Nat.sub_diag.
Qed.

(** What a writer emits, read back from where it was written. *)
Lemma emits_parses {A} (w : prog ByteArray unit) (r : prog ByteArray A) e d a ba :
  emits w e d -> parses r e d a -> wf ba -> endian_ ba = e ->
  position_ ba + Z.of_nat (length d) + base_size_ ba <= 2 ^ 64 ->
  exists ba', (w ;; SetPosition (position_ ba) ;; r) ba = (Ok a, ba') /\ wf ba' /\
    contents ba' = splice (Z.to_nat (position_ ba)) d (contents ba).
Proof.
  intros Hw Hr W He Hfit. destruct (rewind w e d ba Hw W He Hfit) as (ba1 & E1 & W1 & [_ He1] & Hr1 & Hc1).
  destruct (Hr ba1 _ W1 ltac:(congruence) Hr1) as (ba2 & E2 & W2 & _ & _ & Hc2).
  exists ba2. rewrite E1. split_and!; try done. congruence.
Qed.

#[export] Hint Resolve emits_Write emits_ret parses_ret : gudov.

(** ** Fixed width *)

Section Fixed.
Context `{Uninit} `{Host}.

Lemma emits_fixed T e v : order_ok e -> emits (write_fixed T v) e (wire_bytes e T v).
Proof.
  intros He. apply emits_endian. rewrite <- (mem_bytes_swapped e T v He).
  destruct (e =? GUDOV_BYTE_ORDER); apply emits_Write.
Qed.

Lemma parses_fixed T e v :
  (0 < ibytes T)%nat -> order_ok e -> in_range T v -> parses (read_fixed T) e (wire_bytes e T v) v.
Proof.
  intros HT He Hv. pose proof (wire_bytes_length e T v) as Hl.
  rewrite <- (app_nil_r (wire_bytes e T v)). eapply parses_bind.
  - apply parses_Read; [|by rewrite Hl]. intros E. rewrite E in Hl. simpl in Hl. lia.
  - apply parses_endian. cbv beta zeta. rewrite mem_value_swapped by done.
    rewrite wire_value_bytes by done. apply parses_ret.
Qed.

(** One byte has no order. *)
Lemma mem_bytes_byte T e v : ibytes T = 1%nat -> mem_bytes T v = wire_bytes e T v.
Proof. intros HT. unfold mem_bytes, wire_bytes. rewrite HT. by destruct (_ =? _), (_ =? _). Qed.

Lemma parses_byte T e v :
  ibytes T = 1%nat -> in_range T v ->
  parses (let* bs := Read 1 in ret (mem_value T bs)) e (wire_bytes e T v) v.
Proof.
  intros HT Hv. pose proof (wire_bytes_length e T v) as Hl. rewrite HT in Hl.
  assert (mem_value T (wire_bytes e T v) = v) as E.
  { rewrite <- (wire_value_bytes GUDOV_BYTE_ORDER T v) at 2 by (done || lia).
    rewrite <- (mem_bytes_byte T GUDOV_BYTE_ORDER v HT), (mem_bytes_byte T e v HT).
    unfold mem_value, wire_value. done. }
  rewrite <- E at 2. apply (parses_map (Read 1) (mem_value T)).
  apply parses_Read; [|by rewrite Hl]. intros E0. rewrite E0 in Hl. done.
Qed.
End Fixed.

(** ** Variable length

    The base-128 digits of a number, low digit first, all but the last with the
    high bit set; [k] bounds their number. *)
Fixpoint leb128 (k : nat) (v : Z) : list byte :=
  match k with
  | O => []
  | S k => if v <? 128 then [z2b v] else z2b (v mod 128 + 128) :: leb128 k (v / 128)
  end.

Lemma leb128_length k v : (length (leb128 k v) <= k)%nat.
Proof. revert v. induction k; intros v; simpl; [lia|]. case_match; simpl; [lia|]. by apply le_n_S. Qed.

Lemma leb128_nonempty k v : (0 < k)%nat -> leb128 k v <> [].
Proof. destruct k; simpl; [lia|]. by case_match. Qed.

Lemma lor_shiftl_add r c i : 0 <= i -> 0 <= r < 2 ^ i -> Z.lor r (Z.shiftl c i) = r + c * 2 ^ i.
Proof.
  intros Hi Hr. assert (Z.land r (Z.shiftl c i) = 0) as E.
  { apply Z.bits_inj'. intros n Hn. rewrite Z.land_spec, Z.bits_0, Z.shiftl_spec by done.
    destruct (decide (n < i)).
    - rewrite (Z.testbit_neg_r c) by lia. apply andb_false_r.
    - rewrite <- (Z.mod_small r (2 ^ i)) by done. rewrite Z.mod_pow2_bits_high by lia. done. }
  pose proof (Z.add_lor_land r (Z.shiftl c i)) as Ha. rewrite E in Ha.
  rewrite Z.shiftl_mul_pow2 in * by lia. lia.
Qed.

Lemma low7 v : Z.land v 127 = v mod 128.
Proof. change 127 with (Z.ones 7). rewrite Z.land_ones by lia. done. Qed.

Lemma digit_bits v : Z.lor (Z.land v 127) 128 = v mod 128 + 128.
Proof.
  rewrite low7. change 128 with (Z.shiftl 1 7) at 2. rewrite lor_shiftl_add; [done|lia|].
  pose proof (Z.mod_pos_bound v 128). change (2 ^ 7) with 128. lia.
Qed.

Lemma varint_loop_ok fuel cap v tmp :
  0 <= v < 2 ^ (7 * Z.of_nat (cap - length tmp)) -> (length tmp < cap)%nat ->
  (cap - length tmp <= fuel)%nat ->
  varint_loop fuel cap v tmp = Ok (tmp ++ leb128 (cap - length tmp) v).
Proof.
  revert v tmp. induction fuel as [|fuel IH]; intros v tmp Hv Hl Hf; [lia|]. cbn [varint_loop].
  rewrite (proj2 (Nat.ltb_lt _ _) Hl). cbn [negb].
  destruct (cap - length tmp)%nat as [|k] eqn:Ek; [lia|]. cbn [leb128].
  destruct (Z.leb_spec 128 v), (Z.ltb_spec v 128); try lia; [|done].
  rewrite digit_bits, Z.shiftr_div_pow2 by lia. change (2 ^ 7) with 128.
  set (tmp' := tmp ++ [z2b (v mod 128 + 128)]).
  assert (length tmp' = S (length tmp)) as Hl' by (unfold tmp'; rewrite length_app; simpl; lia).
  assert (cap - length tmp' = k)%nat as Ek' by lia.
  replace (7 * Z.of_nat (S k)) with (7 + 7 * Z.of_nat k) in Hv by lia.
  rewrite Z.pow_add_r in Hv by lia. change (2 ^ 7) with 128 in Hv.
  rewrite IH.
  - rewrite Ek'. unfold tmp'. by rewrite <- app_assoc.
  - rewrite Ek'. split; [apply Z.div_pos; lia|]. apply Z.div_lt_upper_bound; lia.
  - destruct k; [|lia]. change (2 ^ (7 * Z.of_nat 0)) with 1 in Hv. lia.
  - lia.
Qed.

Section Varint.
Context `{Uninit} `{Host}.

Lemma emits_varint32 e v : 0 <= v < 2 ^ 32 -> emits (WriteUint32 v) e (leb128 5 v).
Proof.
  intros Hv. apply (emits_lift _ _ e _ (leb128 5 v)); [|apply emits_Write].
  apply (varint_loop_ok 6 5 v []); simpl; lia.
Qed.

Lemma emits_varint64 e v : 0 <= v < 2 ^ 64 -> emits (WriteUint64 v) e (leb128 10 v).
Proof.
  intros Hv. apply (emits_lift _ _ e _ (leb128 10 v)); [|apply emits_Write].
  apply (varint_loop_ok 11 10 v []); simpl; lia.
Qed.

Lemma parses_digit e v : 0 <= v < 256 -> parses ReadFuint8 e [z2b v] v.
Proof.
  intros Hv. apply (parses_byte uint8_t e v eq_refl) in Hv. unfold wire_bytes in Hv.
  cbn in Hv. by destruct (e =? _).
Qed.

Lemma shl32_small x i : 0 <= x -> 0 <= i < 32 -> x * 2 ^ i < 2 ^ 32 -> shl32 x i = Ok (Z.shiftl x i).
Proof.
  intros Hx Hi Hlt. unfold shl32. destruct (Z.ltb_spec i 32); [|lia]. f_equal.
  rewrite Z.shiftl_mul_pow2 by lia. apply wrapu_small. nia.
Qed.

(** The decoder of a number that fits the 32 bits the shifts keep. *)
Lemma parses_varint bits fuel k i r v e :
  32 <= bits -> 0 <= i < 32 -> 0 <= r < 2 ^ i -> 0 <= v -> v * 2 ^ i < 2 ^ 32 ->
  v < 2 ^ (7 * Z.of_nat k) -> (0 < k)%nat -> (k <= fuel)%nat ->
  parses (read_varint fuel bits i r) e (leb128 k v) (r + v * 2 ^ i).
Proof.
  intros Hbits. revert k i r v. induction fuel as [|fuel IH];
    intros k i r v Hi Hr Hv Hfit Hk Hk0 Hf; [lia|].
  destruct k as [|k]; [lia|]. cbn [read_varint leb128]. destruct (Z.ltb_spec i bits); [|lia].
  destruct (Z.ltb_spec v 128).
  - eapply (parses_bind _ _ e [z2b v] [] v); [apply parses_digit; lia|].
    rewrite (proj2 (Z.ltb_lt _ _)) by lia.
    apply (parses_lift _ _ e [] (Z.shiftl v i)); [by apply shl32_small|].
    rewrite lor_shiftl_add by lia. apply parses_ret.
  - assert (i + 7 < 32).
    { apply (Z.pow_lt_mono_r_iff 2); [lia..|]. rewrite Z.pow_add_r by lia. change (2 ^ 7) with 128. nia. }
    pose proof (Z.div_mod v 128 ltac:(lia)) as Hdm. pose proof (Z.mod_pos_bound v 128 ltac:(lia)).
    assert (2 ^ (i + 7) = 128 * 2 ^ i) as Hp7 by (rewrite Z.pow_add_r by lia; lia).
    assert (0 <= v / 128) by (apply Z.div_pos; lia).
    eapply (parses_bind _ _ e [z2b (v mod 128 + 128)] (leb128 k (v / 128)) (v mod 128 + 128));
      [apply parses_digit; lia|].
    rewrite (proj2 (Z.ltb_ge _ _)) by lia.
    replace (Z.land (v mod 128 + 128) 127) with (v mod 128).
    2:{ rewrite low7, <- Zplus_mod_idemp_r, Z.mod_same, Z.add_0_r, Z.mod_mod; lia. }
    apply (parses_lift _ _ e _ (Z.shiftl (v mod 128) i)); [apply shl32_small; nia|].
    rewrite lor_shiftl_add by lia.
    replace (r + v * 2 ^ i) with ((r + v mod 128 * 2 ^ i) + v / 128 * 2 ^ (i + 7)) by (rewrite Hp7; nia).
    replace (7 * Z.of_nat (S k)) with (7 + 7 * Z.of_nat k) in Hk by lia.
    rewrite Z.pow_add_r in Hk by lia. change (2 ^ 7) with 128 in Hk.
    apply IH; try nia.
    destruct k; [|lia]. change (2 ^ (7 * Z.of_nat 0)) with 1 in Hk. lia.
Qed.

Lemma parses_Uint32 e v : 0 <= v < 2 ^ 32 -> parses ReadUint32 e (leb128 5 v) v.
Proof.
  intros Hv. rewrite <- (Z.mul_1_r v) at 2. rewrite <- (Z.add_0_l (v * 1)).
  apply (parses_varint 32 6 5 0 0); simpl; lia.
Qed.

Lemma parses_Uint64 e v : 0 <= v < 2 ^ 32 -> parses ReadUint64 e (leb128 10 v) v.
Proof.
  intros Hv. rewrite <- (Z.mul_1_r v) at 2. rewrite <- (Z.add_0_l (v * 1)).
  apply (parses_varint 64 11 10 0 0); simpl; lia.
Qed.
End Varint.

(** *** Numbers beyond 32 bits *)

Definition crashes {A} (m : prog ByteArray A) (e : Z) (d : list byte) : Prop :=
  forall ba rest, wf ba -> endian_ ba = e -> readable ba = d ++ rest ->
  exists ba', m ba = (Fail undefined, ba').

Section Wide.
Context `{Uninit} `{Host}.

Lemma crashes_bind {A B} (m : prog ByteArray A) (k : A -> prog ByteArray B) e d1 d2 a :
  parses m e d1 a -> crashes (k a) e d2 -> crashes (bind m k) e (d1 ++ d2).
Proof.
  intros Hm Hk ba rest W He Hr. rewrite <- app_assoc in Hr.
  destruct (Hm ba _ W He Hr) as (ba1 & E1 & W1 & [_ He1] & Hr1 & _).
  destruct (Hk ba1 rest W1 ltac:(congruence) Hr1) as (ba2 & E2).
  exists ba2. by rewrite (bind_ok _ _ _ _ _ E1).
Qed.

(** The continuation digit of a number of at least two digits. *)
Lemma cont_digit v : 128 <= v ->
  128 <= v mod 128 + 128 < 256 /\ Z.land (v mod 128 + 128) 127 = v mod 128.
Proof.
  intros Hv. pose proof (Z.mod_pos_bound v 128 ltac:(lia)). split; [lia|].
  rewrite low7, <- Zplus_mod_idemp_r, Z.mod_same, Z.add_0_r, Z.mod_mod; lia.
Qed.

Lemma leb128_cont k v :
  128 <= v -> leb128 (S k) v = [z2b (v mod 128 + 128)] ++ leb128 k (v / 128).
Proof. intros Hv. cbn [leb128]. by rewrite (proj2 (Z.ltb_ge _ _)) by lia. Qed.

(** The sixth digit is shifted by 35, which is undefined on a [uint32_t]. *)
Lemma crashes_varint j fuel m r v e :
  2 ^ (7 * Z.of_nat j) <= v -> (j < m)%nat -> (j < fuel)%nat -> (j <= 5)%nat ->
  crashes (read_varint fuel 64 (35 - 7 * Z.of_nat j) r) e (leb128 m v).
Proof.
  revert fuel m r v. induction j as [|j IH]; intros fuel m r v Hv Hm Hf Hj;
    (destruct fuel as [|fuel]; [lia|]); (destruct m as [|m]; [lia|]); cbn [read_varint].
  - change (35 - 7 * Z.of_nat 0) with 35. cbn [Z.ltb Z.compare Pos.compare Pos.compare_cont].
    destruct (Z.ltb_spec v 128) as [Hs|Hs].
    + cbn [leb128]. rewrite (proj2 (Z.ltb_lt _ _) Hs).
      apply (crashes_bind _ _ e [z2b v] [] v); [apply parses_digit; simpl in *; lia|].
      rewrite (proj2 (Z.ltb_lt _ _)) by lia. intros ba rest _ _ _. by exists ba.
    + rewrite leb128_cont by done. destruct (cont_digit v Hs) as [Hd El].
      eapply crashes_bind; [apply parses_digit; lia|].
      rewrite (proj2 (Z.ltb_ge _ _)) by lia. intros ba rest _ _ _. by exists ba.
  - replace (7 * Z.of_nat (S j)) with (7 + 7 * Z.of_nat j) in * by lia.
    rewrite Z.pow_add_r in Hv by lia. change (2 ^ 7) with 128 in Hv.
    assert (0 < 2 ^ (7 * Z.of_nat j)) by (apply Z.pow_pos_nonneg; lia).
    assert (128 <= v) as Hs by nia. rewrite leb128_cont by done. destruct (cont_digit v Hs) as [Hd El].
    rewrite (proj2 (Z.ltb_lt _ _)) by lia.
    eapply crashes_bind; [apply parses_digit; lia|].
    rewrite (proj2 (Z.ltb_ge _ _)) by lia. unfold shl32. rewrite (proj2 (Z.ltb_lt _ _)) by lia.
    replace (35 - (7 + 7 * Z.of_nat j) + 7) with (35 - 7 * Z.of_nat j) by lia.
    intros ba rest. unfold bind, lift. apply IH; [|lia..].
    apply Z.div_le_lower_bound; lia.
Qed.

(** The fifth digit is shifted by 28 inside 32 bits, which drops its high part. *)
Lemma parses_varint_trunc j fuel m r v e :
  let i := 28 - 7 * Z.of_nat j in
  2 ^ (7 * Z.of_nat j) <= v < 2 ^ (7 + 7 * Z.of_nat j) -> (j < m)%nat -> (j < fuel)%nat -> (j <= 4)%nat ->
  0 <= r < 2 ^ i ->
  parses (read_varint fuel 64 i r) e (leb128 m v) (r + v mod 2 ^ (4 + 7 * Z.of_nat j) * 2 ^ i).
Proof.
  revert fuel m r v. induction j as [|j IH]; intros fuel m r v i Hv Hm Hf Hj Hr;
    (destruct fuel as [|fuel]; [lia|]); (destruct m as [|m]; [lia|]); cbn [read_varint].
  - change i with 28 in *. clear i. cbn [Z.ltb Z.compare Pos.compare Pos.compare_cont].
    cbn [leb128]. rewrite (proj2 (Z.ltb_lt v 128)) by (simpl in *; lia).
    eapply (parses_bind _ _ e [z2b v] [] v); [apply parses_digit; simpl in *; lia|].
    rewrite (proj2 (Z.ltb_lt _ _)) by (simpl in *; lia).
    apply (parses_lift _ _ e [] (Z.shiftl (v mod 16) 28)).
    + unfold shl32. cbn [Z.ltb Z.compare Pos.compare Pos.compare_cont]. f_equal.
      rewrite !Z.shiftl_mul_pow2 by lia. unfold u32, wrapu.
      change (2 ^ 32) with (16 * 2 ^ 28). by rewrite Z.mul_mod_distr_r by lia.
    + rewrite lor_shiftl_add by lia. apply parses_ret.
  - replace (7 * Z.of_nat (S j)) with (7 + 7 * Z.of_nat j) in * by lia.
    replace (4 + (7 + 7 * Z.of_nat j)) with (7 + (4 + 7 * Z.of_nat j)) by lia.
    rewrite !(Z.pow_add_r 2 7) in * by lia. change (2 ^ 7) with 128 in *.
    assert (0 < 2 ^ (7 * Z.of_nat j)) by (apply Z.pow_pos_nonneg; lia).
    assert (0 < 2 ^ (4 + 7 * Z.of_nat j)) by (apply Z.pow_pos_nonneg; lia).
    assert (128 <= v) as Hs by nia. rewrite leb128_cont by done. destruct (cont_digit v Hs) as [Hd El].
    assert (2 ^ (i + 7) = 128 * 2 ^ i) as Hp7 by (rewrite Z.pow_add_r by lia; lia).
    assert (2 ^ i * 128 <= 2 ^ 28).
    { rewrite Z.mul_comm, <- Hp7. apply Z.pow_le_mono_r; lia. }
    rewrite (proj2 (Z.ltb_lt i 64)) by lia.
    eapply parses_bind; [apply parses_digit; lia|].
    rewrite (proj2 (Z.ltb_ge _ _)) by lia. rewrite El.
    pose proof (Z.mod_pos_bound v 128 ltac:(lia)).
    apply (parses_lift _ _ e _ (Z.shiftl (v mod 128) i)); [apply shl32_small; nia|].
    rewrite lor_shiftl_add by lia.
    rewrite Z.rem_mul_r by lia.
    replace (r + (v mod 128 + 128 * ((v / 128) mod 2 ^ (4 + 7 * Z.of_nat j))) * 2 ^ i)
      with ((r + v mod 128 * 2 ^ i) + (v / 128) mod 2 ^ (4 + 7 * Z.of_nat j) * 2 ^ (28 - 7 * Z.of_nat j)).
    2:{ replace (28 - 7 * Z.of_nat j) with (i + 7) by lia. rewrite Hp7. lia. }
    replace (i + 7) with (28 - 7 * Z.of_nat j) in * by lia.
    apply IH; [|lia..|].
    + split; [apply Z.div_le_lower_bound|apply Z.div_lt_upper_bound]; lia.
    + rewrite Hp7. nia.
Qed.
End Wide.

(** ** Zigzag *)

Lemma lxor_ones w x : 0 <= w -> 0 <= x < 2 ^ w -> Z.lxor x (2 ^ w - 1) = 2 ^ w - 1 - x.
Proof.
  intros Hw Hx. replace (2 ^ w - 1) with (Z.ones w) by (rewrite Z.ones_equiv; lia).
  assert (x + Z.lxor x (Z.ones w) = Z.ones w); [|lia].
  rewrite Z.add_nocarry_lxor; [by rewrite <- Z.lxor_assoc, Z.lxor_nilpotent|].
  apply Z.bits_inj'. intros n Hn. rewrite Z.land_spec, Z.lxor_spec, Z.bits_0.
  destruct (decide (n < w)).
  - rewrite Z.ones_spec_low by lia. by destruct (Z.testbit x n).
  - rewrite <- (Z.mod_small x (2 ^ w)) by done. by rewrite Z.mod_pow2_bits_high by lia.
Qed.

Definition zigzag (v : Z) : Z := if v <? 0 then - v * 2 - 1 else v * 2.

Lemma unzigzag w v :
  0 < w -> - 2 ^ (w - 1) <= v < 2 ^ (w - 1) ->
  wraps w (Z.lxor (Z.shiftr (zigzag v) 1) (wrapu w (- Z.land (zigzag v) 1))) = v.
Proof.
  intros Hw Hv. assert (2 ^ w = 2 * 2 ^ (w - 1)) as H2.
  { rewrite <- Z.pow_succ_r by lia. f_equal. lia. }
  change 1 with (Z.ones 1) at 2. rewrite Z.land_ones, Z.shiftr_div_pow2 by lia.
  change (2 ^ 1) with 2. unfold zigzag. destruct (Z.ltb_spec v 0).
  - replace ((- v * 2 - 1) / 2) with (- v - 1) by (apply Z.div_unique with 1; lia).
    replace ((- v * 2 - 1) mod 2) with 1 by (apply Z.mod_unique with (- v - 1); lia).
    unfold wrapu. rewrite (Z_mod_nz_opp_full 1) by (rewrite Z.mod_small; lia).
    rewrite (Z.mod_small 1) by lia. rewrite lxor_ones by lia.
    replace (2 ^ w - 1 - (- v - 1)) with (v + 1 * 2 ^ w) by lia.
    unfold wraps. replace (v + 1 * 2 ^ w + 2 ^ (w - 1)) with (v + 2 ^ (w - 1) + 1 * 2 ^ w) by lia.
    rewrite Z.mod_add by lia. fold (wraps w v). apply wraps_small; lia.
  - rewrite Z.div_mul, Z.mod_mul by lia. unfold wrapu. rewrite Z.mod_0_l by lia.
    rewrite Z.lxor_0_r. by apply wraps_small.
Qed.

Lemma EncodeZigzag32_ok v : - 2 ^ 31 < v < 2 ^ 30 -> EncodeZigzag32 v = Ok (zigzag v).
Proof.
  intros Hv. unfold EncodeZigzag32, zigzag, u32. bool_cases; try lia; f_equal.
  - rewrite (wrapu_small 32 (- v)) by lia. apply wrapu_small. lia.
  - apply wrapu_small. lia.
Qed.

Lemma EncodeZigzag64_ok v : - 2 ^ 63 < v < 2 ^ 62 -> EncodeZigzag64 v = Ok (zigzag v).
Proof.
  intros Hv. unfold EncodeZigzag64, zigzag, u64. bool_cases; try lia; f_equal.
  - rewrite (wrapu_small 64 (- v)) by lia. apply wrapu_small. lia.
  - apply wrapu_small. lia.
Qed.

Lemma DecodeZigzag32_ok v : - 2 ^ 31 <= v < 2 ^ 31 -> DecodeZigzag32 (zigzag v) = v.
Proof. apply (unzigzag 32). lia. Qed.

Lemma DecodeZigzag64_ok v : - 2 ^ 63 <= v < 2 ^ 63 -> DecodeZigzag64 (zigzag v) = v.
Proof. apply (unzigzag 64). lia. Qed.

(** ** Strings *)

Section Strings.
Context `{Uninit} `{Host}.

Lemma parses_string (r : prog ByteArray Z) e d s :
  s <> [] -> Z.of_nat (length s) <= max_string ->
  parses r e d (Z.of_nat (length s)) ->
  parses (let* len := r in read_string len) e (d ++ s) s.
Proof.
  intros Hs Hm Hr. eapply parses_bind; [exact Hr|]. unfold read_string, require.
  rewrite (proj2 (Z.leb_le _ _) Hm). apply (parses_bind (ret tt) _ e [] s tt); [apply parses_ret|].
  by apply parses_Read.
Qed.
End Strings.

(** ** Values of any type *)

Inductive value :=
  | VFint8 (z : Z) | VFuint8 (z : Z) | VFint16 (z : Z) | VFuint16 (z : Z)
  | VFint32 (z : Z) | VFuint32 (z : Z) | VFint64 (z : Z) | VFuint64 (z : Z)
  | VInt32 (z : Z) | VUint32 (z : Z) | VInt64 (z : Z) | VUint64 (z : Z)
  | VFloat (bits : Z) | VDouble (bits : Z)
  | VStringF16 (s : list byte) | VStringF32 (s : list byte)
  | VStringF64 (s : list byte) | VStringVint (s : list byte).

Section Values.
Context `{Uninit} `{Host}.

Definition write_value (v : value) : prog ByteArray unit :=
  match v with
  | VFint8 z => WriteFint8 z | VFuint8 z => WriteFuint8 z
  | VFint16 z => WriteFint16 z | VFuint16 z => WriteFuint16 z
  | VFint32 z => WriteFint32 z | VFuint32 z => WriteFuint32 z
  | VFint64 z => WriteFint64 z | VFuint64 z => WriteFuint64 z
  | VInt32 z => WriteInt32 z | VUint32 z => WriteUint32 z
  | VInt64 z => WriteInt64 z | VUint64 z => WriteUint64 z
  | VFloat z => WriteFloat z | VDouble z => WriteDouble z
  | VStringF16 s => WriteStringF16 s | VStringF32 s => WriteStringF32 s
  | VStringF64 s => WriteStringF64 s | VStringVint s => WriteStringVint s
  end.

(** The reader of the same type. *)
Definition read_value (v : value) : prog ByteArray value :=
  match v with
  | VFint8 _ => let* z := ReadFint8 in ret (VFint8 z)
  | VFuint8 _ => let* z := ReadFuint8 in ret (VFuint8 z)
  | VFint16 _ => let* z := ReadFint16 in ret (VFint16 z)
  | VFuint16 _ => let* z := ReadFuint16 in ret (VFuint16 z)
  | VFint32 _ => let* z := ReadFint32 in ret (VFint32 z)
  | VFuint32 _ => let* z := ReadFuint32 in ret (VFuint32 z)
  | VFint64 _ => let* z := ReadFint64 in ret (VFint64 z)
  | VFuint64 _ => let* z := ReadFuint64 in ret (VFuint64 z)
  | VInt32 _ => let* z := ReadInt32 in ret (VInt32 z)
  | VUint32 _ => let* z := ReadUint32 in ret (VUint32 z)
  | VInt64 _ => let* z := ReadInt64 in ret (VInt64 z)
  | VUint64 _ => let* z := ReadUint64 in ret (VUint64 z)
  | VFloat _ => let* z := ReadFloat in ret (VFloat z)
  | VDouble _ => let* z := ReadDouble in ret (VDouble z)
  | VStringF16 _ => let* s := ReadStringF16 in ret (VStringF16 s)
  | VStringF32 _ => let* s := ReadStringF32 in ret (VStringF32 s)
  | VStringF64 _ => let* s := ReadStringF64 in ret (VStringF64 s)
  | VStringVint _ => let* s := ReadStringVint in ret (VStringVint s)
  end.

(** The values that survive: each type's range, cut where the encoders overflow
    and where the 64-bit decoder keeps 32 bits; strings that are not empty and
    whose length fits its prefix. *)
Definition valid_value (v : value) : Prop :=
  match v with
  | VFint8 z => in_range int8_t z | VFuint8 z => in_range uint8_t z
  | VFint16 z => in_range int16_t z | VFuint16 z => in_range uint16_t z
  | VFint32 z => in_range int32_t z | VFuint32 z => in_range uint32_t z
  | VFint64 z => in_range int64_t z | VFuint64 z => in_range uint64_t z
  | VInt32 z => - 2 ^ 31 < z < 2 ^ 30 | VUint32 z => 0 <= z < 2 ^ 32
  | VInt64 z => - 2 ^ 31 <= z < 2 ^ 31 | VUint64 z => 0 <= z < 2 ^ 32
  | VFloat z => in_range uint32_t z | VDouble z => in_range uint64_t z
  | VStringF16 s => s <> [] /\ Z.of_nat (length s) < 2 ^ 16
  | VStringF32 s => s <> [] /\ Z.of_nat (length s) < 2 ^ 32
  | VStringF64 s => s <> [] /\ Z.of_nat (length s) < 2 ^ 63
  | VStringVint s => s <> [] /\ Z.of_nat (length s) < 2 ^ 32
  end.

(** The bytes of a value on the wire. *)
Definition encoding (e : Z) (v : value) : list byte :=
  match v with
  | VFint8 z => wire_bytes e int8_t z | VFuint8 z => wire_bytes e uint8_t z
  | VFint16 z => wire_bytes e int16_t z | VFuint16 z => wire_bytes e uint16_t z
  | VFint32 z => wire_bytes e int32_t z | VFuint32 z => wire_bytes e uint32_t z
  | VFint64 z => wire_bytes e int64_t z | VFuint64 z => wire_bytes e uint64_t z
  | VInt32 z => leb128 5 (zigzag z) | VUint32 z => leb128 5 z
  | VInt64 z => leb128 10 (zigzag z) | VUint64 z => leb128 10 z
  | VFloat z => wire_bytes e uint32_t z | VDouble z => wire_bytes e uint64_t z
  | VStringF16 s => wire_bytes e uint16_t (Z.of_nat (length s)) ++ s
  | VStringF32 s => wire_bytes e uint32_t (Z.of_nat (length s)) ++ s
  | VStringF64 s => wire_bytes e uint64_t (Z.of_nat (length s)) ++ s
  | VStringVint s => leb128 10 (Z.of_nat (length s)) ++ s
  end.

Definition encodings (e : Z) (vs : list value) : list byte := concat (map (encoding e) vs).

Fixpoint write_values (vs : list value) : prog ByteArray unit :=
  match vs with
  | [] => ret tt
  | v :: vs => write_value v ;; write_values vs
  end.

Fixpoint read_values (vs : list value) : prog ByteArray (list value) :=
  match vs with
  | [] => ret []
  | v :: vs => let* a := read_value v in let* l := read_values vs in ret (a :: l)
  end.

Lemma zigzag_range w v : 0 < w -> - 2 ^ (w - 1) <= v < 2 ^ (w - 1) -> 0 <= zigzag v < 2 ^ w.
Proof.
  intros Hw Hv. assert (2 ^ w = 2 * 2 ^ (w - 1)) by (rewrite <- Z.pow_succ_r by lia; f_equal; lia).
  unfold zigzag. destruct (Z.ltb_spec v 0); lia.
Qed.

Lemma emits_value e v : order_ok e -> valid_value v -> emits (write_value v) e (encoding e v).
Proof.
  intros He Hv. destruct v; cbn [write_value encoding valid_value] in *;
    try (by apply emits_fixed);
    try (unfold WriteFint8, WriteFuint8; rewrite (mem_bytes_byte _ e) by done; apply emits_Write).
  - eapply emits_lift; [by apply EncodeZigzag32_ok|]. apply emits_varint32.
    apply (zigzag_range 32); lia.
  - by apply emits_varint32.
  - eapply emits_lift; [apply EncodeZigzag64_ok; lia|]. apply emits_varint64.
    apply (zigzag_range 64); lia.
  - apply emits_varint64. lia.
  - apply emits_bind; [|apply emits_Write]. unfold u16. rewrite wrapu_small by lia. by apply emits_fixed.
  - apply emits_bind; [|apply emits_Write]. unfold u32. rewrite wrapu_small by lia. by apply emits_fixed.
  - apply emits_bind; [|apply emits_Write]. by apply emits_fixed.
  - apply emits_bind; [|apply emits_Write]. apply emits_varint64. lia.
Qed.

Lemma parses_value e v : order_ok e -> valid_value v -> parses (read_value v) e (encoding e v) v.
Proof.
  intros He Hv. destruct v; cbn [read_value encoding valid_value] in *;
    match goal with |- parses _ _ _ (?C _) => apply (parses_map _ C) end;
    try (apply parses_fixed; [simpl; lia|done|done]);
    try (apply parses_byte; done).
  - rewrite <- (DecodeZigzag32_ok z) at 2 by lia. apply (parses_map _ DecodeZigzag32).
    apply parses_Uint32. apply (zigzag_range 32); lia.
  - by apply parses_Uint32.
  - rewrite <- (DecodeZigzag64_ok z) at 2 by lia. apply (parses_map _ DecodeZigzag64).
    apply parses_Uint64. apply (zigzag_range 32); lia.
  - by apply parses_Uint64.
  - apply parses_string; [apply Hv|unfold max_string; lia|].
    apply parses_fixed; [simpl; lia|done|]. change (0 <= Z.of_nat (length s) < 2 ^ 16). lia.
  - apply parses_string; [apply Hv|unfold max_string; lia|].
    apply parses_fixed; [simpl; lia|done|]. change (0 <= Z.of_nat (length s) < 2 ^ 32). lia.
  - apply parses_string; [apply Hv|unfold max_string; lia|].
    apply parses_fixed; [simpl; lia|done|]. change (0 <= Z.of_nat (length s) < 2 ^ 64). lia.
  - apply parses_string; [apply Hv|unfold max_string; lia|]. apply parses_Uint64. lia.
Qed.

Lemma emits_values e vs :
  order_ok e -> Forall valid_value vs -> emits (write_values vs) e (encodings e vs).
Proof.
  intros He. induction 1 as [|v vs Hv _ IH]; [apply emits_ret|].
  apply emits_bind; [by apply emits_value|done].
Qed.

Lemma parses_values e vs :
  order_ok e -> Forall valid_value vs -> parses (read_values vs) e (encodings e vs) vs.
Proof.
  intros He. induction 1 as [|v vs Hv _ IH]; [apply parses_ret|].
  eapply parses_bind; [by apply parses_value|]. by apply (parses_map _ (cons v)).
Qed.
End Values.

(** ** What the codec promises *)

Section Promises.
Context `{Uninit} `{Host}.


(** The local arrays of the varint writers are large enough: five bytes hold
    every 32-bit number and ten bytes every 64-bit number, so no store goes past
    the end of [tmp]. *)
Theorem varint_fits v :
  (0 <= v < 2 ^ 32 -> exists bs, varint_loop 6 5 v [] = Ok bs /\ (length bs <= 5)%nat) /\
  (0 <= v < 2 ^ 64 -> exists bs, varint_loop 11 10 v [] = Ok bs /\ (length bs <= 10)%nat).
Proof.
  split; intros Hv; eexists; (split; [|apply leb128_length]).
  - apply (varint_loop_ok 6 5 v []); simpl; lia.
  - apply (varint_loop_ok 11 10 v []); simpl; lia.
Qed.

(** [WriteUint64] followed by a read of the same number. *)
Definition reread (v : Z) (ba : ByteArray) : result Z :=
  ((WriteUint64 v ;; SetPosition (position_ ba) ;; ReadUint64) ba).1.

(** [WriteUint64] and [ReadUint64] disagree from 2^32 on: the reader shifts
    its digits inside a [uint32_t], so that numbers below 2^35 come back modulo
    2^32 and larger ones make the reader shift by 35 or more, which is undefined. *)
Theorem uint64_wide ba v :
  wf ba -> 2 ^ 32 <= v < 2 ^ 64 -> position_ ba + 10 + base_size_ ba <= 2 ^ 64 ->
  reread v ba = if v <? 2 ^ 35 then Ok (v mod 2 ^ 32) else Fail undefined.
Proof.
  intros W Hv Hfit. pose proof (leb128_length 10 v). unfold reread.
  destruct (rewind _ _ (leb128 10 v) ba (emits_varint64 (endian_ ba) v ltac:(lia)) W eq_refl ltac:(lia))
    as (ba1 & E & W1 & [_ He] & Hr & _).
  rewrite E. destruct (Z.ltb_spec v (2 ^ 35)).
  - destruct (parses_varint_trunc 4 11 10 0 v (endian_ ba1) ltac:(simpl; lia) ltac:(lia) ltac:(lia)
      ltac:(lia) ltac:(simpl; lia) ba1 _ W1 eq_refl Hr) as (ba2 & E2 & _).
    change (28 - 7 * Z.of_nat 4) with 0 in E2. unfold ReadUint64. rewrite E2.
    cbn [fst]. f_equal. change (4 + 7 * Z.of_nat 4) with 32. lia.
  - destruct (crashes_varint 5 11 10 0 v (endian_ ba1) ltac:(simpl; lia) ltac:(lia) ltac:(lia)
      ltac:(lia) ba1 _ W1 eq_refl Hr) as (ba2 & E2).
    change (35 - 7 * Z.of_nat 5) with 0 in E2. unfold ReadUint64. by rewrite E2.
Qed.

(** Zigzag coding is inverted exactly where the encoders are defined, which
    leaves out the upper half of the positive numbers and the least number: there
    the encoders overflow a signed type. *)
Theorem zigzag_domain v :
  (- 2 ^ 31 <= v < 2 ^ 31 ->
   EncodeZigzag32 v = if (- 2 ^ 31 <? v) && (v <? 2 ^ 30) then Ok (zigzag v) else Fail undefined) /\
  (- 2 ^ 63 <= v < 2 ^ 63 ->
   EncodeZigzag64 v = if (- 2 ^ 63 <? v) && (v <? 2 ^ 62) then Ok (zigzag v) else Fail undefined) /\
  (- 2 ^ 31 <= v < 2 ^ 31 -> DecodeZigzag32 (zigzag v) = v) /\
  (- 2 ^ 63 <= v < 2 ^ 63 -> DecodeZigzag64 (zigzag v) = v).
Proof.
  split_and!; [intros Hv..|apply DecodeZigzag32_ok|apply DecodeZigzag64_ok].
  - destruct ((- 2 ^ 31 <? v) && (v <? 2 ^ 30)) eqn:E.
    + apply EncodeZigzag32_ok. lia.
    + unfold EncodeZigzag32. bool_cases; try done; lia.
  - destruct ((- 2 ^ 63 <? v) && (v <? 2 ^ 62)) eqn:E.
    + apply EncodeZigzag64_ok. lia.
    + unfold EncodeZigzag64. bool_cases; try done; lia.
Qed.

(** A string of 2^16 bytes or more written with a 16-bit length comes back cut
    to its length modulo 2^16, and the rest of it stays in the stream. *)
Theorem string16_truncated ba s :
  wf ba -> 2 ^ 16 < Z.of_nat (length s) -> Z.of_nat (length s) mod 2 ^ 16 <> 0 ->
  position_ ba + 2 + Z.of_nat (length s) + base_size_ ba <= 2 ^ 64 ->
  exists ba', (WriteStringF16 s ;; SetPosition (position_ ba) ;; ReadStringF16) ba
    = (Ok (take (Z.to_nat (Z.of_nat (length s) mod 2 ^ 16)) s), ba') /\ wf ba' /\
    exists rest, readable ba' = drop (Z.to_nat (Z.of_nat (length s) mod 2 ^ 16)) s ++ rest.
Proof.
  intros W Hs Hm Hfit. set (n := Z.of_nat (length s) mod 2 ^ 16) in *.
  pose proof (Z.mod_pos_bound (Z.of_nat (length s)) (2 ^ 16) ltac:(lia)). fold n in H1.
  pose proof (wf_endian _ W) as Ho. set (e := endian_ ba) in *.
  pose proof (wire_bytes_length e uint16_t n) as Hl. cbn [ibytes uint16_t] in Hl.
  assert (emits (WriteStringF16 s) e (wire_bytes e uint16_t n ++ s)) as Hw.
  { apply emits_bind; [|apply emits_Write]. by apply emits_fixed. }
  destruct (rewind _ _ _ ba Hw W eq_refl) as (ba1 & E & W1 & [_ He] & Hr & _).
  { rewrite length_app, Hl. lia. }
  assert (parses ReadStringF16 e (wire_bytes e uint16_t n ++ take (Z.to_nat n) s) (take (Z.to_nat n) s)) as Hp.
  { assert (Z.of_nat (length (take (Z.to_nat n) s)) = n) as Hlen by (rewrite length_take; lia).
    apply parses_string; [|unfold max_string; lia|].
    - intros E0. rewrite E0 in Hlen. simpl in Hlen. lia.
    - rewrite Hlen. apply parses_fixed; [simpl; lia|done|]. change (0 <= n < 2 ^ 16). lia. }
  rewrite <- (take_drop (Z.to_nat n) s) in Hr at 1. rewrite !app_assoc, <- app_assoc in Hr.
  destruct (Hp ba1 _ W1 He Hr) as (ba2 & E2 & W2 & _ & Hr2 & _).
  exists ba2. rewrite E. split_and!; try done. by eexists.
Qed.
End Promises.

(** ** The theorems at concrete buffers, on both kinds of host *)


Lemma varint_fits_witness :
  (exists bs, varint_loop 6 5 300 [] = Ok bs /\ (length bs <= 5)%nat) /\
  (exists bs, varint_loop 11 10 300 [] = Ok bs /\ (length bs <= 10)%nat).
Proof. split; [apply (varint_fits 300)|apply (varint_fits 300)]; lia. Defined.

Lemma uint64_wide_witness :
  @reread zeroed host_x86 (2 ^ 32 + 5) demo6 = Ok 5 /\ @reread zeroed host_x86 (2 ^ 40) demo6 = Fail undefined.
Proof.
  split.
  - apply (@uint64_wide zeroed host_x86 demo6 (2 ^ 32 + 5)); [apply demo6_wf|lia|vm_compute; discriminate].
  - apply (@uint64_wide zeroed host_x86 demo6 (2 ^ 40)); [apply demo6_wf|lia|vm_compute; discriminate].
Defined.

Lemma zigzag_domain_witness :
  EncodeZigzag32 (-3) = Ok 5 /\ EncodeZigzag64 (2 ^ 62) = Fail undefined /\ DecodeZigzag32 5 = -3 /\
  DecodeZigzag64 5 = -3.
Proof.
  split_and!.
  - apply (zigzag_domain (-3)). lia.
  - apply (zigzag_domain (2 ^ 62)). lia.
  - apply (zigzag_domain (-3)). lia.
  - apply (zigzag_domain (-3)). lia.
Defined.

Lemma string16_truncated_witness :
  let s := replicate (Z.to_nat 65539) x41 in
  exists ba', (@WriteStringF16 zeroed host_x86 s ;; SetPosition 2 ;; @ReadStringF16 host_x86) demo6
    = (Ok (take (Z.to_nat (Z.of_nat (length s) mod 2 ^ 16)) s), ba') /\ wf ba' /\
    exists rest, readable ba' = drop (Z.to_nat (Z.of_nat (length s) mod 2 ^ 16)) s ++ rest.
Proof.
  intros s. apply (@string16_truncated zeroed host_x86 demo6 s); [apply demo6_wf|..];
    unfold s; rewrite length_replicate, Z2Nat.id by lia; vm_compute; done.
Defined.
