(* ===== verification/Timer.v ===== *)
(** * Timers: [gudov/timer.h] and [gudov/timer.cpp]

    A [TimerManager] keeps a [std::set] of shared pointers to [Timer] objects,
    ordered by deadline and then by address.  The timers live in a heap because a
    caller keeps the pointer [AddTimer] returned and later cancels, refreshes or
    resets the object through it.  Every operation takes the value [now] the clock
    showed when it called [GetCurrentMS]; nothing is assumed about the clock, which
    can jump in both directions.  An operation is atomic: its body runs under
    [mutex_]. *)

From S2P Require Import Prelude.
From stdpp Require Import base list gmap numbers sorting.
From Stdlib Require Import ZArith Lia.
Open Scope Z_scope.
Open Scope prog_scope.

(** ** Callbacks

    A [std::function<void()>] is empty, a function of the caller, known by a
    number, or the result of [std::bind(&OnTimer, weak_cond, callback)]. *)
Inductive func :=
  | Null
  | Fn (id : nat)
  | Bind_OnTimer (weak_cond : nat) (callback : func).

Definition callable (f : func) : bool := match f with Null => false | _ => true end.

(** Calling a function gives the callers' functions that ran; calling an empty one
    throws [std::bad_function_call]. [alive] says which objects still exist. *)
Fixpoint call (alive : nat -> bool) (f : func) : result (list nat) :=
  match f with
  | Null => Fail logic_error
  | Fn id => Ok [id]
  | Bind_OnTimer weak_cond callback => if alive weak_cond then call alive callback else Ok []
  end.

(** ** State *)

Abbreviation addr := nat (only parsing).

Record Timer := mkTimer {
  recurring_ : bool;
  ms_ : Z;
  next_ : Z;
  callback_ : func }.

Record TimerManager := mkTimerManager {
  heap : gmap addr Timer;
  timers_ : list addr;
  previous_time_ : Z;
  tickled_ : bool }.

(** [operator new]: the address of a new object differs from those in use. *)
Class Allocator := {
  alloc : gmap addr Timer -> addr;
  alloc_fresh h : h !! alloc h = None }.

Definition new_Timer (now ms : Z) (callback : func) (recurring : bool) : Timer :=
  mkTimer recurring ms (u64 (now + ms)) callback.

(** The constructor [Timer(uint64_t next)]. *)
Definition deadline_Timer (next : Z) : Timer := mkTimer false 0 next Null.

Definition new_TimerManager (now : Z) : TimerManager := mkTimerManager ∅ [] now false.

Definition set_heap h (m : TimerManager) := mkTimerManager h (timers_ m) (previous_time_ m) (tickled_ m).
Definition set_timers l (m : TimerManager) := mkTimerManager (heap m) l (previous_time_ m) (tickled_ m).
Definition set_previous p (m : TimerManager) := mkTimerManager (heap m) (timers_ m) p (tickled_ m).
Definition set_tickled b (m : TimerManager) := mkTimerManager (heap m) (timers_ m) (previous_time_ m) b.

(** ** The ordered set *)

(** The objects the set points to are kept alive by it. *)
Definition next_of (h : gmap addr Timer) (a : addr) : Z := default 0 (next_ <$> h !! a).

Definition Comparator (h : gmap addr Timer) (lhs rhs : option addr) : bool :=
  match lhs, rhs with
  | None, None => false
  | None, Some _ => true
  | Some _, None => false
  | Some l, Some r =>
      if next_of h l <? next_of h r then true
      else if next_of h r <? next_of h l then false
      else Nat.ltb l r
  end.

Abbreviation before h a b := (Comparator h (Some a) (Some b)).

(** The first position whose element is not before [x]. *)
Fixpoint lower_bound (h : gmap addr Timer) (x : addr) (l : list addr) : nat :=
  match l with
  | [] => 0
  | y :: l => if before h y x then S (lower_bound h x l) else 0
  end.

Definition set_find (h : gmap addr Timer) (x : addr) (l : list addr) : option nat :=
  let i := lower_bound h x l in
  match l !! i with
  | Some y => if before h x y then None else Some i
  | None => None
  end.

(** [insert(x).first] and the new set; an equivalent element is kept. *)
Definition set_insert (h : gmap addr Timer) (x : addr) (l : list addr) : nat * list addr :=
  let i := lower_bound h x l in
  match l !! i with
  | Some y => if before h x y then (i, take i l ++ x :: drop i l) else (i, l)
  | None => (i, take i l ++ [x])
  end.

Definition set_erase (i : nat) (l : list addr) : list addr := take i l ++ drop (S i) l.

(** ** Timer *)

Definition deref_timer (t : addr) : prog TimerManager Timer :=
  fun m => match heap m !! t with Some x => (Ok x, m) | None => (Fail null_deref, m) end.

Definition store_timer (t : addr) (x : Timer) : prog TimerManager unit :=
  modify (fun m => set_heap (<[t := x]> (heap m)) m).

Definition Cancel (t : addr) : prog TimerManager bool :=
  let* x := deref_timer t in
  if callable (callback_ x) then
    store_timer t (mkTimer (recurring_ x) (ms_ x) (next_ x) Null) ;;
    let* m := gets id in
    match set_find (heap m) t (timers_ m) with
    | Some i => modify (set_timers (set_erase i (timers_ m))) ;; ret true
    | None => fail undefined
    end
  else ret false.

Definition Refresh (now : Z) (t : addr) : prog TimerManager bool :=
  let* x := deref_timer t in
  if negb (callable (callback_ x)) then ret false else
  let* m := gets id in
  match set_find (heap m) t (timers_ m) with
  | None => ret false
  | Some i =>
      modify (set_timers (set_erase i (timers_ m))) ;;
      store_timer t (mkTimer (recurring_ x) (ms_ x) (u64 (now + ms_ x)) (callback_ x)) ;;
      modify (fun m => set_timers (set_insert (heap m) t (timers_ m)).2 m) ;;
      ret true
  end.

(** The protected [AddTimer(val, lock)]: whether it calls [OnTimerInsertedAtFront],
    which it does last, after releasing the lock. *)
Definition AddTimer_locked (val : addr) : prog TimerManager bool :=
  let* m := gets id in
  let '(it, l) := set_insert (heap m) val (timers_ m) in
  modify (set_timers l) ;;
  let* tickled := gets tickled_ in
  let at_front := Nat.eqb it 0 && negb tickled in
  (if at_front then modify (set_tickled true) else ret tt) ;;
  ret at_front.

Arguments AddTimer_locked : simpl never.

(** The result, and whether [OnTimerInsertedAtFront] was called. *)
Definition Reset (now ms : Z) (fromNow : bool) (t : addr) : prog TimerManager (bool * bool) :=
  let* x := deref_timer t in
  if (ms =? ms_ x) && negb fromNow then ret (true, false) else
  if negb (callable (callback_ x)) then ret (false, false) else
  let* m := gets id in
  match set_find (heap m) t (timers_ m) with
  | None => ret (false, false)
  | Some i =>
      modify (set_timers (set_erase i (timers_ m))) ;;
      let start := if fromNow then now else u64 (next_ x - ms_ x) in
      store_timer t (mkTimer (recurring_ x) ms (u64 (start + ms)) (callback_ x)) ;;
      let* front := AddTimer_locked t in
      ret (true, front)
  end.

(** ** TimerManager *)

(** The new timer, and whether [OnTimerInsertedAtFront] was called. *)
Definition AddTimer `{Allocator} (now ms : Z) (callback : func) (recurring : bool)
  : prog TimerManager (addr * bool) :=
  let* t := gets (fun m => alloc (heap m)) in
  store_timer t (new_Timer now ms callback recurring) ;;
  let* front := AddTimer_locked t in
  ret (t, front).

Definition AddConditionTimer `{Allocator} (now ms : Z) (callback : func) (weak_cond : nat)
    (recurring : bool) : prog TimerManager (addr * bool) :=
  AddTimer now ms (Bind_OnTimer weak_cond callback) recurring.

Definition GetNextTimeout (now : Z) : prog TimerManager Z :=
  modify (set_tickled false) ;;
  let* m := gets id in
  match timers_ m with
  | [] => ret max64
  | t :: _ =>
      let* next := deref_timer t in
      ret (if next_ next <=? now then 0 else u64 (next_ next - now))
  end.

Definition DetectClockRollover (now : Z) : prog TimerManager bool :=
  let* previous := gets previous_time_ in
  let roll_over := (now <? previous) && (now <? u64 (previous - 60 * 60 * 1000)) in
  modify (set_previous now) ;;
  ret roll_over.

(** The loop that moves [it] past the timers due exactly now. *)
Fixpoint skip_equal (h : gmap addr Timer) (now : Z) (l : list addr) : nat :=
  match l with
  | [] => 0
  | y :: l => if next_of h y =? now then S (skip_equal h now l) else 0
  end.

(** The loop over the expired timers. *)
Fixpoint fire (now : Z) (expired : list addr) : prog TimerManager (list func) :=
  match expired with
  | [] => ret []
  | t :: expired =>
      let* x := deref_timer t in
      (if recurring_ x then
         store_timer t (mkTimer true (ms_ x) (u64 (now + ms_ x)) (callback_ x)) ;;
         modify (fun m => set_timers (set_insert (heap m) t (timers_ m)).2 m)
       else store_timer t (mkTimer (recurring_ x) (ms_ x) (next_ x) Null)) ;;
      let* cbs := fire now expired in
      ret (callback_ x :: cbs)
  end.

Definition ListExpiredCallbacks `{Allocator} (now : Z) : prog TimerManager (list func) :=
  let* m := gets id in
  match timers_ m with
  | [] => ret []
  | first :: _ =>
      let* roll_over := DetectClockRollover now in
      let* x := deref_timer first in
      if negb roll_over && (now <? next_ x) then ret [] else
      let now_timer := alloc (heap m) in
      let h := <[now_timer := deadline_Timer now]> (heap m) in
      let it := if roll_over then length (timers_ m) else lower_bound h now_timer (timers_ m) in
      let it := (it + skip_equal (heap m) now (drop it (timers_ m)))%nat in
      modify (set_timers (drop it (timers_ m))) ;;
      fire now (take it (timers_ m))
  end.

Definition HasTimer (m : TimerManager) : bool := negb (bool_decide (timers_ m = [])).

(** ** The order *)

Definition sorted (h : gmap addr Timer) (l : list addr) : Prop :=
  StronglySorted (fun a b => before h a b = true) l.

Lemma beforeP h a b :
  before h a b = true <-> next_of h a < next_of h b \/ (next_of h a = next_of h b /\ (a < b)%nat).
Proof. cbn. rewrite <- Nat.ltb_lt. bool_cases; intuition (try congruence; try lia). Qed.

Lemma before_irrefl h a : before h a a = false.
Proof. apply not_true_iff_false. rewrite beforeP. lia. Qed.

Lemma before_trans h a b c : before h a b = true -> before h b c = true -> before h a c = true.
Proof. rewrite !beforeP. lia. Qed.

Lemma before_total h a b : before h a b = false -> before h b a = false -> a = b.
Proof. rewrite <- !not_true_iff_false, !beforeP. lia. Qed.

Lemma next_of_insert_ne h t x a : a <> t -> next_of (<[t := x]> h) a = next_of h a.
Proof. intros Hne. unfold next_of. by rewrite lookup_insert_ne. Qed.

Lemma next_of_insert h t x : next_of (<[t := x]> h) t = next_ x.
Proof. unfold next_of. by rewrite lookup_insert_eq. Qed.

Lemma next_of_lookup h a x : h !! a = Some x -> next_of h a = next_ x.
Proof. unfold next_of. by intros ->. Qed.

Lemma before_insert_ne h t x a b :
  a <> t -> b <> t -> before (<[t := x]> h) a b = before h a b.
Proof. intros. cbn. by rewrite !next_of_insert_ne. Qed.

Lemma sorted_insert_ne h t x l : t ∉ l -> sorted h l -> sorted (<[t := x]> h) l.
Proof.
  intros Ht Hs. induction Hs as [|a l Hs IH Ha]; [constructor|].
  apply not_elem_of_cons in Ht as [Hne Ht]. constructor; [by apply IH|].
  rewrite List.Forall_forall in *. intros b Hb. rewrite before_insert_ne; [by apply Ha|done|].
  intros ->. by apply Ht, list_elem_of_In.
Qed.

Lemma sorted_nodup h l : sorted h l -> NoDup l.
Proof.
  induction 1 as [|a l _ IH Ha]; constructor; [|done].
  intros Hin%list_elem_of_In. rewrite List.Forall_forall in Ha. specialize (Ha a Hin).
  by rewrite before_irrefl in Ha.
Qed.

(** ** The set operations on a sorted sequence *)

Section Ordered.
Variable h : gmap addr Timer.

Lemma lower_bound_head x l :
  sorted h l -> (forall y, y ∈ l -> before h y x = false) -> lower_bound h x l = 0%nat.
Proof.
  intros Hs Hl. destruct l as [|y l]; [done|]. cbn [lower_bound].
  by rewrite (Hl y) by left.
Qed.

Lemma lower_bound_split x l :
  sorted h l ->
  exists l1 l2, l = l1 ++ l2 /\ lower_bound h x l = length l1 /\
    Forall (fun y => before h y x = true) l1 /\ Forall (fun y => before h y x = false) l2.
Proof.
  induction 1 as [|y l Hs (l1 & l2 & -> & Hlb & H1 & H2) Hy]; [by exists [], []|].
  destruct (before h y x) eqn:E.
  - exists (y :: l1), l2. cbn [lower_bound]. rewrite E, Hlb. split_and!; try done. by constructor.
  - exists [], (y :: l1 ++ l2). cbn [lower_bound]. rewrite E. split_and!; try done.
    constructor; [done|]. rewrite List.Forall_forall in *. intros z Hz. specialize (Hy z Hz).
    apply not_true_iff_false. intros Hzx. pose proof (before_trans h y z x Hy Hzx). congruence.
Qed.

Lemma set_find_in x l :
  sorted h l -> x ∈ l -> exists l1 l2, l = l1 ++ x :: l2 /\ set_find h x l = Some (length l1).
Proof.
  intros Hs Hx. destruct (lower_bound_split x l Hs) as (l1 & l2 & -> & Hlb & H1 & H2).
  assert (exists l2', l2 = x :: l2') as [l2' ->].
  { apply elem_of_app in Hx as [Hx|Hx].
    { rewrite List.Forall_forall in H1. apply list_elem_of_In in Hx. specialize (H1 x Hx).
      by rewrite before_irrefl in H1. }
    destruct l2 as [|y l2]; [by apply elem_of_nil in Hx|]. apply elem_of_cons in Hx as [->|Hx]; [by eexists|].
    apply Forall_cons_iff in H2 as [Hy _]. exfalso.
    clear H1 Hlb. induction l1 as [|z l1 IH]; [|inversion Hs; auto].
    inversion Hs as [|? ? ? Hall]; subst. rewrite List.Forall_forall in Hall.
    rewrite Hall in Hy; [done|by apply list_elem_of_In]. }
  exists l1, l2'. split; [done|]. unfold set_find. rewrite Hlb, list_lookup_middle by done.
  by rewrite before_irrefl.
Qed.

Lemma set_find_out x l : sorted h l -> x ∉ l -> set_find h x l = None.
Proof.
  intros Hs Hx. destruct (lower_bound_split x l Hs) as (l1 & l2 & -> & Hlb & H1 & H2).
  unfold set_find. rewrite Hlb. destruct l2 as [|y l2].
  { by rewrite lookup_ge_None_2 by (rewrite length_app; simpl; lia). }
  rewrite list_lookup_middle by done. apply Forall_cons_iff in H2 as [Hy _].
  destruct (before h x y) eqn:E; [done|]. rewrite (before_total h x y E Hy) in Hx. set_solver.
Qed.

Lemma set_erase_middle (x : addr) l1 l2 : set_erase (length l1) (l1 ++ x :: l2) = l1 ++ l2.
Proof.
  unfold set_erase. rewrite take_app_length. f_equal.
  change (l1 ++ x :: l2) with (l1 ++ [x] ++ l2). rewrite app_assoc.
  replace (S (length l1)) with (length (l1 ++ [x])) by (rewrite length_app; simpl; lia).
  apply drop_app_length.
Qed.

Lemma sorted_middle (x : addr) l1 l2 : sorted h (l1 ++ x :: l2) -> sorted h (l1 ++ l2) /\ x ∉ l1 ++ l2.
Proof.
  intros Hs. split.
  - induction l1 as [|y l1 IH]; [by inversion Hs|]. inversion Hs as [|? ? Hs' Hy]; subst.
    constructor; [by apply IH|]. rewrite Forall_app, Forall_cons in Hy. apply Forall_app. tauto.
  - apply sorted_nodup in Hs. rewrite <- Permutation_middle in Hs. by apply NoDup_cons in Hs as [??].
Qed.

Lemma sorted_app l1 l2 :
  sorted h l1 -> sorted h l2 ->
  (forall a b, a ∈ l1 -> b ∈ l2 -> before h a b = true) -> sorted h (l1 ++ l2).
Proof.
  intros H1 H2 H. induction H1 as [|a l1 Hs IH Ha]; [done|]. cbn. constructor.
  - apply IH. intros. apply H; set_solver.
  - apply Forall_app. split; [done|]. rewrite List.Forall_forall. intros b Hb. apply H; [set_solver|].
    by apply list_elem_of_In.
Qed.

Lemma sorted_app_inv l1 l2 : sorted h (l1 ++ l2) ->
  sorted h l1 /\ sorted h l2 /\ forall a b, a ∈ l1 -> b ∈ l2 -> before h a b = true.
Proof.
  induction l1 as [|c l1 IH]; intros Hs; [split_and!; [constructor|done|set_solver]|].
  inversion Hs as [|? ? Hs' Hc]; subst. destruct (IH Hs') as (H1 & H2 & H).
  apply Forall_app in Hc as [Hc1 Hc2]. split_and!; [by constructor|done|].
  intros a b [->|Ha]%elem_of_cons Hb; [|by apply H].
  rewrite List.Forall_forall in Hc2. by apply Hc2, list_elem_of_In.
Qed.

(** Inserting a new element: where it lands, and that the sequence stays sorted. *)
Lemma set_insert_new x l :
  sorted h l -> x ∉ l ->
  exists i l1 l2, l = l1 ++ l2 /\ set_insert h x l = (i, l1 ++ x :: l2) /\ i = length l1 /\
    sorted h (l1 ++ x :: l2) /\
    Forall (fun y => before h y x = true) l1 /\ Forall (fun y => before h x y = true) l2.
Proof.
  intros Hs Hx. destruct (lower_bound_split x l Hs) as (l1 & l2 & -> & Hlb & H1 & H2).
  assert (Forall (fun y => before h x y = true) l2) as H2'.
  { rewrite List.Forall_forall in *. intros y Hy. specialize (H2 y Hy).
    destruct (before h x y) eqn:E; [done|]. rewrite (before_total h x y E H2) in Hx.
    apply list_elem_of_In in Hy. set_solver. }
  exists (length l1), l1, l2. split_and!; try done.
  - unfold set_insert. rewrite Hlb. destruct l2 as [|y l2].
    + rewrite app_nil_r, lookup_ge_None_2 by done. by rewrite take_ge.
    + rewrite list_lookup_middle by done. apply Forall_cons_iff in H2' as [-> _].
      by rewrite take_app_length, drop_app_length.
  - apply sorted_app_inv in Hs as (Hs1 & Hs2 & H). rewrite List.Forall_forall in *.
    apply sorted_app; [done|constructor; [done|by apply List.Forall_forall]|].
    intros a b Ha [->|Hb]%elem_of_cons; [by apply H1, list_elem_of_In|by apply H].
Qed.
End Ordered.

(** ** The invariant

    [inv_upto E m]: the set is sorted, what it and [E] point to exists, a timer that
    still has its callback is in the set or in [E]; [E] holds the timers an
    operation has taken out and not put back yet. *)
Definition timer_ok (x : Timer) : Prop := 0 <= ms_ x < 2 ^ 64 /\ 0 <= next_ x < 2 ^ 64.

Record inv_upto (E : list addr) (m : TimerManager) : Prop := {
  inv_alive : forall a, a ∈ timers_ m ++ E -> is_Some (heap m !! a);
  inv_sorted : sorted (heap m) (timers_ m);
  inv_nodup : NoDup (timers_ m ++ E);
  inv_armed : forall a x, heap m !! a = Some x -> callable (callback_ x) = true -> a ∈ timers_ m ++ E;
  inv_range : forall a x, heap m !! a = Some x -> timer_ok x }.

Definition inv (m : TimerManager) : Prop := inv_upto [] m.

Lemma inv_new now : inv (new_TimerManager now).
Proof. split; cbn; [set_solver|constructor|constructor|set_solver|set_solver]. Qed.

Lemma u64_range z : 0 <= u64 z < 2 ^ 64.
Proof. apply Z.mod_pos_bound. lia. Qed.

#[export] Hint Resolve inv_new u64_range : gudov.

Lemma upto_frame E m p b :
  inv_upto E m -> inv_upto E (mkTimerManager (heap m) (timers_ m) p b).
Proof. by intros [????]; split. Qed.

(** Taking a timer out of the set. *)
Lemma upto_take E m t l1 l2 :
  inv_upto E m -> timers_ m = l1 ++ t :: l2 -> inv_upto (t :: E) (set_timers (l1 ++ l2) m).
Proof.
  intros [Ha Hs Hn Hc Hr] El. rewrite El in *.
  assert ((l1 ++ t :: l2) ++ E ≡ₚ (l1 ++ l2) ++ t :: E) as P by solve_Permutation.
  split; cbn; try done.
  - intros a. rewrite <- P. apply Ha.
  - by apply (sorted_middle _ t).
  - by rewrite <- P.
  - intros a x. rewrite <- P. apply Hc.
Qed.

(** Writing to a timer that is out of the set. *)
Lemma upto_store E m t x :
  inv_upto E m -> t ∈ E -> timer_ok x -> inv_upto E (set_heap (<[t := x]> (heap m)) m).
Proof.
  intros [Ha Hs Hn Hc Hr] Ht Hx. assert (t ∉ timers_ m).
  { apply NoDup_app in Hn as (_ & Hd & _). intros Hin. by apply (Hd t). }
  split; cbn.
  - intros a Hin. destruct (decide (a = t)) as [->|Hne].
    + rewrite lookup_insert_eq. by eexists.
    + rewrite lookup_insert_ne by done. by apply Ha.
  - by apply sorted_insert_ne.
  - done.
  - intros a y Hy Hy'. destruct (decide (a = t)) as [->|Hne]; [set_solver|].
    rewrite lookup_insert_ne in Hy by done. by eapply Hc.
  - intros a y Hy. destruct (decide (a = t)) as [->|Hne].
    + rewrite lookup_insert_eq in Hy. naive_solver.
    + rewrite lookup_insert_ne in Hy by done. by eapply Hr.
Qed.

(** Putting a timer into the set. *)
Lemma upto_insert E m t :
  inv_upto (t :: E) m ->
  exists i l, set_insert (heap m) t (timers_ m) = (i, l) /\ l ≡ₚ t :: timers_ m /\
    inv_upto E (set_timers l m) /\
    (i = 0%nat <-> Forall (fun y => before (heap m) t y = true) (timers_ m)).
Proof.
  intros [Ha Hs Hn Hc Hr]. assert (t ∉ timers_ m).
  { apply NoDup_app in Hn as (_ & Hd & _). intros Hin. apply (Hd t Hin). by left. }
  destruct (set_insert_new (heap m) t (timers_ m)) as (i & l1 & l2 & El & Ei & Hi & Hs' & H1 & H2); try done.
  rewrite El in *. assert (l1 ++ t :: l2 ≡ₚ t :: l1 ++ l2) as P by solve_Permutation.
  assert ((l1 ++ l2) ++ t :: E ≡ₚ (l1 ++ t :: l2) ++ E) as P' by solve_Permutation.
  exists i, (l1 ++ t :: l2). split_and!; try done.
  - split; cbn; try done.
    + intros a. rewrite <- P'. apply Ha.
    + by rewrite <- P'.
    + intros a x. rewrite <- P'. apply Hc.
  - subst i. split.
    + intros ->%nil_length_inv. done.
    + intros [H3 _]%Forall_app. destruct l1 as [|y l1]; [done|].
      apply Forall_cons_iff in H1 as [H1 _]. apply Forall_cons_iff in H3 as [H3 _].
      pose proof (before_trans _ _ _ _ H1 H3) as Hc'. by rewrite before_irrefl in Hc'.
Qed.

(** Forgetting a timer without callback. *)
Lemma upto_drop E m t x :
  inv_upto (t :: E) m -> heap m !! t = Some x -> callable (callback_ x) = false -> inv_upto E m.
Proof.
  intros [Ha Hs Hn Hc Hr] Ht Hx.
  assert (timers_ m ++ t :: E ≡ₚ t :: timers_ m ++ E) as P by solve_Permutation.
  split; try done.
  - intros a Hin. apply Ha. rewrite P. by right.
  - rewrite P in Hn. by apply NoDup_cons in Hn as [_ ?].
  - intros a y Hy Hy'. pose proof (Hc a y Hy Hy') as Hin. rewrite P in Hin.
    apply elem_of_cons in Hin as [->|?]; [|done]. congruence.
Qed.

(** A new object. *)
Lemma upto_alloc `{Allocator} E m x :
  inv_upto E m -> timer_ok x ->
  inv_upto (alloc (heap m) :: E) (set_heap (<[alloc (heap m) := x]> (heap m)) m).
Proof.
  intros [Ha Hs Hn Hc Hr] Hx. set (t := alloc (heap m)) in *.
  assert (t ∉ timers_ m ++ E) as Ht.
  { intros [y Hy]%Ha. unfold t in Hy. by rewrite alloc_fresh in Hy. }
  assert (timers_ m ++ t :: E ≡ₚ t :: timers_ m ++ E) as P by solve_Permutation.
  split; cbn.
  - intros a. rewrite P. intros [->|Hin]%elem_of_cons; [rewrite lookup_insert_eq; by eexists|].
    rewrite lookup_insert_ne by (intros ->; done). by apply Ha.
  - apply sorted_insert_ne; [set_solver|done].
  - rewrite P. by apply NoDup_cons.
  - intros a y Hy Hy'. rewrite P. destruct (decide (a = t)) as [->|Hne]; [by left|right].
    rewrite lookup_insert_ne in Hy by done. by eapply Hc.
  - intros a y Hy. destruct (decide (a = t)) as [->|Hne].
    + rewrite lookup_insert_eq in Hy. naive_solver.
    + rewrite lookup_insert_ne in Hy by done. by eapply Hr.
Qed.

(** ** The operations *)

Lemma deref_ok m t x : heap m !! t = Some x -> deref_timer t m = (Ok x, m).
Proof. unfold deref_timer. by intros ->. Qed.

Lemma sorted_ext h h' l : (forall a, next_of h a = next_of h' a) -> sorted h l -> sorted h' l.
Proof.
  intros E Hs. induction Hs as [|a l _ IH Ha]; constructor; [done|].
  eapply Forall_impl; [exact Ha|]. intros b. cbn. by rewrite !E.
Qed.

(** The timer [x] with its callback taken away, or moved to another deadline. *)
Definition silenced (x : Timer) : Timer := mkTimer (recurring_ x) (ms_ x) (next_ x) Null.
Definition moved (ms next : Z) (x : Timer) : Timer := mkTimer (recurring_ x) ms next (callback_ x).

Lemma inv_find m t x :
  inv m -> heap m !! t = Some x -> callable (callback_ x) = true ->
  exists l1 l2, timers_ m = l1 ++ t :: l2 /\ set_find (heap m) t (timers_ m) = Some (length l1).
Proof.
  intros Hi Hx Hc. pose proof (inv_armed _ _ Hi _ _ Hx Hc) as Hin. rewrite app_nil_r in Hin.
  by apply set_find_in; [apply Hi|].
Qed.

Lemma silenced_next m t x a :
  heap m !! t = Some x -> next_of (heap m) a = next_of (<[t := silenced x]> (heap m)) a.
Proof.
  intros Hx. destruct (decide (a = t)) as [->|Hne].
  - by rewrite next_of_insert, (next_of_lookup _ _ _ Hx).
  - by rewrite next_of_insert_ne.
Qed.

Lemma Cancel_ok m t x :
  inv m -> heap m !! t = Some x ->
  exists l, let m' := mkTimerManager (<[t := silenced x]> (heap m)) l (previous_time_ m) (tickled_ m) in
    Cancel t m = (if callable (callback_ x) then (Ok true, m') else (Ok false, m)) /\
    (callable (callback_ x) = true -> inv m' /\ timers_ m ≡ₚ t :: l).
Proof.
  intros Hi Hx. unfold Cancel. rewrite (bind_ok _ _ _ _ _ (deref_ok _ _ _ Hx)).
  destruct (callable (callback_ x)) eqn:Hc; [|by exists []].
  destruct (inv_find m t x Hi Hx Hc) as (l1 & l2 & El & _).
  pose proof (inv_sorted _ _ Hi) as Hs. rewrite El in Hs.
  apply (sorted_ext _ (<[t := silenced x]> (heap m))) in Hs; [|by intros; apply silenced_next].
  destruct (set_find_in _ t _ Hs) as (k1 & k2 & Ek & Ef); [set_solver|]. rewrite <- El in Ek, Ef.
  exists (k1 ++ k2). unfold store_timer, bind, modify, gets. cbn. fold (silenced x).
  rewrite Ef, Ek, set_erase_middle. split; [done|]. intros _. split; [|solve_Permutation].
  eapply (upto_drop [] _ t (silenced x)); [|cbn; by rewrite lookup_insert_eq|done].
  apply (upto_store [t] (set_timers (k1 ++ k2) m)).
  - by apply (upto_take []).
  - by left.
  - apply (inv_range _ _ Hi _ _ Hx).
Qed.

Lemma AddTimer_locked_ok E m t :
  inv_upto (t :: E) m ->
  exists l front, let m' := mkTimerManager (heap m) l (previous_time_ m) (front || tickled_ m) in
    AddTimer_locked t m = (Ok front, m') /\ inv_upto E m' /\ l ≡ₚ t :: timers_ m /\
    (front = true <-> tickled_ m = false /\ Forall (fun y => before (heap m) t y = true) (timers_ m)).
Proof.
  intros Hi. destruct (upto_insert E m t Hi) as (i & l & Ei & P & Hi' & Hf).
  exists l, (Nat.eqb i 0 && negb (tickled_ m)). cbn zeta. split_and!; try done.
  - unfold AddTimer_locked, bind, gets, modify, ret. cbn. rewrite Ei. cbn.
    destruct (Nat.eqb i 0), (tickled_ m) eqn:Ht; unfold set_timers; cbn; by rewrite ?Ht.
  - by apply (upto_frame E (set_timers l m)).
  - rewrite <- Hf, andb_true_iff, Nat.eqb_eq, negb_true_iff. tauto.
Qed.

Lemma Refresh_ok m now t x :
  inv m -> heap m !! t = Some x ->
  exists l, let m' := mkTimerManager (<[t := moved (ms_ x) (u64 (now + ms_ x)) x]> (heap m)) l
                        (previous_time_ m) (tickled_ m) in
    Refresh now t m = (if callable (callback_ x) then (Ok true, m') else (Ok false, m)) /\
    (callable (callback_ x) = true -> inv m' /\ l ≡ₚ timers_ m).
Proof.
  intros Hi Hx. unfold Refresh. rewrite (bind_ok _ _ _ _ _ (deref_ok _ _ _ Hx)).
  destruct (callable (callback_ x)) eqn:Hc; [|by exists []]. cbn [negb].
  destruct (inv_find m t x Hi Hx Hc) as (l1 & l2 & El & Ef).
  pose proof (upto_take [] m t l1 l2 Hi El) as H1.
  apply (upto_store _ _ t (moved (ms_ x) (u64 (now + ms_ x)) x)) in H1; [|by left|].
  2:{ split; [apply (inv_range _ _ Hi _ _ Hx)|apply u64_range]. }
  destruct (upto_insert [] _ t H1) as (i & l & Ei & P & Hi' & _). cbn in Ei, P.
  exists l. unfold store_timer, bind, modify, gets. cbn. rewrite Ef. cbn.
  rewrite El, set_erase_middle. fold (moved (ms_ x) (u64 (now + ms_ x)) x). rewrite Ei.
  split; [done|]. intros _. split; [done|]. rewrite P. solve_Permutation.
Qed.

(** The deadline a reset timer gets. *)
Definition reset_deadline (now ms : Z) (fromNow : bool) (x : Timer) : Z :=
  u64 ((if fromNow then now else u64 (next_ x - ms_ x)) + ms).

Lemma timer_reset_ok m now ms fromNow t x :
  inv m -> heap m !! t = Some x -> 0 <= ms < 2 ^ 64 ->
  exists l front,
    let same := (ms =? ms_ x) && negb fromNow in
    let m' := mkTimerManager (<[t := moved ms (reset_deadline now ms fromNow x) x]> (heap m)) l
                (previous_time_ m) (front || tickled_ m) in
    Reset now ms fromNow t m =
      (if same then (Ok (true, false), m)
       else if callable (callback_ x) then (Ok (true, front), m') else (Ok (false, false), m)) /\
    (callable (callback_ x) = true -> inv m' /\ l ≡ₚ timers_ m /\
       exists l0, timers_ m ≡ₚ t :: l0 /\
         (front = true <-> tickled_ m = false /\ Forall (fun y => before (heap m') t y = true) l0)).
Proof.
  intros Hi Hx Hms. unfold Reset. rewrite (bind_ok _ _ _ _ _ (deref_ok _ _ _ Hx)).
  destruct (callable (callback_ x)) eqn:Hc; cbn [negb];
    [|exists [], false; by destruct ((ms =? ms_ x) && negb fromNow)].
  destruct (inv_find m t x Hi Hx Hc) as (l1 & l2 & El & Ef).
  pose proof (upto_take [] m t l1 l2 Hi El) as H1.
  apply (upto_store _ _ t (moved ms (reset_deadline now ms fromNow x) x)) in H1; [|by left|].
  2:{ split; [done|apply u64_range]. }
  destruct (AddTimer_locked_ok [] _ t H1) as (l & front & Ea & Hi' & P & Hf). cbn in Hi', P, Hf.
  exists l, front. cbn zeta. split.
  - destruct ((ms =? ms_ x) && negb fromNow); [done|].
    unfold store_timer, modify, gets, bind. cbn. rewrite Ef. cbn. rewrite El, set_erase_middle.
    fold (reset_deadline now ms fromNow x). fold (moved ms (reset_deadline now ms fromNow x) x).
    unfold set_heap, set_timers in *. cbn in *. by rewrite Ea.
  - intros _. split; [done|]. split; [rewrite P, El; solve_Permutation|].
    exists (l1 ++ l2). split; [rewrite El; solve_Permutation|done].
Qed.

Lemma AddTimer_ok `{Allocator} m now ms f rec :
  inv m -> 0 <= ms < 2 ^ 64 ->
  let t := alloc (heap m) in
  let h := <[t := new_Timer now ms f rec]> (heap m) in
  exists l front, let m' := mkTimerManager h l (previous_time_ m) (front || tickled_ m) in
    AddTimer now ms f rec m = (Ok (t, front), m') /\ inv m' /\ l ≡ₚ t :: timers_ m /\
    (front = true <-> tickled_ m = false /\ Forall (fun y => before h t y = true) (timers_ m)).
Proof.
  intros Hi Hms t h. pose proof (upto_alloc [] m (new_Timer now ms f rec) Hi) as H1.
  destruct (AddTimer_locked_ok [] _ t (H1 ltac:(split; [done|apply u64_range])))
    as (l & front & Ea & Hi' & P & Hf).
  exists l, front. cbn zeta. split_and!; try done.
  unfold AddTimer, store_timer, gets, modify, bind. fold t. unfold h, t in *. by rewrite Ea.
Qed.

(** ** Expiry *)

Definition callback_of (h : gmap addr Timer) (a : addr) : func := default Null (callback_ <$> h !! a).
Definition recurring_of (h : gmap addr Timer) (a : addr) : Prop := (recurring_ <$> h !! a) = Some true.

#[export] Instance recurring_of_dec h a : Decision (recurring_of h a).
Proof. unfold recurring_of. apply _. Defined.

Definition after_fire (now : Z) (x : Timer) : Timer :=
  if recurring_ x then moved (ms_ x) (u64 (now + ms_ x)) x else silenced x.

(** What firing the timers [E] leaves behind. *)
Record fired (now : Z) (E : list addr) (m m' : TimerManager) : Prop := {
  fired_out a : a ∉ E -> heap m' !! a = heap m !! a;
  fired_in a x : a ∈ E -> heap m !! a = Some x -> heap m' !! a = Some (after_fire now x);
  fired_set : timers_ m' ≡ₚ timers_ m ++ filter (recurring_of (heap m)) E;
  fired_tickled : tickled_ m' = tickled_ m;
  fired_previous : previous_time_ m' = previous_time_ m }.

(** One timer: put back later if it recurs, silenced otherwise. *)
Lemma fire_one now t E m x :
  inv_upto (t :: E) m -> heap m !! t = Some x ->
  exists l, let m' := mkTimerManager (<[t := after_fire now x]> (heap m)) l (previous_time_ m) (tickled_ m) in
    (if recurring_ x then
       store_timer t (mkTimer true (ms_ x) (u64 (now + ms_ x)) (callback_ x)) ;;
       modify (fun m => set_timers (set_insert (heap m) t (timers_ m)).2 m)
     else store_timer t (mkTimer (recurring_ x) (ms_ x) (next_ x) Null)) m = (Ok tt, m') /\
    inv_upto E m' /\ l ≡ₚ (if recurring_ x then t :: timers_ m else timers_ m).
Proof.
  intros Hi Hx. pose proof (inv_range _ _ Hi _ _ Hx) as [Hms Hnext].
  assert (timer_ok (after_fire now x)) as Hok.
  { unfold after_fire. destruct (recurring_ x); (split; [done|]); [apply u64_range|done]. }
  pose proof (upto_store _ _ t _ Hi ltac:(left) Hok) as H1. unfold after_fire in *.
  destruct (recurring_ x) eqn:Hr.
  - destruct (upto_insert E _ t H1) as (i & l & Ei & P & Hi' & _). exists l.
    cbn zeta. split_and!; try done. unfold store_timer, bind, modify. cbn in *.
    unfold moved in *. rewrite Hr in *. by rewrite Ei.
  - exists (timers_ m). cbn zeta. split_and!; try done.
    + by unfold store_timer, modify, silenced; rewrite Hr.
    + eapply upto_drop; [exact H1|cbn; by rewrite lookup_insert_eq|done].
Qed.

Lemma fire_ok now E m :
  inv_upto E m ->
  exists m', fire now E m = (Ok (map (callback_of (heap m)) E), m') /\ inv m' /\ fired now E m m'.
Proof.
  revert m. induction E as [|t E IH]; intros m Hi.
  { exists m. split_and!; try done. split; try done; [set_solver|]. by rewrite app_nil_r. }
  pose proof (inv_nodup _ _ Hi) as Hn. apply NoDup_app in Hn as (_ & _ & Hn%NoDup_cons).
  destruct Hn as [Ht Hn].
  destruct (inv_alive _ _ Hi t) as [x Hx]; [set_solver|].
  destruct (fire_one now t E m x Hi Hx) as (l & E1 & Hi1 & P1).
  destruct (IH _ Hi1) as (m' & E2 & Hi2 & [Fo Fi Fs Ft Fp]). cbn in Fo, Fi, Fs, Ft, Fp.
  assert (forall a, a ∈ E -> <[t := after_fire now x]> (heap m) !! a = heap m !! a) as Hsame.
  { intros a Ha. apply lookup_insert_ne. by intros ->. }
  exists m'. split_and!; [|done|split].
  - cbn [fire]. rewrite (bind_ok _ _ _ _ _ (deref_ok _ _ _ Hx)). prog_ok E1. prog_ok E2.
    unfold ret. do 2 f_equal. cbn. f_equal; [unfold callback_of; by rewrite Hx|].
    apply map_ext_in. intros a Ha%list_elem_of_In. unfold callback_of. by rewrite Hsame.
  - intros a [Hne Ha]%not_elem_of_cons. rewrite Fo by done. by apply lookup_insert_ne.
  - intros a y [->|Ha]%elem_of_cons Hy.
    + rewrite Fo by done. rewrite lookup_insert_eq. congruence.
    + apply Fi; [done|]. by rewrite Hsame.
  - assert (filter (recurring_of (<[t := after_fire now x]> (heap m))) E
            = filter (recurring_of (heap m)) E) as Ef.
    { apply filter_ext_mem. intros a Ha. unfold recurring_of. by rewrite Hsame. }
    assert (recurring_of (heap m) t <-> recurring_ x = true) as Hrec.
    { unfold recurring_of. rewrite Hx. cbn. split; [by intros [=]|by intros ->]. }
    rewrite Fs, Ef, P1, filter_cons. clear -Hrec.
    destruct (recurring_ x); case_decide as Hd; rewrite Hrec in Hd; try done. solve_Permutation.
  - done.
  - done.
Qed.

Definition due (h : gmap addr Timer) (now : Z) (l : list addr) : list addr :=
  filter (fun a => next_of h a <= now) l.

(** The clock went back by more than an hour. The subtraction is unsigned. *)
Definition rolled_over (m : TimerManager) (now : Z) : bool :=
  (now <? previous_time_ m) && (now <? u64 (previous_time_ m - 60 * 60 * 1000)).

(** The timers that fire at [now], in the order of their deadlines. *)
Definition expired_at (m : TimerManager) (now : Z) : list addr :=
  if rolled_over m now then timers_ m else due (heap m) now (timers_ m).

Lemma skip_equal_split h now l :
  sorted h l -> Forall (fun y => now <= next_of h y) l ->
  exists l1 l2, l = l1 ++ l2 /\ skip_equal h now l = length l1 /\
    Forall (fun y => next_of h y <= now) l1 /\ Forall (fun y => ~ next_of h y <= now) l2.
Proof.
  induction 1 as [|y l Hs IH Hy]; intros Hl; [by exists [], []|].
  apply Forall_cons_iff in Hl as [Hny Hl]. cbn [skip_equal]. destruct (Z.eqb_spec (next_of h y) now).
  - destruct (IH Hl) as (l1 & l2 & -> & -> & H1 & H2). exists (y :: l1), l2. split_and!; try done.
    constructor; [lia|done].
  - exists [], (y :: l). split_and!; try done. constructor; [lia|]. rewrite List.Forall_forall in *.
    intros z Hz. specialize (Hy z Hz). apply beforeP in Hy. lia.
Qed.

(** The position the search and the loop arrive at cuts the set at [now], wherever
    the temporary [now_timer] is allocated. *)
Lemma due_cut h nt now l :
  sorted h l -> nt ∉ l ->
  let it := lower_bound (<[nt := deadline_Timer now]> h) nt l in
  exists l1 l2, l = l1 ++ l2 /\ (it + skip_equal h now (drop it l))%nat = length l1 /\
    Forall (fun y => next_of h y <= now) l1 /\ Forall (fun y => ~ next_of h y <= now) l2.
Proof.
  intros Hs Hnt it. set (h' := <[nt := deadline_Timer now]> h) in *.
  assert (forall y, y ∈ l -> before h' y nt = true -> next_of h y <= now) as Hlo.
  { intros y Hy. rewrite beforeP. unfold h'. rewrite next_of_insert, next_of_insert_ne by (by intros ->).
    cbn. lia. }
  assert (forall y, y ∈ l -> before h' y nt = false -> now <= next_of h y) as Hhi.
  { intros y Hy. rewrite <- not_true_iff_false, beforeP. unfold h'.
    rewrite next_of_insert, next_of_insert_ne by (by intros ->). cbn. lia. }
  destruct (lower_bound_split h' nt l) as (l1 & l2 & -> & Hlb & H1 & H2); [by apply sorted_insert_ne|].
  unfold it. rewrite Hlb, drop_app_length. apply sorted_app_inv in Hs as (_ & Hs2 & _).
  destruct (skip_equal_split h now l2 Hs2) as (k1 & k2 & -> & -> & H3 & H4).
  { rewrite List.Forall_forall in *. intros y Hy. apply Hhi; [|by apply H2].
    apply elem_of_app. right. by apply list_elem_of_In. }
  exists (l1 ++ k1), k2. rewrite length_app, app_assoc. split_and!; try done.
  apply Forall_app. split; [|done]. rewrite List.Forall_forall in *. intros y Hy.
  apply Hlo; [|by apply H1]. apply elem_of_app. left. by apply list_elem_of_In.
Qed.

Lemma upto_prefix m l1 l2 :
  inv m -> timers_ m = l1 ++ l2 -> inv_upto l1 (set_timers l2 m).
Proof.
  intros [Ha Hs Hn Hc Hr] El. rewrite app_nil_r in *. rewrite El in *.
  assert (l2 ++ l1 ≡ₚ l1 ++ l2) as P by apply Permutation_app_comm.
  apply sorted_app_inv in Hs as (_ & Hs2 & _). split; cbn; try done.
  - intros a. rewrite P. apply Ha.
  - by rewrite P.
  - intros a x. rewrite P. apply Hc.
Qed.

(** What [ListExpiredCallbacks] returns and leaves. *)
Record expired (now : Z) (m m' : TimerManager) : Prop := {
  expired_out a : a ∉ expired_at m now -> heap m' !! a = heap m !! a;
  expired_in a x : a ∈ expired_at m now -> heap m !! a = Some x -> heap m' !! a = Some (after_fire now x);
  expired_set : timers_ m' ≡ₚ filter (fun a => a ∉ expired_at m now) (timers_ m)
                              ++ filter (recurring_of (heap m)) (expired_at m now);
  expired_tickled : tickled_ m' = tickled_ m }.

Lemma expired_none now m p :
  expired_at m now = [] -> expired now m (mkTimerManager (heap m) (timers_ m) p (tickled_ m)).
Proof.
  intros E. split; rewrite ?E; try done; [set_solver|]. cbn. rewrite app_nil_r.
  rewrite (filter_cut_r _ [] (timers_ m)); [done|constructor|apply Forall_forall; set_solver].
Qed.

Lemma expired_cut m now l1 l2 :
  inv m -> timers_ m = l1 ++ l2 -> expired_at m now = l1 ->
  exists m', fire now l1 (mkTimerManager (heap m) l2 now (tickled_ m))
      = (Ok (map (callback_of (heap m)) l1), m') /\ inv m' /\ expired now m m'.
Proof.
  intros Hi El Ee. pose proof (upto_frame _ _ now (tickled_ m) (upto_prefix m l1 l2 Hi El)) as Hi1.
  destruct (fire_ok now l1 _ Hi1) as (m' & E & Hi' & [Fo Fi Fs Ft Fp]). cbn in *.
  exists m'. split_and!; try done. split; rewrite ?Ee; try done.
  pose proof (inv_nodup _ _ Hi) as Hn. rewrite app_nil_r, El in Hn.
  apply NoDup_app in Hn as (_ & Hd & _).
  rewrite Fs, El, filter_cut_r; [done|apply Forall_forall; set_solver..].
Qed.

Lemma ListExpiredCallbacks_ok `{Allocator} m now :
  inv m ->
  exists m', ListExpiredCallbacks now m = (Ok (map (callback_of (heap m)) (expired_at m now)), m') /\
    inv m' /\ expired now m m'.
Proof.
  intros Hi. unfold ListExpiredCallbacks, DetectClockRollover, bind, gets, modify, ret. cbn -[drop take lower_bound].
  destruct (timers_ m) as [|t l] eqn:El.
  { assert (expired_at m now = []) as E by (unfold expired_at; rewrite El; by destruct (rolled_over m now)).
    exists m. rewrite E. split_and!; try done. pose proof (expired_none now m (previous_time_ m) E).
    by destruct m. }
  destruct (inv_alive _ _ Hi t) as [x Hx]; [rewrite El; set_solver|].
  unfold deref_timer. cbn -[drop take lower_bound]. rewrite Hx. fold (rolled_over m now). cbn -[drop take lower_bound].
  pose proof (inv_sorted _ _ Hi) as Hs. rewrite El in Hs.
  destruct (rolled_over m now) eqn:Hroll; cbn [negb andb].
  - assert (expired_at m now = t :: l) as E by (unfold expired_at; by rewrite Hroll, El).
    rewrite E. change (S (length l)) with (length (t :: l)).
    rewrite (drop_ge (t :: l)), Nat.add_0_r by done. rewrite drop_ge, take_ge by done.
    apply (expired_cut m now); [done| |done]. by rewrite app_nil_r.
  - destruct (Z.ltb_spec now (next_ x)) as [Hlt|Hge].
    + assert (expired_at m now = []) as E.
      { unfold expired_at, due. rewrite Hroll, El. apply (filter_cut _ [] (t :: l)); [constructor|].
        pose proof (next_of_lookup _ _ _ Hx). inversion Hs as [|? ? Hs' Ht]; subst.
        constructor; [lia|]. eapply Forall_impl; [exact Ht|]. intros b Hb%beforeP. lia. }
      eexists. rewrite E. split_and!; try done; [by apply upto_frame|].
      by apply (expired_none now m now).
    + assert (alloc (heap m) ∉ t :: l) as Hnt.
      { intros Hin. destruct (inv_alive _ _ Hi (alloc (heap m))) as [y Hy]; [by rewrite El, app_nil_r|].
        by rewrite alloc_fresh in Hy. }
      destruct (due_cut (heap m) (alloc (heap m)) now (t :: l) Hs Hnt) as (l1 & l2 & E12 & Eit & H1 & H2).
      rewrite Eit, E12, take_app_length, drop_app_length.
      assert (expired_at m now = l1) as E.
      { unfold expired_at, due. rewrite Hroll, El, E12. by apply filter_cut. }
      rewrite E. apply (expired_cut m now); [done| |done]. by rewrite <- E12.
Qed.

Lemma GetNextTimeout_eq m now :
  inv m ->
  GetNextTimeout now m
  = (Ok (match timers_ m with
         | [] => max64
         | t :: _ => if next_of (heap m) t <=? now then 0 else u64 (next_of (heap m) t - now)
         end), set_tickled false m).
Proof.
  intros Hi. unfold GetNextTimeout, bind, modify, gets, ret. cbn.
  destruct (timers_ m) as [|t l] eqn:El; [done|].
  destruct (inv_alive _ _ Hi t) as [x Hx]; [rewrite El; set_solver|].
  rewrite deref_ok with (x := x) by done. by rewrite (next_of_lookup _ _ _ Hx).
Qed.

(** ** Sequences of calls *)

Inductive tcmd :=
  | TAdd (now ms : Z) (f : func) (recurring : bool)
  | TAddCond (now ms : Z) (f : func) (weak_cond : nat) (recurring : bool)
  | TCancel (t : addr)
  | TRefresh (now : Z) (t : addr)
  | TReset (now ms : Z) (fromNow : bool) (t : addr)
  | TNext (now : Z)
  | TExpired (now : Z).

Inductive tout :=
  | OTimer (t : addr) (front : bool)
  | OBool (b : bool)
  | OReset (b front : bool)
  | OTimeout (ms : Z)
  | OCallbacks (cbs : list func).

Definition texec `{Allocator} (c : tcmd) : prog TimerManager tout :=
  match c with
  | TAdd now ms f r => let* p := AddTimer now ms f r in ret (OTimer p.1 p.2)
  | TAddCond now ms f w r => let* p := AddConditionTimer now ms f w r in ret (OTimer p.1 p.2)
  | TCancel t => let* b := Cancel t in ret (OBool b)
  | TRefresh now t => let* b := Refresh now t in ret (OBool b)
  | TReset now ms n t => let* p := Reset now ms n t in ret (OReset p.1 p.2)
  | TNext now => let* v := GetNextTimeout now in ret (OTimeout v)
  | TExpired now => let* cbs := ListExpiredCallbacks now in ret (OCallbacks cbs)
  end.

(** A call a program can make: on a timer it got from [AddTimer], with [uint64_t]
    arguments.  The timer may have fired or been cancelled. *)
Definition tvalid (m : TimerManager) (c : tcmd) : Prop :=
  match c with
  | TAdd _ ms _ _ | TAddCond _ ms _ _ _ => 0 <= ms < 2 ^ 64
  | TCancel t | TRefresh _ t => is_Some (heap m !! t)
  | TReset _ ms _ t => 0 <= ms < 2 ^ 64 /\ is_Some (heap m !! t)
  | TNext _ | TExpired _ => True
  end.

(** A valid call that returns; the calls of a program from one state to another. *)
Inductive tstep `{Allocator} (m : TimerManager) : tcmd -> TimerManager -> Prop :=
  | tstep_ok c o m' : tvalid m c -> texec c m = (Ok o, m') -> tstep m c m'.

Inductive tsteps `{Allocator} : TimerManager -> list tcmd -> TimerManager -> Prop :=
  | tsteps_nil m : tsteps m [] m
  | tsteps_cons m c m1 cs m2 : tstep m c m1 -> tsteps m1 cs m2 -> tsteps m (c :: cs) m2.

(** What a call does to a timer [t] that is not armed: nothing. *)
Definition disarmed (t : addr) (m : TimerManager) : Prop :=
  t ∉ timers_ m /\ exists x, heap m !! t = Some x /\ callable (callback_ x) = false.

(** A timer that still has its callback. *)
Definition has_callback (t : addr) (m : TimerManager) : Prop :=
  exists x, heap m !! t = Some x /\ callable (callback_ x) = true.

(** No timer is due before [D], or the sleeper has been notified. *)
Definition awake_by (D : Z) (m : TimerManager) : Prop :=
  tickled_ m = true \/ forall t, t ∈ timers_ m -> D <= next_of (heap m) t.

(** The calls other threads make while one sleeps. *)
Definition quiet (c : tcmd) : bool :=
  match c with TAdd _ _ _ _ | TAddCond _ _ _ _ _ | TCancel _ | TReset _ _ _ _ => true | _ => false end.

(** What a call preserves. *)
Record good (c : tcmd) (m m' : TimerManager) : Prop := {
  good_inv : inv m';
  good_disarmed t : disarmed t m -> disarmed t m';
  good_callback t : has_callback t m -> has_callback t m' \/ disarmed t m';
  good_awake D : quiet c = true -> awake_by D m -> awake_by D m' }.

Lemma good_refl c m : inv m -> good c m m.
Proof. intros. split; auto. Qed.

Lemma callback_frame t a x' m m' :
  heap m' = <[a := x']> (heap m) -> (t = a -> callable (callback_ x') = true) -> has_callback t m -> has_callback t m'.
Proof.
  intros Eh Hc (x & Hx & Hx'). unfold has_callback. rewrite Eh. destruct (decide (a = t)) as [<-|Hne].
  - exists x'. rewrite lookup_insert_eq. auto.
  - exists x. by rewrite lookup_insert_ne.
Qed.

Lemma disarmed_frame t a x' m m' :
  heap m' = <[a := x']> (heap m) -> t <> a -> (t ∈ timers_ m' -> t = a \/ t ∈ timers_ m) ->
  disarmed t m -> disarmed t m'.
Proof.
  intros Eh Hne Hs [Ht (x & Hx & Hc)]. split; [intros [?|?]%Hs; done|].
  exists x. rewrite Eh, lookup_insert_ne by done. done.
Qed.

(** An armed timer is not disarmed. *)
Lemma disarmed_armed t a x m :
  disarmed t m -> heap m !! a = Some x -> callable (callback_ x) = true -> t <> a.
Proof. intros [_ (y & Hy & Hc)] Hx Hx' ->. rewrite Hx in Hy. injection Hy as ->. congruence. Qed.

(** The new set holds [t] and the old timers, whose deadlines are the old ones. *)
Lemma awake_insert D t h l0 l m m' front :
  heap m' = h -> timers_ m' = l -> tickled_ m' = front || tickled_ m -> l ≡ₚ t :: l0 ->
  (forall y, y ∈ l0 -> y ∈ timers_ m /\ next_of h y = next_of (heap m) y) ->
  (front = true <-> tickled_ m = false /\ Forall (fun y => before h t y = true) l0) ->
  awake_by D m -> awake_by D m'.
Proof.
  intros Eh El Et P Hl0 Hf [Ha|Ha]; unfold awake_by; rewrite Et, Eh, El.
  { left. rewrite Ha. apply orb_true_r. }
  destruct front; [by left|]. destruct (tickled_ m); [by left|right].
  assert (exists y, y ∈ l0 /\ before h t y = false) as (y & Hy & Hb).
  { clear -Hf. destruct (decide (Forall (fun y => before h t y = true) l0)) as [Hall|Hex].
    - by assert (false = true) by (by apply Hf).
    - apply not_Forall_Exists in Hex; [|apply _]. apply Exists_exists in Hex as (y & Hy & Hb).
      exists y. split; [done|]. by apply not_true_iff_false. }
  assert (forall y, y ∈ l0 -> D <= next_of h y) as H0.
  { intros z Hz. destruct (Hl0 z Hz) as [Hz' ->]. by apply Ha. }
  intros a. rewrite P. intros [->|Hin]%elem_of_cons; [|by apply H0].
  rewrite <- not_true_iff_false, beforeP in Hb. specialize (H0 y Hy). lia.
Qed.

Section Steps.
Context `{Allocator}.

Lemma Cancel_good m t : inv m -> is_Some (heap m !! t) ->
  exists o m', texec (TCancel t) m = (Ok o, m') /\ good (TCancel t) m m'.
Proof.
  intros Hi [x Hx]. destruct (Cancel_ok m t x Hi Hx) as (l & E & Hc). cbn [texec] in *. unfold bind.
  rewrite E. destruct (callable (callback_ x)) eqn:Ec; [|exists (OBool false), m; split; [done|by apply good_refl]].
  destruct (Hc eq_refl) as [Hi' P]. eexists _, _. split; [done|]. split; [done| | |].
  - intros a Ha. eapply disarmed_frame; [reflexivity|by eapply disarmed_armed| |done].
    cbn. rewrite P. set_solver.
  - intros a Ha. destruct (decide (a = t)) as [->|Hne]; [right|left; by eapply callback_frame].
    split; cbn; [|eexists; by rewrite lookup_insert_eq].
    pose proof (inv_nodup _ _ Hi) as Hn. rewrite app_nil_r, P in Hn. by apply NoDup_cons in Hn as [??].
  - intros D _ [?|Ha]; [by left|right]. cbn. intros a Hin.
    rewrite <- silenced_next by done. apply Ha. rewrite P. by right.
Qed.

Lemma Refresh_good m now t : inv m -> is_Some (heap m !! t) ->
  exists o m', texec (TRefresh now t) m = (Ok o, m') /\ good (TRefresh now t) m m'.
Proof.
  intros Hi [x Hx]. destruct (Refresh_ok m now t x Hi Hx) as (l & E & Hc). cbn [texec] in *. unfold bind.
  rewrite E. destruct (callable (callback_ x)) eqn:Ec; [|exists (OBool false), m; split; [done|by apply good_refl]].
  destruct (Hc eq_refl) as [Hi' P]. eexists _, _. split; [done|]. split; [done| | |done].
  - intros a Ha. eapply disarmed_frame; [reflexivity|by eapply disarmed_armed| |done].
    cbn. rewrite P. set_solver.
  - intros a Ha. left. by eapply callback_frame.
Qed.

Lemma Reset_good m now ms n t : inv m -> 0 <= ms < 2 ^ 64 -> is_Some (heap m !! t) ->
  exists o m', texec (TReset now ms n t) m = (Ok o, m') /\ good (TReset now ms n t) m m'.
Proof.
  intros Hi Hms [x Hx]. destruct (timer_reset_ok m now ms n t x Hi Hx Hms) as (l & front & E & Hc).
  cbn [texec] in *. unfold bind. rewrite E.
  destruct ((ms =? ms_ x) && negb n); [eexists _, m; split; [done|by apply good_refl]|].
  destruct (callable (callback_ x)) eqn:Ec; [|eexists _, m; split; [done|by apply good_refl]].
  destruct (Hc eq_refl) as (Hi' & P & l0 & P0 & Hf). eexists _, _. split; [done|]. split; [done| | |].
  - intros a Ha. eapply disarmed_frame; [reflexivity|by eapply disarmed_armed| |done].
    cbn. rewrite P. set_solver.
  - intros a Ha. left. by eapply callback_frame.
  - intros D _ Ha. eapply (awake_insert D t _ l0 l m _ front); try done.
    + by rewrite P.
    + intros y Hy. split; [rewrite P0; by right|]. apply next_of_insert_ne. intros ->.
      pose proof (inv_nodup _ _ Hi) as Hn. rewrite app_nil_r, P0 in Hn. by apply NoDup_cons in Hn as [??].
Qed.

Lemma AddTimer_good m c now ms f r : inv m -> 0 <= ms < 2 ^ 64 ->
  exists o m', (let* p := AddTimer now ms f r in ret (OTimer p.1 p.2)) m = (Ok o, m') /\ good c m m'.
Proof.
  intros Hi Hms. destruct (AddTimer_ok m now ms f r Hi Hms) as (l & front & E & Hi' & P & Hf).
  unfold bind. rewrite E. eexists _, _. split; [done|]. split; [done| | |].
  - intros a Ha. eapply disarmed_frame; [reflexivity| | |done]; cbn.
    + destruct Ha as [_ (y & Hy & _)]. intros ->. by rewrite alloc_fresh in Hy.
    + rewrite P. set_solver.
  - intros a Ha. left. destruct Ha as (x & Hx & Hc). exists x. cbn. rewrite lookup_insert_ne; [done|].
    intros <-. by rewrite alloc_fresh in Hx.
  - intros D _ Ha. eapply (awake_insert D (alloc (heap m)) _ (timers_ m) l m _ front); try done.
    intros y Hy. split; [done|]. apply next_of_insert_ne. intros ->.
    destruct (inv_alive _ _ Hi (alloc (heap m))) as [z Hz]; [set_solver|]. by rewrite alloc_fresh in Hz.
Qed.

Lemma Expired_good m now : inv m ->
  exists o m', texec (TExpired now) m = (Ok o, m') /\ good (TExpired now) m m'.
Proof.
  intros Hi. destruct (ListExpiredCallbacks_ok m now Hi) as (m' & E & Hi' & [Fo Fi Fs Ft]).
  cbn [texec]. unfold bind. rewrite E. eexists _, m'. split; [done|]. split; [done| | |done].
  - intros a [Ha (x & Hx & Hc)]. assert (a ∉ expired_at m now) as Hne.
    { unfold expired_at, due. destruct (rolled_over m now); [done|]. rewrite list_elem_of_filter. tauto. }
    split; [rewrite Fs, elem_of_app, !list_elem_of_filter; tauto|]. exists x. by rewrite Fo.
  - intros a (x & Hx & Hc). destruct (decide (a ∈ expired_at m now)) as [Hin|Hout].
    + pose proof (Fi a x Hin Hx) as Hx'. unfold after_fire in Hx'. destruct (recurring_ x) eqn:Er.
      * left. eexists. split; [exact Hx'|done].
      * right. split; [|eexists; split; [exact Hx'|done]].
        rewrite Fs, elem_of_app, !list_elem_of_filter. unfold recurring_of. rewrite Hx. cbn. rewrite Er.
        intros [[? _]|[? _]]; [done|discriminate].
    + left. exists x. by rewrite Fo.
Qed.

Lemma texec_good m c : inv m -> tvalid m c -> exists o m', texec c m = (Ok o, m') /\ good c m m'.
Proof.
  intros Hi Hv. destruct c; cbn [tvalid] in Hv.
  - by apply AddTimer_good.
  - by apply AddTimer_good.
  - by apply Cancel_good.
  - by apply Refresh_good.
  - destruct Hv; by apply Reset_good.
  - cbn [texec]. unfold bind. rewrite GetNextTimeout_eq by done. eexists _, _. split; [done|].
    split; [by apply upto_frame|done|by left|done].
  - by apply Expired_good.
Qed.

Lemma tstep_good m c m' : inv m -> tstep m c m' -> good c m m'.
Proof.
  intros Hi [c' o m1 Hv E]. destruct (texec_good m c' Hi Hv) as (o' & m2 & E' & G). congruence.
Qed.

Lemma tsteps_inv m cs m' : inv m -> tsteps m cs m' -> inv m'.
Proof. intros Hi. induction 1; [done|]. apply IHtsteps. by eapply good_inv, tstep_good. Qed.

Lemma tsteps_disarmed m cs m' t : inv m -> tsteps m cs m' -> disarmed t m -> disarmed t m'.
Proof.
  intros Hi Hs. induction Hs as [m|m c m1 cs m2 Hst _ IH]; [done|]. intros Hd.
  pose proof (tstep_good _ _ _ Hi Hst) as G. apply IH; by apply G.
Qed.

Lemma tsteps_callback m cs m' t :
  inv m -> tsteps m cs m' -> has_callback t m \/ disarmed t m -> has_callback t m' \/ disarmed t m'.
Proof.
  intros Hi Hs. induction Hs as [m|m c m1 cs m2 Hst _ IH]; [done|]. intros Hd.
  pose proof (tstep_good _ _ _ Hi Hst) as G. apply IH; [by apply G|].
  destruct Hd as [Hd|Hd]; [by apply G|right; by apply G].
Qed.
End Steps.

(** ** What the timer manager promises *)

Section Promises.
Context `{Allocator}.

(** C40: from a new manager, no sequence of calls on existing timers (adding,
    cancelling, refreshing, resetting, asking for the timeout, collecting the
    expired callbacks, with clock readings that may jump) throws or is undefined:
    every timer with a callback is in the set, which stays sorted, so [Cancel]
    never erases [end()]. *)
Theorem timer_calls_safe start cs m c :
  tsteps (new_TimerManager start) cs m -> tvalid m c ->
  inv m /\ exists o m', texec c m = (Ok o, m') /\ inv m'.
Proof.
  intros Hs Hv. pose proof (tsteps_inv _ _ _ (inv_new start) Hs) as Hi. split; [done|].
  destruct (texec_good m c Hi Hv) as (o & m' & E & G). exists o, m'. split; [done|apply G].
Qed.

(** C5: [ListExpiredCallbacks] returns the callbacks of exactly the timers that are
    due (all of them after a clock rollover), each once and earliest deadline
    first; recurring ones are armed again [ms_] after now, the others lose their
    callback and leave the set, and no other timer changes. *)
Theorem expired_exact m now :
  inv m ->
  exists m',
    ListExpiredCallbacks now m = (Ok (map (callback_of (heap m)) (expired_at m now)), m') /\
    sorted (heap m) (expired_at m now) /\ NoDup (expired_at m now) /\
    (forall a, a ∈ expired_at m now <->
       a ∈ timers_ m /\ (rolled_over m now = true \/ next_of (heap m) a <= now)) /\
    expired now m m' /\ inv m'.
Proof.
  intros Hi. destruct (ListExpiredCallbacks_ok m now Hi) as (m' & E & Hi' & X).
  pose proof (inv_sorted _ _ Hi) as Hs. assert (sorted (heap m) (expired_at m now)) as Hse.
  { unfold expired_at. destruct (rolled_over m now); [done|]. unfold due.
    clear -Hs. induction Hs as [|a l _ IH Ha]; [constructor|]. rewrite filter_cons. case_decide; [|done].
    constructor; [done|]. rewrite List.Forall_forall in *. intros b Hb%list_elem_of_In.
    apply list_elem_of_filter in Hb as [_ Hb]. by apply Ha, list_elem_of_In. }
  exists m'. split_and!; try done; [by eapply sorted_nodup|].
  intros a. unfold expired_at, due. destruct (rolled_over m now); [|rewrite list_elem_of_filter];
    intuition congruence.
Qed.

(** [GetNextTimeout] returns the time to the earliest deadline, 0 when one has
    passed, and the largest 64-bit number when no timer is armed. *)
Theorem next_timeout_earliest m now :
  inv m -> 0 <= now ->
  exists v, GetNextTimeout now m = (Ok v, set_tickled false m) /\
    (timers_ m = [] -> v = max64) /\
    (forall t, t ∈ timers_ m -> v <= Z.max 0 (next_of (heap m) t - now)) /\
    (timers_ m <> [] -> exists t, t ∈ timers_ m /\ v = Z.max 0 (next_of (heap m) t - now)).
Proof.
  intros Hi Hnow. eexists. split; [by apply GetNextTimeout_eq|].
  pose proof (inv_sorted _ _ Hi) as Hs. destruct (timers_ m) as [|t l] eqn:El; [split_and!; set_solver|].
  destruct (inv_alive _ _ Hi t) as [x Hx]; [rewrite El; set_solver|].
  destruct (inv_range _ _ Hi _ _ Hx) as [_ Hn]. pose proof (next_of_lookup _ _ _ Hx) as En.
  replace (if next_of (heap m) t <=? now then 0 else u64 (next_of (heap m) t - now))
    with (Z.max 0 (next_of (heap m) t - now)).
  2:{ bool_cases; [lia|]. unfold u64. rewrite wrapu_small by lia. lia. }
  inversion Hs as [|? ? _ Ht]; subst. rewrite List.Forall_forall in Ht. split_and!; [done| |by exists t; set_solver].
  intros a [->|Ha%list_elem_of_In]%elem_of_cons; [lia|]. specialize (Ht a Ha). apply beforeP in Ht. lia.
Qed.

(** Sleeping for the returned timeout is long enough: when the clock has
    advanced by it, at least one callback is collected. *)
Theorem sleep_then_expire m now v m1 now' :
  inv m -> timers_ m <> [] -> 0 <= now ->
  GetNextTimeout now m = (Ok v, m1) -> now + v <= now' ->
  exists f cbs m2, ListExpiredCallbacks now' m1 = (Ok (f :: cbs), m2).
Proof.
  intros Hi Hne Hnow E Hlate. rewrite GetNextTimeout_eq in E by done. injection E as <- <-.
  destruct (timers_ m) as [|t l] eqn:El; [done|].
  destruct (inv_alive _ _ Hi t) as [x Hx]; [rewrite El; set_solver|].
  destruct (inv_range _ _ Hi _ _ Hx) as [_ Hn]. pose proof (next_of_lookup _ _ _ Hx) as En.
  assert (next_of (heap m) t <= now') as Hdue.
  { destruct (Z.leb_spec (next_of (heap m) t) now); [lia|]. unfold u64 in Hlate.
    rewrite wrapu_small in Hlate by lia. lia. }
  destruct (ListExpiredCallbacks_ok (set_tickled false m) now') as (m2 & E2 & _ & _).
  { by apply upto_frame. }
  assert (exists l', expired_at (set_tickled false m) now' = t :: l') as [l' Ee].
  { unfold expired_at, due. cbn. rewrite El. destruct (rolled_over _ _); [by eexists|].
    rewrite filter_cons_True by done. by eexists. }
  rewrite Ee in E2. cbn [map] in E2. by eexists _, _, m2.
Qed.

(** A cancelled timer never fires: after [Cancel] has returned true, whatever
    calls follow, the timer is outside the set, and cancelling or refreshing it
    again returns false. *)
Theorem cancelled_for_good m t m1 cs m2 :
  inv m -> Cancel t m = (Ok true, m1) -> tsteps m1 cs m2 ->
  t ∉ timers_ m2 /\ (forall now, t ∉ expired_at m2 now) /\
  Cancel t m2 = (Ok false, m2) /\ (forall now, Refresh now t m2 = (Ok false, m2)).
Proof.
  intros Hi E Hs. assert (inv m1 /\ disarmed t m1) as [Hi1 Hd].
  { destruct (heap m !! t) as [x|] eqn:Hx.
    2:{ unfold Cancel, bind, deref_timer in E. by rewrite Hx in E. }
    destruct (Cancel_ok m t x Hi Hx) as (l & E' & Hc). rewrite E' in E.
    destruct (callable (callback_ x)) eqn:Ec; [|done]. injection E as <-.
    destruct (Hc eq_refl) as [Hi' P]. split; [done|]. split; cbn.
    - pose proof (inv_nodup _ _ Hi) as Hn. rewrite app_nil_r, P in Hn. by apply NoDup_cons in Hn as [??].
    - eexists. by rewrite lookup_insert_eq. }
  assert (inv m2 /\ disarmed t m2) as [Hi2 [Hout (x & Hx & Hc)]].
  { clear E. induction Hs as [m'|m' c m3 cs m4 Hst _ IH]; [done|].
    pose proof (tstep_good _ _ _ Hi1 Hst) as G. apply IH; by apply G. }
  split_and!; [done| | |].
  - intros now. unfold expired_at, due. destruct (rolled_over m2 now); [done|].
    rewrite list_elem_of_filter. tauto.
  - destruct (Cancel_ok m2 t x Hi2 Hx) as (l & -> & _). by rewrite Hc.
  - intros now. destruct (Refresh_ok m2 now t x Hi2 Hx) as (l & -> & _). by rewrite Hc.
Qed.

(** No wake-up is lost: if a thread asked for the timeout and other threads then
    add, cancel and reset timers, either one of those calls reported that it put a
    timer at the front, or no timer is due before the deadline the thread sleeps
    until. *)
Theorem no_lost_wakeup m now v m1 cs m2 D :
  inv m -> (forall t, t ∈ timers_ m -> D <= next_of (heap m) t) ->
  GetNextTimeout now m = (Ok v, m1) -> tsteps m1 cs m2 -> forallb quiet cs = true ->
  tickled_ m2 = true \/ (forall t, t ∈ timers_ m2 -> D <= next_of (heap m2) t).
Proof.
  intros Hi HD E Hs Hq. rewrite GetNextTimeout_eq in E by done. injection E as _ <-.
  assert (awake_by D (set_tickled false m)) as Ha by (by right).
  assert (inv (set_tickled false m)) as Hi1 by (by apply upto_frame).
  induction Hs as [m'|m' c m3 cs m4 Hst _ IH]; [done|].
  cbn in Hq. apply andb_prop in Hq as [Hqc Hq]. pose proof (tstep_good _ _ _ Hi1 Hst) as G.
  apply IH; [done|by apply G|apply G].
Qed.

(** A deadline beyond 64 bits wraps round: such a timer is due at once. *)
Theorem far_timer_due_now m now ms f r :
  inv m -> 0 <= now < 2 ^ 64 -> 0 <= ms < 2 ^ 64 -> 2 ^ 64 <= now + ms ->
  exists t front m', AddTimer now ms f r m = (Ok (t, front), m') /\ t ∈ expired_at m' now.
Proof.
  intros Hi Hn Hms Hfar. destruct (AddTimer_ok m now ms f r Hi Hms) as (l & front & E & Hi' & P & _).
  eexists _, front, _. split; [exact E|].
  assert (alloc (heap m) ∈ l) as Hin by (rewrite P; by left).
  unfold expired_at, due. destruct (rolled_over _ _); [done|]. cbn. rewrite list_elem_of_filter.
  split; [|done]. rewrite next_of_insert. cbn. unfold u64, wrapu.
  replace (now + ms) with (now + ms - 2 ^ 64 + 1 * 2 ^ 64) by lia. rewrite Z.mod_add by lia.
  rewrite Z.mod_small; lia.
Qed.
End Promises.

(** ** The theorems at a concrete manager *)

Definition bump : Allocator :=
  {| alloc h := fresh (dom h);
     alloc_fresh h := proj1 (not_elem_of_dom h _) (is_fresh (dom h)) |}.

(** At 1000: a one-shot timer of 50 ms and a recurring one of 20 ms. *)
Definition demo_cmds : list tcmd := [TAdd 1000 50 (Fn 1) false; TAdd 1000 20 (Fn 2) true].
Definition demo_manager : TimerManager :=
  let run m c := (@texec bump c m).2 in fold_left run demo_cmds (new_TimerManager 1000).

Lemma demo_steps : @tsteps bump (new_TimerManager 1000) demo_cmds demo_manager.
Proof.
  unfold demo_cmds. repeat (econstructor; [by econstructor; [vm_compute; intuition discriminate|vm_compute; reflexivity]|]).
  constructor.
Qed.

Lemma demo_inv : inv demo_manager.
Proof. by eapply (@tsteps_inv bump); [apply (inv_new 1000)|apply demo_steps]. Qed.

Lemma timer_calls_safe_witness :
  inv demo_manager /\ exists o m', @texec bump (TCancel 0) demo_manager = (Ok o, m') /\ inv m'.
Proof.
  apply (@timer_calls_safe bump 1000 demo_cmds demo_manager (TCancel 0)); [apply demo_steps|].
  vm_compute. by eexists.
Defined.

Lemma expired_exact_witness :
  (@ListExpiredCallbacks bump 1030 demo_manager).1 = Ok [Fn 2] /\
  exists m', @ListExpiredCallbacks bump 1030 demo_manager
    = (Ok (map (callback_of (heap demo_manager)) (expired_at demo_manager 1030)), m') /\
    sorted (heap demo_manager) (expired_at demo_manager 1030) /\ NoDup (expired_at demo_manager 1030) /\
    (forall a, a ∈ expired_at demo_manager 1030 <->
       a ∈ timers_ demo_manager /\
       (rolled_over demo_manager 1030 = true \/ next_of (heap demo_manager) a <= 1030)) /\
    expired 1030 demo_manager m' /\ inv m'.
Proof. split; [vm_compute; reflexivity|]. apply (@expired_exact bump demo_manager 1030), demo_inv. Defined.

Lemma next_timeout_earliest_witness :
  exists v, GetNextTimeout 1005 demo_manager = (Ok v, set_tickled false demo_manager) /\ v <= 15.
Proof.
  destruct (next_timeout_earliest demo_manager 1005 demo_inv ltac:(lia)) as (v & E & _ & Hall & _).
  exists v. split; [exact E|]. apply (Hall 1%nat). vm_compute. left.
Defined.

Lemma sleep_then_expire_witness :
  exists f cbs m2, @ListExpiredCallbacks bump 1020 (set_tickled false demo_manager) = (Ok (f :: cbs), m2).
Proof.
  apply (@sleep_then_expire bump demo_manager 1005 15 (set_tickled false demo_manager) 1020);
    [apply demo_inv|vm_compute; discriminate|lia|vm_compute; reflexivity|lia].
Defined.

Lemma cancelled_for_good_witness :
  (1%nat ∉ timers_ (Cancel 1 demo_manager).2) /\ forall now, 1%nat ∉ expired_at (Cancel 1 demo_manager).2 now.
Proof.
  destruct (@cancelled_for_good bump demo_manager 1 (Cancel 1 demo_manager).2 [] (Cancel 1 demo_manager).2)
    as (H1 & H2 & _); [apply demo_inv|vm_compute; reflexivity|constructor|]. exact (conj H1 H2).
Defined.

Lemma no_lost_wakeup_witness :
  let m1 := set_tickled false demo_manager in
  let m2 := (@texec bump (TAdd 1005 5 (Fn 3) false) m1).2 in
  tickled_ m2 = true \/ (forall t, t ∈ timers_ m2 -> 1020 <= next_of (heap m2) t).
Proof.
  apply (@no_lost_wakeup bump demo_manager 1005 15 (set_tickled false demo_manager)
           [TAdd 1005 5 (Fn 3) false] _ 1020); [apply demo_inv| | | |reflexivity].
  - apply Forall_forall. vm_compute. repeat constructor; discriminate.
  - vm_compute. reflexivity.
  - econstructor; [|constructor]. econstructor; [vm_compute; intuition discriminate|vm_compute; reflexivity].
Defined.

Lemma far_timer_due_now_witness :
  exists t front m', @AddTimer bump 1000 max64 (Fn 3) false demo_manager = (Ok (t, front), m') /\
    t ∈ expired_at m' 1000.
Proof.
  apply (@far_timer_due_now bump demo_manager 1000 max64); [apply demo_inv|vm_compute; intuition discriminate..].
Defined.
