(* ===== verification/Fiber.v ===== *)
(** * Fibers: [gudov/fiber.h] and [gudov/fiber.cpp]

    One thread's fibers.  The state holds the [Fiber] objects, the thread-local
    pointers and the processor: which execution is running, and for every object
    the continuation its [ctx_] holds.  [swapcontext(&a->ctx_, &b->ctx_)] saves the
    running execution into [a] and continues the one saved in [b], whoever it
    belongs to; that [a] is the fiber which is running is a theorem about the
    callers, not a part of the model. *)

From S2P Require Import Prelude Timer.
From stdpp Require Import base gmap numbers list sorting.
From Stdlib Require Import ZArith Lia.
Open Scope Z_scope.
Open Scope prog_scope.

(** [enum State] *)
Inductive State := Running | Term | Ready.

#[export] Instance State_eq_dec : EqDecision State.
Proof. solve_decision. Defined.

(** What a [ucontext_t] continues: [MainFunc] on the object's own stack, the
    execution of the fiber it was saved from, or nothing that may be continued
    (a context that was continued, or was filled in by [getcontext] alone). *)
Inductive context := Fresh | Saved (owner : nat) | Used.

#[export] Instance context_eq_dec : EqDecision context.
Proof. solve_decision. Defined.

Record Fiber := mkFiber {
  id_ : Z;
  stack_size_ : Z;
  state_ : State;
  ctx_ : context;
  stack_ : bool;
  callback_ : func;
  run_in_scheduler_ : bool }.

Record thread := mkThread {
  fibers : gmap nat Fiber;
  t_running_fiber : option nat;
  t_thread_fiber : option nat;
  t_scheduler_fiber : option nat;
  cpu : option nat;
  s_fiber_id : Z;
  s_fiber_count : Z }.

Definition set_fibers fs (s : thread) := mkThread fs (t_running_fiber s) (t_thread_fiber s) (t_scheduler_fiber s) (cpu s) (s_fiber_id s) (s_fiber_count s).
Definition set_running r (s : thread) := mkThread (fibers s) r (t_thread_fiber s) (t_scheduler_fiber s) (cpu s) (s_fiber_id s) (s_fiber_count s).
Definition set_thread_fiber m (s : thread) := mkThread (fibers s) (t_running_fiber s) m (t_scheduler_fiber s) (cpu s) (s_fiber_id s) (s_fiber_count s).
Definition set_scheduler_fiber m (s : thread) := mkThread (fibers s) (t_running_fiber s) (t_thread_fiber s) m (cpu s) (s_fiber_id s) (s_fiber_count s).
Definition set_cpu c (s : thread) := mkThread (fibers s) (t_running_fiber s) (t_thread_fiber s) (t_scheduler_fiber s) c (s_fiber_id s) (s_fiber_count s).
Definition set_fiber_id n (s : thread) := mkThread (fibers s) (t_running_fiber s) (t_thread_fiber s) (t_scheduler_fiber s) (cpu s) n (s_fiber_count s).
Definition set_fiber_count n (s : thread) := mkThread (fibers s) (t_running_fiber s) (t_thread_fiber s) (t_scheduler_fiber s) (cpu s) (s_fiber_id s) n.

Definition set_state st (f : Fiber) := mkFiber (id_ f) (stack_size_ f) st (ctx_ f) (stack_ f) (callback_ f) (run_in_scheduler_ f).
Definition set_ctx c (f : Fiber) := mkFiber (id_ f) (stack_size_ f) (state_ f) c (stack_ f) (callback_ f) (run_in_scheduler_ f).
Definition set_callback cb (f : Fiber) := mkFiber (id_ f) (stack_size_ f) (state_ f) (ctx_ f) (stack_ f) cb (run_in_scheduler_ f).

(** ** Objects and contexts *)

Definition deref_fiber (p : option nat) : prog thread (nat * Fiber) :=
  fun s => match p with
           | Some a => match fibers s !! a with
                       | Some f => (Ok (a, f), s)
                       | None => (Fail undefined, s)
                       end
           | None => (Fail null_deref, s)
           end.

Definition update_fiber (a : nat) (g : Fiber -> Fiber) : prog thread unit :=
  modify (fun s => set_fibers (alter g a (fibers s)) s).

(** The address of a new object. *)
Definition new_addr (s : thread) : nat := fresh (dom (fibers s)).

Lemma new_addr_fresh s : fibers s !! new_addr s = None.
Proof. apply not_elem_of_dom. unfold new_addr. apply is_fresh. Qed.

(** [swapcontext(&a->ctx_, &b->ctx_)] *)
Definition swapcontext (a b : nat) : prog thread unit :=
  let* s := gets id in
  match cpu s with
  | None => fail undefined
  | Some me =>
      update_fiber a (set_ctx (Saved me)) ;;
      let* pf := deref_fiber (Some b) in
      match ctx_ pf.2 with
      | Fresh => update_fiber b (set_ctx Used) ;; modify (set_cpu (Some b))
      | Saved o => update_fiber b (set_ctx Used) ;; modify (set_cpu (Some o))
      | Used => fail undefined
      end
  end.

(** ** Operations *)

Definition SetRunningFiber (f : option nat) : prog thread unit := modify (set_running f).

Definition GetRunningFiberId : prog thread Z :=
  let* s := gets id in
  match t_running_fiber s with
  | Some a => let* pf := deref_fiber (Some a) in ret (id_ pf.2)
  | None => ret 0
  end.

(** The constructor [Fiber()] of a thread's main fiber; the thread executes in it. *)
Definition new_main_fiber : prog thread nat :=
  let* s := gets id in
  let a := new_addr s in
  modify (set_fibers (<[a := mkFiber 0 0 Running Used false Null false]> (fibers s))) ;;
  SetRunningFiber (Some a) ;;
  modify (fun s => set_fiber_count (s_fiber_count s + 1) s) ;;
  modify (set_cpu (Some a)) ;;
  ret a.

(** [Fiber(callback, stack_size, run_in_scheduler)]; [configured] is the value of
    [fiber.stack_size]. *)
Definition new_fiber (configured : Z) (callback : func) (stack_size : Z) (run_in_scheduler : bool)
  : prog thread nat :=
  modify (fun s => set_fiber_id (u64 (s_fiber_id s + 1)) s) ;;
  modify (fun s => set_fiber_count (s_fiber_count s + 1) s) ;;
  let* s := gets id in
  let a := new_addr s in
  let size := u32 (if stack_size =? 0 then configured else stack_size) in
  modify (set_fibers (<[a := mkFiber (s_fiber_id s) size Ready Fresh true callback run_in_scheduler]> (fibers s))) ;;
  ret a.

(** [~Fiber] *)
Definition delete_fiber (a : nat) : prog thread unit :=
  modify (fun s => set_fiber_count (s_fiber_count s - 1) s) ;;
  let* pf := deref_fiber (Some a) in
  let f := pf.2 in
  (if stack_ f then
     require (bool_decide (state_ f = Term) || bool_decide (state_ f = Ready)) assert_failed
   else
     require (negb (callable (callback_ f))) assert_failed ;;
     require (bool_decide (state_ f = Running)) assert_failed ;;
     let* cur := gets t_running_fiber in
     if bool_decide (cur = Some a) then SetRunningFiber None else ret tt) ;;
  modify (fun s => set_fibers (delete a (fibers s)) s).

Definition Reset (a : nat) (callback : func) : prog thread unit :=
  let* pf := deref_fiber (Some a) in
  require (stack_ pf.2) assert_failed ;;
  require (bool_decide (state_ pf.2 = Term) || bool_decide (state_ pf.2 = Ready)) assert_failed ;;
  update_fiber a (set_callback callback) ;;
  update_fiber a (set_ctx Fresh) ;;
  update_fiber a (set_state Ready).

Definition Resume (a : nat) : prog thread unit :=
  let* pf := deref_fiber (Some a) in
  require (negb (bool_decide (state_ pf.2 = Term)) && negb (bool_decide (state_ pf.2 = Running))) assert_failed ;;
  SetRunningFiber (Some a) ;;
  update_fiber a (set_state Running) ;;
  let* s := gets id in
  let* main := deref_fiber (if run_in_scheduler_ pf.2 then t_scheduler_fiber s else t_thread_fiber s) in
  swapcontext main.1 a.

Definition Yield (a : nat) : prog thread unit :=
  let* pf := deref_fiber (Some a) in
  require (bool_decide (state_ pf.2 = Running) || bool_decide (state_ pf.2 = Term)) assert_failed ;;
  let* s := gets id in
  SetRunningFiber (t_thread_fiber s) ;;
  (if bool_decide (state_ pf.2 = Term) then ret tt else update_fiber a (set_state Ready)) ;;
  let* main := deref_fiber (if run_in_scheduler_ pf.2 then t_scheduler_fiber s else t_thread_fiber s) in
  swapcontext a main.1.

Definition GetRunningFiber : prog thread nat :=
  let* s := gets id in
  match t_running_fiber s with
  | Some a => let* pf := deref_fiber (Some a) in ret pf.1
  | None =>
      let* a := new_main_fiber in
      let* s := gets id in
      require (bool_decide (t_running_fiber s = Some a)) assert_failed ;;
      modify (set_thread_fiber (Some a)) ;;
      ret a
  end.

Definition TotalFibers (s : thread) : Z := s_fiber_count s.

(** [MainFunc] up to the call of the callback, which runs with [cur] as the running
    fiber, and what it does once the callback has returned. *)
Definition MainFunc_enter : prog thread func :=
  let* cur := GetRunningFiber in
  let* pf := deref_fiber (Some cur) in
  require (callable (callback_ pf.2)) logic_error ;;
  ret (callback_ pf.2).

Definition MainFunc_leave (cur : nat) : prog thread unit :=
  update_fiber cur (set_callback Null) ;;
  update_fiber cur (set_state Term) ;;
  Yield cur.

(** ** Which execution runs

    [chain] lists the fibers whose executions are nested in one another, the
    running one first: it was resumed by the second, and so on down to the thread's
    main fiber. *)

(** The fiber a resumed fiber returns to. *)
Definition host (s : thread) (f : Fiber) : option nat :=
  if run_in_scheduler_ f then t_scheduler_fiber s else t_thread_fiber s.

Definition state_of (s : thread) (a : nat) : option State := state_ <$> fibers s !! a.

(** A fiber that is not running can be continued where it stopped, or from the
    beginning; a terminated one cannot. *)
Definition parked (a : nat) (f : Fiber) : Prop :=
  stack_ f = true /\
  match state_ f with
  | Running => False
  | Term => True
  | Ready => ctx_ f = Fresh \/ ctx_ f = Saved a
  end.

Inductive linked (s : thread) : list nat -> Prop :=
  | linked_main a f :
      fibers s !! a = Some f -> state_ f = Running -> linked s [a]
  | linked_cons a f b fb l :
      fibers s !! a = Some f -> state_ f = Running -> stack_ f = true -> host s f = Some b ->
      fibers s !! b = Some fb -> ctx_ fb = Saved b ->
      linked s (b :: l) -> linked s (a :: b :: l).

Record switch_inv (chain : list nat) (s : thread) : Prop := {
  sw_cpu : head chain = cpu s;
  sw_linked : linked s chain;
  sw_nodup : NoDup chain;
  sw_parked : forall a f, a ∉ chain -> fibers s !! a = Some f -> parked a f }.

(** Changing a fiber outside the chain. *)
Lemma linked_frame s s' l :
  (forall a, a ∈ l -> fibers s' !! a = fibers s !! a) ->
  t_scheduler_fiber s' = t_scheduler_fiber s -> t_thread_fiber s' = t_thread_fiber s ->
  linked s l -> linked s' l.
Proof.
  intros Hf Hs Ht. induction 1 as [a f Ha Hr|a f b fb l Ha Hr Hk Hh Hb Hc Hl IH].
  - eapply linked_main; [|exact Hr]. by rewrite Hf by left.
  - eapply linked_cons; try done.
    + by rewrite Hf by left.
    + unfold host in *. by rewrite Hs, Ht.
    + by rewrite Hf by (right; left).
    + apply IH. intros c Hc'. apply Hf. by right.
Qed.

Lemma linked_head s a l : linked s (a :: l) -> exists f, fibers s !! a = Some f /\ state_ f = Running.
Proof. inversion 1; eauto. Qed.

Lemma deref_fiber_ok s a f : fibers s !! a = Some f -> deref_fiber (Some a) s = (Ok (a, f), s).
Proof. unfold deref_fiber. by intros ->. Qed.

Lemma switch_head_eq c l s : switch_inv (c :: l) s -> cpu s = Some c.
Proof. intros Hi. by rewrite <- (sw_cpu _ _ Hi). Qed.

(** [a] with the fields that [Resume] and [Yield] write. *)
Definition with_state_ctx st c (f : Fiber) := set_ctx c (set_state st f).

Lemma linked_running s l a : linked s l -> a ∈ l -> state_of s a = Some Running.
Proof.
  unfold state_of. induction 1 as [b g Hb Hg|b g b' g' l' Hb Hg _ _ _ _ _ IH].
  - intros ->%list_elem_of_singleton. by rewrite Hb, <- Hg.
  - intros [->|Hin]%elem_of_cons; [by rewrite Hb, <- Hg|by apply IH].
Qed.

Lemma not_in_chain c l s a f :
  switch_inv (c :: l) s -> fibers s !! a = Some f -> state_ f <> Running -> a ∉ c :: l.
Proof.
  intros Hi Hf Hst Hin. pose proof (linked_running _ _ _ (sw_linked _ _ Hi) Hin) as Hr.
  unfold state_of in Hr. rewrite Hf in Hr. by injection Hr.
Qed.

(** The objects after [c] has resumed [a]. *)
Definition resumed (a c : nat) (f fc : Fiber) (fs : gmap nat Fiber) : gmap nat Fiber :=
  <[a := with_state_ctx Running Used f]> (<[c := set_ctx (Saved c) fc]> fs).

Lemma push_inv c l s s' a f fc :
  switch_inv (c :: l) s -> fibers s !! a = Some f -> state_ f = Ready -> host s f = Some c ->
  fibers s !! c = Some fc -> fibers s' = resumed a c f fc (fibers s) -> cpu s' = Some a ->
  t_scheduler_fiber s' = t_scheduler_fiber s -> t_thread_fiber s' = t_thread_fiber s ->
  switch_inv (a :: c :: l) s'.
Proof.
  intros Hi Hf Hst Hh Hfc E1 E2 E3 E4.
  assert (a ∉ c :: l) as Hout by (eapply not_in_chain; [done..|congruence]).
  assert (a <> c) as Hac by set_solver. destruct Hi as [_ Hl Hn Hp].
  destruct (Hp a f Hout Hf) as [Hk _]. unfold resumed in E1.
  assert (fibers s' !! c = Some (set_ctx (Saved c) fc)) as Hc'.
  { by rewrite E1, lookup_insert_ne, lookup_insert_eq by done. }
  assert (forall x, x <> a -> x <> c -> fibers s' !! x = fibers s !! x) as Hsame.
  { intros x Hx Hx'. by rewrite E1, !lookup_insert_ne by done. }
  split; [done| |by apply NoDup_cons|].
  - eapply (linked_cons _ a (with_state_ctx Running Used f) c); try done.
    + by rewrite E1, lookup_insert_eq.
    + unfold host in *. cbn. by rewrite E3, E4.
    + inversion Hl as [? ? H1 H2|? ? b fb l' H1 H2 H3 H4 H5 H6 H7]; subst; rewrite Hfc in H1; injection H1 as ->.
      * by eapply linked_main.
      * apply NoDup_cons in Hn as [Hcl _].
        assert (forall x, x ∈ b :: l' -> fibers s' !! x = fibers s !! x) as Hb
          by (intros x Hx; apply Hsame; set_solver).
        eapply linked_cons; [exact Hc'|done|done| | |exact H6|].
        -- unfold host in *. cbn. by rewrite E3, E4.
        -- by rewrite Hb by left.
        -- by eapply linked_frame.
  - intros x fx Hx. rewrite Hsame by set_solver. apply Hp. set_solver.
Qed.

Lemma swapcontext_ok s a b me fa fb :
  cpu s = Some me -> a <> b -> fibers s !! a = Some fa -> fibers s !! b = Some fb ->
  ctx_ fb = Fresh \/ ctx_ fb = Saved b ->
  swapcontext a b s
  = (Ok tt, set_cpu (Some b)
              (set_fibers (<[b := set_ctx Used fb]> (<[a := set_ctx (Saved me) fa]> (fibers s))) s)).
Proof.
  intros Hcpu Hne Ha Hb Hctx. unfold swapcontext, bind, gets, update_fiber, modify, deref_fiber. cbn.
  rewrite Hcpu. cbn. rewrite lookup_alter_ne, Hb by done. cbn.
  assert (alter (set_ctx Used) b (alter (set_ctx (Saved me)) a (fibers s))
          = <[b := set_ctx Used fb]> (<[a := set_ctx (Saved me) fa]> (fibers s))) as Efs.
  { apply map_eq. intros x. destruct (decide (x = b)) as [->|Hxb].
    - by rewrite lookup_alter_eq, lookup_insert_eq, lookup_alter_ne, Hb by done.
    - rewrite lookup_alter_ne, lookup_insert_ne by done. destruct (decide (x = a)) as [->|Hxa].
      + by rewrite lookup_alter_eq, lookup_insert_eq, Ha.
      + by rewrite lookup_alter_ne, lookup_insert_ne by done. }
  destruct Hctx as [E|E]; rewrite E; cbn; by rewrite Efs.
Qed.

Lemma alter_some (g : Fiber -> Fiber) a f (fs : gmap nat Fiber) :
  fs !! a = Some f -> alter g a fs = <[a := g f]> fs.
Proof.
  intros Ha. apply map_eq. intros x. destruct (decide (x = a)) as [->|Hne].
  - by rewrite lookup_alter_eq, lookup_insert_eq, Ha.
  - by rewrite lookup_alter_ne, lookup_insert_ne by done.
Qed.

Lemma Resume_ok c l s a f :
  switch_inv (c :: l) s -> fibers s !! a = Some f -> state_ f = Ready -> host s f = Some c ->
  exists fc s', Resume a s = (Ok tt, s') /\ fibers s !! c = Some fc /\
    fibers s' = resumed a c f fc (fibers s) /\
    t_running_fiber s' = Some a /\ t_thread_fiber s' = t_thread_fiber s /\
    t_scheduler_fiber s' = t_scheduler_fiber s /\ switch_inv (a :: c :: l) s'.
Proof.
  intros Hi Hf Hst Hh. pose proof (switch_head_eq _ _ _ Hi) as Hcpu.
  destruct (linked_head _ _ _ (sw_linked _ _ Hi)) as (fc & Hfc & Hrc).
  assert (a ∉ c :: l) as Hout by (eapply not_in_chain; [done..|congruence]).
  assert (a <> c) as Hac by set_solver.
  destruct (sw_parked _ _ Hi a f Hout Hf) as [Hk Hctx]. rewrite Hst in Hctx.
  exists fc. unfold Resume. rewrite (bind_ok _ _ _ _ _ (deref_fiber_ok _ _ _ Hf)). cbn [snd fst].
  rewrite Hst. cbn [bool_decide negb andb]. unfold require, SetRunningFiber, update_fiber.
  set (s1 := set_fibers (<[a := set_state Running f]> (fibers s)) (set_running (Some a) s)).
  assert (forall k : thread -> prog thread unit,
    (ret tt ;; modify (set_running (Some a)) ;;
     modify (fun s => set_fibers (alter (set_state Running) a (fibers s)) s) ;;
     let* s := gets id in k s) s = k s1 s1) as E.
  { intros k. unfold bind, ret, modify, gets. cbn. by rewrite (alter_some _ a f) by done. }
  rewrite E. change (if run_in_scheduler_ f then _ else _) with (host s f). rewrite Hh.
  rewrite (bind_ok _ _ _ _ _ (deref_fiber_ok s1 c fc ltac:(cbn; by rewrite lookup_insert_ne))). cbn [fst].
  rewrite (swapcontext_ok s1 c a c fc (set_state Running f));
    [|done|done|cbn; by rewrite lookup_insert_ne|cbn; by rewrite lookup_insert_eq|done].
  eexists. split; [reflexivity|].
  assert (<[a := set_ctx Used (set_state Running f)]> (<[c := set_ctx (Saved c) fc]>
            (<[a := set_state Running f]> (fibers s))) = resumed a c f fc (fibers s)) as Efs.
  { unfold resumed. rewrite (insert_insert_ne _ c a) by done. by rewrite insert_insert_eq. }
  split_and!; try done. by eapply push_inv.
Qed.

(** The objects after [a] has given the processor back to [c]. *)
Definition returned (a c : nat) (f fc : Fiber) (fs : gmap nat Fiber) : gmap nat Fiber :=
  <[c := set_ctx Used fc]> (<[a := set_ctx (Saved a) f]> fs).

Lemma pop_inv a c l s s' f fc :
  switch_inv (a :: c :: l) s -> fibers s !! c = Some fc ->
  stack_ f = true -> state_ f <> Running ->
  fibers s' = returned a c f fc (fibers s) -> cpu s' = Some c ->
  t_scheduler_fiber s' = t_scheduler_fiber s -> t_thread_fiber s' = t_thread_fiber s ->
  switch_inv (c :: l) s'.
Proof.
  intros [_ Hl Hn Hp] Hc Hk Hst E1 E2 E3 E4. unfold returned in E1.
  apply NoDup_cons in Hn as [Ha Hn]. assert (a <> c) as Hac by set_solver.
  assert (fibers s' !! c = Some (set_ctx Used fc)) as Hc' by (by rewrite E1, lookup_insert_eq).
  assert (forall x, x <> a -> x <> c -> fibers s' !! x = fibers s !! x) as Hsame.
  { intros x Hx Hx'. by rewrite E1, !lookup_insert_ne by done. }
  split; [done| |done|].
  - inversion Hl as [|? ? ? ? ? _ _ _ _ _ _ Hl']; subst.
    inversion Hl' as [? ? H1 H2|? ? b gb l' H1 H2 H3 H4 H5 H6 H7]; subst; rewrite Hc in H1; injection H1 as ->.
    + by eapply linked_main.
    + apply NoDup_cons in Hn as [Hcl _].
      assert (forall x, x ∈ b :: l' -> fibers s' !! x = fibers s !! x) as Hb
        by (intros x Hx; apply Hsame; set_solver).
      eapply linked_cons; [exact Hc'|done|done| | |exact H6|].
      * unfold host in *. cbn. by rewrite E3, E4.
      * by rewrite Hb by left.
      * by eapply linked_frame.
  - intros x fx Hx Hfx. destruct (decide (x = a)) as [->|Hxa].
    + rewrite E1, lookup_insert_ne, lookup_insert_eq in Hfx by done. injection Hfx as <-.
      split; [done|]. cbn. destruct (state_ f); [done|done|by right].
    + rewrite Hsame in Hfx by set_solver. apply (Hp x); [set_solver|done].
Qed.

(** [Yield] of a fiber whose state is [Running], or [Term] once its callback has
    returned. *)
Lemma Yield_eq s a c f fc :
  cpu s = Some a -> a <> c -> fibers s !! a = Some f -> fibers s !! c = Some fc ->
  state_ f = Running \/ state_ f = Term -> host s f = Some c -> ctx_ fc = Saved c ->
  let f' := if bool_decide (state_ f = Term) then f else set_state Ready f in
  Yield a s = (Ok tt, set_cpu (Some c) (set_fibers (returned a c f' fc (fibers s))
                        (set_running (t_thread_fiber s) s))).
Proof.
  intros Hcpu Hac Hf Hc Hst Hh Hctx f'.
  set (s1 := set_fibers (<[a := f']> (fibers s)) (set_running (t_thread_fiber s) s)).
  assert (forall k : prog thread unit,
    (SetRunningFiber (t_thread_fiber s) ;;
     (if bool_decide (state_ f = Term) then ret tt else update_fiber a (set_state Ready)) ;; k) s
    = k s1) as E.
  { intros k. unfold s1, f', SetRunningFiber, update_fiber, bind, modify, ret.
    destruct Hst as [Hst|Hst]; rewrite Hst;
      [change (bool_decide (Running = Term)) with false|change (bool_decide (Term = Term)) with true]; cbn.
    - by rewrite (alter_some _ a f) by done.
    - by rewrite insert_id by done. }
  unfold Yield. rewrite (bind_ok _ _ _ _ _ (deref_fiber_ok _ _ _ Hf)). cbn [snd fst].
  replace (bool_decide (state_ f = Running) || bool_decide (state_ f = Term)) with true
    by (by destruct Hst as [-> | ->]).
  unfold require. rewrite (bind_ok (ret tt) _ s tt s eq_refl).
  rewrite (bind_ok (gets id) _ s s s eq_refl). rewrite E.
  fold (host s f). rewrite Hh.
  rewrite (bind_ok _ _ _ _ _ (deref_fiber_ok s1 c fc ltac:(cbn; by rewrite lookup_insert_ne))). cbn [fst].
  rewrite (swapcontext_ok s1 a c a f' fc);
    [|done|done|cbn; by rewrite lookup_insert_eq|cbn; by rewrite lookup_insert_ne|by right].
  unfold returned. cbn. by rewrite insert_insert_eq.
Qed.

(** The running fiber and the one it returns to. *)
Lemma chain_top a c l s :
  switch_inv (a :: c :: l) s ->
  exists f fc, fibers s !! a = Some f /\ state_ f = Running /\ stack_ f = true /\ host s f = Some c /\
    fibers s !! c = Some fc /\ ctx_ fc = Saved c /\ a <> c /\ cpu s = Some a.
Proof.
  intros [Hcpu Hl Hn _]. inversion Hl as [|? f ? fc ? ? ? ? ? ? ? ?]; subst.
  exists f, fc. split_and!; try done. intros ->. apply NoDup_cons in Hn. set_solver.
Qed.

Lemma Yield_ok a c l s :
  switch_inv (a :: c :: l) s ->
  exists s', Yield a s = (Ok tt, s') /\ state_of s' a = Some Ready /\
    t_running_fiber s' = t_thread_fiber s /\ t_thread_fiber s' = t_thread_fiber s /\
    t_scheduler_fiber s' = t_scheduler_fiber s /\ switch_inv (c :: l) s'.
Proof.
  intros Hi. destruct (chain_top _ _ _ _ Hi) as (f & fc & Hf & Hr & Hk & Hh & Hc & Hx & Hac & Hcpu).
  eexists. split; [apply (Yield_eq s a c f fc); auto|]. rewrite Hr. change (bool_decide (Running = Term)) with false.
  split_and!; try done.
  - unfold state_of, returned. cbn. by rewrite lookup_insert_ne, lookup_insert_eq by done.
  - by eapply (pop_inv a c l s _ (set_state Ready f) fc).
Qed.

Lemma MainFunc_leave_ok a c l s :
  switch_inv (a :: c :: l) s ->
  exists s', MainFunc_leave a s = (Ok tt, s') /\ state_of s' a = Some Term /\
    t_running_fiber s' = t_thread_fiber s /\ t_thread_fiber s' = t_thread_fiber s /\
    t_scheduler_fiber s' = t_scheduler_fiber s /\ switch_inv (c :: l) s'.
Proof.
  intros Hi. destruct (chain_top _ _ _ _ Hi) as (f & fc & Hf & Hr & Hk & Hh & Hc & Hx & Hac & Hcpu).
  set (f' := set_state Term (set_callback Null f)).
  set (s1 := set_fibers (<[a := f']> (fibers s)) s).
  assert (MainFunc_leave a s = Yield a s1) as ->.
  { unfold MainFunc_leave, update_fiber, bind, modify. cbn.
    rewrite (alter_some (set_callback Null) a f _ Hf).
    rewrite (alter_some _ a (set_callback Null f)) by (by rewrite lookup_insert_eq).
    by rewrite insert_insert_eq. }
  rewrite (Yield_eq s1 a c f' fc); try done;
    [|cbn; by rewrite lookup_insert_eq|cbn; by rewrite lookup_insert_ne|by right].
  eexists. split; [reflexivity|]. change (bool_decide (state_ f' = Term)) with true.
  split_and!; try done.
  - unfold state_of, returned. cbn. by rewrite lookup_insert_ne, lookup_insert_eq by done.
  - eapply (pop_inv a c l s _ f' fc); try done. unfold returned. cbn. by rewrite insert_insert_eq.
Qed.

(** Objects outside the chain may be created, reset and destroyed. *)
Lemma switch_update ch s s' a :
  switch_inv ch s -> a ∉ ch ->
  (forall x, x <> a -> fibers s' !! x = fibers s !! x) ->
  (forall f, fibers s' !! a = Some f -> parked a f) ->
  cpu s' = cpu s -> t_scheduler_fiber s' = t_scheduler_fiber s -> t_thread_fiber s' = t_thread_fiber s ->
  switch_inv ch s'.
Proof.
  intros [Hcpu Hl Hn Hp] Ha Hx Hpa E1 E2 E3. split; [congruence| |done|].
  - apply (linked_frame s s' ch); try done. intros x Hin. apply Hx. by intros ->.
  - intros x f Hout Hf. destruct (decide (x = a)) as [->|Hne]; [by apply Hpa|].
    rewrite Hx in Hf by done. by apply Hp.
Qed.

Lemma chain_alive ch s a : switch_inv ch s -> a ∈ ch -> is_Some (fibers s !! a).
Proof.
  intros Hi Hin. pose proof (linked_running _ _ _ (sw_linked _ _ Hi) Hin) as Hr. unfold state_of in Hr.
  destruct (fibers s !! a); [by eexists|done].
Qed.

Lemma new_fiber_ok conf cb sz ris ch s :
  switch_inv ch s ->
  exists s', new_fiber conf cb sz ris s = (Ok (new_addr s), s') /\ switch_inv ch s' /\
    t_running_fiber s' = t_running_fiber s /\ t_thread_fiber s' = t_thread_fiber s /\
    t_scheduler_fiber s' = t_scheduler_fiber s /\
    fibers s' !! new_addr s = Some (mkFiber (u64 (s_fiber_id s + 1))
      (u32 (if sz =? 0 then conf else sz)) Ready Fresh true cb ris).
Proof.
  intros Hi.
  exists (mkThread (<[new_addr s := mkFiber (u64 (s_fiber_id s + 1)) (u32 (if sz =? 0 then conf else sz))
                        Ready Fresh true cb ris]> (fibers s))
            (t_running_fiber s) (t_thread_fiber s) (t_scheduler_fiber s) (cpu s)
            (u64 (s_fiber_id s + 1)) (s_fiber_count s + 1)).
  split; [reflexivity|].
  pose proof (new_addr_fresh s) as Hnew.
  split_and!; try done; [|cbn; by rewrite lookup_insert_eq].
  apply (switch_update ch s _ (new_addr s)); try done; cbn.
  - intros Hin. destruct (chain_alive _ _ _ Hi Hin). congruence.
  - intros x Hx. by rewrite lookup_insert_ne.
  - intros f. rewrite lookup_insert_eq. intros [= <-]. split; [done|by left].
Qed.

Lemma fiber_reset_ok a f cb ch s :
  switch_inv ch s -> fibers s !! a = Some f -> state_ f <> Running ->
  exists s', Reset a cb s = (Ok tt, s') /\ switch_inv ch s' /\
    t_running_fiber s' = t_running_fiber s /\ t_thread_fiber s' = t_thread_fiber s /\
    t_scheduler_fiber s' = t_scheduler_fiber s /\
    fibers s' !! a = Some (mkFiber (id_ f) (stack_size_ f) Ready Fresh true cb (run_in_scheduler_ f)).
Proof.
  intros Hi Hf Hst. assert (a ∉ ch) as Ha by (destruct ch; [by apply not_elem_of_nil|by eapply not_in_chain]).
  destruct (sw_parked _ _ Hi a f Ha Hf) as [Hk _].
  unfold Reset. rewrite (bind_ok _ _ _ _ _ (deref_fiber_ok _ _ _ Hf)). cbn [snd]. rewrite Hk.
  replace (bool_decide (state_ f = Term) || bool_decide (state_ f = Ready)) with true
    by (by destruct (state_ f)).
  unfold require, update_fiber, bind, ret, modify. cbn. eexists. split; [reflexivity|].
  assert (forall x, alter (set_state Ready) a (alter (set_ctx Fresh) a (alter (set_callback cb) a (fibers s))) !! x
    = if decide (x = a) then Some (set_state Ready (set_ctx Fresh (set_callback cb f))) else fibers s !! x) as E.
  { intros x. case_decide as Hx; [subst; by rewrite !lookup_alter_eq, Hf|]. by rewrite !lookup_alter_ne by done. }
  split_and!; try done; [|cbn; rewrite E, decide_True by done; unfold set_state, set_ctx, set_callback; cbn; by rewrite Hk].
  apply (switch_update ch s _ a); try done; cbn.
  - intros x Hx. by rewrite E, decide_False.
  - intros g. rewrite E, decide_True by done. intros [= <-]. split; [done|by left].
Qed.

Lemma delete_fiber_ok a f ch s :
  switch_inv ch s -> fibers s !! a = Some f -> state_ f <> Running ->
  exists s', delete_fiber a s = (Ok tt, s') /\ switch_inv ch s' /\
    t_running_fiber s' = t_running_fiber s /\ t_thread_fiber s' = t_thread_fiber s /\
    t_scheduler_fiber s' = t_scheduler_fiber s.
Proof.
  intros Hi Hf Hst. assert (a ∉ ch) as Ha by (destruct ch; [by apply not_elem_of_nil|by eapply not_in_chain]).
  destruct (sw_parked _ _ Hi a f Ha Hf) as [Hk _].
  unfold delete_fiber, bind, modify, deref_fiber. cbn. rewrite Hf. cbn. rewrite Hk.
  replace (bool_decide (state_ f = Term) || bool_decide (state_ f = Ready)) with true
    by (by destruct (state_ f)).
  eexists. split; [reflexivity|]. split_and!; try done.
  apply (switch_update ch s _ a); try done; cbn.
  - intros x Hx. by rewrite lookup_delete_ne.
  - intros g. by rewrite lookup_delete_eq.
Qed.

(** ** Sequences of switches *)

Inductive fop :=
  | FNew (cb : func) (stack_size : Z) (run_in_scheduler : bool)
  | FResume (a : nat)
  | FYield
  | FFinish
  | FReset (a : nat) (cb : func)
  | FDelete (a : nat).

(** What the thread does next: the running execution calls an operation, yields,
    or returns from its callback. *)
Definition fexec (conf : Z) (op : fop) : prog thread unit :=
  match op with
  | FNew cb sz ris => let* _ := new_fiber conf cb sz ris in ret tt
  | FResume a => Resume a
  | FYield => let* s := gets id in match cpu s with Some a => Yield a | None => fail undefined end
  | FFinish => let* s := gets id in match cpu s with Some a => MainFunc_leave a | None => fail undefined end
  | FReset a cb => Reset a cb
  | FDelete a => delete_fiber a
  end.

(** A fiber is resumed only by the one it returns to, and only the fiber at the
    bottom of the chain neither yields nor returns. *)
Definition legal (ch : list nat) (s : thread) (op : fop) : Prop :=
  match op with
  | FNew _ _ _ => True
  | FResume a => exists f, fibers s !! a = Some f /\ state_ f = Ready /\ host s f = cpu s
  | FYield | FFinish => (1 < length ch)%nat
  | FReset a _ | FDelete a => exists f, fibers s !! a = Some f /\ state_ f <> Running
  end.

Definition after (ch : list nat) (op : fop) : list nat :=
  match op with FResume a => a :: ch | FYield | FFinish => tail ch | _ => ch end.

Lemma fexec_ok conf ch s op :
  switch_inv ch s -> legal ch s op ->
  exists s', fexec conf op s = (Ok tt, s') /\ switch_inv (after ch op) s' /\
    t_thread_fiber s' = t_thread_fiber s /\ t_scheduler_fiber s' = t_scheduler_fiber s /\
    t_running_fiber s' = match op with
                         | FResume a => Some a
                         | FYield | FFinish => t_thread_fiber s
                         | _ => t_running_fiber s
                         end.
Proof.
  intros Hi Hlegal. destruct op as [cb sz ris|a| | |a cb|a]; cbn [legal fexec after] in *.
  - destruct (new_fiber_ok conf cb sz ris ch s Hi) as (s' & E & Hi' & H1 & H2 & H3 & _).
    exists s'. prog_ok E. by split_and!.
  - destruct Hlegal as (f & Hf & Hst & Hh). destruct ch as [|c l].
    { pose proof (sw_linked _ _ Hi) as Hl. inversion Hl. }
    rewrite (switch_head_eq _ _ _ Hi) in Hh.
    destruct (Resume_ok c l s a f Hi Hf Hst Hh) as (fc & s' & E & _ & _ & H1 & H2 & H3 & Hi').
    exists s'. by split_and!.
  - destruct ch as [|a [|c l]]; cbn in Hlegal; [lia..|].
    unfold bind, gets. cbn. rewrite (switch_head_eq _ _ _ Hi).
    destruct (Yield_ok a c l s Hi) as (s' & E & _ & H1 & H2 & H3 & Hi'). exists s'. by split_and!.
  - destruct ch as [|a [|c l]]; cbn in Hlegal; [lia..|].
    unfold bind, gets. cbn -[MainFunc_leave]. rewrite (switch_head_eq _ _ _ Hi).
    destruct (MainFunc_leave_ok a c l s Hi) as (s' & E & _ & H1 & H2 & H3 & Hi'). exists s'. by split_and!.
  - destruct Hlegal as (f & Hf & Hst).
    destruct (fiber_reset_ok a f cb ch s Hi Hf Hst) as (s' & E & Hi' & H1 & H2 & H3 & _). exists s'. by split_and!.
  - destruct Hlegal as (f & Hf & Hst).
    destruct (delete_fiber_ok a f ch s Hi Hf Hst) as (s' & E & Hi' & H1 & H2 & H3). exists s'. by split_and!.
Qed.

Inductive fsteps (conf : Z) : list nat -> thread -> list nat -> thread -> Prop :=
  | fsteps_nil ch s : fsteps conf ch s ch s
  | fsteps_cons ch s op s1 ch2 s2 :
      legal ch s op -> fexec conf op s = (Ok tt, s1) ->
      fsteps conf (after ch op) s1 ch2 s2 -> fsteps conf ch s ch2 s2.

Lemma fsteps_inv conf ch s ch' s' : switch_inv ch s -> fsteps conf ch s ch' s' -> switch_inv ch' s'.
Proof.
  intros Hi. induction 1 as [|ch s op s1 ch2 s2 Hlegal E _ IH]; [done|]. apply IH.
  destruct (fexec_ok conf ch s op Hi Hlegal) as (s1' & E' & Hi' & _). congruence.
Qed.

(** ** Threads of a scheduler *)

Definition boot : thread := mkThread ∅ None None None None 0 0.

(** A pool thread: [Scheduler::Run] makes the thread's main fiber the scheduling
    fiber. *)
Definition worker : thread :=
  let s := (GetRunningFiber boot).2 in set_scheduler_fiber (t_running_fiber s) s.

(** The thread that built the scheduler with [use_caller]: scheduling happens in
    [root_fiber_], a fiber with a stack that returns to the main fiber. *)
Definition caller (conf : Z) (run : func) : thread :=
  let s := (GetRunningFiber boot).2 in
  let '(r, s) := new_fiber conf run 0 false s in
  match r with Ok root => set_scheduler_fiber (Some root) s | Fail _ => s end.

Definition main_fiber : nat := new_addr boot.

Lemma worker_inv : switch_inv [main_fiber] worker /\ t_thread_fiber worker = Some main_fiber /\
  t_scheduler_fiber worker = Some main_fiber /\ t_running_fiber worker = Some main_fiber.
Proof.
  split_and!; try reflexivity. split; [reflexivity| |apply NoDup_singleton|].
  - eapply linked_main; reflexivity.
  - intros a f Ha Hf. exfalso. change (fibers worker) with ({[main_fiber := mkFiber 0 0 Running Used false Null false]} : gmap nat Fiber) in Hf.
    apply lookup_singleton_Some in Hf as [<- _]. apply Ha. left.
Qed.

Lemma caller_inv conf run : switch_inv [main_fiber] (caller conf run).
Proof.
  destruct worker_inv as [Hi _].
  assert (switch_inv [main_fiber] (GetRunningFiber boot).2) as Hi0.
  { destruct Hi as [Hc Hl Hn Hp]. split; [done|eapply linked_main; reflexivity|done|done]. }
  destruct (new_fiber_ok conf run 0 false _ _ Hi0) as (s' & E & [Hc Hl Hn Hp] & _).
  unfold caller. rewrite E. split; [done| |done|done].
  inversion Hl; subst. by eapply linked_main.
Qed.

(** C6: fibers are switched like coroutines on one stack of activations: on a pool
    thread and on the thread that owns the scheduler, whatever legal sequence of
    creations, resumptions, yields, completions and resets has happened, no
    operation fails its assertions or continues a context that does not hold a
    suspended execution; the running execution is the one last resumed, and every
    fiber outside the chain of activations can be resumed or has terminated. *)
Theorem fiber_switch_safe conf run s0 ch s op :
  s0 = worker \/ s0 = caller conf run ->
  fsteps conf [main_fiber] s0 ch s -> legal ch s op ->
  exists s', fexec conf op s = (Ok tt, s') /\ switch_inv (after ch op) s'.
Proof.
  intros Hs0 Hs Hl. assert (switch_inv [main_fiber] s0) as Hi.
  { destruct Hs0 as [-> | ->]; [apply worker_inv|apply caller_inv]. }
  destruct (fexec_ok conf ch s op (fsteps_inv _ _ _ _ _ Hi Hs) Hl) as (s' & E & Hi' & _). by exists s'.
Qed.

(** Resuming a new fiber runs its callback; when the fiber then yields, or its
    callback returns, the execution that resumed it continues, and the fiber is
    ready, or terminated, respectively. *)
Theorem resume_runs_and_returns c l s a f :
  switch_inv (c :: l) s -> fibers s !! a = Some f -> state_ f = Ready -> host s f = Some c ->
  callable (callback_ f) = true ->
  exists s1 s2 s3, Resume a s = (Ok tt, s1) /\ cpu s1 = Some a /\ MainFunc_enter s1 = (Ok (callback_ f), s1) /\
    Yield a s1 = (Ok tt, s2) /\ cpu s2 = Some c /\ state_of s2 a = Some Ready /\
    MainFunc_leave a s1 = (Ok tt, s3) /\ cpu s3 = Some c /\ state_of s3 a = Some Term.
Proof.
  intros Hi Hf Hst Hh Hcb.
  destruct (Resume_ok c l s a f Hi Hf Hst Hh) as (fc & s1 & E1 & Hc & Hfs & Hr & _ & _ & Hi1).
  destruct (Yield_ok a c l s1 Hi1) as (s2 & E2 & Hst2 & _ & _ & _ & Hi2).
  destruct (MainFunc_leave_ok a c l s1 Hi1) as (s3 & E3 & Hst3 & _ & _ & _ & Hi3).
  exists s1, s2, s3. split_and!; try done; try (by eapply switch_head_eq).
  assert (fibers s1 !! a = Some (with_state_ctx Running Used f)) as Ha.
  { rewrite Hfs. unfold resumed. by rewrite lookup_insert_eq. }
  unfold MainFunc_enter, GetRunningFiber, bind, gets, deref_fiber, require, ret. cbn.
  rewrite Hr. cbn. rewrite Ha. cbn. rewrite Ha. cbn. by rewrite Hcb.
Qed.

(** On a pool thread every fiber returns to the main fiber. *)
Definition worker_state (ch : list nat) (s : thread) : Prop :=
  t_thread_fiber s = Some main_fiber /\ t_scheduler_fiber s = Some main_fiber /\
  t_running_fiber s = cpu s /\ (ch = [main_fiber] \/ exists a, ch = [a; main_fiber]).

Lemma worker_step conf ch s op s' :
  switch_inv ch s -> worker_state ch s -> legal ch s op -> fexec conf op s = (Ok tt, s') ->
  worker_state (after ch op) s'.
Proof.
  intros Hi (Ht & Hs & Hr & Hch) Hl E.
  destruct (fexec_ok conf ch s op Hi Hl) as (s1 & E1 & Hi1 & Ht1 & Hs1 & Hr1).
  rewrite E in E1. injection E1 as <-. unfold worker_state. rewrite Ht1, Hs1, Hr1, <- (sw_cpu _ _ Hi1).
  pose proof (sw_cpu _ _ Hi) as Hc. destruct op as [cb sz ris|a| | |a cb|a]; cbn in *;
    try (split_and!; try done; congruence).
  - destruct Hl as (f & Hf & Hst & Hh). split_and!; try done. right. exists a. f_equal.
    destruct Hch as [->|[b ->]]; [done|]. exfalso. cbn in *.
    assert (host s f = Some main_fiber) as Hm by (unfold host; by destruct (run_in_scheduler_ f)).
    pose proof (sw_nodup _ _ Hi) as Hn. apply NoDup_cons in Hn as [Hn _]. apply Hn.
    assert (b = main_fiber) as -> by congruence. left.
  - destruct Hch as [->|[b ->]]; cbn in *; [lia|]. split_and!; try done. by left.
  - destruct Hch as [->|[b ->]]; cbn in *; [lia|]. split_and!; try done. by left.
Qed.

(** On a pool thread [t_running_fiber], which [GetRunningFiber] returns, always
    is the fiber whose execution is running. *)
Theorem running_fiber_exact conf ch s :
  fsteps conf [main_fiber] worker ch s ->
  t_running_fiber s = cpu s /\ exists a, cpu s = Some a /\ GetRunningFiber s = (Ok a, s).
Proof.
  intros Hs. destruct worker_inv as (Hi & Ht & Hsch & Hr).
  assert (worker_state [main_fiber] worker) as Hw by (split_and!; try done; by left).
  assert (forall ch0 s0, switch_inv ch0 s0 -> worker_state ch0 s0 -> fsteps conf ch0 s0 ch s ->
    switch_inv ch s /\ worker_state ch s) as Hgo.
  { intros ch0 s0 Hi0 Hw0. induction 1 as [|ch0 s0 op s1 ch2 s2 Hlegal E _ IH]; [done|].
    destruct (fexec_ok conf ch0 s0 op Hi0 Hlegal) as (s1' & E' & Hi' & _).
    apply IH; [done|congruence|by eapply worker_step]. }
  destruct (Hgo _ _ Hi Hw Hs) as [Hi' (_ & _ & Hr' & _)]. split; [done|].
  destruct ch as [|a l]; [pose proof (sw_linked _ _ Hi') as Hl; inversion Hl|].
  pose proof (switch_head_eq _ _ _ Hi') as Hc. exists a. split; [done|].
  destruct (chain_alive _ _ a Hi') as [f Hf]; [left|].
  unfold GetRunningFiber, bind, gets, deref_fiber. cbn. rewrite Hr', Hc. cbn. by rewrite Hf.
Qed.

(** The thread that owns the scheduler, after [root_fiber_] has run a task that
    yielded. *)
Definition caller_after_task : thread :=
  let s := caller 1048576 (Fn 0) in
  let root := default 0%nat (t_scheduler_fiber s) in
  let s := (Resume root s).2 in
  let '(r, s) := new_fiber 1048576 (Fn 1) 0 true s in
  match r with Ok t => (Yield t (Resume t s).2).2 | Fail _ => s end.

(** On the thread that owns the scheduler this fails: once a task has yielded,
    [root_fiber_] is running and [t_running_fiber] is the thread's main fiber, as
    [Yield] always reports [t_thread_fiber]. *)
Theorem running_fiber_stale_on_caller :
  cpu caller_after_task = t_scheduler_fiber caller_after_task /\
  t_running_fiber caller_after_task = t_thread_fiber caller_after_task /\
  t_running_fiber caller_after_task <> cpu caller_after_task.
Proof. vm_compute. split_and!; [reflexivity|reflexivity|discriminate]. Qed.

(** ** The theorems at a concrete thread *)

(** A pool thread with one new fiber. *)
Definition demo_worker : thread := (new_fiber 1048576 (Fn 7) 0 true worker).2.

Lemma demo_worker_steps : fsteps 1048576 [main_fiber] worker [main_fiber] demo_worker.
Proof. apply (fsteps_cons _ _ _ (FNew (Fn 7) 0 true) demo_worker); [done|reflexivity|constructor]. Qed.

Lemma fiber_switch_safe_witness :
  exists s', fexec 1048576 (FResume 1) demo_worker = (Ok tt, s') /\ switch_inv [1%nat; main_fiber] s'.
Proof.
  apply (fiber_switch_safe 1048576 (Fn 0) worker [main_fiber] demo_worker (FResume 1));
    [by left|apply demo_worker_steps|]. eexists. split_and!; reflexivity.
Defined.

Lemma resume_runs_and_returns_witness :
  exists s1 s2 s3, Resume 1 demo_worker = (Ok tt, s1) /\ cpu s1 = Some 1%nat /\
    MainFunc_enter s1 = (Ok (Fn 7), s1) /\
    Yield 1 s1 = (Ok tt, s2) /\ cpu s2 = Some main_fiber /\ state_of s2 1 = Some Ready /\
    MainFunc_leave 1 s1 = (Ok tt, s3) /\ cpu s3 = Some main_fiber /\ state_of s3 1 = Some Term.
Proof.
  eapply (resume_runs_and_returns main_fiber [] demo_worker 1 (mkFiber 1 1048576 Ready Fresh true (Fn 7) true));
    try reflexivity.
  eapply fsteps_inv; [apply worker_inv|apply demo_worker_steps].
Defined.

Lemma running_fiber_exact_witness :
  t_running_fiber demo_worker = cpu demo_worker /\
  exists a, cpu demo_worker = Some a /\ GetRunningFiber demo_worker = (Ok a, demo_worker).
Proof. apply (running_fiber_exact 1048576 [main_fiber]), demo_worker_steps. Defined.
