(* ===== verification/Scheduler.v ===== *)
(** * The scheduler: [gudov/scheduler.h] and [gudov/scheduler.cpp]

    The task queue and its operations, and the pool of threads that all execute
    [Scheduler::Run] as a transition system: an action is what one thread does
    between two points where another thread can intervene (a critical section
    under [mutex_], a switch of fibers, an update of an atomic counter). *)

From S2P Require Import Prelude Timer Fiber.
From stdpp Require Import base gmap numbers list sorting.
From Stdlib Require Import ZArith Lia.
Open Scope Z_scope.
Open Scope prog_scope.

(** ** Tasks *)

Record Task := mkTask { fiber : option nat; callback : func; thr : Z }.

#[export] Instance func_eq_dec : EqDecision func.
Proof. solve_decision. Defined.

#[export] Instance Task_eq_dec : EqDecision Task.
Proof. solve_decision. Defined.

(** [Task()], also what [Task::Reset] leaves. *)
Definition no_task : Task := mkTask None Null (-1).

(** What a caller schedules: a fiber, or a function. *)
Inductive FiberOrCb := AFiber (f : option nat) | ACallback (cb : func).

Definition new_Task (fc : FiberOrCb) (thread : Z) : Task :=
  match fc with AFiber f => mkTask f Null thread | ACallback cb => mkTask None cb thread end.

(** [task.fiber || task.callback] *)
Definition runnable (t : Task) : bool := bool_decide (is_Some (fiber t)) || callable (callback t).

(** ** The scheduler object *)

Record Scheduler := mkScheduler {
  tasks_ : list Task;
  use_caller_ : bool;
  thread_ids_ : list Z;
  thread_count_ : Z;
  threads_ : list Z;
  active_thread_count_ : Z;
  idle_thread_count_ : Z;
  stopping_ : bool;
  root_thread_ : Z }.

Definition set_tasks l (s : Scheduler) := mkScheduler l (use_caller_ s) (thread_ids_ s) (thread_count_ s) (threads_ s) (active_thread_count_ s) (idle_thread_count_ s) (stopping_ s) (root_thread_ s).
Definition set_active n (s : Scheduler) := mkScheduler (tasks_ s) (use_caller_ s) (thread_ids_ s) (thread_count_ s) (threads_ s) n (idle_thread_count_ s) (stopping_ s) (root_thread_ s).
Definition set_idle n (s : Scheduler) := mkScheduler (tasks_ s) (use_caller_ s) (thread_ids_ s) (thread_count_ s) (threads_ s) (active_thread_count_ s) n (stopping_ s) (root_thread_ s).
Definition set_stopping b (s : Scheduler) := mkScheduler (tasks_ s) (use_caller_ s) (thread_ids_ s) (thread_count_ s) (threads_ s) (active_thread_count_ s) (idle_thread_count_ s) b (root_thread_ s).
Definition set_threads ids ts (s : Scheduler) := mkScheduler (tasks_ s) (use_caller_ s) ids (thread_count_ s) ts (active_thread_count_ s) (idle_thread_count_ s) (stopping_ s) (root_thread_ s).

(** The constructor, in the thread [me]; [has_scheduler]: the thread already has one. *)
Definition new_Scheduler (me threads : Z) (use_caller has_scheduler : bool) : result Scheduler :=
  if negb (0 <? threads) then Fail assert_failed
  else if use_caller then
    if has_scheduler then Fail assert_failed
    else Ok (mkScheduler [] true [me] (threads - 1) [] 0 0 false me)
  else Ok (mkScheduler [] false [] threads [] 0 0 false (-1)).

(** [Start]; [tids] are the ids of the threads the system creates, one per
    iteration. *)
Definition Start (tids : list Z) : prog Scheduler unit :=
  let* s := gets id in
  if stopping_ s then ret tt else
  require (bool_decide (threads_ s = [])) assert_failed ;;
  let new := take (Z.to_nat (thread_count_ s)) tids in
  modify (set_threads (thread_ids_ s ++ new) new).

Definition HasIdleThreads (s : Scheduler) : bool := 0 <? idle_thread_count_ s.

(** Whether the caller has to [Tickle]. *)
Definition ScheduleNoLock (fc : FiberOrCb) (thread : Z) : prog Scheduler bool :=
  let* s := gets id in
  let need_tickle := bool_decide (tasks_ s = []) in
  let task := new_Task fc thread in
  (if runnable task then modify (set_tasks (tasks_ s ++ [task])) else ret tt) ;;
  ret need_tickle.

(** Both [Schedule]s return whether they call [Tickle] after releasing the lock. *)
Definition Schedule (fc : FiberOrCb) (thread : Z) : prog Scheduler bool := ScheduleNoLock fc thread.

Fixpoint Schedule_range (fcs : list FiberOrCb) (need_tickle : bool) : prog Scheduler bool :=
  match fcs with
  | [] => ret need_tickle
  | fc :: fcs =>
      let* b := ScheduleNoLock fc (-1) in
      Schedule_range fcs (b || need_tickle)
  end.

Definition Stopping (s : Scheduler) : bool :=
  stopping_ s && bool_decide (tasks_ s = []) && (active_thread_count_ s =? 0).

(** [Stop] up to the point where it waits for the pool: [None] when it returns at
    once, otherwise the number of calls of [Tickle] and the threads to join. *)
Definition Stop (on_own_thread : bool) : prog Scheduler (option (Z * list Z)) :=
  let* s := gets id in
  if Stopping s then ret None else
  modify (set_stopping true) ;;
  require (if use_caller_ s then on_own_thread else negb on_own_thread) assert_failed ;;
  let tickles := thread_count_ s + (if use_caller_ s then 1 else 0) in
  let* s := gets id in
  modify (set_threads (thread_ids_ s) []) ;;
  ret (Some (tickles, threads_ s)).

(** ** Taking a task *)

(** After [tasks_.erase(it)] the loop compares the erased iterator with [end()]. *)
Class Erased := erased_ne_end : bool.

(** The loop over the queue in thread [tid]: the task taken if any, the tasks left,
    and [tickle_me] as the loop leaves it. *)
Fixpoint pick (tid : Z) (state : nat -> State) (tasks : list Task)
  : result (option Task * list Task * bool) :=
  match tasks with
  | [] => Ok (None, [], false)
  | t :: ts =>
      if negb (thr t =? -1) && negb (thr t =? tid) then
        match pick tid state ts with
        | Ok (r, rest, _) => Ok (r, t :: rest, true)
        | Fail e => Fail e
        end
      else if negb (runnable t) then Fail assert_failed
      else if bool_decide ((state <$> fiber t) = Some Running) then
        match pick tid state ts with
        | Ok (r, rest, b) => Ok (r, t :: rest, b)
        | Fail e => Fail e
        end
      else Ok (Some t, ts, false)
  end.

(** The critical section of [Run]: the task, [no_task] if there is none, and whether
    [Tickle] is called. *)
Definition take_task `{Erased} (tid : Z) (state : nat -> State) : prog Scheduler (Task * bool) :=
  let* s := gets id in
  match pick tid state (tasks_ s) with
  | Fail e => fail e
  | Ok (Some t, rest, b) =>
      modify (set_tasks rest) ;;
      modify (fun s => set_active (active_thread_count_ s + 1) s) ;;
      ret (t, b || erased_ne_end)
  | Ok (None, rest, b) => ret (no_task, b)
  end.

(** ** The pool *)

(** Where a thread is in [Run]: at the top of the loop, past the critical section
    with the task it holds, inside [Resume] of a task's fiber, past that [Resume]
    and before the counter is decremented, inside [Resume] of its idle fiber, past
    the loop. *)
Inductive pc :=
  | PLoop
  | PTask (t : Task)
  | PRun (f : nat)
  | PBack
  | PIdle
  | PEnd.

Record worker_thread := mkWorker { tid : Z; at_ : pc; idle_term : bool }.

(** The shared state: the scheduler, the states of the existing fibers, the threads;
    and the history: the tasks accepted, and which thread took which task. *)
Record pool := mkPool {
  sched : Scheduler;
  fstate : gmap nat State;
  workers : list worker_thread;
  scheduled : list Task;
  dispatched : list (Z * Task) }.

Definition fiber_state (s : pool) (f : nat) : State := default Ready (fstate s !! f).

Inductive action :=
  | ANewFiber (f : nat)
  | ASchedule (by_ : option nat) (fc : FiberOrCb) (thread : Z)
  | AStop
  | APick (i : nat)
  | ARun (i : nat)
  | AYield (i : nat)
  | AFinish (i : nat)
  | ABack (i : nat)
  | AIdle (i : nat).

(** A task is scheduled by a thread outside the pool or by one that runs a task. *)
Definition may_schedule (s : pool) (by_ : option nat) : bool :=
  match by_ with
  | None => true
  | Some i => match workers s !! i with Some (mkWorker _ (PRun _) _) => true | _ => false end
  end.

Definition exists_fiber (s : pool) (fc : FiberOrCb) : bool :=
  match fc with AFiber (Some f) => bool_decide (is_Some (fstate s !! f)) | _ => true end.

Definition goto (i : nat) (w : worker_thread) (p : pc) (s : pool) : pool :=
  mkPool (sched s) (fstate s) (<[i := mkWorker (tid w) p (idle_term w)]> (workers s)) (scheduled s) (dispatched s).

Definition with_sched (c : Scheduler) (s : pool) : pool :=
  mkPool c (fstate s) (workers s) (scheduled s) (dispatched s).

Definition with_fstate f st (s : pool) : pool :=
  mkPool (sched s) (<[f := st]> (fstate s)) (workers s) (scheduled s) (dispatched s).

Section Pool.
Context `{Erased}.

(** The dispatch after the critical section: [Resume] asserts that the fiber is
    ready. *)
Definition run_task (i : nat) (w : worker_thread) (t : Task) (s : pool) : result pool :=
  match fiber t with
  | Some f =>
      if bool_decide (fiber_state s f = Ready)
      then Ok (goto i w (PRun f) (with_fstate f Running s)) else Fail assert_failed
  | None =>
      if callable (callback t) then
        let f := fresh (dom (fstate s)) in Ok (goto i w (PRun f) (with_fstate f Running s))
      else if idle_term w then Ok (goto i w PEnd s)
      else Ok (goto i w PIdle (with_sched (set_idle (idle_thread_count_ (sched s) + 1) (sched s)) s))
  end.

(** [None]: the action is not possible now; [Some (Fail _)]: the process aborts. *)
Definition act (a : action) (s : pool) : option (result pool) :=
  match a with
  | ANewFiber f =>
      if bool_decide (is_Some (fstate s !! f)) then None else Some (Ok (with_fstate f Ready s))
  | ASchedule by_ fc thread =>
      if negb (may_schedule s by_ && exists_fiber s fc) then None else
      let t := new_Task fc thread in
      Some (Ok (mkPool (Schedule fc thread (sched s)).2 (fstate s) (workers s)
                  (scheduled s ++ (if runnable t then [t] else [])) (dispatched s)))
  | AStop => Some (Ok (with_sched (set_stopping true (sched s)) s))
  | APick i =>
      match workers s !! i with
      | Some (mkWorker tid PLoop idle as w) =>
          match take_task tid (fiber_state s) (sched s) with
          | (Ok (t, _), c) =>
              let s := goto i w (PTask t) (with_sched c s) in
              Some (Ok (mkPool (sched s) (fstate s) (workers s) (scheduled s)
                          (dispatched s ++ (if runnable t then [(tid, t)] else []))))
          | (Fail e, _) => Some (Fail e)
          end
      | _ => None
      end
  | ARun i =>
      match workers s !! i with
      | Some (mkWorker _ (PTask t) _ as w) => Some (run_task i w t s)
      | _ => None
      end
  | AYield i =>
      match workers s !! i with
      | Some (mkWorker _ (PRun f) _ as w) => Some (Ok (goto i w PBack (with_fstate f Ready s)))
      | _ => None
      end
  | AFinish i =>
      match workers s !! i with
      | Some (mkWorker _ (PRun f) _ as w) => Some (Ok (goto i w PBack (with_fstate f Term s)))
      | _ => None
      end
  | ABack i =>
      match workers s !! i with
      | Some (mkWorker _ PBack _ as w) =>
          Some (Ok (goto i w PLoop (with_sched (set_active (active_thread_count_ (sched s) - 1) (sched s)) s)))
      | _ => None
      end
  | AIdle i =>
      match workers s !! i with
      | Some (mkWorker t PIdle _) =>
          let w := mkWorker t PIdle (Stopping (sched s)) in
          Some (Ok (goto i w PLoop (with_sched (set_idle (idle_thread_count_ (sched s) - 1) (sched s)) s)))
      | _ => None
      end
  end.

Inductive steps : pool -> list action -> pool -> Prop :=
  | steps_nil s : steps s [] s
  | steps_cons s a s1 l s2 : act a s = Some (Ok s1) -> steps s1 l s2 -> steps s (a :: l) s2.
End Pool.

(** The pool of a scheduler that has just been started. *)
Definition new_pool (c : Scheduler) : pool :=
  mkPool c ∅ (map (fun t => mkWorker t PLoop false) (thread_ids_ c)) [] [].

(** ** The invariant *)

Definition busy (w : worker_thread) : bool :=
  match at_ w with PTask t => runnable t | PRun _ | PBack => true | _ => false end.

Definition idling (w : worker_thread) : bool := match at_ w with PIdle => true | _ => false end.

Definition allowed (tid : Z) (t : Task) : Prop := thr t = -1 \/ thr t = tid.

Record pool_inv (s : pool) : Prop := {
  pool_active : active_thread_count_ (sched s) = sumz (fun w => b2n (busy w)) (workers s);
  pool_idle : idle_thread_count_ (sched s) = sumz (fun w => b2n (idling w)) (workers s);
  pool_tasks : scheduled s ≡ₚ tasks_ (sched s) ++ map snd (dispatched s);
  pool_runnable : Forall (fun t => runnable t = true) (tasks_ (sched s));
  pool_pins : Forall (fun p => allowed p.1 p.2) (dispatched s) }.

Lemma goto_busy i w p (s : pool) :
  workers s !! i = Some w ->
  sumz (fun w => b2n (busy w)) (workers (goto i w p s))
  = sumz (fun w => b2n (busy w)) (workers s) - b2n (busy w) + b2n (busy (mkWorker (tid w) p (idle_term w))).
Proof. intros Hw. cbn. by rewrite (sumz_insert _ _ _ w). Qed.

Lemma goto_idling i w p (s : pool) :
  workers s !! i = Some w ->
  sumz (fun w => b2n (idling w)) (workers (goto i w p s))
  = sumz (fun w => b2n (idling w)) (workers s) - b2n (idling w) + b2n (idling (mkWorker (tid w) p (idle_term w))).
Proof. intros Hw. cbn. by rewrite (sumz_insert _ _ _ w). Qed.

(** ** Taking a task *)

Definition eligible (tid : Z) (state : nat -> State) (t : Task) : bool :=
  ((thr t =? -1) || (thr t =? tid)) && negb (bool_decide ((state <$> fiber t) = Some Running)).

Lemma pick_ok tid state tasks :
  Forall (fun t => runnable t = true) tasks ->
  (exists l1 t l2 b, tasks = l1 ++ t :: l2 /\ pick tid state tasks = Ok (Some t, l1 ++ l2, b) /\
     Forall (fun t => eligible tid state t = false) l1 /\ eligible tid state t = true) \/
  (exists b, pick tid state tasks = Ok (None, tasks, b) /\ Forall (fun t => eligible tid state t = false) tasks).
Proof.
  induction 1 as [|t ts Ht _ IH]; [right; by exists false|]. cbn [pick]. rewrite Ht. cbn [negb].
  destruct (eligible tid state t) eqn:El.
  - left. exists [], t, ts, false. pose proof El as El'. unfold eligible in El'.
    apply andb_prop in El' as [E1 E2]. apply negb_true_iff in E2. rewrite E2, <- negb_orb, E1. by split_and!.
  - assert (forall X (skip1 skip2 take : X), (if negb (thr t =? -1) && negb (thr t =? tid) then skip1
        else if bool_decide ((state <$> fiber t) = Some Running) then skip2 else take)
        = if negb (thr t =? -1) && negb (thr t =? tid) then skip1 else skip2) as Eif.
    { intros. unfold eligible in El. rewrite <- negb_orb.
      destruct ((thr t =? -1) || (thr t =? tid)); cbn in *; [|done].
      by destruct (bool_decide _). }
    rewrite Eif. clear Eif. set (c := negb (thr t =? -1) && negb (thr t =? tid)). destruct IH as [(l1 & t' & l2 & b & -> & E & H1 & H2)|(b & E & H1)]; rewrite E.
    + left. exists (t :: l1), t', l2, (if c then true else b). split_and!; [done|by destruct c|by constructor|done].
    + right. exists (if c then true else b). split; [by destruct c|by constructor].
Qed.

Lemma eligible_allowed tid state t : eligible tid state t = true -> allowed tid t.
Proof.
  unfold eligible, allowed. intros [E _]%andb_prop. apply orb_prop in E as [E|E]; apply Z.eqb_eq in E; auto.
Qed.

Lemma Schedule_eq fc thread c :
  Schedule fc thread c
  = (Ok (bool_decide (tasks_ c = [])),
     if runnable (new_Task fc thread) then set_tasks (tasks_ c ++ [new_Task fc thread]) c else c).
Proof. unfold Schedule, ScheduleNoLock, bind, gets, modify, ret. cbn. by destruct (runnable _). Qed.

Section Invariant.
Context `{Erased}.

(** The critical section never fails its assertion, and moves at most one task. *)
Lemma take_task_ok tid state c :
  Forall (fun t => runnable t = true) (tasks_ c) ->
  (exists l1 t l2 b, tasks_ c = l1 ++ t :: l2 /\ runnable t = true /\ allowed tid t /\
     Forall (fun t => eligible tid state t = false) l1 /\ eligible tid state t = true /\
     take_task tid state c = (Ok (t, b), set_active (active_thread_count_ c + 1) (set_tasks (l1 ++ l2) c))) \/
  (exists b, take_task tid state c = (Ok (no_task, b), c) /\
     Forall (fun t => eligible tid state t = false) (tasks_ c)).
Proof.
  intros Hr. unfold take_task, bind, gets, modify, ret, fail. cbn.
  destruct (pick_ok tid state (tasks_ c) Hr) as [(l1 & t & l2 & b & El & E & H1 & H2)|(b & E & H1)]; rewrite E.
  - left. exists l1, t, l2, (b || erased_ne_end). rewrite El in Hr.
    apply Forall_app in Hr as [_ Hr]. apply Forall_cons_iff in Hr as [Hr _].
    split_and!; try done. by eapply eligible_allowed.
  - right. by exists b.
Qed.

Lemma inv_frame s s' :
  pool_inv s -> sched s' = sched s -> scheduled s' = scheduled s -> dispatched s' = dispatched s ->
  sumz (fun w => b2n (busy w)) (workers s') = sumz (fun w => b2n (busy w)) (workers s) ->
  sumz (fun w => b2n (idling w)) (workers s') = sumz (fun w => b2n (idling w)) (workers s) ->
  pool_inv s'.
Proof. intros [H1 H2 H3 H4 H5] E1 E2 E3 E4 E5. split; rewrite ?E1, ?E2, ?E3, ?E4, ?E5; done. Qed.

Lemma schedule_inv s by_ fc thread s' :
  pool_inv s -> act (ASchedule by_ fc thread) s = Some (Ok s') -> pool_inv s'.
Proof.
  intros [H1 H2 H3 H4 H5] E. cbn [act] in E.
  destruct (may_schedule s by_ && exists_fiber s fc); cbn [negb] in E; [|done].
  injection E as <-. rewrite Schedule_eq. cbn [snd].
  destruct (runnable (new_Task fc thread)) eqn:Hr; split; cbn -[new_Task]; try done.
  - rewrite H3. solve_Permutation.
  - apply Forall_app. split; [done|]. by repeat constructor.
  - by rewrite app_nil_r.
Qed.

Lemma pick_inv s i s' : pool_inv s -> act (APick i) s = Some (Ok s') -> pool_inv s'.
Proof.
  intros Hi E. pose proof Hi as [H1 H2 H3 H4 H5]. cbn [act] in E.
  destruct (workers s !! i) as [[tid [] idle]|] eqn:Hw; try done.
  pose proof (goto_busy i _ (PTask no_task) s Hw) as B0. pose proof (goto_idling i _ (PTask no_task) s Hw) as I0.
  destruct (take_task_ok tid (fiber_state s) (sched s) H4)
    as [(l1 & t & l2 & b & El & Hr & Ha & _ & _ & Et)|(b & Et & _)]; rewrite Et in E; injection E as <-.
  - pose proof (goto_busy i _ (PTask t) s Hw) as B. pose proof (goto_idling i _ (PTask t) s Hw) as I.
    rewrite Hr. cbn in B, I. rewrite Hr in B. cbn in B. rewrite El in H3, H4. split; cbn.
    + rewrite B, H1. lia.
    + rewrite I, H2. lia.
    + rewrite map_app, H3. cbn. solve_Permutation.
    + apply Forall_app in H4 as [H4a H4b]. apply Forall_cons_iff in H4b as [_ H4b]. by apply Forall_app.
    + apply Forall_app. split; [done|]. constructor; [done|constructor].
  - cbn in B0, I0. apply (inv_frame s); try done; cbn; [by rewrite app_nil_r|rewrite B0; lia|rewrite I0; lia].
Qed.

Lemma run_inv s i w t s' :
  pool_inv s -> workers s !! i = Some w -> at_ w = PTask t -> run_task i w t s = Ok s' -> pool_inv s'.
Proof.
  intros Hi Hw Ht E. pose proof Hi as [H1 H2 H3 H4 H5]. unfold run_task in E.
  assert (busy w = runnable t) as Eb by (unfold busy; by rewrite Ht).
  assert (idling w = false) as Ei by (unfold idling; by rewrite Ht).
  assert (forall p, runnable t = true -> busy (mkWorker (tid w) p (idle_term w)) = true ->
    idling (mkWorker (tid w) p (idle_term w)) = false -> forall f, pool_inv (goto i w p (with_fstate f Running s))) as Hgo.
  { intros p Hr Hb Hid f. pose proof (goto_busy i w p s Hw) as B. pose proof (goto_idling i w p s Hw) as I.
    rewrite Hb, Eb, Hr in B. rewrite Hid, Ei in I.
    apply (inv_frame s); try done; cbn in *; [rewrite B|rewrite I]; cbn; lia. }
  destruct (fiber t) as [f|] eqn:Hf.
  - assert (runnable t = true) as Hr by (unfold runnable; by rewrite Hf).
    destruct (bool_decide _); [|done]. injection E as <-. by apply Hgo.
  - destruct (callable (callback t)) eqn:Hc.
    { assert (runnable t = true) as Hr by (unfold runnable; by rewrite Hc, orb_true_r).
      injection E as <-. by apply Hgo. }
    assert (runnable t = false) as Hr by (unfold runnable; by rewrite Hc, Hf).
    pose proof (goto_busy i w PEnd s Hw) as B. pose proof (goto_idling i w PEnd s Hw) as I.
    pose proof (goto_busy i w PIdle s Hw) as B'. pose proof (goto_idling i w PIdle s Hw) as I'.
    rewrite Eb, Hr in B, B'. rewrite Ei in I, I'. cbn in B, I, B', I'.
    revert E. case (idle_term w) at 1; intros E; injection E as <-.
    + apply (inv_frame s); try done; cbn; lia.
    + split; cbn; try done; [rewrite B'|rewrite I']; lia.
Qed.

(** Every action preserves the invariant. *)
Lemma act_inv a s s' : pool_inv s -> act a s = Some (Ok s') -> pool_inv s'.
Proof.
  intros Hi E. destruct a as [f|by_ fc thread| |i|i|i|i|i|i].
  - cbn in E. destruct (bool_decide _); [done|]. injection E as <-. by apply (inv_frame s).
  - by eapply schedule_inv.
  - injection E as <-. by destruct Hi; split.
  - by eapply pick_inv.
  - cbn [act] in E. destruct (workers s !! i) as [w|] eqn:Hw; [|done]. destruct w as [tid [] idle]; try done.
    injection E as E. by eapply (run_inv s i _ _ s' Hi Hw).
  - cbn [act] in E. destruct (workers s !! i) as [w|] eqn:Hw; [|done]. destruct w as [tid [] idle]; try done.
    injection E as <-. pose proof (goto_busy i _ PBack s Hw) as B. pose proof (goto_idling i _ PBack s Hw) as I.
    cbn in B, I. apply (inv_frame s); try done; cbn; lia.
  - cbn [act] in E. destruct (workers s !! i) as [w|] eqn:Hw; [|done]. destruct w as [tid [] idle]; try done.
    injection E as <-. pose proof (goto_busy i _ PBack s Hw) as B. pose proof (goto_idling i _ PBack s Hw) as I.
    cbn in B, I. apply (inv_frame s); try done; cbn; lia.
  - cbn [act] in E. destruct (workers s !! i) as [w|] eqn:Hw; [|done]. destruct w as [tid [] idle]; try done.
    injection E as <-. pose proof (goto_busy i _ PLoop s Hw) as B. pose proof (goto_idling i _ PLoop s Hw) as I.
    cbn in B, I. destruct Hi as [H1 H2 H3 H4 H5]. split; cbn; try done; lia.
  - cbn [act] in E. destruct (workers s !! i) as [w|] eqn:Hw; [|done]. destruct w as [tid [] idle]; try done.
    injection E as <-. cbn. destruct Hi as [H1 H2 H3 H4 H5].
    pose proof (sumz_insert (fun w => b2n (busy w)) _ _ _ (mkWorker tid PLoop (Stopping (sched s))) Hw) as B.
    pose proof (sumz_insert (fun w => b2n (idling w)) _ _ _ (mkWorker tid PLoop (Stopping (sched s))) Hw) as I.
    cbn in B, I. split; cbn; try done; lia.
Qed.

Lemma steps_inv s l s' : pool_inv s -> steps s l s' -> pool_inv s'.
Proof. intros Hi. induction 1; [done|]. apply IHsteps. by eapply act_inv. Qed.
End Invariant.

(** A scheduler that has been started and has done nothing yet. *)
Definition idle_scheduler (c : Scheduler) : Prop :=
  tasks_ c = [] /\ active_thread_count_ c = 0 /\ idle_thread_count_ c = 0.

Lemma new_pool_inv c : idle_scheduler c -> pool_inv (new_pool c).
Proof.
  intros (Ht & Ha & Hi). unfold new_pool. split; cbn; rewrite ?Ht, ?Ha, ?Hi; try done;
    induction (thread_ids_ c) as [|x l IH]; done.
Qed.

(** ** What the scheduler promises *)

(** Nobody outside the pool schedules. *)
Definition internal (a : action) : bool := match a with ASchedule None _ _ => false | _ => true end.

Section Promises.
Context `{Erased}.

(** C3: whatever the interleaving of the threads, no task is lost or run twice:
    every accepted task is in the queue or was taken by exactly one thread, and by
    the thread it is pinned to if it is pinned; [active_thread_count_] and
    [idle_thread_count_] count exactly the threads that hold or run a task and that
    idle; and the assertion of the critical section cannot fail. *)
Theorem tasks_conserved c l s :
  idle_scheduler c -> steps (new_pool c) l s ->
  scheduled s ≡ₚ tasks_ (sched s) ++ map snd (dispatched s) /\
  (forall tid t, (tid, t) ∈ dispatched s -> thr t = -1 \/ thr t = tid) /\
  active_thread_count_ (sched s) = sumz (fun w => b2n (busy w)) (workers s) /\
  idle_thread_count_ (sched s) = sumz (fun w => b2n (idling w)) (workers s) /\
  (forall i e, act (APick i) s <> Some (Fail e)).
Proof.
  intros Hc Hs. pose proof (steps_inv _ _ _ (new_pool_inv c Hc) Hs) as [H1 H2 H3 H4 H5].
  split_and!; try done.
  - intros tid t Hin. rewrite List.Forall_forall in H5. apply list_elem_of_In in Hin. apply (H5 _ Hin).
  - intros i e. cbn [act]. destruct (workers s !! i) as [[tid [] idle]|]; try done.
    destruct (take_task_ok tid (fiber_state s) (sched s) H4) as [(l1 & t & l2 & b & _ & _ & _ & _ & _ & Et)|(b & Et & _)];
      by rewrite Et.
Qed.

(** The critical section takes the first task of the queue that this thread may
    run and whose fiber is not running, leaves the others in order and counts the
    thread as active; when there is none it takes nothing. *)
Theorem take_first_eligible tid state c :
  Forall (fun t => runnable t = true) (tasks_ c) ->
  match filter (fun t => eligible tid state t = true) (tasks_ c) with
  | [] => exists b, take_task tid state c = (Ok (no_task, b), c)
  | t :: _ => exists l1 l2 b, tasks_ c = l1 ++ t :: l2 /\
      Forall (fun t => eligible tid state t = false) l1 /\
      take_task tid state c = (Ok (t, b), set_active (active_thread_count_ c + 1) (set_tasks (l1 ++ l2) c))
  end.
Proof.
  intros Hr. destruct (take_task_ok tid state c Hr) as [(l1 & t & l2 & b & El & _ & _ & H1 & H2 & E)|(b & E & H1)].
  - assert (filter (fun t => eligible tid state t = true) (tasks_ c)
            = t :: filter (fun t => eligible tid state t = true) l2) as ->.
    { rewrite El. clear -H1 H2. induction H1 as [|x l1 Hx _ IH]; cbn [app].
      - by rewrite filter_cons_True.
      - rewrite filter_cons_False by congruence. done. }
    by exists l1, l2, b.
  - rewrite (filter_cut (fun t => eligible tid state t = true) [] (tasks_ c)); [by exists b|constructor|].
    eapply Forall_impl; [exact H1|]. cbn. congruence.
Qed.

Lemma stopping_not_busy s w : pool_inv s -> Stopping (sched s) = true -> w ∈ workers s -> busy w = false.
Proof.
  intros Hi Hst Hw. unfold Stopping in Hst. apply andb_prop in Hst as [_ Ha]. apply Z.eqb_eq in Ha.
  rewrite (pool_active _ Hi) in Ha.
  pose proof (sumz_zero _ _ w (fun w => b2n_nonneg (busy w)) Ha Hw) as Hb. cbn in Hb. destruct (busy w); [cbn in Hb; lia|done].
Qed.

Lemma stopping_act a s s' :
  pool_inv s -> Stopping (sched s) = true -> internal a = true -> act a s = Some (Ok s') ->
  Stopping (sched s') = true /\ scheduled s' = scheduled s /\ dispatched s' = dispatched s.
Proof.
  intros Hi Hst Hint E. pose proof (stopping_not_busy s) as Hnb. pose proof (pool_runnable _ Hi) as Hr.
  assert (tasks_ (sched s) = [] /\ stopping_ (sched s) = true) as [Ht Hf].
  { unfold Stopping in Hst. apply andb_prop in Hst as [Hst _]. apply andb_prop in Hst as [? Hb].
    by apply bool_decide_eq_true in Hb. }
  assert (forall i w, workers s !! i = Some w -> busy w = false) as Hnb'.
  { intros i w Hw. apply (Hnb w Hi Hst). by eapply list_elem_of_lookup_2. }
  destruct a as [f|by_ fc thread| |i|i|i|i|i|i]; cbn [act] in E.
  - destruct (bool_decide _); [done|]. by injection E as <-.
  - destruct by_ as [i|]; [|done]. cbn [may_schedule] in E.
    destruct (workers s !! i) as [[tid [] idle]|] eqn:Hw; try done. by specialize (Hnb' _ _ Hw).
  - injection E as <-. split_and!; try done. unfold Stopping in *. cbn. by rewrite Hf in Hst.
  - destruct (workers s !! i) as [[tid [] idle]|] eqn:Hw; try done.
    unfold take_task, bind, gets in E. cbn -[runnable] in E. rewrite Ht in E. cbn in E. injection E as <-.
    by rewrite app_nil_r.
  - destruct (workers s !! i) as [[tid [|t| | | |] idle]|] eqn:Hw; try done. injection E as E.
    pose proof (Hnb' _ _ Hw) as Hb. cbn in Hb. unfold runnable in Hb. apply orb_false_elim in Hb as [Hb1 Hb2].
    unfold run_task in E. destruct (fiber t); [done|]. rewrite Hb2 in E. cbn in E.
    destruct idle; by injection E as <-.
  - destruct (workers s !! i) as [[tid [] idle]|] eqn:Hw; try done. by specialize (Hnb' _ _ Hw).
  - destruct (workers s !! i) as [[tid [] idle]|] eqn:Hw; try done. by specialize (Hnb' _ _ Hw).
  - destruct (workers s !! i) as [[tid [] idle]|] eqn:Hw; try done. by specialize (Hnb' _ _ Hw).
  - destruct (workers s !! i) as [[tid [] idle]|] eqn:Hw; try done. by injection E as <-.
Qed.

(** C8: shutting down is orderly: when [Stopping] first holds every accepted task has
    been taken and none is still running, and from then on, as long as nobody
    outside the pool schedules, it keeps holding and no further task is accepted or
    taken. *)
Theorem shutdown_drains c l s l' s' :
  idle_scheduler c -> steps (new_pool c) l s -> Stopping (sched s) = true ->
  steps s l' s' -> forallb internal l' = true ->
  Stopping (sched s') = true /\ scheduled s ≡ₚ map snd (dispatched s) /\
  scheduled s' = scheduled s /\ dispatched s' = dispatched s /\
  (forall w, w ∈ workers s' -> busy w = false).
Proof.
  intros Hc Hs Hst Hs' Hint. pose proof (steps_inv _ _ _ (new_pool_inv c Hc) Hs) as Hi.
  assert (scheduled s ≡ₚ map snd (dispatched s)) as Hd.
  { rewrite (pool_tasks _ Hi). unfold Stopping in Hst. apply andb_prop in Hst as [Hst _].
    apply andb_prop in Hst as [_ Hb]. apply bool_decide_eq_true in Hb. by rewrite Hb. }
  assert (pool_inv s' /\ Stopping (sched s') = true /\ scheduled s' = scheduled s /\ dispatched s' = dispatched s)
    as (Hi' & Hst' & E1 & E2).
  { clear Hs Hd. induction Hs' as [s|s a s1 l1 s2 Ha _ IH]; [done|].
    cbn in Hint. apply andb_prop in Hint as [Hia Hint].
    destruct (stopping_act a s s1 Hi Hst Hia Ha) as (Hst1 & E1 & E2).
    pose proof (act_inv a s s1 Hi Ha) as Hi1. destruct (IH Hst1 Hint Hi1) as (? & ? & ? & ?).
    split_and!; congruence || done. }
  split_and!; try done. intros w Hw. by apply (stopping_not_busy s').
Qed.

(** The threads of the pool keep their ids, and take from the queue only what they
    may take. *)
Lemma act_tids a s s' : act a s = Some (Ok s') -> map tid (workers s') = map tid (workers s).
Proof.
  assert (forall i w p fs c sch d b, workers s !! i = Some w ->
    map tid (workers (mkPool c fs (<[i := mkWorker (tid w) p b]> (workers s)) sch d)) = map tid (workers s)) as Hset.
  { intros i w p fs c sch d b Hw. cbn. change (map tid) with (fmap (M := list) tid).
    rewrite list_fmap_insert. cbn. apply list_insert_id. by rewrite list_lookup_fmap, Hw. }
  intros E. destruct a as [f|by_ fc thread| |i|i|i|i|i|i]; cbn [act] in E.
  - destruct (bool_decide _); [done|]. by injection E as <-.
  - destruct (may_schedule s by_ && exists_fiber s fc); cbn [negb] in E; [|done]. by injection E as <-.
  - by injection E as <-.
  - destruct (workers s !! i) as [[ti [] idle]|] eqn:Hw; try done.
    destruct (take_task ti (fiber_state s) (sched s)) as [[[t b]|e] c]; [|done]. injection E as <-.
    by apply (Hset i _ (PTask t) _ _ _ _ idle Hw).
  - destruct (workers s !! i) as [[ti [|t| | | |] idle]|] eqn:Hw; try done. injection E as E. unfold run_task in E.
    destruct (fiber t) as [f|]; [destruct (bool_decide _); [|done]|destruct (callable _); [|destruct idle]];
      injection E as <-; by apply (Hset i _ _ _ _ _ _ _ Hw).
  - destruct (workers s !! i) as [[ti [] idle]|] eqn:Hw; try done. injection E as <-. by apply (Hset i _ _ _ _ _ _ _ Hw).
  - destruct (workers s !! i) as [[ti [] idle]|] eqn:Hw; try done. injection E as <-. by apply (Hset i _ _ _ _ _ _ _ Hw).
  - destruct (workers s !! i) as [[ti [] idle]|] eqn:Hw; try done. injection E as <-. by apply (Hset i _ _ _ _ _ _ _ Hw).
  - destruct (workers s !! i) as [[ti [] idle]|] eqn:Hw; try done. injection E as <-. by apply (Hset i _ _ _ _ _ _ _ Hw).
Qed.

Lemma act_keeps_pinned a s s' t :
  pool_inv s -> t ∈ tasks_ (sched s) -> thr t <> -1 -> thr t ∉ map tid (workers s) ->
  act a s = Some (Ok s') -> t ∈ tasks_ (sched s').
Proof.
  intros Hi Hin Hp Hn E. destruct a as [f|by_ fc thread| |i|i|i|i|i|i]; cbn [act] in E.
  - destruct (bool_decide _); [done|]. by injection E as <-.
  - destruct (may_schedule s by_ && exists_fiber s fc); cbn [negb] in E; [|done]. injection E as <-.
    rewrite Schedule_eq. cbn -[runnable]. destruct (runnable _); [|done]. cbn. apply elem_of_app. by left.
  - by injection E as <-.
  - destruct (workers s !! i) as [[ti [] idle]|] eqn:Hw; try done.
    destruct (take_task_ok ti (fiber_state s) (sched s) (pool_runnable _ Hi))
      as [(l1 & t' & l2 & b & El & _ & Ha & _ & _ & Et)|(b & Et & _)]; rewrite Et in E; injection E as <-; [|done].
    cbn. rewrite El in Hin. apply elem_of_app in Hin as [Hin|[->|Hin]%elem_of_cons]; apply elem_of_app; auto.
    destruct Ha as [Ha|Ha]; [done|]. exfalso. apply Hn. rewrite Ha.
    apply list_elem_of_fmap. exists (mkWorker ti PLoop idle). split; [done|by eapply list_elem_of_lookup_2].
  - destruct (workers s !! i) as [[ti [|t'| | | |] idle]|] eqn:Hw; try done. injection E as E. unfold run_task in E.
    destruct (fiber t') as [f|]; [destruct (bool_decide _); [|done]|destruct (callable _); [|destruct idle]];
      by injection E as <-.
  - destruct (workers s !! i) as [[ti [] idle]|] eqn:Hw; try done. by injection E as <-.
  - destruct (workers s !! i) as [[ti [] idle]|] eqn:Hw; try done. by injection E as <-.
  - destruct (workers s !! i) as [[ti [] idle]|] eqn:Hw; try done. by injection E as <-.
  - destruct (workers s !! i) as [[ti [] idle]|] eqn:Hw; try done. by injection E as <-.
Qed.

(** Nothing checks the thread a task is pinned to: a task pinned to a thread that
    is not in the pool stays in the queue forever, so that [Stopping] never holds
    and no thread of the pool ever leaves [Run]. *)
Theorem pinned_elsewhere_blocks c l s t l' s' :
  idle_scheduler c -> steps (new_pool c) l s -> t ∈ tasks_ (sched s) ->
  thr t <> -1 -> thr t ∉ map tid (workers s) -> steps s l' s' ->
  t ∈ tasks_ (sched s') /\ Stopping (sched s') = false.
Proof.
  intros Hc Hs Hin Hp Hn Hs'. pose proof (steps_inv _ _ _ (new_pool_inv c Hc) Hs) as Hi.
  assert (t ∈ tasks_ (sched s')) as Hin'.
  { clear Hs. induction Hs' as [s|s a s1 l1 s2 Ha _ IH]; [done|].
    apply IH; [by eapply act_keeps_pinned|by rewrite (act_tids _ _ _ Ha)|by eapply act_inv]. }
  split; [done|]. unfold Stopping. destruct (tasks_ (sched s')); [by apply elem_of_nil in Hin'|].
  cbn. by rewrite andb_false_r.
Qed.
End Promises.

(** ** The theorems at a concrete pool *)

#[local] Instance erased_differs : Erased := true.

(** Two threads, 11 and 12. *)
Definition demo_scheduler : Scheduler := mkScheduler [] false [11; 12] 2 [11; 12] 0 0 false (-1).

Lemma demo_idle : idle_scheduler demo_scheduler.
Proof. done. Qed.

Fixpoint run (l : list action) (s : pool) : option (result pool) :=
  match l with
  | [] => Some (Ok s)
  | a :: l => match act a s with Some (Ok s) => run l s | r => r end
  end.

Lemma run_steps l s s' : run l s = Some (Ok s') -> steps s l s'.
Proof.
  revert s. induction l as [|a l IH]; intros s E; cbn in E; [injection E as <-; constructor|].
  destruct (act a s) as [[s1|]|] eqn:Ea; try done. econstructor; [exact Ea|by apply IH].
Qed.

Definition pool_after (l : list action) : pool :=
  match run l (new_pool demo_scheduler) with Some (Ok s) => s | _ => new_pool demo_scheduler end.

(** The state of a fiber is checked under the lock but changed after it: a ready
    fiber that is in the queue twice is taken by two threads, and the second
    [Resume] fails its assertion. *)
Theorem double_dispatch_aborts :
  run [ANewFiber 0; ASchedule None (AFiber (Some 0%nat)) (-1); ASchedule None (AFiber (Some 0%nat)) (-1);
       APick 0; APick 1; ARun 0; ARun 1] (new_pool demo_scheduler) = Some (Fail assert_failed).
Proof. reflexivity. Qed.

(** A function pinned to thread 12 and one for any thread, taken by thread 11. *)
Definition demo_actions : list action :=
  [ASchedule None (ACallback (Fn 1)) 12; ASchedule None (ACallback (Fn 2)) (-1); APick 0].

Lemma demo_pool_steps : steps (new_pool demo_scheduler) demo_actions (pool_after demo_actions).
Proof. apply run_steps. reflexivity. Qed.

Lemma tasks_conserved_witness :
  let s := pool_after demo_actions in
  dispatched s = [(11, mkTask None (Fn 2) (-1))] /\
  scheduled s ≡ₚ tasks_ (sched s) ++ map snd (dispatched s) /\
  active_thread_count_ (sched s) = sumz (fun w => b2n (busy w)) (workers s).
Proof.
  destruct (tasks_conserved demo_scheduler demo_actions (pool_after demo_actions) demo_idle demo_pool_steps)
    as (H1 & _ & H2 & _). exact (conj eq_refl (conj H1 H2)).
Defined.

Lemma take_first_eligible_witness :
  let c := set_tasks [mkTask None (Fn 1) 12; mkTask None (Fn 2) (-1)] demo_scheduler in
  exists l1 l2 b, tasks_ c = l1 ++ mkTask None (Fn 2) (-1) :: l2 /\
    Forall (fun t => eligible 11 (fun _ => Ready) t = false) l1 /\
    take_task 11 (fun _ => Ready) c
    = (Ok (mkTask None (Fn 2) (-1), b), set_active (active_thread_count_ c + 1) (set_tasks (l1 ++ l2) c)).
Proof.
  apply (take_first_eligible 11 (fun _ => Ready)
    (set_tasks [mkTask None (Fn 1) 12; mkTask None (Fn 2) (-1)] demo_scheduler)).
  repeat constructor.
Defined.

(** One task, run to completion, then [Stop]. *)
Definition drained_actions : list action :=
  [ASchedule None (ACallback (Fn 1)) (-1); APick 0; ARun 0; AFinish 0; ABack 0; AStop].

Lemma shutdown_drains_witness :
  let s := pool_after drained_actions in
  Stopping (sched s) = true /\ scheduled s ≡ₚ map snd (dispatched s).
Proof.
  destruct (shutdown_drains demo_scheduler drained_actions (pool_after drained_actions) []
    (pool_after drained_actions)) as (H1 & H2 & _);
    [apply demo_idle|apply run_steps; reflexivity|reflexivity|constructor|reflexivity|]. exact (conj H1 H2).
Defined.

Lemma pinned_elsewhere_blocks_witness :
  let s := pool_after [ASchedule None (ACallback (Fn 1)) 99] in
  mkTask None (Fn 1) 99 ∈ tasks_ (sched s) /\ Stopping (sched s) = false.
Proof.
  apply (pinned_elsewhere_blocks demo_scheduler [ASchedule None (ACallback (Fn 1)) 99]
    (pool_after [ASchedule None (ACallback (Fn 1)) 99]) (mkTask None (Fn 1) 99) []);
    [apply demo_idle|apply run_steps; reflexivity|left|discriminate| |constructor].
  vm_compute. intros H. by repeat (apply elem_of_cons in H as [H|H]; [discriminate|]); apply elem_of_nil in H.
Defined.
