(* ===== verification/IOManager.v ===== *)
(** * The I/O scheduler: [gudov/iomanager.h] and [gudov/iomanager.cpp]

    An [IOManager] is a [Scheduler] and a [TimerManager] that waits in [epoll_wait]
    when it has nothing to run.  The [FdContext] objects live in [objs] and are
    named by their index; [fd_contexts_] is the vector of pointers to them.  The
    kernel's [epoll] is a parameter: an interest list and [epoll_ctl], with the
    documented effect of a call that succeeds and of one that fails. *)

From S2P Require Import Prelude Timer Fiber Scheduler.
From stdpp Require Import base gmap numbers list sorting.
From Stdlib Require Import ZArith Lia.
Open Scope Z_scope.
Open Scope prog_scope.

(** ** Events *)

Definition NONE : Z := 0.
Definition READ : Z := 1.
Definition WRITE : Z := 4.
Definition EPOLLIN : Z := 1.
Definition EPOLLOUT : Z := 4.
Definition EPOLLERR : Z := 8.
Definition EPOLLHUP : Z := 16.
Definition EPOLLET : Z := 2 ^ 31.
Definition MAX_TIMEOUT : Z := 2000.

(** [e & ev] as a condition, and [e & ~ev]. *)
Definition has (e ev : Z) : bool := negb (Z.land e ev =? 0).
Definition without (e ev : Z) : Z := Z.land e (Z.lnot ev).

Inductive ctl_op := EPOLL_CTL_ADD | EPOLL_CTL_MOD | EPOLL_CTL_DEL.

(** [epoll_ctl(epfd, op, fd, {events, data.ptr})]: 0 on success.  A call that fails
    changes nothing; one that succeeds changes the entry of [fd] only. *)
Class Epoll (K : Type) := {
  interest : K -> Z -> option (Z * nat);
  epoll_ctl : ctl_op -> Z -> Z -> nat -> K -> Z * K;
  epoll_ctl_fails op fd ev p k rt k' :
    epoll_ctl op fd ev p k = (rt, k') -> rt <> 0 -> forall f, interest k' f = interest k f;
  epoll_ctl_succeeds op fd ev p k k' :
    epoll_ctl op fd ev p k = (0, k') ->
    forall f, interest k' f =
      if f =? fd then match op with EPOLL_CTL_DEL => None | _ => Some (ev, p) end else interest k f }.

(** ** State *)

Record EventContext := mkCtx { scheduler : option nat; cfiber : option nat; ccallback : func }.

Record FdContext := mkFd { read : EventContext; write : EventContext; fd : Z; events : Z }.

(** What [ReSetContext] leaves. *)
Definition null_ctx : EventContext := mkCtx None None Null.

(** [!scheduler && !fiber && !callback] *)
Definition is_null (c : EventContext) : bool :=
  bool_decide (scheduler c = None) && bool_decide (cfiber c = None) && negb (callable (ccallback c)).

Definition new_FdContext (f : Z) : FdContext := mkFd null_ctx null_ctx f NONE.

(** [scheds] and [pipes]: the schedulers of the process and the bytes in their
    tickle pipes; [self] is this one. *)
Record IOManager (K : Type) := mkIO {
  objs : list FdContext;
  fd_contexts_ : list nat;
  pending_event_cnt_ : Z;
  kernel : K;
  scheds : gmap nat Scheduler;
  pipes : gmap nat Z;
  timers : TimerManager;
  self : nat;
  tickle_fd : Z }.

Arguments mkIO {K}.
Arguments objs {K}.
Arguments fd_contexts_ {K}.
Arguments pending_event_cnt_ {K}.
Arguments kernel {K}.
Arguments scheds {K}.
Arguments pipes {K}.
Arguments timers {K}.
Arguments self {K}.
Arguments tickle_fd {K}.

Section Operations.
Context {K : Type} `{Epoll K}.

Definition set_objs l (m : IOManager K) := mkIO l (fd_contexts_ m) (pending_event_cnt_ m) (kernel m) (scheds m) (pipes m) (timers m) (self m) (tickle_fd m).
Definition set_contexts l (m : IOManager K) := mkIO (objs m) l (pending_event_cnt_ m) (kernel m) (scheds m) (pipes m) (timers m) (self m) (tickle_fd m).
Definition set_pending n (m : IOManager K) := mkIO (objs m) (fd_contexts_ m) n (kernel m) (scheds m) (pipes m) (timers m) (self m) (tickle_fd m).
Definition set_kernel (k : K) (m : IOManager K) := mkIO (objs m) (fd_contexts_ m) (pending_event_cnt_ m) k (scheds m) (pipes m) (timers m) (self m) (tickle_fd m).
Definition set_scheds s (m : IOManager K) := mkIO (objs m) (fd_contexts_ m) (pending_event_cnt_ m) (kernel m) s (pipes m) (timers m) (self m) (tickle_fd m).
Definition set_pipes s (m : IOManager K) := mkIO (objs m) (fd_contexts_ m) (pending_event_cnt_ m) (kernel m) (scheds m) s (timers m) (self m) (tickle_fd m).
Definition set_iotimers t (m : IOManager K) := mkIO (objs m) (fd_contexts_ m) (pending_event_cnt_ m) (kernel m) (scheds m) (pipes m) t (self m) (tickle_fd m).

(** ** Running an operation of a base class *)

Definition on_sched {A} (s : nat) (c : prog Scheduler A) : prog (IOManager K) A :=
  fun m => match scheds m !! s with
           | Some sc => let '(r, sc') := c sc in (r, set_scheds (<[s := sc']> (scheds m)) m)
           | None => (Fail undefined, m)
           end.

Definition on_timers {A} (c : prog TimerManager A) : prog (IOManager K) A :=
  fun m => let '(r, t) := c (timers m) in (r, set_iotimers t m).

(** ** Waking up *)

(** [Tickle] of scheduler [s]: one byte into its pipe, unless a thread idles. *)
Definition Tickle (s : nat) : prog (IOManager K) unit :=
  fun m => match scheds m !! s with
           | None => (Fail undefined, m)
           | Some sc =>
               if HasIdleThreads sc then (Ok tt, m)
               else (Ok tt, set_pipes (<[s := default 0 (pipes m !! s) + 1]> (pipes m)) m)
           end.

(** [Scheduler::Schedule] with the overridden [Tickle]. *)
Definition io_schedule (s : nat) (fc : FiberOrCb) : prog (IOManager K) unit :=
  let* need_tickle := on_sched s (Schedule fc (-1)) in
  if need_tickle then Tickle s else ret tt.

Definition OnTimerInsertedAtFront : prog (IOManager K) unit :=
  let* m := gets id in Tickle (self m).

(** ** FdContext *)

Definition deref_fd (p : nat) : prog (IOManager K) FdContext :=
  fun m => match objs m !! p with Some o => (Ok o, m) | None => (Fail undefined, m) end.

Definition store_fd (p : nat) (o : FdContext) : prog (IOManager K) unit :=
  modify (fun m => set_objs (<[p := o]> (objs m)) m).

Definition GetContext (o : FdContext) (event : Z) : result EventContext :=
  if event =? READ then Ok (read o) else if event =? WRITE then Ok (write o) else Fail assert_failed.

(** Writing through the reference [GetContext] returns. *)
Definition SetContext (o : FdContext) (event : Z) (c : EventContext) : FdContext :=
  if event =? READ then mkFd c (write o) (fd o) (events o)
  else mkFd (read o) c (fd o) (events o).

Definition set_events e (o : FdContext) : FdContext := mkFd (read o) (write o) (fd o) e.

Definition TriggerEvent (p : nat) (event : Z) : prog (IOManager K) unit :=
  let* o := deref_fd p in
  require (has (events o) event) assert_failed ;;
  let o := set_events (without (events o) event) o in
  store_fd p o ;;
  let* ctx := lift (GetContext o event) in
  match scheduler ctx with
  | None => fail null_deref
  | Some s =>
      io_schedule s (if callable (ccallback ctx) then ACallback (ccallback ctx) else AFiber (cfiber ctx)) ;;
      store_fd p (SetContext o event null_ctx)
  end.

(** ** The table of contexts *)

Definition ContextResize (size : nat) : prog (IOManager K) unit :=
  modify (fun m =>
    let n := length (fd_contexts_ m) in
    let p := length (objs m) in
    mkIO (objs m ++ map (fun i => new_FdContext (Z.of_nat i)) (seq n (size - n)))
      (take size (fd_contexts_ m) ++ seq p (size - n))
      (pending_event_cnt_ m) (kernel m) (scheds m) (pipes m) (timers m) (self m) (tickle_fd m)).

(** [fd_contexts_[f]] *)
Definition context_at (f : Z) : prog (IOManager K) nat :=
  fun m => if f <? 0 then (Fail undefined, m)
           else match fd_contexts_ m !! Z.to_nat f with
                | Some p => (Ok p, m)
                | None => (Fail undefined, m)
                end.

Definition in_table (m : IOManager K) (f : Z) : bool := f <? s32 (Z.of_nat (length (fd_contexts_ m))).

(** The part of [AddEvent] under the write lock, for a [fd] found out of range under
    the read lock; [fd * 1.5] is truncated. *)
Definition grow_for (f : Z) : prog (IOManager K) nat :=
  ContextResize (Z.to_nat (f * 3 / 2)) ;;
  let* m := gets id in
  require (in_table m f) assert_failed ;;
  context_at f.

Definition find_context (f : Z) : prog (IOManager K) nat :=
  let* m := gets id in
  if in_table m f then context_at f else grow_for f.

(** The running thread: its scheduler, its running fiber and that fiber's state. *)
Record env := mkEnv { cur_scheduler : option nat; cur_fiber : nat; cur_state : State }.

Definition ctl (op : ctl_op) (f ev : Z) (p : nat) : prog (IOManager K) Z :=
  fun m => let '(rt, k) := epoll_ctl op f ev p (kernel m) in (Ok rt, set_kernel k m).

(** [AddEvent] once the context has been found. *)
Definition add_event_to (e : env) (p : nat) (f event : Z) (cb : func) : prog (IOManager K) Z :=
  let* o := deref_fd p in
  require (negb (has (events o) event)) assert_failed ;;
  let op := if events o =? 0 then EPOLL_CTL_ADD else EPOLL_CTL_MOD in
  let* rt := ctl op f (Z.lor (Z.lor EPOLLET (events o)) event) p in
  if negb (rt =? 0) then ret (-1) else
  modify (fun m => set_pending (pending_event_cnt_ m + 1) m) ;;
  let o := set_events (Z.lor (events o) event) o in
  store_fd p o ;;
  let* ctx := lift (GetContext o event) in
  require (is_null ctx) assert_failed ;;
  (if callable cb then store_fd p (SetContext o event (mkCtx (cur_scheduler e) None cb))
   else
     store_fd p (SetContext o event (mkCtx (cur_scheduler e) (Some (cur_fiber e)) Null)) ;;
     require (bool_decide (cur_state e = Running)) assert_failed) ;;
  ret 0.

Definition AddEvent (e : env) (f event : Z) (cb : func) : prog (IOManager K) Z :=
  let* p := find_context f in add_event_to e p f event cb.

(** The common beginning of [DelEvent] and [CancelEvent]: whether the event was
    registered and [epoll_ctl] has dropped it. *)
Definition drop_interest (f event : Z) : prog (IOManager K) (option nat) :=
  let* m := gets id in
  if negb (in_table m f) then ret None else
  let* p := context_at f in
  let* o := deref_fd p in
  if negb (has (events o) event) then ret None else
  let new_events := without (events o) event in
  let op := if new_events =? 0 then EPOLL_CTL_DEL else EPOLL_CTL_MOD in
  let* rt := ctl op f (Z.lor EPOLLET new_events) p in
  ret (if negb (rt =? 0) then None else Some p).

Definition decr_pending : prog (IOManager K) unit :=
  modify (fun m => set_pending (pending_event_cnt_ m - 1) m).

Definition DelEvent (f event : Z) : prog (IOManager K) bool :=
  let* r := drop_interest f event in
  match r with
  | None => ret false
  | Some p =>
      decr_pending ;;
      let* o := deref_fd p in
      let o := set_events (without (events o) event) o in
      let* _ := lift (GetContext o event) in
      store_fd p (SetContext o event null_ctx) ;;
      ret true
  end.

Definition CancelEvent (f event : Z) : prog (IOManager K) bool :=
  let* r := drop_interest f event in
  match r with
  | None => ret false
  | Some p => TriggerEvent p event ;; decr_pending ;; ret true
  end.

(** [if (events & ev) { TriggerEvent(ev); --pending_event_cnt_; }] *)
Definition trigger_if (b : bool) (p : nat) (event : Z) : prog (IOManager K) unit :=
  if b then TriggerEvent p event ;; decr_pending else ret tt.

Definition CancelAll (f : Z) : prog (IOManager K) bool :=
  let* m := gets id in
  if negb (in_table m f) then ret false else
  let* p := context_at f in
  let* o := deref_fd p in
  if events o =? 0 then ret false else
  let* rt := ctl EPOLL_CTL_DEL f 0 p in
  if negb (rt =? 0) then ret false else
  trigger_if (has (events o) READ) p READ ;;
  let* o := deref_fd p in
  trigger_if (has (events o) WRITE) p WRITE ;;
  let* o := deref_fd p in
  require (events o =? 0) assert_failed ;;
  ret true.

(** ** Idling *)

(** [Stopping(timeout)] at time [now]. *)
Definition io_Stopping (now : Z) : prog (IOManager K) (Z * bool) :=
  let* timeout := on_timers (GetNextTimeout now) in
  let* m := gets id in
  let* sc := on_sched (self m) (gets id) in
  ret (timeout, (timeout =? max64) && (pending_event_cnt_ m =? 0) && Stopping sc).

(** The timeout handed to [epoll_wait]. *)
Definition epoll_timeout (next_timeout : Z) : Z :=
  s32 (u64 (if negb (next_timeout =? max64) then Z.min (s32 next_timeout) MAX_TIMEOUT else MAX_TIMEOUT)).

(** One event of the array [epoll_wait] filled. *)
Inductive ready := Pipe | Ready_fd (evs : Z) (p : nat).

(** The body of the loop over the events. *)
Definition process_event (ev : ready) : prog (IOManager K) unit :=
  match ev with
  | Pipe => modify (fun m => set_pipes (<[self m := 0]> (pipes m)) m)
  | Ready_fd evs p =>
      let* o := deref_fd p in
      let evs := if has evs (Z.lor EPOLLERR EPOLLHUP)
                 then Z.lor evs (Z.land (Z.lor EPOLLIN EPOLLOUT) (events o)) else evs in
      let real := Z.lor (if has evs EPOLLIN then READ else NONE) (if has evs EPOLLOUT then WRITE else NONE) in
      if Z.land (events o) real =? NONE then ret tt else
      let left := without (events o) real in
      let op := if left =? 0 then EPOLL_CTL_DEL else EPOLL_CTL_MOD in
      let* rt := ctl op (fd o) (Z.lor EPOLLET left) p in
      if negb (rt =? 0) then ret tt else
      trigger_if (has real READ) p READ ;;
      trigger_if (has real WRITE) p WRITE
  end.

Fixpoint process_events (evs : list ready) : prog (IOManager K) unit :=
  match evs with
  | [] => ret tt
  | ev :: evs => process_event ev ;; process_events evs
  end.

(** One round of [Idle], from the check of [Stopping] to the [Yield]: whether the
    fiber goes on. [evs] is what [epoll_wait] reports, [now'] the time afterwards. *)
Definition Idle_round `{Allocator} (now now' : Z) (evs : list ready) : prog (IOManager K) bool :=
  let* r := io_Stopping now in
  if r.2 then ret false else
  let* cbs := on_timers (ListExpiredCallbacks now') in
  let* m := gets id in
  (if bool_decide (cbs = []) then ret tt
   else
     let* need_tickle := on_sched (self m) (Schedule_range (map ACallback cbs) false) in
     if need_tickle then Tickle (self m) else ret tt) ;;
  process_events evs ;;
  ret true.
End Operations.

(** ** The invariant *)

(** What a context makes runnable. *)
Definition continuation (c : EventContext) : FiberOrCb :=
  if callable (ccallback c) then ACallback (ccallback c) else AFiber (cfiber c).

(** The number of events in a mask. *)
Definition event_count (e : Z) : Z := b2n (has e READ) + b2n (has e WRITE).

Definition event_ok (ev : Z) : Prop := ev = READ \/ ev = WRITE.
Definition mask_ok (e : Z) : Prop := e = 0 \/ e = 1 \/ e = 4 \/ e = 5.

(** The scheduler after it has been given [fc]. *)
Definition pushed (fc : FiberOrCb) (sc : Scheduler) : Scheduler := (Schedule fc (-1) sc).2.

Section Invariant.
Context {K : Type} `{Epoll K}.
Implicit Types m : IOManager K.

(** A registered event has a scheduler and something to run; an unregistered one has
    nothing. *)
Definition ctx_ok m (registered : bool) (c : EventContext) : Prop :=
  if registered then
    (exists s, scheduler c = Some s /\ is_Some (scheds m !! s)) /\
    runnable (new_Task (continuation c) (-1)) = true
  else c = null_ctx.

Definition context_of (o : FdContext) (ev : Z) : EventContext := if ev =? READ then read o else write o.

Record fd_ok m (p : nat) (o : FdContext) : Prop := {
  fd_mask : mask_ok (events o);
  fd_ctx ev : event_ok ev -> ctx_ok m (has (events o) ev) (context_of o ev);
  fd_number : fd o = Z.of_nat p;
  fd_synced : Z.of_nat p <> tickle_fd m ->
    interest (kernel m) (Z.of_nat p) = if events o =? 0 then None else Some (Z.lor EPOLLET (events o), p) }.

Record io_inv m : Prop := {
  io_table : fd_contexts_ m = seq 0 (length (objs m));
  io_size : (32 <= length (objs m))%nat /\ Z.of_nat (length (objs m)) < 2 ^ 31;
  io_objs p o : objs m !! p = Some o -> fd_ok m p o;
  io_rest f : Z.of_nat (length (objs m)) <= f -> f <> tickle_fd m -> interest (kernel m) f = None;
  io_pending : pending_event_cnt_ m = sumz (fun o => event_count (events o)) (objs m) }.

(** What the operations on events leave alone. *)
Definition same_base m m' : Prop :=
  timers m' = timers m /\ self m' = self m /\ tickle_fd m' = tickle_fd m /\ dom (scheds m') = dom (scheds m).

Lemma same_base_refl m : same_base m m.
Proof. done. Qed.

Lemma same_base_trans m1 m2 m3 : same_base m1 m2 -> same_base m2 m3 -> same_base m1 m3.
Proof. intros (?&?&?&?) (?&?&?&?). split_and!; congruence. Qed.

Lemma ctx_ok_frame m m' b c : dom (scheds m') = dom (scheds m) -> ctx_ok m b c -> ctx_ok m' b c.
Proof.
  unfold ctx_ok. intros Hd. destruct b; [|done]. intros [(s & Hs & Hx) Hr]. split; [|done].
  exists s. split; [done|]. apply elem_of_dom. rewrite Hd. by apply elem_of_dom.
Qed.

(** Replacing one context, with the kernel's entry changed to match. *)
Lemma io_update m m' p o o' :
  io_inv m -> objs m !! p = Some o -> objs m' = <[p := o']> (objs m) -> fd_ok m' p o' ->
  fd_contexts_ m' = fd_contexts_ m -> same_base m m' ->
  (forall f, f <> Z.of_nat p -> interest (kernel m') f = interest (kernel m) f) ->
  pending_event_cnt_ m' = pending_event_cnt_ m - event_count (events o) + event_count (events o') ->
  io_inv m'.
Proof.
  intros [Ht Hs Ho Hr Hp] Hpo Eo Hok Ec (_ & _ & Etf & Hd) Hk Ep.
  assert (length (objs m') = length (objs m)) as El by (rewrite Eo; apply length_insert).
  pose proof (lookup_lt_Some _ _ _ Hpo) as Hlt.
  split.
  - by rewrite Ec, El.
  - by rewrite El.
  - intros q oq Hq. rewrite Eo in Hq. destruct (decide (q = p)) as [->|Hne].
    + rewrite list_lookup_insert_eq in Hq by done. by injection Hq as <-.
    + rewrite list_lookup_insert_ne in Hq by done. destruct (Ho q oq Hq) as [H1 H2 H3 H4]. split; [done| |done|].
      * intros ev Hev. by eapply ctx_ok_frame; [|apply H2].
      * rewrite Etf. intros Hn. rewrite Hk by lia. by apply H4.
  - rewrite El, Etf. intros f Hf Hn. rewrite Hk by lia. by apply Hr.
  - rewrite Ep, Eo, (sumz_insert _ _ _ o) by done. by rewrite Hp.
Qed.

(** ** Scheduling *)

Lemma io_schedule_ok m s sc fc :
  scheds m !! s = Some sc ->
  exists pp, io_schedule s fc m = (Ok tt, set_pipes pp (set_scheds (<[s := pushed fc sc]> (scheds m)) m)).
Proof.
  intros Hs. unfold io_schedule, bind, on_sched. rewrite Hs. unfold pushed. rewrite Schedule_eq. cbn.
  destruct (bool_decide (tasks_ sc = [])).
  - unfold Tickle. cbn. rewrite lookup_insert_eq. destruct (HasIdleThreads _); [exists (pipes m)|eexists]; done.
  - by exists (pipes m).
Qed.

(** A context with event [ev] cleared. *)
Definition cleared (ev : Z) (o : FdContext) : FdContext :=
  SetContext (set_events (without (events o) ev) o) ev null_ctx.

Lemma GetContext_ok o ev : event_ok ev -> GetContext o ev = Ok (context_of o ev).
Proof. by intros [-> | ->]. Qed.

Lemma TriggerEvent_ok m p o ev :
  objs m !! p = Some o -> event_ok ev -> has (events o) ev = true -> ctx_ok m true (context_of o ev) ->
  exists s sc m', scheduler (context_of o ev) = Some s /\ scheds m !! s = Some sc /\
    TriggerEvent p ev m = (Ok tt, m') /\
    objs m' = <[p := cleared ev o]> (objs m) /\
    scheds m' = <[s := pushed (continuation (context_of o ev)) sc]> (scheds m) /\
    fd_contexts_ m' = fd_contexts_ m /\ kernel m' = kernel m /\ pending_event_cnt_ m' = pending_event_cnt_ m /\
    same_base m m'.
Proof.
  intros Hp Hev Hh [(s & Hs & [sc Hsc]) _].
  set (o1 := set_events (without (events o) ev) o). set (m1 := set_objs (<[p := o1]> (objs m)) m).
  assert (context_of o1 ev = context_of o ev) as Ec by (by destruct Hev as [-> | ->]).
  destruct (io_schedule_ok m1 s sc (continuation (context_of o ev)) Hsc) as (pp & E).
  eexists s, sc, _. split; [done|]. split; [done|]. split.
  - unfold TriggerEvent, deref_fd, require, store_fd. unfold bind at 1. rewrite Hp, Hh.
    rewrite (bind_ok (ret tt) _ m tt m eq_refl). fold o1.
    rewrite (bind_ok (modify (fun m => set_objs (<[p := o1]> (objs m)) m)) _ m tt m1 eq_refl). rewrite GetContext_ok by done.
    rewrite (bind_ok (lift _) _ m1 (context_of o1 ev) m1 eq_refl). rewrite Ec, Hs.
    fold (continuation (context_of o ev)). rewrite (bind_ok _ _ _ _ _ E). reflexivity.
  - cbn. rewrite list_insert_insert_eq. split_and!; try done.
    unfold same_base. cbn. split_and!; try done. apply dom_insert_lookup_L. by eexists.
Qed.

(** ** Masks *)

Lemma has_without e ev ev' :
  mask_ok e -> event_ok ev -> event_ok ev' ->
  mask_ok (without e ev) /\ has (without e ev) ev' = has e ev' && negb (ev' =? ev).
Proof. intros [-> |[-> |[-> | ->]]] [-> | ->] [-> | ->]; vm_compute; auto. Qed.

Lemma has_with e ev ev' :
  mask_ok e -> event_ok ev -> event_ok ev' ->
  mask_ok (Z.lor e ev) /\ has (Z.lor e ev) ev' = has e ev' || (ev' =? ev) /\ Z.lor e ev <> 0.
Proof. intros [-> |[-> |[-> | ->]]] [-> | ->] [-> | ->]; vm_compute; split_and!; auto; discriminate. Qed.

Lemma event_count_without e ev :
  mask_ok e -> event_ok ev -> has e ev = true -> event_count (without e ev) = event_count e - 1.
Proof. intros [-> |[-> |[-> | ->]]] [-> | ->]; by vm_compute. Qed.

Lemma event_count_with e ev :
  mask_ok e -> event_ok ev -> has e ev = false -> event_count (Z.lor e ev) = event_count e + 1.
Proof. intros [-> |[-> |[-> | ->]]] [-> | ->]; by vm_compute. Qed.

Lemma context_of_Set o ev ev' c :
  event_ok ev -> event_ok ev' ->
  context_of (SetContext o ev c) ev' = if ev' =? ev then c else context_of o ev'.
Proof. by intros [-> | ->] [-> | ->]. Qed.

Lemma SetContext_events o ev c : events (SetContext o ev c) = events o /\ fd (SetContext o ev c) = fd o.
Proof. unfold SetContext. by destruct (ev =? READ). Qed.

Lemma context_of_set_events e o ev : context_of (set_events e o) ev = context_of o ev.
Proof. unfold context_of. by destruct (ev =? READ). Qed.

Lemma cleared_events ev o : events (cleared ev o) = without (events o) ev /\ fd (cleared ev o) = fd o.
Proof. unfold cleared. destruct (SetContext_events (set_events (without (events o) ev) o) ev null_ctx) as [-> ->]. done. Qed.

Lemma cleared_ctx m ev o ev' :
  mask_ok (events o) -> event_ok ev -> event_ok ev' ->
  (forall ev, event_ok ev -> ctx_ok m (has (events o) ev) (context_of o ev)) ->
  ctx_ok m (has (events (cleared ev o)) ev') (context_of (cleared ev o) ev').
Proof.
  intros Hm Hev Hev' Hc. destruct (cleared_events ev o) as [-> _].
  destruct (has_without _ _ _ Hm Hev Hev') as [_ ->]. unfold cleared.
  rewrite context_of_Set, context_of_set_events by done.
  destruct (Z.eqb_spec ev' ev) as [->|Hne]; [by rewrite andb_false_r|]. rewrite andb_true_r. by apply Hc.
Qed.

(** ** Looking up *)

Lemma in_table_eq m f : io_inv m -> in_table m f = (f <? Z.of_nat (length (objs m))).
Proof.
  intros [Ht Hs _ _ _]. unfold in_table. rewrite Ht, length_seq. unfold s32. rewrite wraps_small by lia. done.
Qed.

Lemma context_at_ok m f :
  io_inv m -> 0 <= f < Z.of_nat (length (objs m)) -> context_at f m = (Ok (Z.to_nat f), m).
Proof.
  intros [Ht Hs _ _ _] Hf. unfold context_at. rewrite (proj2 (Z.ltb_ge f 0)) by lia. rewrite Ht.
  by rewrite lookup_seq_lt by lia.
Qed.

Lemma lookup_obj m f : 0 <= f < Z.of_nat (length (objs m)) -> exists o, objs m !! Z.to_nat f = Some o.
Proof. intros Hf. apply lookup_lt_is_Some. lia. Qed.

(** A refused [epoll_ctl] *)
Lemma kernel_same m k :
  io_inv m -> (forall f, interest k f = interest (kernel m) f) -> io_inv (set_kernel k m).
Proof.
  intros [Ht Hs Ho Hr Hp] Hk. split; cbn; try done.
  - intros p o Hpo. destruct (Ho p o Hpo) as [H1 H2 H3 H4]. split; cbn; try done. by rewrite Hk.
  - intros f. rewrite Hk. apply Hr.
Qed.

(** The entry the kernel has for a context with mask [e]. *)
Definition entry (e : Z) (p : nat) : option (Z * nat) :=
  if e =? 0 then None else Some (Z.lor EPOLLET e, p).

Lemma drop_interest_ok m f ev :
  io_inv m -> 0 <= f -> event_ok ev ->
  exists r m', drop_interest f ev m = (Ok r, m') /\
    match r with
    | None => io_inv m' /\ exists k, m' = set_kernel k m
    | Some p => exists o k, p = Z.to_nat f /\ objs m !! p = Some o /\ has (events o) ev = true /\
        m' = set_kernel k m /\
        forall f', interest k f' = if f' =? f then entry (without (events o) ev) p else interest (kernel m) f'
    end.
Proof.
  intros Hi Hf Hev. unfold drop_interest. rewrite (bind_ok (gets id) _ m m m eq_refl).
  assert (m = set_kernel (kernel m) m) as Em by (by destruct m).
  rewrite in_table_eq by done. destruct (Z.ltb_spec f (Z.of_nat (length (objs m)))) as [Hlt|Hge]; cbn [negb].
  2:{ exists None, m. eauto. }
  rewrite (bind_ok _ _ _ _ _ (context_at_ok m f Hi ltac:(lia))).
  destruct (lookup_obj m f ltac:(lia)) as [o Ho].
  assert (deref_fd (Z.to_nat f) m = (Ok o, m)) as Ed by (unfold deref_fd; by rewrite Ho). prog_ok Ed.
  destruct (has (events o) ev) eqn:Hh; cbn [negb]; [|exists None, m; eauto].
  set (op := if without (events o) ev =? 0 then EPOLL_CTL_DEL else EPOLL_CTL_MOD).
  unfold bind, ctl, ret.
  destruct (epoll_ctl op f (Z.lor EPOLLET (without (events o) ev)) (Z.to_nat f) (kernel m)) as [rt k] eqn:Ek.
  destruct (Z.eqb_spec rt 0) as [->|Hrt]; cbn [negb].
  - eexists _, _. split; [done|]. exists o, k. split_and!; try done.
    intros f'. rewrite (epoll_ctl_succeeds _ _ _ _ _ _ Ek). unfold entry, op.
    destruct (f' =? f); [|done]. by destruct (without (events o) ev =? 0).
  - eexists None, _. split; [done|]. split; [|eauto].
    apply kernel_same; [done|]. by eapply epoll_ctl_fails.
Qed.

(** The context [p] with [ev] cleared, in a state whose kernel entry agrees. *)
Lemma clear_inv m m' p o ev k :
  io_inv m -> objs m !! p = Some o -> event_ok ev -> has (events o) ev = true -> Z.of_nat p <> tickle_fd m ->
  (forall f', interest k f' = if f' =? Z.of_nat p then entry (without (events o) ev) p else interest (kernel m) f') ->
  objs m' = <[p := cleared ev o]> (objs m) -> kernel m' = k -> fd_contexts_ m' = fd_contexts_ m ->
  same_base m m' -> pending_event_cnt_ m' = pending_event_cnt_ m - 1 ->
  io_inv m'.
Proof.
  intros Hi Ho Hev Hh Htf Hk Eo Ek Ec Hb Ep. destruct (io_objs _ Hi p o Ho) as [H1 H2 H3 H4].
  destruct (cleared_events ev o) as [Ee Ef]. pose proof Hb as (_ & _ & Etf & Hd).
  eapply (io_update m m' p o (cleared ev o)); try done.
  - split.
    + rewrite Ee. apply (has_without _ _ ev H1 Hev Hev).
    + intros ev' Hev'. eapply ctx_ok_frame; [exact Hd|]. by apply cleared_ctx.
    + by rewrite Ef.
    + intros _. rewrite Ek, Hk, Z.eqb_refl, Ee. done.
  - intros f Hf. rewrite Ek, Hk. by rewrite (proj2 (Z.eqb_neq _ _) Hf).
  - rewrite Ep, Ee, event_count_without by done. lia.
Qed.

(** ** The operations keep the invariant *)

Lemma DelEvent_ok m f ev :
  io_inv m -> 0 <= f -> f <> tickle_fd m -> event_ok ev ->
  exists r m', DelEvent f ev m = (Ok r, m') /\ io_inv m' /\ same_base m m' /\ scheds m' = scheds m.
Proof.
  intros Hi Hf Htf Hev. destruct (drop_interest_ok m f ev Hi Hf Hev) as (r & m1 & E & Hr).
  unfold DelEvent. rewrite (bind_ok _ _ _ _ _ E). destruct r as [p|].
  - destruct Hr as (o & k & -> & Ho & Hh & -> & Hk). set (p := Z.to_nat f) in *.
    assert (Z.of_nat p = f) as Ep by lia. rewrite <- Ep in *.
    unfold decr_pending, deref_fd, store_fd, bind, modify, lift, ret. cbn. rewrite Ho. cbn.
    rewrite GetContext_ok by done. fold (cleared ev o). eexists _, _. split; [done|].
    split; [|done]. by eapply (clear_inv m _ p o ev k).
  - destruct Hr as [Hi' [k ->]]. eexists _, _. split; [done|]. done.
Qed.

Lemma trigger_step m m1 p o ev k :
  io_inv m -> objs m !! p = Some o -> event_ok ev -> has (events o) ev = true -> Z.of_nat p <> tickle_fd m ->
  m1 = set_kernel k m ->
  (forall f', interest k f' = if f' =? Z.of_nat p then entry (without (events o) ev) p else interest (kernel m) f') ->
  exists s sc m', scheduler (context_of o ev) = Some s /\ scheds m !! s = Some sc /\
    (TriggerEvent p ev ;; decr_pending) m1 = (Ok tt, m') /\ io_inv m' /\ same_base m m' /\
    objs m' = <[p := cleared ev o]> (objs m) /\
    scheds m' = <[s := pushed (continuation (context_of o ev)) sc]> (scheds m).
Proof.
  intros Hi Ho Hev Hh Htf -> Hk. destruct (io_objs _ Hi p o Ho) as [H1 H2 H3 H4].
  pose proof (H2 ev Hev) as Hc. rewrite Hh in Hc.
  destruct (TriggerEvent_ok (set_kernel k m) p o ev Ho Hev Hh Hc)
    as (s & sc & m' & Hs & Hsc & E & Eo & Es & Ec & Ek & Ep & Hb).
  eexists s, sc, _. split; [done|]. split; [done|]. rewrite (bind_ok _ _ _ _ _ E).
  split; [reflexivity|]. cbn in *. rewrite Eo, Es.
  assert (same_base m (set_pending (pending_event_cnt_ m' - 1) m')) as Hb' by apply Hb.
  split_and!; try done. eapply (clear_inv m _ p o ev k); try done. cbn. congruence.
Qed.

Lemma CancelEvent_ok m f ev :
  io_inv m -> 0 <= f -> f <> tickle_fd m -> event_ok ev ->
  exists r m', CancelEvent f ev m = (Ok r, m') /\ io_inv m' /\ same_base m m' /\
    (r = true -> exists o s sc, objs m !! Z.to_nat f = Some o /\ has (events o) ev = true /\
       scheduler (context_of o ev) = Some s /\ scheds m !! s = Some sc /\
       scheds m' = <[s := pushed (continuation (context_of o ev)) sc]> (scheds m) /\
       objs m' = <[Z.to_nat f := cleared ev o]> (objs m)).
Proof.
  intros Hi Hf Htf Hev. destruct (drop_interest_ok m f ev Hi Hf Hev) as (r & m1 & E & Hr).
  unfold CancelEvent. rewrite (bind_ok _ _ _ _ _ E). destruct r as [p|].
  - destruct Hr as (o & k & -> & Ho & Hh & Em & Hk). set (p := Z.to_nat f) in *.
    assert (Z.of_nat p = f) as Ep by lia. rewrite <- Ep in *.
    destruct (trigger_step m m1 p o ev k Hi Ho Hev Hh Htf Em Hk) as (s & sc & m' & Hs & Hsc & E1 & Hi' & Hb & Eo & Es).
    exists true, m'. split; [|split_and!; try done; intros _; by exists o, s, sc].
    unfold bind in *. destruct (TriggerEvent p ev m1) as [[[]|e] m2]; [|done]. cbn in *. by injection E1 as <-.
  - destruct Hr as [Hi' [k ->]]. eexists false, _. split; [done|]. split_and!; try done.
Qed.

(** The schedulers after the continuation of [ev] has been handed over. *)
Definition deliver (b : bool) (ev : Z) (o : FdContext) (ss : gmap nat Scheduler) : gmap nat Scheduler :=
  if b then match scheduler (context_of o ev) with
            | Some s => alter (pushed (continuation (context_of o ev))) s ss
            | None => ss
            end
  else ss.

Definition clear_if (b : bool) (ev : Z) (o : FdContext) : FdContext := if b then cleared ev o else o.

Lemma trigger_if_ok m p o b ev :
  objs m !! p = Some o -> event_ok ev ->
  (b = true -> has (events o) ev = true /\ ctx_ok m true (context_of o ev)) ->
  exists m', trigger_if b p ev m = (Ok tt, m') /\ objs m' = <[p := clear_if b ev o]> (objs m) /\
    scheds m' = deliver b ev o (scheds m) /\ fd_contexts_ m' = fd_contexts_ m /\ kernel m' = kernel m /\
    pending_event_cnt_ m' = pending_event_cnt_ m - b2n b /\ same_base m m'.
Proof.
  intros Ho Hev Hb. destruct b; cbn [trigger_if clear_if deliver b2n].
  - destruct (Hb eq_refl) as [Hh Hc].
    destruct (TriggerEvent_ok m p o ev Ho Hev Hh Hc) as (s & sc & m1 & Hs & Hsc & E & Eo & Es & Ec & Ek & Ep & Hbase).
    unfold trigger_if. rewrite (bind_ok _ _ _ _ _ E). eexists. split; [reflexivity|]. cbn. rewrite Hs.
    split_and!; try done; try (by apply Hbase); [|lia]. rewrite Es. apply map_eq. intros x.
    destruct (decide (x = s)) as [->|Hne].
    + by rewrite lookup_insert_eq, lookup_alter_eq, Hsc.
    + by rewrite lookup_insert_ne, lookup_alter_ne by done.
  - exists m. rewrite list_insert_id by done. split_and!; try done. lia.
Qed.

(** Both events of a context, as [CancelAll] and the loop of [Idle] trigger them. *)
Lemma trigger_both m p o r w k :
  io_inv m -> objs m !! p = Some o -> Z.of_nat p <> tickle_fd m ->
  (r = true -> has (events o) READ = true) -> (w = true -> has (events o) WRITE = true) ->
  let o' := clear_if w WRITE (clear_if r READ o) in
  (forall f', interest k f' = if f' =? Z.of_nat p then entry (events o') p else interest (kernel m) f') ->
  exists m1 m2, trigger_if r p READ (set_kernel k m) = (Ok tt, m1) /\
    objs m1 !! p = Some (clear_if r READ o) /\ trigger_if w p WRITE m1 = (Ok tt, m2) /\
    objs m2 = <[p := o']> (objs m) /\ io_inv m2 /\ same_base m m2 /\
    scheds m2 = deliver w WRITE o (deliver r READ o (scheds m)) /\
    pending_event_cnt_ m2 = pending_event_cnt_ m - b2n r - b2n w.
Proof.
  intros Hi Ho Htf Hr Hw o' Hk. destruct (io_objs _ Hi p o Ho) as [H1 H2 H3 H4].
  pose proof (or_introl eq_refl : event_ok READ) as HR. pose proof (or_intror eq_refl : event_ok WRITE) as HW.
  set (o1 := clear_if r READ o) in *. pose proof (lookup_lt_Some _ _ _ Ho) as Hlt.
  assert (mask_ok (events o1) /\ fd o1 = fd o /\ has (events o1) WRITE = has (events o) WRITE /\
    context_of o1 WRITE = context_of o WRITE /\ event_count (events o1) = event_count (events o) - b2n r /\
    forall ev, event_ok ev -> ctx_ok m (has (events o1) ev) (context_of o1 ev)) as (M1 & F1 & W1 & C1 & N1 & X1).
  { unfold o1. destruct r; cbn [clear_if b2n]; [|split_and!; try done; lia].
    destruct (cleared_events READ o) as [-> ->]. destruct (has_without _ _ WRITE H1 HR HW) as [Hm Hh].
    rewrite Hh, andb_true_r, event_count_without by (done || by apply Hr). split_and!; try done.
    intros ev Hev. pose proof (cleared_ctx m READ o ev H1 HR Hev H2) as Hx.
    by destruct (cleared_events READ o) as [-> _] in Hx. }
  assert (mask_ok (events o') /\ fd o' = fd o /\ event_count (events o') = event_count (events o) - b2n r - b2n w /\
    forall ev, event_ok ev -> ctx_ok m (has (events o') ev) (context_of o' ev)) as (M2 & F2 & N2 & X2).
  { unfold o'. fold o1. destruct w; cbn [clear_if b2n]; [|split_and!; try done; lia].
    destruct (cleared_events WRITE o1) as [-> ->]. destruct (has_without _ _ WRITE M1 HW HW) as [Hm Hh].
    rewrite event_count_without by (done || (rewrite W1; by apply Hw)). split_and!; try done; [lia|].
    intros ev Hev. pose proof (cleared_ctx m WRITE o1 ev M1 HW Hev X1) as Hx.
    by destruct (cleared_events WRITE o1) as [-> _] in Hx. }
  destruct (trigger_if_ok (set_kernel k m) p o r READ Ho HR) as (m1 & E1 & O1 & S1 & T1 & K1 & P1 & B1).
  { intros Er. pose proof (H2 READ HR) as Hx. rewrite (Hr Er) in Hx. split; [by apply Hr|done]. }
  assert (objs m1 !! p = Some o1) as Ho1 by (rewrite O1; cbn; by rewrite list_lookup_insert_eq).
  destruct (trigger_if_ok m1 p o1 w WRITE Ho1 HW) as (m2 & E2 & O2 & S2 & T2 & K2 & P2 & B2).
  { intros Ew. rewrite W1, C1. split; [by apply Hw|]. pose proof (H2 WRITE HW) as Hx. rewrite (Hw Ew) in Hx.
    eapply ctx_ok_frame; [apply B1|]. exact Hx. }
  cbn in *. pose proof (same_base_trans _ _ _ B1 B2) as B. change (same_base m m2) in B.
  assert (objs m2 = <[p := o']> (objs m)) as O by (rewrite O2, O1; cbn; by rewrite list_insert_insert_eq).
  exists m1, m2. split_and!; try done; [| |lia].
  - eapply (io_update m m2 p o o'); try done; [|congruence| |lia].
    + split; [done| |by rewrite F2|].
      * intros ev Hev. eapply ctx_ok_frame; [apply B|]. by apply X2.
      * intros _. rewrite K2, K1, Hk, Z.eqb_refl. done.
    + intros f Hf. rewrite K2, K1, Hk. by rewrite (proj2 (Z.eqb_neq _ _) Hf).
  - rewrite S2, S1. unfold deliver, context_of. cbn. by rewrite C1.
Qed.

Lemma deref_fd_ok m p o : objs m !! p = Some o -> deref_fd p m = (Ok o, m).
Proof. unfold deref_fd. by intros ->. Qed.

Lemma cleared_all o :
  mask_ok (events o) ->
  events (clear_if (has (events o) WRITE) WRITE (clear_if (has (events o) READ) READ o)) = 0 /\
  has (events (clear_if (has (events o) READ) READ o)) WRITE = has (events o) WRITE /\
  b2n (has (events o) READ) + b2n (has (events o) WRITE) = event_count (events o).
Proof. destruct o as [r w f e]. cbn. by intros [-> |[-> |[-> | ->]]]. Qed.

Lemma CancelAll_ok m f :
  io_inv m -> 0 <= f -> f <> tickle_fd m ->
  exists r m', CancelAll f m = (Ok r, m') /\ io_inv m' /\ same_base m m' /\
    if r then exists o, objs m !! Z.to_nat f = Some o /\ events o <> 0 /\
      scheds m' = deliver (has (events o) WRITE) WRITE o (deliver (has (events o) READ) READ o (scheds m)) /\
      (exists o', objs m' = <[Z.to_nat f := o']> (objs m) /\ events o' = 0) /\
      pending_event_cnt_ m' = pending_event_cnt_ m - event_count (events o)
    else objs m' = objs m /\ scheds m' = scheds m /\ pending_event_cnt_ m' = pending_event_cnt_ m.
Proof.
  intros Hi Hf Htf. unfold CancelAll. rewrite (bind_ok (gets id) _ m m m eq_refl). rewrite in_table_eq by done.
  destruct (Z.ltb_spec f (Z.of_nat (length (objs m)))) as [Hlt|Hge]; cbn [negb]; [|by exists false, m].
  rewrite (bind_ok _ _ _ _ _ (context_at_ok m f Hi ltac:(lia))).
  destruct (lookup_obj m f ltac:(lia)) as [o Ho]. prog_ok (deref_fd_ok m _ o Ho).
  destruct (io_objs _ Hi _ o Ho) as [H1 _ _ _].
  destruct (Z.eqb_spec (events o) 0) as [E0|E0]; [by exists false, m|].
  set (p := Z.to_nat f) in *. assert (Z.of_nat p = f) as Ep by lia.
  destruct (epoll_ctl EPOLL_CTL_DEL f 0 p (kernel m)) as [rt k] eqn:Ek.
  assert (ctl EPOLL_CTL_DEL f 0 p m = (Ok rt, set_kernel k m)) as Ec by (unfold ctl; by rewrite Ek). prog_ok Ec.
  destruct (Z.eqb_spec rt 0) as [->|Hrt]; cbn [negb].
  2:{ exists false, (set_kernel k m). split_and!; try done. apply kernel_same; [done|by eapply epoll_ctl_fails]. }
  destruct (cleared_all o H1) as (C1 & C2 & C3).
  destruct (trigger_both m p o (has (events o) READ) (has (events o) WRITE) k) as
    (m1 & m2 & E1 & Ho1 & E2 & O2 & Hi2 & B2 & S2 & P2); try done; [congruence| |].
  { intros f'. rewrite (epoll_ctl_succeeds _ _ _ _ _ _ Ek), C1, Ep. by destruct (f' =? f). }
  exists true, m2. prog_ok E1. prog_ok (deref_fd_ok m1 p _ Ho1). rewrite C2. prog_ok E2.
  assert (objs m2 !! p = Some (clear_if (has (events o) WRITE) WRITE (clear_if (has (events o) READ) READ o))) as Ho2.
  { rewrite O2. apply list_lookup_insert_eq. by eapply lookup_lt_Some. }
  prog_ok (deref_fd_ok m2 p _ Ho2). rewrite C1. split_and!; try done.
  exists o. split_and!; try done; [by eexists|lia].
Qed.

(** The mask of what happened, as the loop of [Idle] computes it. *)
Definition real_events (evs registered : Z) : Z :=
  let evs := if has evs (Z.lor EPOLLERR EPOLLHUP)
             then Z.lor evs (Z.land (Z.lor EPOLLIN EPOLLOUT) registered) else evs in
  Z.lor (if has evs EPOLLIN then READ else NONE) (if has evs EPOLLOUT then WRITE else NONE).

Lemma real_events_mask evs e : mask_ok (real_events evs e).
Proof.
  unfold real_events. cbv zeta.
  match goal with |- context [has ?x EPOLLIN] => destruct (has x EPOLLIN), (has x EPOLLOUT) end; vm_compute; auto.
Qed.

(** Nothing is reported that is not registered, or nothing of it is. *)
Definition not_stale (real registered : Z) : Prop :=
  Z.land registered real = 0 \/
  ((has real READ = true -> has registered READ = true) /\ (has real WRITE = true -> has registered WRITE = true)).

Lemma cleared_real o real :
  mask_ok (events o) -> mask_ok real ->
  (has real READ = true -> has (events o) READ = true) -> (has real WRITE = true -> has (events o) WRITE = true) ->
  events (clear_if (has real WRITE) WRITE (clear_if (has real READ) READ o)) = without (events o) real.
Proof.
  destruct o as [r w f e]. cbn [events]. intros [-> |[-> |[-> | ->]]] [-> |[-> |[-> | ->]]] Hr Hw; try done;
    (specialize (Hr eq_refl) || clear Hr); (specialize (Hw eq_refl) || clear Hw); done.
Qed.

Lemma process_event_ok m ev :
  io_inv m ->
  match ev with
  | Pipe => True
  | Ready_fd evs p => Z.of_nat p <> tickle_fd m /\
      exists o, objs m !! p = Some o /\ not_stale (real_events evs (events o)) (events o)
  end ->
  exists m', process_event ev m = (Ok tt, m') /\ io_inv m' /\ same_base m m'.
Proof.
  intros Hi Hev. destruct ev as [|evs p].
  { eexists. split; [reflexivity|]. split; [|done]. destruct Hi as [H1 H2 H3 H4 H5]. split; try done.
    intros q oq Hq. by destruct (H3 q oq Hq). }
  destruct Hev as (Htf & o & Ho & Hns). destruct (io_objs _ Hi _ o Ho) as [H1 _ H3 _].
  unfold process_event. prog_ok (deref_fd_ok m p o Ho). fold (real_events evs (events o)). cbv zeta.
  set (real := real_events evs (events o)) in *. pose proof (real_events_mask evs (events o)) as Hrm. fold real in Hrm.
  destruct (Z.eqb_spec (Z.land (events o) real) NONE) as [E0|E0]; [by exists m|].
  destruct Hns as [Hns|[Hr Hw]]; [done|]. rewrite H3.
  set (op := if without (events o) real =? 0 then EPOLL_CTL_DEL else EPOLL_CTL_MOD).
  destruct (epoll_ctl op (Z.of_nat p) (Z.lor EPOLLET (without (events o) real)) p (kernel m)) as [rt k] eqn:Ek.
  assert (ctl op (Z.of_nat p) (Z.lor EPOLLET (without (events o) real)) p m = (Ok rt, set_kernel k m)) as Ec
    by (unfold ctl; by rewrite Ek). prog_ok Ec.
  destruct (Z.eqb_spec rt 0) as [->|Hrt]; cbn [negb].
  2:{ exists (set_kernel k m). split_and!; try done. apply kernel_same; [done|by eapply epoll_ctl_fails]. }
  destruct (trigger_both m p o (has real READ) (has real WRITE) k) as
    (m1 & m2 & E1 & Ho1 & E2 & O2 & Hi2 & B2 & S2 & P2); try done.
  { intros f'. rewrite (epoll_ctl_succeeds _ _ _ _ _ _ Ek), cleared_real by done. unfold entry, op.
    destruct (f' =? Z.of_nat p); [|done]. by destruct (without (events o) real =? 0). }
  exists m2. prog_ok E1. by rewrite E2.
Qed.

(** ** Registering *)

Lemma ContextResize_ok m size :
  io_inv m -> (length (objs m) <= size)%nat -> Z.of_nat size < 2 ^ 31 ->
  exists m', ContextResize size m = (Ok tt, m') /\ io_inv m' /\ same_base m m' /\ scheds m' = scheds m /\
    pending_event_cnt_ m' = pending_event_cnt_ m /\ kernel m' = kernel m /\ length (objs m') = size /\
    (forall p o, objs m' !! p = Some o -> objs m !! p = Some o \/ o = new_FdContext (Z.of_nat p)).
Proof.
  intros [Ht Hs Ho Hr Hp] Hn Hsize. eexists. split; [reflexivity|].
  set (n := length (objs m)) in *. assert (length (fd_contexts_ m) = n) as En by (by rewrite Ht, length_seq).
  rewrite En. set (new := map (fun i => new_FdContext (Z.of_nat i)) (seq n (size - n))).
  assert (length new = size - n)%nat as Eln by (unfold new; by rewrite length_map, length_seq).
  assert (length (objs m ++ new) = size) as El by (rewrite length_app, Eln; fold n; lia).
  assert (forall p o, (objs m ++ new) !! p = Some o ->
    (objs m !! p = Some o) \/ ((n <= p)%nat /\ o = new_FdContext (Z.of_nat p))) as Hnew.
  { intros p o Hpo. apply lookup_app_Some in Hpo as [Hpo|[Hge Hpo]]; [by left|right].
    unfold new in Hpo. change (map ?g) with (fmap (M := list) g) in Hpo. apply list_lookup_fmap_Some in Hpo as (i & -> & Hi).
    apply lookup_seq in Hi as [-> _]. fold n. split; [done|]. f_equal. lia. }
  assert (sumz (fun o => event_count (events o)) new = 0) as Esum.
  { unfold new. clear. induction (seq n (size - n)) as [|x l IH]; [done|]. cbn in *. done. }
  split_and!; try done; cbn; fold new.
  - split; cbn -[Z.pow]; fold new.
    + rewrite El, Ht, take_ge by (rewrite length_seq; lia). change n with (0 + n)%nat at 2. rewrite <- seq_app. f_equal. lia.
    + rewrite El. lia.
    + intros p o Hpo. destruct (Hnew p o Hpo) as [Hold|[Hge ->]].
      * destruct (Ho p o Hold) as [H1 H2 H3 H4]. by split.
      * split; cbn; try done; [by left|by intros ev [-> | ->]|]. intros Htf. apply Hr; [lia|done].
    + intros f. rewrite El. intros Hf. apply Hr. lia.
    + rewrite sumz_app, Esum, Hp. lia.
  - intros p o Hpo. destruct (Hnew p o Hpo) as [?|[_ ?]]; auto.
Qed.

Lemma find_context_ok m f :
  io_inv m -> 0 <= f -> f * 3 / 2 < 2 ^ 31 ->
  exists m' o, find_context f m = (Ok (Z.to_nat f), m') /\ io_inv m' /\ same_base m m' /\ scheds m' = scheds m /\
    pending_event_cnt_ m' = pending_event_cnt_ m /\
    objs m' !! Z.to_nat f = Some o /\ (objs m !! Z.to_nat f = Some o \/ o = new_FdContext f).
Proof.
  intros Hi Hf Hmax. unfold find_context. rewrite (bind_ok (gets id) _ m m m eq_refl). rewrite in_table_eq by done.
  destruct (Z.ltb_spec f (Z.of_nat (length (objs m)))) as [Hlt|Hge].
  { destruct (lookup_obj m f ltac:(lia)) as [o Ho]. exists m, o. rewrite context_at_ok by (done || lia).
    split_and!; auto. done. }
  destruct (io_size _ Hi) as [H32 _]. assert (f + 1 <= f * 3 / 2) as Hgrow by (apply Z.div_le_lower_bound; lia).
  destruct (ContextResize_ok m (Z.to_nat (f * 3 / 2)) Hi ltac:(lia) ltac:(lia))
    as (m' & E & Hi' & Hb & Es & Ep & _ & El & Hnew).
  unfold grow_for. prog_ok E. rewrite (bind_ok (gets id) _ m' m' m' eq_refl).
  rewrite in_table_eq, El by done. rewrite (proj2 (Z.ltb_lt _ _)) by lia.
  destruct (lookup_obj m' f ltac:(lia)) as [o Ho].
  exists m', o. unfold require. rewrite (bind_ok (ret tt) _ m' tt m' eq_refl), context_at_ok by (done || lia).
  split_and!; try done. destruct (Hnew _ _ Ho) as [?|Hn]; [by left|right]. by rewrite Z2Nat.id in Hn.
Qed.

(** A call of [AddEvent] that may be made: by a thread of an existing scheduler,
    with a callback or from a running fiber. *)
Definition may_add m (e : env) (cb : func) : Prop :=
  (exists s, cur_scheduler e = Some s /\ is_Some (scheds m !! s)) /\
  (callable cb = true \/ cur_state e = Running).

Definition new_ctx (e : env) (cb : func) : EventContext :=
  if callable cb then mkCtx (cur_scheduler e) None cb else mkCtx (cur_scheduler e) (Some (cur_fiber e)) Null.

Lemma add_event_to_ok m e p o ev cb :
  io_inv m -> objs m !! p = Some o -> Z.of_nat p <> tickle_fd m -> event_ok ev ->
  has (events o) ev = false -> may_add m e cb ->
  exists r m', add_event_to e p (Z.of_nat p) ev cb m = (Ok r, m') /\ io_inv m' /\ same_base m m' /\ scheds m' = scheds m /\
    (r = 0 \/ r = -1) /\
    pending_event_cnt_ m' = pending_event_cnt_ m + b2n (r =? 0) /\
    objs m' = if r =? 0 then <[p := SetContext (set_events (Z.lor (events o) ev) o) ev (new_ctx e cb)]> (objs m)
              else objs m.
Proof.
  intros Hi Ho Htf Hev Hh [(s & Hs & Hsc) Hrun]. destruct (io_objs _ Hi p o Ho) as [H1 H2 H3 H4].
  destruct (has_with _ _ ev H1 Hev Hev) as (M & _ & Hnz).
  unfold add_event_to. prog_ok (deref_fd_ok m p o Ho). rewrite Hh. cbn [negb].
  unfold require. rewrite (bind_ok (ret tt) _ m tt m eq_refl).
  set (op := if events o =? 0 then EPOLL_CTL_ADD else EPOLL_CTL_MOD). rewrite <- Z.lor_assoc.
  destruct (epoll_ctl op (Z.of_nat p) (Z.lor EPOLLET (Z.lor (events o) ev)) p (kernel m)) as [rt k] eqn:Ek.
  assert (ctl op (Z.of_nat p) (Z.lor EPOLLET (Z.lor (events o) ev)) p m = (Ok rt, set_kernel k m)) as Ec
    by (unfold ctl; by rewrite Ek). prog_ok Ec.
  destruct (Z.eqb_spec rt 0) as [->|Hrt]; cbn [negb].
  2:{ exists (-1), (set_kernel k m). split_and!; try done; [|by right|cbn; lia].
      apply kernel_same; [done|by eapply epoll_ctl_fails]. }
  set (o1 := set_events (Z.lor (events o) ev) o). set (o2 := SetContext o1 ev (new_ctx e cb)).
  set (m' := set_objs (<[p := o2]> (objs m)) (set_pending (pending_event_cnt_ m + 1) (set_kernel k m))).
  assert (same_base m m') as Hb by done.
  exists 0, m'. split; [|split_and!; try done; [|by left]].
  - pose proof (H2 ev Hev) as Hc. rewrite Hh in Hc. cbn in Hc.
    unfold store_fd, bind, modify, lift, ret, m', o2, new_ctx. cbn. rewrite GetContext_ok by done.
    unfold o1. rewrite context_of_set_events, Hc. cbn.
    destruct (callable cb); cbn.
    + by rewrite list_insert_insert_eq.
    + destruct Hrun as [?|Hst]; [done|]. rewrite Hst. cbn. by rewrite list_insert_insert_eq.
  - destruct (SetContext_events o1 ev (new_ctx e cb)) as [Ee Ef]. fold o2 in Ee, Ef.
    eapply (io_update m m' p o o2); try done.
    + split.
      * by rewrite Ee.
      * intros ev' Hev'. rewrite Ee. cbn [o1 set_events events].
        destruct (has_with _ _ _ H1 Hev Hev') as (_ & -> & _). unfold o2. rewrite context_of_Set by done.
        destruct (Z.eqb_spec ev' ev) as [->|Hne].
        -- rewrite orb_true_r. split.
           ++ exists s. split; [|done]. unfold new_ctx. by destruct (callable cb).
           ++ unfold new_ctx, continuation. destruct (callable cb) eqn:Hcb; cbn; [by rewrite Hcb|done].
        -- rewrite orb_false_r. unfold o1. rewrite context_of_set_events. by apply H2.
      * by rewrite Ef.
      * intros _. cbn. rewrite (epoll_ctl_succeeds _ _ _ _ _ _ Ek), Z.eqb_refl, Ee. cbn.
        rewrite (proj2 (Z.eqb_neq _ _) Hnz). unfold op. by destruct (events o =? 0).
    + intros f Hf. cbn. rewrite (epoll_ctl_succeeds _ _ _ _ _ _ Ek). by rewrite (proj2 (Z.eqb_neq _ _) Hf).
    + rewrite Ee. cbn. rewrite event_count_with by done. lia.
Qed.

Lemma AddEvent_ok m e f ev cb :
  io_inv m -> 0 <= f -> f * 3 / 2 < 2 ^ 31 -> f <> tickle_fd m -> event_ok ev -> may_add m e cb ->
  (forall o, objs m !! Z.to_nat f = Some o -> has (events o) ev = false) ->
  exists r m', AddEvent e f ev cb m = (Ok r, m') /\ io_inv m' /\ same_base m m' /\ scheds m' = scheds m /\
    (r = 0 \/ r = -1) /\ pending_event_cnt_ m' = pending_event_cnt_ m + b2n (r =? 0) /\
    (r <> 0 -> forall o, objs m' !! Z.to_nat f = Some o -> has (events o) ev = false).
Proof.
  intros Hi Hf Hmax Htf Hev Hadd Hnot.
  destruct (find_context_ok m f Hi Hf Hmax) as (m1 & o & E1 & Hi1 & Hb1 & Es1 & Ep1 & Ho & Hold).
  unfold AddEvent. prog_ok E1.
  assert (has (events o) ev = false) as Hh by (destruct Hold as [Hold| ->]; [by apply Hnot|done]).
  destruct (add_event_to_ok m1 e (Z.to_nat f) o ev cb Hi1 Ho) as (r & m2 & E2 & Hi2 & Hb2 & Es2 & Hr & Ep2 & Eo2); try done.
  { destruct Hb1 as (_ & _ & -> & _). lia. }
  { unfold may_add. by rewrite Es1. }
  rewrite Z2Nat.id in E2 by lia. exists r, m2. split_and!; try done; [by eapply same_base_trans|congruence|lia|].
  intros Hr0 o' Ho'. rewrite Eo2, (proj2 (Z.eqb_neq r 0) Hr0), Ho in Ho'. by injection Ho' as <-.
Qed.
End Invariant.

(** ** Sequences of calls *)

Inductive iocmd :=
  | IOAdd (e : env) (f ev : Z) (cb : func)
  | IODel (f ev : Z)
  | IOCancel (f ev : Z)
  | IOCancelAll (f : Z)
  | IOReady (r : ready).

Section Calls.
Context {K : Type} `{Epoll K}.
Implicit Types m : IOManager K.

(** The constructor, over a new [epoll] instance [k], for the scheduler [sc] with
    number [s]; [tfd] is the read end of the tickle pipe. *)
Definition new_IOManager (k : K) (s : nat) (sc : Scheduler) (tms : TimerManager) (tfd : Z) : result (IOManager K) :=
  let '(rt, k) := epoll_ctl EPOLL_CTL_ADD tfd (Z.lor EPOLLIN EPOLLET) 0%nat k in
  if negb (rt =? 0) then Fail assert_failed else
  Ok (ContextResize 32 (mkIO [] [] 0 k {[s := sc]} {[s := 0]} tms s tfd)).2.

Definition ioexec (c : iocmd) : prog (IOManager K) unit :=
  match c with
  | IOAdd e f ev cb => let* _ := AddEvent e f ev cb in ret tt
  | IODel f ev => let* _ := DelEvent f ev in ret tt
  | IOCancel f ev => let* _ := CancelEvent f ev in ret tt
  | IOCancelAll f => let* _ := CancelAll f in ret tt
  | IOReady r => process_event r
  end.

(** The calls the assertions of the code ask for: descriptors that are not the
    manager's own, one event at a time, no event registered twice, and no report of
    an event that has been deregistered since. *)
Definition iolegal m (c : iocmd) : Prop :=
  match c with
  | IOAdd e f ev cb => 0 <= f /\ f * 3 / 2 < 2 ^ 31 /\ f <> tickle_fd m /\ event_ok ev /\ may_add m e cb /\
      (forall o, objs m !! Z.to_nat f = Some o -> has (events o) ev = false)
  | IODel f ev | IOCancel f ev => 0 <= f /\ f <> tickle_fd m /\ event_ok ev
  | IOCancelAll f => 0 <= f /\ f <> tickle_fd m
  | IOReady Pipe => True
  | IOReady (Ready_fd evs p) => Z.of_nat p <> tickle_fd m /\
      exists o, objs m !! p = Some o /\ not_stale (real_events evs (events o)) (events o)
  end.

Inductive iosteps : IOManager K -> list iocmd -> IOManager K -> Prop :=
  | iosteps_nil m : iosteps m [] m
  | iosteps_cons m c m1 cs m2 :
      iolegal m c -> ioexec c m = (Ok tt, m1) -> iosteps m1 cs m2 -> iosteps m (c :: cs) m2.

Lemma new_IOManager_inv k s sc tms tfd m :
  (forall f, interest k f = None) -> new_IOManager k s sc tms tfd = Ok m -> io_inv m.
Proof.
  intros Hk. unfold new_IOManager.
  destruct (epoll_ctl EPOLL_CTL_ADD tfd (Z.lor EPOLLIN EPOLLET) 0%nat k) as [rt k'] eqn:Ek.
  destruct (Z.eqb_spec rt 0) as [->|]; cbn [negb]; [|done]. intros [= <-].
  assert (forall f, f <> tfd -> interest k' f = None) as Hk'.
  { intros f Hf. by rewrite (epoll_ctl_succeeds _ _ _ _ _ _ Ek), (proj2 (Z.eqb_neq _ _) Hf). }
  split.
  - reflexivity.
  - cbn. lia.
  - intros p o Hpo.
    assert (o = new_FdContext (Z.of_nat p)) as ->.
    { change (((fun i => new_FdContext (Z.of_nat i)) <$> seq 0 32) !! p = Some o) in Hpo. apply list_lookup_fmap_Some in Hpo as (i & -> & Hi).
      by apply (lookup_seq 0 32 p i) in Hi as [-> _]. }
    split; cbn; try done; [by left|by intros ev [-> | ->]|apply Hk'].
  - intros f _ Hf. by apply Hk'.
  - reflexivity.
Qed.

Lemma ioexec_ok m c :
  io_inv m -> iolegal m c -> exists m', ioexec c m = (Ok tt, m') /\ io_inv m' /\ same_base m m'.
Proof.
  intros Hi Hl. destruct c as [e f ev cb|f ev|f ev|f|r]; cbn [iolegal ioexec] in *.
  - destruct Hl as (H1 & H2 & H3 & H4 & H5 & H6).
    destruct (AddEvent_ok m e f ev cb Hi H1 H2 H3 H4 H5 H6) as (r & m' & E & Hi' & Hb & _).
    exists m'. by prog_ok E.
  - destruct Hl as (H1 & H2 & H3).
    destruct (DelEvent_ok m f ev Hi H1 H2 H3) as (r & m' & E & Hi' & Hb & _). exists m'. by prog_ok E.
  - destruct Hl as (H1 & H2 & H3).
    destruct (CancelEvent_ok m f ev Hi H1 H2 H3) as (r & m' & E & Hi' & Hb & _). exists m'. by prog_ok E.
  - destruct Hl as (H1 & H2).
    destruct (CancelAll_ok m f Hi H1 H2) as (r & m' & E & Hi' & Hb & _). exists m'. by prog_ok E.
  - apply process_event_ok; [done|]. by destruct r.
Qed.

Lemma iosteps_inv m cs m' : io_inv m -> iosteps m cs m' -> io_inv m'.
Proof.
  intros Hi. induction 1 as [|m c m1 cs m2 Hl E _ IH]; [done|]. apply IH.
  destruct (ioexec_ok m c Hi Hl) as (m1' & E' & Hi' & _). congruence.
Qed.

(** ** What the I/O scheduler promises *)


(** C9: [CancelAll] hands the continuation of each registered event of the
    descriptor to the scheduler it was registered with, once, the reader's before
    the writer's, removes them all and counts them off; when it returns false it
    has changed nothing. *)
Theorem cancel_all_delivers m f :
  io_inv m -> 0 <= f -> f <> tickle_fd m ->
  exists r m', CancelAll f m = (Ok r, m') /\ io_inv m' /\
    if r then exists o, objs m !! Z.to_nat f = Some o /\ events o <> 0 /\
      scheds m' = deliver (has (events o) WRITE) WRITE o (deliver (has (events o) READ) READ o (scheds m)) /\
      (exists o', objs m' = <[Z.to_nat f := o']> (objs m) /\ events o' = 0) /\
      pending_event_cnt_ m' = pending_event_cnt_ m - event_count (events o)
    else objs m' = objs m /\ scheds m' = scheds m /\ pending_event_cnt_ m' = pending_event_cnt_ m.
Proof.
  intros Hi Hf Htf. destruct (CancelAll_ok m f Hi Hf Htf) as (r & m' & E & Hi' & _ & Hr). by exists r, m'.
Qed.

(** An [IOManager] stops exactly when it has no timer, no registered event and
    its scheduler has been stopped and has neither a task waiting nor one
    running. *)
Theorem io_stops_when_done m now sc :
  Timer.inv (timers m) -> 0 < now -> scheds m !! self m = Some sc ->
  exists t m', io_Stopping now m = (Ok (t, bool_decide (timers_ (timers m) = []) && (pending_event_cnt_ m =? 0) && Stopping sc), m').
Proof.
  intros Hi Hnow Hs. unfold io_Stopping, bind, on_timers. rewrite (GetNextTimeout_eq _ _ Hi). cbn.
  unfold on_sched. cbn. rewrite Hs. cbn. eexists _, _. unfold ret. do 3 f_equal. do 2 f_equal.
  destruct (timers_ (timers m)) as [|t l] eqn:El; [done|].
  destruct (inv_alive _ _ Hi t) as [x Hx]; [rewrite El; apply elem_of_cons; by left|].
  destruct (inv_range _ _ Hi _ _ Hx) as [_ Hn]. rewrite (next_of_lookup _ _ _ Hx). cbn.
  apply Z.eqb_neq. unfold max64. destruct (Z.leb_spec (next_ x) now); [lia|].
  unfold u64. rewrite wrapu_small by lia. lia.
Qed.

(** [Tickle] is the wrong way round: when threads idle, scheduling a task into an
    empty queue writes nothing to the pipe they wait on, and it writes a byte when
    no thread waits. *)
Theorem tickle_skips_idle_threads m s sc fc :
  scheds m !! s = Some sc -> tasks_ sc = [] ->
  exists m', io_schedule s fc m = (Ok tt, m') /\
    pipes m' = if HasIdleThreads sc then pipes m else <[s := default 0 (pipes m !! s) + 1]> (pipes m).
Proof.
  intros Hs Ht. unfold io_schedule, bind, on_sched. rewrite Hs, Schedule_eq, Ht. cbn.
  unfold Tickle. cbn. rewrite lookup_insert_eq.
  destruct (runnable _); unfold HasIdleThreads; cbn; destruct (0 <? idle_thread_count_ sc); by eexists.
Qed.
End Calls.

(** The wait is bounded by two seconds as long as the next timer is due within
    2^31 ms; for the next 2^31 ms the conversion to [int] gives a negative timeout,
    with which [epoll_wait] waits indefinitely. *)
Theorem epoll_timeout_bounds next :
  (0 <= next < 2 ^ 31 -> epoll_timeout next = Z.min next 2000) /\
  epoll_timeout max64 = 2000 /\
  (2 ^ 31 <= next < 2 ^ 32 -> epoll_timeout next < 0).
Proof.
  split_and!.
  - intros Hn. unfold epoll_timeout. rewrite (proj2 (Z.eqb_neq next max64)) by (unfold max64; lia).
    unfold s32, u64, MAX_TIMEOUT. cbn [negb]. rewrite (wraps_small 32 next) by lia.
    rewrite wrapu_small by lia. rewrite wraps_small; lia.
  - reflexivity.
  - intros Hn. unfold epoll_timeout. rewrite (proj2 (Z.eqb_neq next max64)) by (unfold max64; lia).
    cbn [negb]. assert (s32 next = next - 2 ^ 32) as Es.
    { unfold s32, wraps. replace (next + 2 ^ (32 - 1)) with (next - 2 ^ 31 + 1 * 2 ^ 32) by lia.
      rewrite Z.mod_add, Z.mod_small by lia. lia. }
    rewrite Es, Z.min_l by (unfold MAX_TIMEOUT; lia). unfold s32, u64.
    assert (wraps 32 (wrapu 64 (next - 2 ^ 32)) = next - 2 ^ 32) as ->; [|lia].
    unfold wrapu, wraps. replace (next - 2 ^ 32) with (next - 2 ^ 32 + 2 ^ 64 + (-1) * 2 ^ 64) at 1 by lia.
    rewrite Z.mod_add, (Z.mod_small _ (2 ^ 64)) by lia.
    replace (next - 2 ^ 32 + 2 ^ 64 + 2 ^ (32 - 1)) with (next - 2 ^ 31 + 2 ^ 32 * 2 ^ 32) by lia.
    rewrite Z.mod_add, Z.mod_small by lia. lia.
Qed.

(** ** The theorems at a concrete manager *)

(** An [epoll] whose [epoll_ctl] fails exactly as documented: adding a descriptor
    that is there, changing or deleting one that is not. *)
Definition table_ctl (op : ctl_op) (f ev : Z) (p : nat) (k : gmap Z (Z * nat)) : Z * gmap Z (Z * nat) :=
  match op, k !! f with
  | EPOLL_CTL_ADD, Some _ | EPOLL_CTL_MOD, None | EPOLL_CTL_DEL, None => (-1, k)
  | EPOLL_CTL_DEL, Some _ => (0, delete f k)
  | _, _ => (0, <[f := (ev, p)]> k)
  end.

#[global] Program Instance table_epoll : Epoll (gmap Z (Z * nat)) :=
  {| interest k f := k !! f; epoll_ctl := table_ctl |}.
Next Obligation.
  intros op fd ev p k rt k' E Hrt f. unfold table_ctl in E. destruct op, (k !! fd); naive_solver.
Qed.
Next Obligation.
  intros op fd ev p k k' E f. unfold table_ctl in E.
  destruct (Z.eqb_spec f fd) as [->|Hne]; destruct op, (k !! fd) eqn:Hk; try done; injection E as <-;
    by rewrite ?lookup_insert_eq, ?lookup_delete_eq, ?lookup_insert_ne, ?lookup_delete_ne.
Qed.

Definition demo_io : IOManager (gmap Z (Z * nat)) :=
  match new_IOManager ∅ 0%nat demo_scheduler (new_TimerManager 1000) 5 with
  | Ok m => m
  | Fail _ => mkIO [] [] 0 ∅ ∅ ∅ (new_TimerManager 0) 0%nat 5
  end.

Definition demo_env : env := mkEnv (Some 0%nat) 0%nat Running.
Definition after_io (cs : list iocmd) : IOManager (gmap Z (Z * nat)) :=
  fold_left (fun m c => (ioexec c m).2) cs demo_io.

(** A reader and a writer on descriptor 7. *)
Definition both_cmds : list iocmd := [IOAdd demo_env 7 READ (Fn 1); IOAdd demo_env 7 WRITE (Fn 2)].

Lemma both_steps : iosteps demo_io both_cmds (after_io both_cmds).
Proof.
  unfold both_cmds. econstructor; [|vm_compute; reflexivity|econstructor; [|vm_compute; reflexivity|constructor]].
  - split_and!; try (vm_compute; done); [by left| |intros o; vm_compute; by intros [= <-]].
    split; [|by left]. exists 0%nat. split; [done|]. vm_compute. by eexists.
  - split_and!; try (vm_compute; done); [by right| |intros o; vm_compute; by intros [= <-]].
    split; [|by left]. exists 0%nat. split; [done|]. vm_compute. by eexists.
Qed.

Lemma demo_io_inv : io_inv demo_io.
Proof. by apply (new_IOManager_inv ∅ 0%nat demo_scheduler (new_TimerManager 1000) 5). Qed.


Lemma cancel_all_delivers_witness :
  tasks_ <$> scheds (CancelAll 7 (after_io both_cmds)).2 !! 0%nat
    = Some [mkTask None (Fn 1) (-1); mkTask None (Fn 2) (-1)] /\
  exists r m', CancelAll 7 (after_io both_cmds) = (Ok r, m') /\ io_inv m'.
Proof.
  split; [vm_compute; reflexivity|].
  destruct (cancel_all_delivers (after_io both_cmds) 7) as (r & m' & E & Hi & _);
    [by eapply iosteps_inv; [apply demo_io_inv|apply both_steps]|lia|vm_compute; discriminate|].
  by exists r, m'.
Defined.

Lemma io_stops_when_done_witness :
  exists t m', io_Stopping 1000 demo_io = (Ok (t, false), m').
Proof. apply (io_stops_when_done demo_io 1000 demo_scheduler); [apply inv_new|lia|reflexivity]. Defined.

Lemma tickle_skips_idle_threads_witness :
  let m := set_scheds {[0%nat := set_idle 1 demo_scheduler]} demo_io in
  exists m', io_schedule 0%nat (ACallback (Fn 1)) m = (Ok tt, m') /\ pipes m' = pipes m.
Proof.
  apply (tickle_skips_idle_threads (set_scheds {[0%nat := set_idle 1 demo_scheduler]} demo_io) 0%nat
           (set_idle 1 demo_scheduler)); reflexivity.
Defined.

Lemma epoll_timeout_bounds_witness :
  epoll_timeout 1500 = 1500 /\ epoll_timeout (2 ^ 31) < 0.
Proof.
  split; [apply (epoll_timeout_bounds 1500); lia|apply (epoll_timeout_bounds (2 ^ 31)); lia].
Defined.

(** An event that [epoll_wait] reported and that another thread has removed
    before [Idle] locks the context aborts the process when the other event of the
    descriptor is still registered: only one of the reported events is checked. *)
Theorem stale_event_aborts :
  let m := after_io [IOAdd demo_env 7 READ (Fn 1); IOAdd demo_env 7 WRITE (Fn 2); IODel 7 WRITE] in
  (process_event (Ready_fd (Z.lor EPOLLIN EPOLLOUT) 7) m).1 = Fail assert_failed.
Proof. vm_compute. reflexivity. Qed.

(** Growing the table is racy: a thread that found descriptor 40 out of range
    before another one grew the table for descriptor 100 shrinks it again, and the
    event registered on 100 is lost: it stays counted, so that the manager never
    stops, and cannot be removed. *)
Theorem growth_race_loses_events :
  let m1 := after_io [IOAdd demo_env 100 READ (Fn 1)] in
  let m2 := (grow_for 40 m1).2 in
  in_table demo_io 40 = false /\ length (fd_contexts_ m1) = 150%nat /\ length (fd_contexts_ m2) = 60%nat /\
  pending_event_cnt_ m2 = 1 /\ (DelEvent 100 READ m2).1 = Ok false.
Proof. vm_compute. split_and!; reflexivity. Qed.
