(* ===== verification/Address.v ===== *)
(** * Socket addresses: [gudov/address.h] and [gudov/address.cpp]

    Addresses as the [sockaddr] structures they wrap, with the fields in memory
    order: ports and IPv4 addresses are the numbers the processor loads from bytes
    stored in network order.  [getaddrinfo] and [getifaddrs] are parameters. *)

From S2P Require Import Prelude Endian.
From stdpp Require Import base numbers list strings pretty.
From Stdlib Require Import ZArith Lia Strings.Byte Ascii.
Open Scope Z_scope.
Open Scope prog_scope.

Definition AF_UNSPEC : Z := 0.
Definition AF_UNIX : Z := 1.
Definition AF_INET : Z := 2.
Definition AF_INET6 : Z := 10.

(** ** Masks *)

(** [(1 << (sizeof(T) * 8 - bits)) - 1] in [int] arithmetic, converted to [T]: the
    shift count must be below 32 and the subtraction must not overflow. *)
Definition CreateMask (T : int_type) (bits : Z) : result Z :=
  let count := u64 (ibits T - bits) in
  if 31 <=? count then Fail undefined else Ok (cast T (Z.shiftl 1 count - 1)).

(** The loop of [CountBytes]; every round clears the lowest set bit. *)
Fixpoint count_loop (fuel : nat) (value result : Z) : Prelude.result Z :=
  match fuel with
  | O => Fail out_of_fuel
  | S fuel => if value =? 0 then Ok result
              else count_loop fuel (Z.land value (value - 1)) (u32 (result + 1))
  end.

(** At most one round per bit, and one to leave the loop. *)
Definition CountBytes (T : int_type) (value : Z) : Prelude.result Z :=
  count_loop (S (8 * ibytes T)) value 0.

(** ** The structures *)

Record sockaddr_in := mkIn { sin_family : Z; sin_port : Z; s_addr : Z }.
Record sockaddr_in6 := mkIn6 {
  sin6_family : Z; sin6_port : Z; sin6_flowinfo : Z; s6_addr : list byte; sin6_scope_id : Z }.
Record sockaddr_un := mkUn { sun_family : Z; sun_path : list byte }.
Record sockaddr := mkSa { sa_family : Z; sa_data : list byte }.

Inductive Address :=
  | IPv4Address (addr_ : sockaddr_in)
  | IPv6Address (addr_ : sockaddr_in6)
  | UnixAddress (addr_ : sockaddr_un) (length_ : Z)
  | UnknownAddress (addr_ : sockaddr).

(** [sizeof(sun_path)], [offsetof(sockaddr_un, sun_path)] and [MAX_PATH_LEN] *)
Definition sun_path_size : Z := 108.
Definition sun_path_offset : Z := 2.
Definition MAX_PATH_LEN : Z := sun_path_size - 1.

Definition zeros (n : Z) : list byte := replicate (Z.to_nat n) x00.

Section Addresses.
Context `{Host}.

(** ** Constructors *)

Definition new_IPv4Address (address port : Z) : sockaddr_in :=
  mkIn AF_INET (ByteSwapOnLittleEndian uint16_t port) (ByteSwapOnLittleEndian uint32_t address).

Definition new_IPv6Address : sockaddr_in6 := mkIn6 AF_INET6 0 0 (zeros 16) 0.

Definition new_IPv6Address_bytes (address : list byte) (port : Z) : sockaddr_in6 :=
  mkIn6 AF_INET6 (ByteSwapOnLittleEndian uint16_t port) 0 (take 16 address) 0.

Definition new_UnixAddress : Address :=
  UnixAddress (mkUn AF_UNIX (zeros sun_path_size)) (sun_path_offset + MAX_PATH_LEN).

(** [UnixAddress(path)]: the path is copied with its terminator, unless it is in the
    abstract name space. *)
Definition new_UnixAddress_path (path : list byte) : result Address :=
  let length := Z.of_nat (length path) + 1 in
  let length := match path with x00 :: _ => length - 1 | _ => length end in
  if sun_path_size <? length then Fail logic_error
  else Ok (UnixAddress (mkUn AF_UNIX (splice 0 (take (Z.to_nat length) (path ++ [x00])) (zeros sun_path_size)))
             (length + sun_path_offset)).

Definition new_UnknownAddress (family : Z) : Address := UnknownAddress (mkSa family (zeros 14)).

(** [Address::Create] of a [sockaddr] read as the structure its family says. *)
Inductive raw_sockaddr := RawIn (a : sockaddr_in) | RawIn6 (a : sockaddr_in6) | RawOther (a : sockaddr).

Definition Create (addr : option raw_sockaddr) : option Address :=
  match addr with
  | None => None
  | Some (RawIn a) => Some (IPv4Address a)
  | Some (RawIn6 a) => Some (IPv6Address a)
  | Some (RawOther a) => Some (UnknownAddress a)
  end.

(** ** Bytes and comparison *)

Definition GetAddrLen (a : Address) : Z :=
  match a with
  | IPv4Address _ => 16
  | IPv6Address _ => 28
  | UnixAddress _ length => length
  | UnknownAddress _ => 16
  end.

(** The bytes of the structure in memory. *)
Definition GetAddr (a : Address) : list byte :=
  match a with
  | IPv4Address i => mem_bytes uint16_t (sin_family i) ++ mem_bytes uint16_t (sin_port i)
                     ++ mem_bytes uint32_t (s_addr i) ++ zeros 8
  | IPv6Address i => mem_bytes uint16_t (sin6_family i) ++ mem_bytes uint16_t (sin6_port i)
                     ++ mem_bytes uint32_t (sin6_flowinfo i) ++ s6_addr i ++ mem_bytes uint32_t (sin6_scope_id i)
  | UnixAddress u _ => mem_bytes uint16_t (sun_family u) ++ sun_path u
  | UnknownAddress s => mem_bytes uint16_t (sa_family s) ++ sa_data s
  end.

Definition GetFamily (a : Address) : Z :=
  match a with
  | IPv4Address i => sin_family i
  | IPv6Address i => sin6_family i
  | UnixAddress u _ => sun_family u
  | UnknownAddress s => sa_family s
  end.

(** [memcmp] on two blocks of the same length. *)
Fixpoint memcmp (a b : list byte) : comparison :=
  match a, b with
  | x :: a, y :: b => match b2z x ?= b2z y with Eq => memcmp a b | c => c end
  | _, _ => Eq
  end.

Definition Address_lt (l r : Address) : bool :=
  let minLen := Z.to_nat (Z.min (GetAddrLen l) (GetAddrLen r)) in
  match memcmp (take minLen (GetAddr l)) (take minLen (GetAddr r)) with
  | Lt => true
  | Gt => false
  | Eq => GetAddrLen l <? GetAddrLen r
  end.

Definition Address_eq (l r : Address) : bool :=
  (GetAddrLen l =? GetAddrLen r) &&
  match memcmp (take (Z.to_nat (GetAddrLen l)) (GetAddr l)) (take (Z.to_nat (GetAddrLen l)) (GetAddr r)) with
  | Eq => true
  | _ => false
  end.

(** ** IP addresses *)

Definition GetPort (a : Address) : option Z :=
  match a with
  | IPv4Address i => Some (ByteSwapOnLittleEndian uint16_t (sin_port i))
  | IPv6Address i => Some (ByteSwapOnLittleEndian uint16_t (sin6_port i))
  | _ => None
  end.

Definition SetPort (v : Z) (a : Address) : Address :=
  match a with
  | IPv4Address i => IPv4Address (mkIn (sin_family i) (ByteSwapOnLittleEndian uint16_t v) (s_addr i))
  | IPv6Address i => IPv6Address (mkIn6 (sin6_family i) (ByteSwapOnLittleEndian uint16_t v)
                                    (sin6_flowinfo i) (s6_addr i) (sin6_scope_id i))
  | _ => a
  end.

Definition with_s_addr (i : sockaddr_in) (v : Z) : Address :=
  IPv4Address (mkIn (sin_family i) (sin_port i) v).

(** [nullptr] is [Ok None]. *)
Definition BroadcastAddress4 (i : sockaddr_in) (prefixLen : Z) : result (option Address) :=
  if 32 <? prefixLen then Ok None else
  match CreateMask uint32_t prefixLen with
  | Ok m => Ok (Some (with_s_addr i (Z.lor (s_addr i) (ByteSwapOnLittleEndian uint32_t m))))
  | Fail e => Fail e
  end.

Definition NetworkAddress4 (i : sockaddr_in) (prefixLen : Z) : result (option Address) :=
  if 32 <? prefixLen then Ok None else
  match CreateMask uint32_t prefixLen with
  | Ok m => Ok (Some (with_s_addr i (Z.land (s_addr i) (ByteSwapOnLittleEndian uint32_t m))))
  | Fail e => Fail e
  end.

Definition SubnetAddress4 (prefixLen : Z) : result Address :=
  match CreateMask uint32_t prefixLen with
  | Ok m => Ok (IPv4Address (mkIn AF_INET 0 (u32 (Z.lnot (ByteSwapOnLittleEndian uint32_t m)))))
  | Fail e => Fail e
  end.

Definition with_s6_addr (i : sockaddr_in6) (bs : list byte) : Address :=
  IPv6Address (mkIn6 (sin6_family i) (sin6_port i) (sin6_flowinfo i) bs (sin6_scope_id i)).

(** [s6_addr[k] = f(s6_addr[k])]; writing past the array is undefined. *)
Definition update_byte (k : Z) (f : Z -> Z) (bs : list byte) : result (list byte) :=
  match bs !! Z.to_nat k with
  | Some b => Ok (<[Z.to_nat k := z2b (f (b2z b))]> bs)
  | None => Fail undefined
  end.

(** [for (i = from; i < 16; ++i) s6_addr[i] = v] *)
Definition fill_from (from : Z) (v : byte) (bs : list byte) : list byte :=
  take (Z.to_nat from) bs ++ replicate (16 - Z.to_nat from) v.

Definition masked6 (f : Z -> Z -> Z) (fill : byte) (i : sockaddr_in6) (prefixLen : Z) : result Address :=
  match CreateMask uint8_t (prefixLen mod 8) with
  | Ok m =>
      match update_byte (prefixLen / 8) (fun b => f b m) (s6_addr i) with
      | Ok bs => Ok (with_s6_addr i (fill_from (prefixLen / 8 + 1) fill bs))
      | Fail e => Fail e
      end
  | Fail e => Fail e
  end.

Definition BroadcastAddress6 := masked6 Z.lor xff.
Definition NetworkAddress6 := masked6 Z.land x00.

Definition SubnetAddress6 (prefixLen : Z) : result Address :=
  match CreateMask uint8_t (prefixLen mod 8) with
  | Ok m =>
      match update_byte (prefixLen / 8) (fun _ => u8 (Z.lnot m)) (zeros 16) with
      | Ok bs => Ok (with_s6_addr new_IPv6Address
                       (replicate (Z.to_nat (prefixLen / 8)) xff ++ drop (Z.to_nat (prefixLen / 8)) bs))
      | Fail e => Fail e
      end
  | Fail e => Fail e
  end.

(** ** Printing *)

Definition hex_char (d : Z) : ascii := ascii_of_nat (Z.to_nat (if d <? 10 then 48 + d else 87 + d)).

(** [std::hex << v], no leading zeros. *)
Fixpoint hex_digits (fuel : nat) (v : Z) (acc : string) : string :=
  match fuel with
  | O => acc
  | S fuel => let acc := String (hex_char (v mod 16)) acc in
              if v / 16 =? 0 then acc else hex_digits fuel (v / 16) acc
  end.
Definition hex (v : Z) : string := hex_digits 16 v EmptyString.

Definition dotted (addr : Z) : string :=
  pretty (Z.land (Z.shiftr addr 24) 255) +:+ "." +:+ pretty (Z.land (Z.shiftr addr 16) 255) +:+ "." +:+
  pretty (Z.land (Z.shiftr addr 8) 255) +:+ "." +:+ pretty (Z.land addr 255).

(** The 16-bit words the loop of [IPv6Address::Insert] reads. *)
Definition words (bs : list byte) : list Z :=
  map (fun k => mem_value uint16_t (slice (2 * k) 2 bs)) (seq 0 8).

(** The loop over the words, from word [i] on; [prev] is word [i - 1]. *)
Fixpoint insert6_loop (i : nat) (prev : Z) (usedZeros : bool) (ws : list Z) (os : string) : string * bool :=
  match ws with
  | [] => (os, usedZeros)
  | w :: ws =>
      if (w =? 0) && negb usedZeros then insert6_loop (S i) w usedZeros ws os
      else
        let gap := negb (Nat.eqb i 0) && (prev =? 0) && negb usedZeros in
        let os := if gap then os +:+ ":" else os in
        let os := if negb (Nat.eqb i 0) then os +:+ ":" else os in
        insert6_loop (S i) w (usedZeros || gap) ws (os +:+ hex (ByteSwapOnLittleEndian uint16_t w))
  end.

Definition string_of_bytes (bs : list byte) : string := String.string_of_list_byte bs.

Definition insert6 (i : sockaddr_in6) : string :=
  let ws := words (s6_addr i) in
  let '(os, usedZeros) := insert6_loop 0 0 false ws "[IPv6 [" in
  let os := if negb usedZeros && (default 0 (ws !! 7%nat) =? 0) then os +:+ "::" else os in
  os +:+ "]:" +:+ pretty (ByteSwapOnLittleEndian uint16_t (sin6_port i)) +:+ "]".

(** The bytes up to the first null. *)
Fixpoint c_str (bs : list byte) : list byte :=
  match bs with
  | [] => []
  | b :: bs => if b2z b =? 0 then [] else b :: c_str bs
  end.

Definition Insert (a : Address) : string :=
  match a with
  | IPv4Address i =>
      "[IPv4 " +:+ dotted (ByteSwapOnLittleEndian uint32_t (s_addr i)) +:+ ":" +:+
      pretty (ByteSwapOnLittleEndian uint16_t (sin_port i)) +:+ "]"
  | IPv6Address i => insert6 i
  | UnixAddress u length =>
      match sun_path u with
      | x00 :: rest =>
          if sun_path_offset <? length
          then "\0" +:+ string_of_bytes (take (Z.to_nat (length - sun_path_offset - 1)) rest)
          else string_of_bytes (c_str (sun_path u))
      | _ => string_of_bytes (c_str (sun_path u))
      end
  | UnknownAddress s => "[UnknownAddress family=" +:+ pretty (sa_family s) +:+ "]"
  end.

Definition ToString (a : Address) : string := Insert a.
End Addresses.

(** ** Names *)

(** [memchr], as an index. *)
Fixpoint memchr (c : byte) (l : list byte) : option nat :=
  match l with
  | [] => None
  | b :: l => if Byte.eqb b c then Some 0%nat else S <$> memchr c l
  end.

Definition colon : byte := x3a.

(** The node and the offset of the service in [host], as [Lookup] splits it.  The
    string has a null after its last byte. *)
Definition split_host (host : list byte) : list byte * option nat :=
  let '(node, service) :=
    match host with
    | x5b :: rest =>
        match memchr x5d rest with
        | Some j =>
            (take j rest,
             match (host ++ [x00]) !! (j + 2)%nat with
             | Some x00 => Some (j + 3)%nat
             | _ => None
             end)
        | None => ([], None)
        end
    | _ => ([], None)
    end in
  let '(node, service) :=
    match node with
    | [] =>
        match memchr colon host with
        | None => ([], None)
        | Some j => match memchr colon (drop (S j) host) with
                    | None => (take j host, Some (S j))
                    | Some _ => ([], Some j)
                    end
        end
    | _ => (node, service)
    end in
  (match node with [] => host | _ => node end, service).

(** The service string; an offset past the terminator is outside the string. *)
Definition service_at (host : list byte) (service : option nat) : result (option (list byte)) :=
  match service with
  | None => Ok None
  | Some k => if Nat.leb k (length host) then Ok (Some (c_str (drop k host))) else Fail undefined
  end.

(** What the system's resolver answers. *)
Class Resolver := getaddrinfo : list byte -> option (list byte) -> Z -> Z -> Z -> option (list raw_sockaddr).

(** [result] with what was found appended, or [None] for false. *)
Definition Lookup `{Resolver} (result : list Address) (host : list byte) (family type protocol : Z)
  : Prelude.result (option (list Address)) :=
  let '(node, service) := split_host host in
  match service_at host service with
  | Fail e => Fail e
  | Ok service =>
      match getaddrinfo (c_str node) service family type protocol with
      | None => Ok None
      | Some l => Ok (Some (result ++ omap (fun a => Create (Some a)) l))
      end
  end.

Definition LookupAny `{Resolver} (host : list byte) (family type protocol : Z) : result (option Address) :=
  match Lookup [] host family type protocol with
  | Fail e => Fail e
  | Ok None => Ok None
  | Ok (Some []) => Fail undefined
  | Ok (Some (a :: _)) => Ok (Some a)
  end.

Definition is_ip (a : Address) : bool :=
  match a with IPv4Address _ | IPv6Address _ => true | _ => false end.

Definition LookupAnyIPAddress `{Resolver} (host : list byte) (family type protocol : Z) : result (option Address) :=
  match Lookup [] host family type protocol with
  | Fail e => Fail e
  | Ok None => Ok None
  | Ok (Some l) => Ok (List.find is_ip l)
  end.

(** [IPAddress::Create]: the resolver is only asked to read a number. *)
Definition IPAddress_Create `{Host} `{Resolver} (address : list byte) (port : Z) : result (option Address) :=
  match getaddrinfo address None AF_UNSPEC 0 0 with
  | None => Ok None
  | Some [] => Fail null_deref
  | Some (a :: _) =>
      Ok match Create (Some a) with
         | Some ip => if is_ip ip then Some (SetPort port ip) else None
         | None => None
         end
  end.

(** ** Interfaces *)

Record ifaddr := mkIf { ifa_name : list byte; ifa_addr : option raw_sockaddr; ifa_netmask : option raw_sockaddr }.

Definition raw_family (a : raw_sockaddr) : Z :=
  match a with RawIn i => sin_family i | RawIn6 i => sin6_family i | RawOther s => sa_family s end.

(** The sum of [CountBytes] over the bytes of an IPv6 netmask. *)
Fixpoint count_bytes6 (bs : list byte) : result Z :=
  match bs with
  | [] => Ok 0
  | b :: bs => match CountBytes uint8_t (b2z b), count_bytes6 bs with
               | Ok n, Ok k => Ok (n + k)
               | Fail e, _ | _, Fail e => Fail e
               end
  end.

(** One interface: skipped, or a name, an address and a prefix length. *)
Definition interface_entry (family : Z) (i : ifaddr) : result (option (list byte * (Address * Z))) :=
  match ifa_addr i with
  | None => Fail null_deref
  | Some a =>
      if negb (family =? AF_UNSPEC) && negb (family =? raw_family a) then Ok None else
      match a, ifa_netmask i with
      | RawIn _, Some (RawIn m) =>
          match CountBytes uint32_t (s_addr m) with
          | Ok n => Ok ((fun x => (ifa_name i, (x, n))) <$> Create (Some a))
          | Fail e => Fail e
          end
      | RawIn6 _, Some (RawIn6 m) =>
          match count_bytes6 (s6_addr m) with
          | Ok n => Ok ((fun x => (ifa_name i, (x, n))) <$> Create (Some a))
          | Fail e => Fail e
          end
      | RawOther _, _ => Ok None
      | _, _ => Fail null_deref
      end
  end.

(** The multimap, as its entries in the order of insertion. *)
Fixpoint GetInterfaceAddress (family : Z) (ifs : list ifaddr) : result (list (list byte * (Address * Z))) :=
  match ifs with
  | [] => Ok []
  | i :: ifs =>
      match interface_entry family i, GetInterfaceAddress family ifs with
      | Ok e, Ok l => Ok (match e with Some x => x :: l | None => l end)
      | Fail e, _ | _, Fail e => Fail e
      end
  end.

(** The overload for one interface; [*] and the empty name stand for any. *)
Definition GetInterfaceAddress_of `{Host} (iface : list byte) (family : Z) (ifs : list ifaddr)
  : result (list (Address * Z)) :=
  if bool_decide (iface = []) || bool_decide (iface = [x2a]) then
    Ok ((if (family =? AF_INET) || (family =? AF_UNSPEC) then [(IPv4Address (new_IPv4Address 0 0), 0)] else [])
        ++ (if (family =? AF_INET6) || (family =? AF_UNSPEC) then [(IPv6Address new_IPv6Address, 0)] else []))
  else
    match GetInterfaceAddress family ifs with
    | Ok l => Ok (map snd (filter (fun e => e.1 = iface) l))
    | Fail e => Fail e
    end.

(** ** Comparison is a strict total order *)

(** The bytes that are compared. *)
Definition key `{Host} (a : Address) : list byte := take (Z.to_nat (GetAddrLen a)) (GetAddr a).

(** The recorded length does not exceed the structure. *)
Definition sized `{Host} (a : Address) : Prop :=
  0 <= GetAddrLen a /\ Z.of_nat (length (key a)) = GetAddrLen a.

(** Lexicographic comparison, a proper prefix first. *)
Fixpoint lexcmp (a b : list byte) : comparison :=
  match a, b with
  | [], [] => Eq
  | [], _ => Lt
  | _, [] => Gt
  | x :: a, y :: b => match b2z x ?= b2z y with Eq => lexcmp a b | c => c end
  end.

Lemma b2z_inj x y : b2z x = b2z y -> x = y.
Proof. intros E. rewrite <- (z2b_b2z x), <- (z2b_b2z y). by rewrite E. Qed.

Lemma memcmp_lex a b :
  lexcmp a b = match memcmp (take (Nat.min (length a) (length b)) a) (take (Nat.min (length a) (length b)) b) with
               | Eq => (length a ?= length b)%nat
               | c => c
               end.
Proof.
  revert b. induction a as [|x a IH]; intros [|y b]; try done. cbn. rewrite IH. by destruct (b2z x ?= b2z y).
Qed.

Lemma memcmp_eq a b : length a = length b -> memcmp a b = lexcmp a b.
Proof.
  revert b. induction a as [|x a IH]; intros [|y b] Hl; try done. cbn in *.
  rewrite IH by lia. done.
Qed.

Lemma lexcmp_refl a : lexcmp a a = Eq.
Proof. induction a as [|x a IH]; [done|]. cbn. by rewrite Z.compare_refl. Qed.

Lemma lexcmp_eq a b : lexcmp a b = Eq -> a = b.
Proof.
  revert b. induction a as [|x a IH]; intros [|y b]; try done. cbn.
  destruct (Z.compare_spec (b2z x) (b2z y)) as [E| |]; try done. intros Hl. f_equal; [by apply b2z_inj|by apply IH].
Qed.

Lemma lexcmp_antisym a b : lexcmp b a = CompOpp (lexcmp a b).
Proof.
  revert b. induction a as [|x a IH]; intros [|y b]; try done. cbn.
  rewrite (Z.compare_antisym (b2z x) (b2z y)). destruct (b2z x ?= b2z y); try done. apply IH.
Qed.

Lemma lexcmp_trans a b c : lexcmp a b = Lt -> lexcmp b c = Lt -> lexcmp a c = Lt.
Proof.
  revert b c. induction a as [|x a IH]; intros [|y b] [|z c]; try done. cbn.
  destruct (Z.compare_spec (b2z x) (b2z y)), (Z.compare_spec (b2z y) (b2z z)), (Z.compare_spec (b2z x) (b2z z));
    try done; try lia. apply IH.
Qed.

Section Order.
Context `{Host}.

Lemma Address_lt_lex l r : sized l -> sized r -> Address_lt l r = match lexcmp (key l) (key r) with Lt => true | _ => false end.
Proof.
  intros [Hl0 Hl] [Hr0 Hr]. rewrite memcmp_lex. unfold Address_lt.
  assert (Nat.min (length (key l)) (length (key r)) = Z.to_nat (Z.min (GetAddrLen l) (GetAddrLen r))) as -> by lia.
  unfold key at 1 2. rewrite !take_take, !Nat.min_l by lia.
  destruct (memcmp _ _); try done.
  destruct (Nat.compare_spec (length (key l)) (length (key r))), (Z.ltb_spec (GetAddrLen l) (GetAddrLen r));
    try done; lia.
Qed.

Lemma Address_eq_lex l r : sized l -> sized r -> Address_eq l r = match lexcmp (key l) (key r) with Eq => true | _ => false end.
Proof.
  intros [Hl0 Hl] [Hr0 Hr]. unfold Address_eq. destruct (Z.eqb_spec (GetAddrLen l) (GetAddrLen r)) as [E|E]; cbn [andb].
  - rewrite E at 2. fold (key l) (key r). rewrite memcmp_eq by lia. done.
  - destruct (lexcmp (key l) (key r)) eqn:El; try done. apply lexcmp_eq in El. rewrite El in Hl. lia.
Qed.

(** [operator<] orders addresses of any kinds strictly and totally, and
    [operator==] is the equivalence it leaves: no address is below itself, the order
    is transitive, and of two addresses one is below the other or they are equal,
    never two of these at once. *)
Theorem address_order a b c :
  sized a -> sized b -> sized c ->
  Address_lt a a = false /\
  (Address_lt a b = true -> Address_lt b c = true -> Address_lt a c = true) /\
  b2n (Address_lt a b) + b2n (Address_eq a b) + b2n (Address_lt b a) = 1.
Proof.
  intros Ha Hb Hc. rewrite !Address_lt_lex, !Address_eq_lex by done. split_and!.
  - by rewrite lexcmp_refl.
  - pose proof (lexcmp_trans (key a) (key b) (key c)) as Ht.
    destruct (lexcmp (key a) (key b)), (lexcmp (key b) (key c)); try done. by rewrite Ht.
  - rewrite (lexcmp_antisym (key a) (key b)). by destruct (lexcmp (key a) (key b)).
Qed.
End Order.

(** ** Swapping bytes commutes with the bitwise operations *)

Section Bitwise.
Variable op : Z -> Z -> Z.
Variable bop : bool -> bool -> bool.
Hypothesis op_spec : forall x y n, Z.testbit (op x y) n = bop (Z.testbit x n) (Z.testbit y n).
Hypothesis bop_false : bop false false = false.

Lemma testbit_low b r n : 0 <= b < 256 -> 0 <= n < 8 -> Z.testbit (b + 256 * r) n = Z.testbit b n.
Proof using.
  clear. intros Hb Hn. rewrite <- (Z.mod_pow2_bits_low (b + 256 * r) 8) by lia. change (2 ^ 8) with 256.
  by rewrite Z.mul_comm, Z.mod_add, Z.mod_small by lia.
Qed.

Lemma testbit_high b r n : 0 <= b < 256 -> 8 <= n -> Z.testbit (b + 256 * r) n = Z.testbit r (n - 8).
Proof using.
  clear. intros Hb Hn. replace n with (n - 8 + 8) at 1 by lia. rewrite <- Z.div_pow2_bits by lia.
  change (2 ^ 8) with 256. rewrite Z.mul_comm, Z.div_add by lia. by rewrite Z.div_small by lia.
Qed.

Lemma op_byte_range a b : 0 <= a < 256 -> 0 <= b < 256 -> 0 <= op a b < 256.
Proof using op_spec bop_false.
  intros Ha Hb. assert (op a b = op a b mod 2 ^ 8) as ->; [|apply Z.mod_pos_bound; lia].
  apply Z.bits_inj'. intros n Hn. destruct (decide (n < 8)).
  - by rewrite Z.mod_pow2_bits_low by lia.
  - rewrite Z.mod_pow2_bits_high, op_spec by lia.
    rewrite <- (Z.mod_small a (2 ^ 8)), <- (Z.mod_small b (2 ^ 8)) by lia.
    by rewrite !Z.mod_pow2_bits_high by lia.
Qed.

Lemma op_cons a b x y :
  0 <= a < 256 -> 0 <= b < 256 -> op (a + 256 * x) (b + 256 * y) = op a b + 256 * op x y.
Proof using op_spec bop_false.
  intros Ha Hb. pose proof (op_byte_range a b Ha Hb) as Hr. apply Z.bits_inj'. intros n Hn.
  destruct (decide (n < 8)).
  - rewrite op_spec, !testbit_low by lia. by rewrite op_spec.
  - rewrite op_spec, !testbit_high by lia. by rewrite op_spec.
Qed.

Definition byte_op (a b : byte) : byte := z2b (op (b2z a) (b2z b)).

Lemma b2z_byte_op a b : b2z (byte_op a b) = op (b2z a) (b2z b).
Proof using op_spec bop_false.
  unfold byte_op. rewrite b2z_z2b. apply wrapu_small. apply op_byte_range; apply b2z_range.
Qed.

Lemma le_value_op l k : length l = length k -> le_value (zip_with byte_op l k) = op (le_value l) (le_value k).
Proof using op_spec bop_false.
  revert k. induction l as [|a l IH]; intros [|b k] Hl; try done; cbn [zip_with le_value].
  - apply Z.bits_inj'. intros n Hn. by rewrite op_spec, !Z.bits_0.
  - rewrite IH by (cbn in Hl; lia). rewrite b2z_byte_op, op_cons; [done|apply b2z_range..].
Qed.

Lemma le_bytes_op n x y : 0 <= x < 2 ^ (8 * Z.of_nat n) -> 0 <= y < 2 ^ (8 * Z.of_nat n) ->
  le_bytes n (op x y) = zip_with byte_op (le_bytes n x) (le_bytes n y).
Proof using op_spec bop_false.
  intros Hx Hy. pose proof (le_value_op (le_bytes n x) (le_bytes n y)) as E.
  rewrite !le_bytes_length, !le_value_bytes, (Z.mod_small x), (Z.mod_small y) in E by lia.
  rewrite <- (E eq_refl). replace n with (length (zip_with byte_op (le_bytes n x) (le_bytes n y))) at 1.
  - apply le_bytes_value.
  - rewrite length_zip_with_l_eq; [apply le_bytes_length|]. by rewrite !le_bytes_length.
Qed.

Lemma rev_zip_with l k :
  length l = length k -> rev (zip_with byte_op l k) = zip_with byte_op (rev l) (rev k).
Proof using.
  clear. revert k. induction l as [|a l IH]; intros [|b k] Hl; try done. cbn in Hl |- *.
  rewrite IH by lia. by rewrite zip_with_app by (rewrite !length_rev; lia).
Qed.

Lemma bswap_op n x y : 0 <= x < 2 ^ (8 * Z.of_nat n) -> 0 <= y < 2 ^ (8 * Z.of_nat n) ->
  bswap n (op x y) = op (bswap n x) (bswap n y).
Proof using op_spec bop_false.
  intros Hx Hy. unfold bswap. rewrite le_bytes_op, rev_zip_with by (done || by rewrite !le_bytes_length).
  apply le_value_op. by rewrite !length_rev, !le_bytes_length.
Qed.
End Bitwise.

Lemma bswap_bswap n z : 0 <= z < 2 ^ (8 * Z.of_nat n) -> bswap n (bswap n z) = z.
Proof.
  intros Hz. unfold bswap. replace n with (length (rev (le_bytes n z))) at 1 by (by rewrite length_rev, le_bytes_length).
  rewrite le_bytes_value, rev_involutive, le_value_bytes. by apply Z.mod_small.
Qed.

Section Masks.
Context `{Host}.

(** A 32-bit number in the other of host and network order. *)
Abbreviation net32 := (ByteSwapOnLittleEndian uint32_t).

Lemma net32_bswap z : 0 <= z < 2 ^ 32 -> net32 z = z \/ net32 z = bswap 4 z.
Proof.
  intros Hz. unfold ByteSwapOnLittleEndian. destruct (_ =? _); [by left|right]. unfold ByteSwap, cast. cbn [isigned uint32_t].
  change (ibits uint32_t) with 32. rewrite (wrapu_small 32 z) by done.
  apply wrapu_small. apply (bswap_range 4).
Qed.

Lemma net32_range z : 0 <= z < 2 ^ 32 -> 0 <= net32 z < 2 ^ 32.
Proof. intros Hz. destruct (net32_bswap z Hz) as [-> | ->]; [done|apply (bswap_range 4)]. Qed.

Lemma net32_net32 z : 0 <= z < 2 ^ 32 -> net32 (net32 z) = z.
Proof.
  intros Hz. unfold ByteSwapOnLittleEndian. destruct (_ =? _); [done|]. unfold ByteSwap, cast. cbn [isigned uint32_t].
  change (ibits uint32_t) with 32. change (ibytes uint32_t) with 4%nat. rewrite (wrapu_small 32 z) by done.
  rewrite !(wrapu_small 32 (bswap _ _)) by apply (bswap_range 4). rewrite bswap_bswap by done. done.
Qed.

Lemma lor_range32 x y : 0 <= x < 2 ^ 32 -> 0 <= y < 2 ^ 32 -> 0 <= Z.lor x y < 2 ^ 32.
Proof.
  intros Hx Hy. split; [apply Z.lor_nonneg; lia|]. rewrite <- (Z.mod_small x (2 ^ 32)), <- (Z.mod_small y (2 ^ 32)) by done.
  rewrite <- !Z.land_ones by lia. rewrite <- Z.land_lor_distr_l, Z.land_ones by lia. apply Z.mod_pos_bound. lia.
Qed.

Lemma land_range32 x y : 0 <= x < 2 ^ 32 -> 0 <= y -> 0 <= Z.land x y < 2 ^ 32.
Proof.
  intros Hx Hy. split; [apply Z.land_nonneg; lia|]. rewrite <- (Z.mod_small x (2 ^ 32)) by done.
  rewrite <- Z.land_ones by lia. rewrite <- Z.land_assoc, (Z.land_comm (Z.ones 32)), Z.land_assoc, Z.land_ones by lia.
  apply Z.mod_pos_bound. lia.
Qed.

Lemma net32_lor x y : 0 <= x < 2 ^ 32 -> 0 <= y < 2 ^ 32 -> net32 (Z.lor x y) = Z.lor (net32 x) (net32 y).
Proof.
  intros Hx Hy. unfold ByteSwapOnLittleEndian. destruct (_ =? _); [done|]. unfold ByteSwap, cast. cbn [isigned uint32_t].
  change (ibits uint32_t) with 32. change (ibytes uint32_t) with 4%nat.
  rewrite !(wrapu_small 32 (bswap _ _)) by apply (bswap_range 4).
  rewrite !wrapu_small by (done || by apply lor_range32). by apply (bswap_op _ orb Z.lor_spec).
Qed.

Lemma net32_land x y : 0 <= x < 2 ^ 32 -> 0 <= y < 2 ^ 32 -> net32 (Z.land x y) = Z.land (net32 x) (net32 y).
Proof.
  intros Hx Hy. unfold ByteSwapOnLittleEndian. destruct (_ =? _); [done|]. unfold ByteSwap, cast. cbn [isigned uint32_t].
  change (ibits uint32_t) with 32. change (ibytes uint32_t) with 4%nat.
  rewrite !(wrapu_small 32 (bswap _ _)) by apply (bswap_range 4).
  rewrite !wrapu_small by (done || (apply land_range32; lia)). by apply (bswap_op _ andb Z.land_spec).
Qed.

Lemma CreateMask32 p : 2 <= p <= 32 -> CreateMask uint32_t p = Ok (2 ^ (32 - p) - 1).
Proof.
  intros Hp. unfold CreateMask. change (ibits uint32_t) with 32. unfold u64. rewrite wrapu_small by lia.
  rewrite (proj2 (Z.leb_gt _ _)) by lia. rewrite Z.shiftl_1_l. f_equal.
  pose proof (Z.pow_pos_nonneg 2 (32 - p) ltac:(lia) ltac:(lia)).
  pose proof (Z.pow_le_mono_r 2 (32 - p) 30 ltac:(lia) ltac:(lia)). unfold cast. cbn [isigned uint32_t]. change (ibits uint32_t) with 32. apply wrapu_small. lia.
Qed.

(** The address of an IPv4 structure in host order. *)
Definition host_addr (i : sockaddr_in) : Z := net32 (s_addr i).

(** For a prefix of 2 to 32 bits [BroadcastAddress] sets the host part of the
    address; [NetworkAddress], which should clear it, keeps it and clears the
    network part instead, because it uses the same mask.  Both keep the port. *)
Theorem ipv4_masks i p :
  0 <= s_addr i < 2 ^ 32 -> 2 <= p <= 32 ->
  exists b n, BroadcastAddress4 i p = Ok (Some (IPv4Address b)) /\ NetworkAddress4 i p = Ok (Some (IPv4Address n)) /\
    host_addr b = Z.lor (host_addr i) (2 ^ (32 - p) - 1) /\
    host_addr n = host_addr i mod 2 ^ (32 - p) /\
    sin_port b = sin_port i /\ sin_port n = sin_port i.
Proof.
  intros Hi Hp. unfold BroadcastAddress4, NetworkAddress4. rewrite (proj2 (Z.ltb_ge 32 p)) by lia.
  rewrite CreateMask32 by done. set (m := 2 ^ (32 - p) - 1).
  pose proof (Z.pow_pos_nonneg 2 (32 - p) ltac:(lia) ltac:(lia)).
  pose proof (Z.pow_le_mono_r 2 (32 - p) 30 ltac:(lia) ltac:(lia)).
  assert (0 <= m < 2 ^ 32) as Hm by lia. pose proof (net32_range m Hm).
  eexists _, _. split; [reflexivity|]. split; [reflexivity|]. unfold host_addr. cbn [s_addr sin_port].
  rewrite net32_lor, net32_land, net32_net32 by done. split_and!; try done.
  unfold m. replace (2 ^ (32 - p) - 1) with (Z.ones (32 - p)) by (rewrite Z.ones_equiv; lia).
  apply Z.land_ones. lia.
Qed.

(** The netmask of a prefix and what [CountBytes] makes of it. *)
Definition subnet_check (p : Z) : bool :=
  match SubnetAddress4 p with
  | Ok (IPv4Address i) =>
      (net32 (s_addr i) =? 2 ^ 32 - 2 ^ (32 - p)) &&
      match CountBytes uint32_t (s_addr i) with Ok n => n =? p | Fail _ => false end
  | _ => false
  end.

(** [SubnetAddress] and [CountBytes] are inverse: the netmask of a prefix of 2 to
    32 bits is the number whose first bits are set, and counting its bits, in
    either byte order and within the loop's bound, gives the prefix back. *)
Theorem subnet_roundtrip p :
  2 <= p <= 32 ->
  exists i, SubnetAddress4 p = Ok (IPv4Address i) /\ host_addr i = 2 ^ 32 - 2 ^ (32 - p) /\
    CountBytes uint32_t (s_addr i) = Ok p.
Proof.
  intros Hp. assert (forallb subnet_check (map Z.of_nat (seq 2 31)) = true) as Hall.
  { unfold subnet_check, SubnetAddress4, ByteSwapOnLittleEndian.
    destruct host_order as [Ho|Ho]; rewrite Ho; vm_compute; reflexivity. }
  rewrite forallb_forall in Hall. specialize (Hall p). unfold subnet_check in Hall.
  destruct (SubnetAddress4 p) as [[i| | |]|] eqn:E;
    try (specialize (Hall ltac:(apply in_map_iff; exists (Z.to_nat p); split; [lia|apply in_seq; lia])); done).
  specialize (Hall ltac:(apply in_map_iff; exists (Z.to_nat p); split; [lia|apply in_seq; lia])).
  apply andb_prop in Hall as [H1 H2]. exists i. split; [done|]. split; [by apply Z.eqb_eq in H1|].
  destruct (CountBytes uint32_t (s_addr i)) as [n|]; [|done]. apply Z.eqb_eq in H2. by subst.
Qed.
End Masks.

(** ** Names with a port *)

Definition bytes (s : string) : list byte := String.list_byte_of_string s.

(** Splitting a name: [host:port] gives the host and the port; but the port of a
    bracketed IPv6 address is dropped, a bracketed address without a port makes the
    resolver read past the end of the string, and an IPv6 address without brackets
    is handed over whole with a part of itself as the service. *)
Theorem split_host_cases :
  split_host (bytes "example.com:80") = (bytes "example.com", Some 12%nat) /\
  service_at (bytes "example.com:80") (Some 12%nat) = Ok (Some (bytes "80")) /\
  split_host (bytes "[::1]:80") = (bytes "::1", None) /\
  split_host (bytes "[::1]") = (bytes "::1", Some 6%nat) /\
  service_at (bytes "[::1]") (Some 6%nat) = Fail undefined /\
  split_host (bytes "fe80::1") = (bytes "fe80::1", Some 4%nat) /\
  service_at (bytes "fe80::1") (Some 4%nat) = Ok (Some (bytes "::1")).
Proof. vm_compute. split_and!; reflexivity. Qed.

(** ** The theorems at concrete addresses *)

(** 192.168.1.77, port 80 *)
Definition demo_addr `{Host} : sockaddr_in := new_IPv4Address 3232235853 80.

Lemma demo_printed :
  @ToString host_x86 (IPv4Address (@demo_addr host_x86)) = "[IPv4 192.168.1.77:80]" /\
  @ToString host_x86 (IPv6Address (@new_IPv6Address_bytes host_x86 (zeros 15 ++ [x01]) 80)) = "[IPv6 [::1]:80]".
Proof. vm_compute. split; reflexivity. Qed.

Lemma address_order_witness :
  let a := IPv4Address (@demo_addr host_x86) in let b := new_UnixAddress in
  @Address_lt host_x86 a a = false /\
  b2n (@Address_lt host_x86 a b) + b2n (@Address_eq host_x86 a b) + b2n (@Address_lt host_x86 b a) = 1.
Proof.
  destruct (@address_order host_x86 (IPv4Address (@demo_addr host_x86)) new_UnixAddress new_UnixAddress)
    as (H1 & _ & H2); [by vm_compute..|]. exact (conj H1 H2).
Defined.

Lemma ipv4_masks_witness :
  exists b n, @BroadcastAddress4 host_x86 (@demo_addr host_x86) 24 = Ok (Some (IPv4Address b)) /\
    @NetworkAddress4 host_x86 (@demo_addr host_x86) 24 = Ok (Some (IPv4Address n)) /\
    @host_addr host_x86 n = 77.
Proof.
  destruct (@ipv4_masks host_x86 (@demo_addr host_x86) 24) as (b & n & H1 & H2 & _ & H3 & _);
    [vm_compute; by split|lia|]. exists b, n. exact (conj H1 (conj H2 H3)).
Defined.

Lemma subnet_roundtrip_witness :
  exists i, @SubnetAddress4 host_x86 24 = Ok (IPv4Address i) /\ @host_addr host_x86 i = 2 ^ 32 - 2 ^ (32 - 24) /\
    CountBytes uint32_t (s_addr i) = Ok 24.
Proof. apply (@subnet_roundtrip host_x86 24). lia. Defined.
