(* ===== verification/Uri.v ===== *)
(** * URIs: [gudov/uri.h], [gudov/uri.rl]

    The grammar of [uri.rl], expression by expression, its actions, and the class. *)

From S2P Require Import Prelude Endian Address Ragel.
From stdpp Require Import base numbers list strings pretty.
From Stdlib Require Import NArith ZArith Lia Ascii.
Open Scope Z_scope.

(** ** The class *)

Record Uri := mkUri {
  scheme_ : string;
  user_info_ : string;
  uhost_ : string;
  upath_ : string;
  uquery_ : string;
  ufragment_ : string;
  uport_ : Z }.

Definition new_Uri : Uri := mkUri EmptyString EmptyString EmptyString EmptyString EmptyString EmptyString 0.

Definition SetScheme v u := mkUri v (user_info_ u) (uhost_ u) (upath_ u) (uquery_ u) (ufragment_ u) (uport_ u).
Definition SetUserinfo v u := mkUri (scheme_ u) v (uhost_ u) (upath_ u) (uquery_ u) (ufragment_ u) (uport_ u).
Definition SetHost v u := mkUri (scheme_ u) (user_info_ u) v (upath_ u) (uquery_ u) (ufragment_ u) (uport_ u).
Definition SetPath v u := mkUri (scheme_ u) (user_info_ u) (uhost_ u) v (uquery_ u) (ufragment_ u) (uport_ u).
Definition SetQuery v u := mkUri (scheme_ u) (user_info_ u) (uhost_ u) (upath_ u) v (ufragment_ u) (uport_ u).
Definition SetFragment v u := mkUri (scheme_ u) (user_info_ u) (uhost_ u) (upath_ u) (uquery_ u) v (uport_ u).
Definition SetPort v u := mkUri (scheme_ u) (user_info_ u) (uhost_ u) (upath_ u) (uquery_ u) (ufragment_ u) v.

Definition nonempty_text (s : string) : bool := negb (String.eqb s EmptyString).

Definition IsDefaultPort (u : Uri) : bool :=
  if uport_ u =? 0 then true
  else if String.eqb (scheme_ u) "http" then uport_ u =? 80
  else if String.eqb (scheme_ u) "https" then uport_ u =? 443
  else false.

Definition GetPath (u : Uri) : string := if nonempty_text (upath_ u) then upath_ u else "/".

Definition GetPort (u : Uri) : Z :=
  if negb (uport_ u =? 0) then uport_ u
  else if String.eqb (scheme_ u) "http" then 80
  else if String.eqb (scheme_ u) "https" then 443
  else uport_ u.

Definition Dump_uri (u : Uri) : string :=
  scheme_ u +:+ "://" +:+ user_info_ u +:+ (if nonempty_text (user_info_ u) then "@" else EmptyString) +:+ uhost_ u +:+
  (if IsDefaultPort u then EmptyString else ":" +:+ pretty (uport_ u)) +:+ GetPath u +:+
  (if nonempty_text (uquery_ u) then "?" else EmptyString) +:+ uquery_ u +:+
  (if nonempty_text (ufragment_ u) then "#" else EmptyString) +:+ ufragment_ u.

Definition ToString (u : Uri) : string := Dump_uri u.

(** The port is converted to the [uint16_t] of [IPAddress::SetPort]. *)
Definition CreateAddress `{Host} `{Resolver} (u : Uri) : result (option Address.Address) :=
  match LookupAnyIPAddress (String.list_byte_of_string (uhost_ u)) AF_INET 0 0 with
  | Fail e => Fail e
  | Ok None => Ok None
  | Ok (Some addr) => Ok (Some (Address.SetPort (u16 (GetPort u)) addr))
  end.

(** ** The grammar *)

Inductive uri_action :=
  | marku | markh | save_scheme | save_port | save_userinfo | save_host | save_path | save_query | save_fragment.

#[global] Instance uri_action_eq_dec : EqDecision uri_action.
Proof. solve_decision. Defined.

Module UriGrammar.
Local Open Scope ragel_scope.
Abbreviation rl := (rx uri_action).

Definition sub_delims_c : cls := one_of "!$&'()*+,;=".
Definition unreserved_c : cls := alpha ++ digit ++ one_of "-._~".
Definition sub_delims : rl := Chr sub_delims_c.
Definition unreserved : rl := Chr unreserved_c.
Definition pct_encoded : rl := lit "%" ~. Chr xdigit ~. Chr xdigit.

Definition scheme : rl := (Chr alpha ~. star (Chr (alpha ++ digit ++ one_of "+-."))) >. marku %. save_scheme.

Definition userinfo : rl := star (unreserved |. pct_encoded |. sub_delims |. lit ":").

(** The [2] of the fourth case is the character of code 2. *)
Definition dec_octet : rl :=
  Chr digit |. (Chr [(49, 57)%N] ~. Chr digit) |. (lit "1" ~. rep 2 (Chr digit)) |.
  (Chr (code 2) ~. Chr [(48, 52)%N] ~. Chr digit) |. (lit "25" ~. Chr [(48, 53)%N]).
Definition IPv4address : rl := dec_octet ~. lit "." ~. dec_octet ~. lit "." ~. dec_octet ~. lit "." ~. dec_octet.
Definition h16 : rl := rep_upto 1 3 (Chr xdigit).
Definition ls32 : rl := (h16 ~. lit ":" ~. h16) |. IPv4address.
Definition h16c : rl := h16 ~. lit ":".
Definition IPv6address : rl :=
  (rep 6 h16c ~. ls32) |.
  (lit "::" ~. rep 5 h16c ~. ls32) |.
  (opt h16 ~. lit "::" ~. rep 4 h16c ~. ls32) |.
  (opt (rep 1 h16c ~. h16) ~. lit "::" ~. rep 3 h16c ~. ls32) |.
  (opt (rep 2 h16c ~. h16) ~. lit "::" ~. rep 2 h16c ~. ls32) |.
  (opt (rep 3 h16c ~. h16) ~. lit "::" ~. rep 1 h16c ~. ls32) |.
  (opt (rep 4 h16c ~. h16) ~. lit "::" ~. ls32) |.
  (opt (rep 5 h16c ~. h16) ~. lit "::" ~. h16) |.
  (opt (rep 6 h16c ~. h16) ~. lit "::").
Definition IPvFuture : rl := lit "v" ~. many1 (Chr xdigit) ~. lit "." ~. many1 (unreserved |. sub_delims |. lit ":").
Definition IP_literal : rl := lit "[" ~. (IPv6address |. IPvFuture) ~. lit "]".
Definition reg_name : rl := star (unreserved |. pct_encoded |. sub_delims).

(** [IP_literal] and [IPv4address] are referred to by number. *)
#[export] Instance uri_defs : Defs uri_action := {| defs := [IP_literal; IPv4address]; defs_closed := ltac:(repeat constructor) |}.

Definition host : rl := Sub 0 |. Sub 1 |. reg_name.
Definition port : rl := star (Chr digit).

Definition authority : rl :=
  (opt (userinfo %. save_userinfo ~. lit "@") ~. host >. markh %. save_host ~. opt (lit ":" ~. port >. markh %. save_port)) >. markh.

Definition pchar : rl := Chr (cls_minus any ascii_) |. unreserved |. pct_encoded |. sub_delims |. lit ":" |. lit "@".

(** [pchar - ":"] *)
Definition pchar_nc : rl := Chr (cls_minus any ascii_) |. unreserved |. pct_encoded |. sub_delims |. lit "@".
Definition segment : rl := star pchar.
Definition segment_nz : rl := many1 pchar.
Definition segment_nz_nc : rl := many1 pchar_nc.

Definition path_abempty : rl := opt (lit "/" ~. segment) ~. star (lit "/" ~. segment).
Definition path_absolute : rl := lit "/" ~. opt (segment_nz ~. star (lit "/" ~. segment)).
Definition path_noscheme : rl := segment_nz_nc ~. star (lit "/" ~. segment).
Definition path_rootless : rl := segment_nz ~. star (lit "/" ~. segment).
Definition path_empty : rl := Eps.

Definition query : rl := star (pchar |. lit "/" |. lit "?") >. marku %. save_query.
Definition fragment : rl := star (pchar |. lit "/" |. lit "?") >. marku %. save_fragment.

Definition hier_part : rl :=
  (lit "//" ~. authority ~. path_abempty >. markh %. save_path) |. path_absolute |. path_rootless |. path_empty.
Definition relative_part : rl := (lit "//" ~. authority ~. path_abempty) |. path_absolute |. path_noscheme |. path_empty.
Definition relative_ref : rl := relative_part ~. opt (lit "?" ~. query) ~. opt (lit "#" ~. fragment).

Definition URI : rl := scheme ~. lit ":" ~. hier_part ~. opt (lit "?" ~. query) ~. opt (lit "#" ~. fragment).
Definition URI_reference : rl := URI |. relative_ref.
Definition main : rl := numbered URI_reference.
End UriGrammar.
Import UriGrammar.

(** ** [Uri::Create] *)

(** What the actions work on: [mark], null or an offset of the text, and the result. *)
Record uri_parse := mkParse { mark_ : option nat; uri_ : Uri }.

Section Create.
Context (text : list ascii).

Definition part (i j : nat) : string := String.string_of_list_ascii (take (j - i) (drop i text)).

(** [atoi(mark)]: the digits from there; a number that is no [int] is undefined. *)
Fixpoint digits_value (acc : Z) (l : list ascii) : Z :=
  match l with
  | x :: l => if mem digit x then digits_value (acc * 10 + (Z.of_N (N_of_ascii x) - 48)) l else acc
  | [] => acc
  end.
Definition atoi_at (i : nat) : result Z :=
  let v := digits_value 0 (drop i text) in if v <? 2 ^ 31 then Ok v else Fail undefined.

(** [uri->Set...(std::string(mark, fpc - mark)); mark = NULL;] *)
Definition save (set : string -> Uri -> Uri) (keep_mark : bool) (fpc : nat) (e : uri_parse) : result (uri_parse * bool) :=
  match mark_ e with
  | Some m => Ok (mkParse (if keep_mark then Some m else None) (set (part m fpc) (uri_ e)), false)
  | None => Fail undefined
  end.

Definition uri_act (a : uri_action) (fpc : nat) (e : uri_parse) : result (uri_parse * bool) :=
  match a with
  | marku | markh => Ok (mkParse (Some fpc) (uri_ e), false)
  | save_scheme => save SetScheme false fpc e
  | save_port =>
      if decide (mark_ e = Some fpc) then Ok (mkParse None (uri_ e), false)
      else match mark_ e with
           | Some m => match atoi_at m with Ok v => Ok (mkParse None (SetPort v (uri_ e)), false) | Fail x => Fail x end
           | None => Fail undefined
           end
  | save_userinfo => match mark_ e with Some _ => save SetUserinfo false fpc e | None => Ok (mkParse None (uri_ e), false) end
  | save_host => match mark_ e with Some _ => save SetHost true fpc e | None => Ok (e, false) end
  | save_path => save SetPath false fpc e
  | save_query => save SetQuery false fpc e
  | save_fragment => save SetFragment false fpc e
  end.

(** What follows [write exec]: the actions at the end of the text ran, and [cs] tells
    whether the machine is in a final state. *)
Definition finish (r : result (option (state uri_action) * nat * uri_parse)) : result (option Uri) :=
  match r with
  | Ok (Some s, i, e) =>
      match do_actions uri_act (eof_actions s) i e with
      | Ok (e, _) => Ok (if accepting s then Some (uri_ e) else None)
      | Fail x => Fail x
      end
  | Ok (None, _, _) => Ok None
  | Fail x => Fail x
  end.

Definition create : result (option Uri) := finish (run uri_act [main] 0 text (mkParse None new_Uri)).
End Create.

Definition Create (uristr : string) : result (option Uri) := create (String.list_ascii_of_string uristr).

(** ** The states of a URI

    The machine goes through a few groups of states while it reads the text of a URI with
    an authority.  The classes are cut so finely that each of them is treated alike. *)

Module UriStates.
Definition digit_atoms : list cls := [code 48; code 49; code 50; [(51, 52)%N]; code 53; [(54, 57)%N]].
Definition pct : list cls := [chr "%"; xdigit; xdigit].

Definition scheme_units : list (list cls) := singles [alpha; digit; one_of "-."; one_of "+"].
(** Of a registered name, and of user information without a colon. *)
Definition name_units : list (list cls) :=
  pct :: singles (alpha :: one_of "-_~" :: one_of "." :: sub_delims_c :: digit_atoms).
Definition path_units : list (list cls) := pct :: singles [cls_minus any ascii_; unreserved_c; sub_delims_c; chr ":"; chr "@"; chr "/"].
Definition query_units : list (list cls) := singles [chr "?"] ++ path_units.

Definition g_start : list (state uri_action) := [[main]].
Definition g_scheme := closure 20 scheme_units (follow g_start alpha) [].
Definition g_colon := follow g_scheme (chr ":").
Definition g_slash := follow g_colon (chr "/").
Definition g_authority := follow g_slash (chr "/").
Definition g_name := closure 2000 name_units (follow_units g_authority name_units) [].
Definition g_at := follow g_name (chr "@").
Definition g_host := closure 2000 name_units (follow_units g_at name_units) [].
Definition g_hosts := g_name ++ g_host.
Definition g_port0 := follow g_hosts (chr ":").
Definition g_port := closure 20 (singles [digit]) (follow g_port0 digit) [].
Definition g_path := closure 20 path_units (follow g_hosts (chr "/") ++ follow g_port (chr "/")) [].
Definition g_query0 := follow g_path (chr "?").
Definition g_query := closure 20 query_units (follow_units g_query0 query_units) [].
Definition g_fragment0 := follow g_path (chr "#") ++ follow g_query (chr "#").
Definition g_fragment := closure 20 query_units (follow_units g_fragment0 query_units) [].

(** What runs at the end of the text. *)
Definition ends (g : list (state uri_action)) (l : list uri_action) : bool := forallb (fun s => acts_eqb (eof_actions s) l && accepting s) g.
End UriStates.
Import UriStates.

(** Where each character leads and what it runs. *)
Lemma uri_edges :
  edge g_start alpha [marku] g_scheme && loops g_scheme scheme_units &&
  edge g_scheme (chr ":") [save_scheme] g_colon && edge g_colon (chr "/") [] g_slash && edge g_slash (chr "/") [] g_authority &&
  enters g_authority [markh] name_units g_name && loops g_name name_units &&
  edge g_name (chr "@") [save_userinfo] g_at && enters g_at [markh] name_units g_host && loops g_host name_units &&
  edge g_hosts (chr ":") [save_host] g_port0 && edge g_port0 digit [markh] g_port && loops g_port (singles [digit]) &&
  edge g_hosts (chr "/") [save_host; markh] g_path && edge g_port (chr "/") [save_port; markh] g_path && loops g_path path_units &&
  edge g_path (chr "?") [save_path] g_query0 && enters g_query0 [marku] query_units g_query && loops g_query query_units &&
  edge g_path (chr "#") [save_path] g_fragment0 && edge g_query (chr "#") [save_query] g_fragment0 &&
  enters g_fragment0 [marku] query_units g_fragment && loops g_fragment query_units &&
  ends g_path [save_path] && ends g_query [save_query] && ends g_fragment [save_fragment] = true.
Proof. vm_compute. reflexivity. Qed.

(** ** The language of [Create] *)

Lemma uri_act_goes_on text a i e e' : uri_act text a i e <> Ok (e', true).
Proof. destruct a; unfold uri_act, save; repeat case_match; congruence. Qed.

Lemma main_plain : plain [main].
Proof. split; repeat constructor. Qed.



(** ** Reading a URI back

    What the text of a URI with an authority does to the machine, from its end to its
    beginning; [pre] is what was read before. *)

(** One of the facts above. *)
Ltac uri_fact :=
  let H := fresh in pose proof uri_edges as H;
  repeat match goal with H : _ && _ = true |- _ => apply andb_prop in H as [? ?] end;
  match goal with H : ?P |- ?Q => constr_eq P Q; exact H end.

Section ReadBack.
Context (text : list ascii).
#[local] Abbreviation chars := String.list_ascii_of_string.
#[local] Abbreviation go s i w e := (finish text (run (uri_act text) s i w e)).

Lemma part_mid pre mid post i j : text = pre ++ chars mid ++ post -> i = length pre -> j = (i + length (chars mid))%nat -> part text i j = mid.
Proof.
  intros Ht -> ->. unfold part. rewrite Nat.add_comm, Nat.add_sub, Ht, drop_app_length, take_app_length.
  apply String.string_of_list_ascii_of_string.
Qed.

Definition tagged (x : ascii) (v : string) : list ascii := if nonempty_text v then x :: chars v else [].

(** The end of a part that is saved by [a] with [set]. *)
Definition saves (a : uri_action) (set : string -> Uri -> Uri) : Prop := forall i e, uri_act text a i e = save text set false i e.

Lemma uri_go_end g a set s pre mid u i : saves a set -> ends g [a] = true -> s ∈ g -> text = pre ++ chars mid -> i = (length pre + length (chars mid))%nat ->
  go s i [] (mkParse (Some (length pre)) u) = Ok (Some (set mid u)).
Proof.
  intros Ha He Hs Ht ->. unfold ends in He. rewrite forallb_forall in He. specialize (He s (proj1 (list_elem_of_In _ _) Hs)).
  apply andb_true_iff in He as [El%bool_decide_eq_true Hacc]. cbn. rewrite El, Hacc. cbn. rewrite Ha. cbn.
  by rewrite (part_mid pre mid []) by (rewrite ?app_nil_r; auto).
Qed.

Lemma nonempty_chars v : nonempty_text v = true -> chars v <> [].
Proof. by destruct v. Qed.

(** The fragment, behind a part that [a] saves. *)
Lemma uri_go_fragment g a set s pre mid f u : saves a set -> ends g [a] = true -> edge g (chr "#") [a] g_fragment0 = true -> s ∈ g ->
  text = pre ++ chars mid ++ tagged "#" f -> made query_units (chars f) -> ufragment_ (set mid u) = EmptyString ->
  go s (length pre + length (chars mid)) (tagged "#" f) (mkParse (Some (length pre)) u) = Ok (Some (SetFragment f (set mid u))).
Proof.
  intros Ha He Hed Hs Ht Hf Hu. unfold tagged in *. destruct (nonempty_text f) eqn:Ef.
  - destruct (run_edge (uri_act text) _ _ _ _ s "#"%char Hed Hs eq_refl) as (s1 & Hs1 & ->). cbn [do_actions]. rewrite Ha. cbn.
    rewrite (part_mid pre mid _ _ _ Ht) by done.
    destruct (run_enters (uri_act text) g_fragment0 [marku] query_units g_fragment s1 (chars f)) as (s2 & Hs2 & Hr); [uri_fact..|exact Hs1|assumption|by apply nonempty_chars|].
    rewrite <- (app_nil_r (chars f)) at 1. rewrite (Hr _ _ _ (mkParse (Some (S (length pre + length (chars mid)))) (set mid u))) by done.
    rewrite <- (length_app pre), <- (last_length _ "#"%char).
    apply (uri_go_end g_fragment save_fragment); [done|uri_fact|exact Hs2|by rewrite Ht, <- !app_assoc|].
    rewrite last_length, length_app. lia.
  - assert (f = EmptyString) as -> by by destruct f. rewrite app_nil_r in Ht. rewrite (uri_go_end g a set _ pre mid) by first [assumption | reflexivity].
    f_equal. f_equal. destruct (set mid u). cbn in Hu. by rewrite Hu.
Qed.

(** The query and what follows, behind the path. *)
Lemma uri_go_query s pre p q f u : s ∈ g_path -> text = pre ++ chars p ++ tagged "?" q ++ tagged "#" f ->
  made query_units (chars q) -> made query_units (chars f) -> uquery_ u = EmptyString -> ufragment_ u = EmptyString ->
  go s (length pre + length (chars p)) (tagged "?" q ++ tagged "#" f) (mkParse (Some (length pre)) u) =
    Ok (Some (SetFragment f (SetQuery q (SetPath p u)))).
Proof.
  intros Hs Ht Hq Hf Hu Hu'. unfold tagged in Ht |- * at 1. destruct (nonempty_text q) eqn:Eq.
  - cbn [app]. destruct (run_edge (uri_act text) g_path (chr "?") [save_path] g_query0 s "?"%char) as (s1 & Hs1 & ->); [uri_fact|exact Hs|reflexivity|]. cbn.
    rewrite (part_mid pre p _ _ _ Ht) by done.
    destruct (run_enters (uri_act text) g_query0 [marku] query_units g_query s1 (chars q)) as (s2 & Hs2 & Hr); [uri_fact..|exact Hs1|assumption|by apply nonempty_chars|].
    rewrite (Hr _ _ _ (mkParse (Some (S (length pre + length (chars p)))) (SetPath p u))) by done.
    rewrite <- (length_app pre), <- (last_length _ "?"%char).
    apply (uri_go_fragment g_query save_query); [done|uri_fact..|exact Hs2|by rewrite Ht, <- !app_assoc|assumption|done].
  - assert (q = EmptyString) as -> by by destruct q. cbn [app] in Ht |- *. rewrite (uri_go_fragment g_path save_path SetPath) by (assumption || uri_fact || done).
    f_equal. f_equal. destruct u. cbn in Hu, Hu'. by rewrite Hu.
Qed.

Definition rooted (p : string) : Prop := exists w, chars p = "/"%char :: w /\ made path_units w.

(** The path and what follows; [l] ends what is before it and marks the path. *)
Lemma uri_go_path g l s pre p q f e u : edge g (chr "/") l g_path = true -> s ∈ g ->
  do_actions (uri_act text) l (length pre) e = Ok (mkParse (Some (length pre)) u, false) ->
  text = pre ++ chars p ++ tagged "?" q ++ tagged "#" f -> rooted p -> made query_units (chars q) -> made query_units (chars f) ->
  uquery_ u = EmptyString -> ufragment_ u = EmptyString ->
  go s (length pre) (chars p ++ tagged "?" q ++ tagged "#" f) e = Ok (Some (SetFragment f (SetQuery q (SetPath p u)))).
Proof.
  intros Hed Hs Hl Ht (w & Ew & Hw) Hq Hf Hu Hu'. rewrite Ew. cbn [app].
  destruct (run_edge (uri_act text) _ _ _ _ s "/"%char Hed Hs eq_refl) as (s1 & Hs1 & ->). rewrite Hl.
  destruct (run_loops (uri_act text) g_path path_units s1 w) as (s2 & Hs2 & ->); [uri_fact|exact Hs1|exact Hw|].
  rewrite <- (uri_go_query s2 pre p q f u); [|assumption..]. rewrite Ew. cbn [length]. by rewrite Nat.add_succ_r.
Qed.

(** The text of the port. *)
Definition port_text (n : Z) : list ascii := if n =? 0 then [] else ":"%char :: chars (pretty n).

Lemma pretty_char n : (n < 10)%N -> mem digit (pretty_N_char n) = true /\ Z.of_N (N_of_ascii (pretty_N_char n)) - 48 = Z.of_N n.
Proof. intros Hn. destruct n as [|n]; [done|]. do 4 (destruct n as [n|n|]; try done); lia. Qed.

Lemma pretty_go_value x t rest : digits_value 0 (chars (pretty_N_go x t) ++ rest) = digits_value (Z.of_N x) (chars t ++ rest).
Proof.
  revert t. induction (N.lt_wf_0 x) as [x _ IH]; intros t. destruct (decide (0 < x)%N) as [Hx|Hx].
  - rewrite pretty_N_go_step by done. rewrite IH by by apply N.div_lt. cbn [String.list_ascii_of_string app].
    assert (x mod 10 < 10)%N as Hm by by apply N.mod_lt. pose proof (N.div_mod x 10 ltac:(done)) as Hdiv.
    destruct (pretty_char _ Hm) as [Hd Hv].
    cbn [digits_value]. rewrite Hd, Hv. f_equal. lia.
  - assert (x = 0%N) as -> by lia. by rewrite pretty_N_go_0.
Qed.

Lemma pretty_value n rest : 0 < n -> digits_value 0 (chars (pretty n) ++ "/"%char :: rest) = n.
Proof.
  intros Hn. destruct n as [|n|n]; [lia| |lia]. change (pretty (Z.pos n)) with (pretty_N (N.pos n)). unfold pretty_N.
  rewrite decide_False by done. by rewrite pretty_go_value.
Qed.

Lemma pretty_go_digits x t : Forall (fun y => mem digit y = true) (chars t) -> Forall (fun y => mem digit y = true) (chars (pretty_N_go x t)).
Proof.
  revert t. induction (N.lt_wf_0 x) as [x _ IH]; intros t Ht. destruct (decide (0 < x)%N) as [Hx|Hx].
  - rewrite pretty_N_go_step by done. apply IH; [by apply N.div_lt|]. constructor; [|done]. apply pretty_char. by apply N.mod_lt.
  - assert (x = 0%N) as -> by lia. by rewrite pretty_N_go_0.
Qed.

Lemma pretty_made n : 0 < n -> exists x w, chars (pretty n) = x :: w /\ mem digit x = true /\ made (singles [digit]) w.
Proof.
  intros Hn. assert (Forall (fun y => mem digit y = true) (chars (pretty n))) as Hd.
  { destruct n as [|n|n]; [lia| |lia]. change (pretty (Z.pos n)) with (pretty_N (N.pos n)). unfold pretty_N. rewrite decide_False by done.
    by apply pretty_go_digits. }
  pose proof (pretty_value n [] Hn) as Hv. destruct (chars (pretty n)) as [|x w]; [exfalso; assert (0 = n) by exact Hv; lia|].
  inversion Hd. exists x, w. split_and!; [done|done|apply made_chars; eapply Forall_impl; [done|]; intros y Hy; cbn [existsb]; by rewrite Hy].
Qed.

(** The port, the path and what follows, behind the host [h]. *)
Lemma uri_go_port s pre h n p q f u : s ∈ g_hosts -> text = pre ++ chars h ++ port_text n ++ chars p ++ tagged "?" q ++ tagged "#" f ->
  0 <= n < 2 ^ 31 -> rooted p -> made query_units (chars q) -> made query_units (chars f) ->
  uport_ u = 0 -> uquery_ u = EmptyString -> ufragment_ u = EmptyString ->
  go s (length pre + length (chars h)) (port_text n ++ chars p ++ tagged "?" q ++ tagged "#" f) (mkParse (Some (length pre)) u) =
    Ok (Some (SetFragment f (SetQuery q (SetPath p (SetPort n (SetHost h u)))))).
Proof.
  intros Hs Ht Hn Hp Hq Hf Hu0 Hu Hu'. pose proof (part_mid pre h _ _ _ Ht eq_refl eq_refl) as Hh. unfold port_text in *. destruct (n =? 0) eqn:En.
  - apply Z.eqb_eq in En as ->. cbn [app] in Ht |- *. rewrite <- length_app.
    rewrite (uri_go_path g_hosts [save_host; markh] s (pre ++ chars h) p q f _ (SetHost h u)); [|uri_fact|assumption| |by rewrite Ht, <- !app_assoc|assumption..].
    + f_equal. f_equal. destruct u. cbn in Hu0. by rewrite Hu0.
    + cbn. by rewrite length_app, Hh.
  - apply Z.eqb_neq in En. destruct (pretty_made n ltac:(lia)) as (x & w & Ew & Hx & Hw). cbn [app].
    destruct (run_edge (uri_act text) g_hosts (chr ":") [save_host] g_port0 s ":"%char) as (s1 & Hs1 & ->); [uri_fact|exact Hs|reflexivity|].
    cbn [do_actions uri_act save mark_ uri_]. rewrite Hh. rewrite Ew. cbn [app].
    destruct (run_edge (uri_act text) g_port0 digit [markh] g_port s1 x) as (s2 & Hs2 & ->); [uri_fact|exact Hs1|exact Hx|].
    cbn [do_actions uri_act mark_ uri_].
    destruct (run_loops (uri_act text) g_port (singles [digit]) s2 w) as (s3 & Hs3 & ->); [uri_fact|exact Hs2|exact Hw|].
    set (pre' := pre ++ chars h ++ [":"%char]).
    assert (text = pre' ++ chars (pretty n) ++ chars p ++ tagged "?" q ++ tagged "#" f) as Ht'.
    { unfold pre'. by rewrite Ht, <- !app_assoc. }
    replace (S (length pre + length (chars h))) with (length pre') by (unfold pre'; rewrite !length_app; cbn; lia).
    replace (S (length pre') + length w)%nat with (length (pre' ++ chars (pretty n))) by (rewrite length_app, Ew; cbn; lia).
    rewrite (uri_go_path g_port [save_port; markh] s3 (pre' ++ chars (pretty n)) p q f _ (SetPort n (SetHost h u))); [done|uri_fact|assumption| |by rewrite Ht', <- !app_assoc|assumption..].
    cbn. rewrite decide_False by (rewrite length_app, Ew; cbn; intros [=]; lia).
    destruct Hp as (w' & Ep & _). assert (digits_value 0 (drop (length pre') text) = n) as Hd.
    { rewrite Ht', drop_app_length, Ep. cbn [app]. by apply pretty_value; lia. }
    unfold atoi_at. rewrite Hd. by rewrite (proj2 (Z.ltb_lt _ _)) by lia.
Qed.

(** From the authority on: [us] is the user information, [h] the host. *)
Definition user_text (us : string) : list ascii := if nonempty_text us then chars us ++ ["@"%char] else [].

Lemma uri_go_authority s pre us h n p q f u : s ∈ g_authority ->
  text = pre ++ user_text us ++ chars h ++ port_text n ++ chars p ++ tagged "?" q ++ tagged "#" f ->
  made name_units (chars us) -> made name_units (chars h) -> nonempty_text h = true -> 0 <= n < 2 ^ 31 -> rooted p ->
  made query_units (chars q) -> made query_units (chars f) ->
  user_info_ u = EmptyString -> uport_ u = 0 -> uquery_ u = EmptyString -> ufragment_ u = EmptyString -> forall m,
  go s (length pre) (user_text us ++ chars h ++ port_text n ++ chars p ++ tagged "?" q ++ tagged "#" f) (mkParse m u) =
    Ok (Some (SetFragment f (SetQuery q (SetPath p (SetPort n (SetHost h (SetUserinfo us u))))))).
Proof.
  intros Hs Ht Hus Hh Hhn Hn Hp Hq Hf Huu Hu0 Hu Hu' m. apply nonempty_chars in Hhn. unfold user_text in *. destruct (nonempty_text us) eqn:Eus.
  - rewrite <- !app_assoc in Ht |- *.
    destruct (run_enters (uri_act text) g_authority [markh] name_units g_name s (chars us)) as (s1 & Hs1 & Hr); [uri_fact..|exact Hs|exact Hus|by apply nonempty_chars|].
    rewrite (Hr _ _ _ (mkParse (Some (length pre)) u)) by done. cbn [app].
    destruct (run_edge (uri_act text) g_name (chr "@") [save_userinfo] g_at s1 "@"%char) as (s2 & Hs2 & ->); [uri_fact|exact Hs1|reflexivity|].
    cbn [do_actions uri_act save mark_ uri_]. rewrite (part_mid pre us _ _ _ Ht) by done.
    set (pre' := pre ++ chars us ++ ["@"%char]).
    replace (S (length pre + length (chars us))) with (length pre') by (unfold pre'; rewrite !length_app; cbn; lia).
    destruct (run_enters (uri_act text) g_at [markh] name_units g_host s2 (chars h)) as (s3 & Hs3 & Hr3); [uri_fact..|exact Hs2|exact Hh|exact Hhn|].
    rewrite (Hr3 _ _ _ (mkParse (Some (length pre')) (SetUserinfo us u))) by done.
    apply uri_go_port; [|by unfold pre'; rewrite Ht, <- !app_assoc|assumption..]. apply elem_of_app. by right.
  - cbn [app] in Ht |- *.
    destruct (run_enters (uri_act text) g_authority [markh] name_units g_name s (chars h)) as (s1 & Hs1 & Hr); [uri_fact..|exact Hs|exact Hh|exact Hhn|].
    rewrite (Hr _ _ _ (mkParse (Some (length pre)) u)) by done. assert (us = EmptyString) as -> by by destruct us.
    rewrite uri_go_port; [|apply elem_of_app; by left|assumption..]. f_equal. f_equal. destruct u. cbn in Huu. by rewrite Huu.
Qed.
End ReadBack.

(** ** The round trip *)

(** The parts of a URI that the grammar can read back: user information without a colon,
    a registered name as host, a path that is empty or begins with a slash. *)
Record readable (u : Uri) : Prop := {
  ok_scheme : matches UriGrammar.scheme (String.list_ascii_of_string (scheme_ u));
  ok_user : matches reg_name (String.list_ascii_of_string (user_info_ u));
  ok_host : matches reg_name (String.list_ascii_of_string (uhost_ u));
  ok_host_some : nonempty_text (uhost_ u) = true;
  ok_path : matches path_abempty (String.list_ascii_of_string (upath_ u));
  ok_query : matches query (String.list_ascii_of_string (uquery_ u));
  ok_fragment : matches fragment (String.list_ascii_of_string (ufragment_ u));
  ok_port : 0 <= uport_ u < 2 ^ 31 }.

(** What the text keeps: not the port of the scheme, and no empty path. *)
Definition normal (u : Uri) : Uri := SetPort (if IsDefaultPort u then 0 else uport_ u) (SetPath (GetPath u) u).

Lemma dump_chars u : String.list_ascii_of_string (Dump_uri u) =
  String.list_ascii_of_string (scheme_ u) ++ [":"; "/"; "/"]%char ++ user_text (user_info_ u) ++ String.list_ascii_of_string (uhost_ u) ++
  port_text (uport_ (normal u)) ++ String.list_ascii_of_string (GetPath u) ++ tagged "?" (uquery_ u) ++ tagged "#" (ufragment_ u).
Proof.
  unfold Dump_uri, normal, user_text, port_text, tagged. rewrite !chars_app. cbn [SetPort SetPath uport_].
  assert (forall v, nonempty_text v = false -> String.list_ascii_of_string v = []) as Hemp by by intros [].
  assert (IsDefaultPort u = false -> (uport_ u =? 0) = false) as Hport by (unfold IsDefaultPort; by destruct (uport_ u =? 0)).
  destruct (IsDefaultPort u); [|rewrite Hport by done];
    destruct (nonempty_text (user_info_ u)) eqn:E1, (nonempty_text (uquery_ u)) eqn:E2, (nonempty_text (ufragment_ u)) eqn:E3;
    rewrite ?(Hemp _ E1), ?(Hemp _ E2), ?(Hemp _ E3), ?app_nil_r, <- ?app_assoc; reflexivity.
Qed.

Lemma path_rooted u : matches path_abempty (String.list_ascii_of_string (upath_ u)) -> rooted (GetPath u).
Proof.
  unfold GetPath, rooted. destruct (upath_ u) as [|x p]; intros Hm; [exists []; split; [done|constructor]|].
  cbn in Hm |- *. destruct (first_made path_abempty (chr "/") path_units x _ ltac:(vm_compute; reflexivity) Hm) as [Hx Hw].
  eexists. split; [|exact Hw]. f_equal. unfold mem in Hx. cbn in Hx. rewrite orb_false_r, andb_true_iff, !N.leb_le in Hx.
  rewrite <- (ascii_N_embedding x), <- (ascii_N_embedding "/"%char). f_equal. cbn. lia.
Qed.

Lemma uri_read u : readable u -> Create (ToString u) = Ok (Some (normal u)).
Proof.
  intros [Hsc Hus Hh Hhn Hp Hq Hf Hn]. unfold Create, create, ToString. pose proof (dump_chars u) as Ht.
  generalize dependent (String.list_ascii_of_string (Dump_uri u)). intros text Ht.
  enough (forall t, t = text -> finish text (run (uri_act text) [main] 0 t (mkParse None new_Uri)) = Ok (Some (normal u))) as He by by apply He.
  intros t Et. rewrite Ht in Et.
  destruct (String.list_ascii_of_string (scheme_ u)) as [|x w] eqn:Es; [by apply final_matches in Hsc|].
  destruct (first_made UriGrammar.scheme alpha scheme_units x w ltac:(vm_compute; reflexivity) Hsc) as [Hx Hw].
  rewrite Et. cbn [app].
  destruct (run_edge (uri_act text) g_start alpha [marku] g_scheme [main] x) as (s1 & Hs1 & ->); [uri_fact|by left|exact Hx|]. cbn [do_actions uri_act uri_].
  destruct (run_loops (uri_act text) g_scheme scheme_units s1 w) as (s2 & Hs2 & ->); [uri_fact|exact Hs1|exact Hw|].
  destruct (run_edge (uri_act text) g_scheme (chr ":") [save_scheme] g_colon s2 ":"%char) as (s3 & Hs3 & ->); [uri_fact|exact Hs2|reflexivity|].
  cbn [do_actions uri_act save mark_ uri_]. rewrite (part_mid text [] (scheme_ u) _ 0) by first [rewrite Es; exact Ht | rewrite Es; reflexivity | reflexivity].
  destruct (run_edge (uri_act text) g_colon (chr "/") [] g_slash s3 "/"%char) as (s4 & Hs4 & ->); [uri_fact|exact Hs3|reflexivity|]. cbn [do_actions].
  destruct (run_edge (uri_act text) g_slash (chr "/") [] g_authority s4 "/"%char) as (s5 & Hs5 & ->); [uri_fact|exact Hs4|reflexivity|]. cbn [do_actions].
  replace (S (S (S (1 + length w)))) with (length (x :: w ++ [":"; "/"; "/"]%char)) by (cbn; rewrite length_app; cbn; lia).
  rewrite uri_go_authority; [|exact Hs5|by rewrite Ht; cbn; rewrite <- !app_assoc| | |exact Hhn| |by apply path_rooted| | |reflexivity..].
  - by destruct u.
  - apply (covers_made _ reg_name); [reflexivity|exact Hus].
  - apply (covers_made _ reg_name); [reflexivity|exact Hh].
  - unfold normal. cbn [SetPort SetPath uport_]. destruct (IsDefaultPort u); lia.
  - apply (covers_made _ query); [reflexivity|exact Hq].
  - apply (covers_made _ fragment); [reflexivity|exact Hf].
Qed.

Lemma normal_means u : GetPort (normal u) = GetPort u /\ GetPath (normal u) = GetPath u.
Proof.
  split; [|unfold normal, GetPath; cbn [upath_ SetPort SetPath]; by destruct (upath_ u)].
  unfold normal, GetPort, IsDefaultPort. cbn [uport_ SetPort SetPath scheme_].
  destruct (Z.eqb_spec (uport_ u) 0) as [->|]; [done|]. cbn [negb].
  destruct (String.eqb (scheme_ u) "http"); [|destruct (String.eqb (scheme_ u) "https"); [|by rewrite (proj2 (Z.eqb_neq _ _))]];
    (match goal with |- context [uport_ u =? ?d] => destruct (Z.eqb_spec (uport_ u) d) as [->|] end; [done|by rewrite (proj2 (Z.eqb_neq _ _))]).
Qed.



(** ** What the grammar gets wrong *)

(** A colon in the user information takes the mark away: what is behind it is kept only, as
    user information. *)
Lemma userinfo_colon : exists u, Create "http://bob:80@example.org/" = Ok (Some u) /\ user_info_ u = "80" /\ uhost_ u = "example.org".
Proof. eexists. vm_compute. done. Qed.

(** Only a path behind an authority is saved, and only in a URI with a scheme. *)
Lemma paths_lost :
  Create "file:/etc/passwd" = Ok (Some (SetScheme "file" new_Uri)) /\ Create "mailto:a@b" = Ok (Some (SetScheme "mailto" new_Uri)) /\
  Create "/index.html" = Ok (Some new_Uri) /\ Create "//example.org/index.html" = Ok (Some (SetHost "example.org" new_Uri)).
Proof. vm_compute. done. Qed.

(** An octet from 200 to 249 is not read inside brackets; in front of it a character of
    code 2 is. *)
Lemma octet_200 :
  Create "http://[::192.0.249.1]/" = Ok None /\ Create "http://[::192.0.149.1]/" <> Ok None /\
  Create ("http://[::192.0." +:+ String (ascii_of_nat 2) "49.1]/") <> Ok None.
Proof. vm_compute. done. Qed.

(** A port that is no [int] is handed to [atoi]. *)
Lemma port_overflow : Create "http://example.org:99999999999/" = Fail undefined /\
  Create "http://example.org:70000/" = Ok (Some (mkUri "http" EmptyString "example.org" "/" EmptyString EmptyString 70000)).
Proof. vm_compute. done. Qed.

(** Behind an empty port the mark is null when the path is saved: the machine runs an
    action once for a character, and [markh] has run before [save_port] has reset the mark. *)
Lemma empty_port : Create "http://example.org:" = Fail undefined /\ Create "http://example.org:/" = Fail undefined.
Proof. vm_compute. done. Qed.
