(* ===== verification/Hook.v ===== *)
(** * Hooked system calls: [gudov/fdmanager.cpp] and [gudov/hook.cpp]

    The table of descriptor contexts, and the libc functions the library replaces.
    The system is a parameter: file status flags, socket options and descriptors,
    with the documented effect of the calls the code makes. *)

From S2P Require Import Prelude Timer Fiber Scheduler IOManager.
From stdpp Require Import base gmap numbers list.
From Stdlib Require Import ZArith Lia.
Open Scope Z_scope.
Open Scope prog_scope.

Definition O_NONBLOCK : Z := 2048.
Definition EINTR : Z := 4.
Definition EBADF : Z := 9.
Definition EAGAIN : Z := 11.
Definition ETIMEDOUT : Z := 110.
Definition EINPROGRESS : Z := 115.
Definition SO_RCVTIMEO : Z := 20.
Definition SO_SNDTIMEO : Z := 21.

(** [flags & O_NONBLOCK] as a condition. *)
Definition nonblock (fl : Z) : bool := negb (Z.land fl O_NONBLOCK =? 0).

(** The system: [getfl] is [fcntl(fd, F_GETFL)], [None] for a descriptor that is not
    open; [is_sock] is what [fstat] says.  [setfl] is [fcntl(fd, F_SETFL, fl)], which
    need not store every bit it is given but stores [O_NONBLOCK]; [fionbio] is
    [ioctl(fd, FIONBIO, &b)]; [openF] opens a socket as [socket] and [accept] do,
    [closeF] closes a descriptor. *)
Inductive opener := By_socket | By_accept.

Class System (K : Type) := {
  getfl : K -> Z -> option Z;
  is_sock : K -> Z -> option bool;
  setfl : Z -> Z -> K -> K;
  fionbio : Z -> bool -> K -> K;
  openF : opener -> K -> Z * K;
  closeF : Z -> K -> K;
  fl_sock k fd : is_Some (is_sock k fd) <-> is_Some (getfl k fd);
  setfl_flag fd fl k : nonblock <$> getfl (setfl fd fl k) fd = (fun _ => nonblock fl) <$> getfl k fd;
  setfl_other fd fl k fd' : fd <> fd' -> getfl (setfl fd fl k) fd' = getfl k fd';
  setfl_sock fd fl k fd' : is_sock (setfl fd fl k) fd' = is_sock k fd';
  fionbio_flag fd b k : nonblock <$> getfl (fionbio fd b k) fd = (fun _ => b) <$> getfl k fd;
  fionbio_other fd b k fd' : fd <> fd' -> getfl (fionbio fd b k) fd' = getfl k fd';
  fionbio_sock fd b k fd' : is_sock (fionbio fd b k) fd' = is_sock k fd';
  open_fails o k fd k' : openF o k = (fd, k') -> fd < 0 -> k' = k;
  open_new o k fd k' : openF o k = (fd, k') -> 0 <= fd -> getfl k fd = None /\ is_sock k' fd = Some true;
  open_other o k fd k' fd' : openF o k = (fd, k') -> fd <> fd' -> getfl k' fd' = getfl k fd' /\ is_sock k' fd' = is_sock k fd';
  close_gone k fd : getfl (closeF fd k) fd = None;
  close_other k fd fd' : fd <> fd' -> getfl (closeF fd k) fd' = getfl k fd' }.

(** ** FdCtx *)

Record FdCtx := mkFdCtx {
  is_init_ : bool;
  is_socket_ : bool;
  sys_nonblock_ : bool;
  user_nonblock_ : bool;
  fd_ : Z;
  recv_timeout_ : Z;
  send_timeout_ : Z }.

(** The contexts are shared objects; [data_] holds pointers to them. *)
Record FdManager (K : Type) := mkFdManager {
  ctxs : list FdCtx;
  data_ : list (option nat);
  sys : K }.
Arguments mkFdManager {K}.
Arguments ctxs {K}.
Arguments data_ {K}.
Arguments sys {K}.

Section Manager.
Context {K : Type} `{System K}.
Implicit Types m : FdManager K.

Definition set_ctxs l m := mkFdManager l (data_ m) (sys m).
Definition set_data l m := mkFdManager (ctxs m) l (sys m).
Definition set_sys (k : K) m := mkFdManager (ctxs m) (data_ m) k.

(** [FdCtx(fd)] with its [Init]: a socket is made non-blocking. *)
Definition new_FdCtx (fd : Z) (k : K) : FdCtx * K :=
  match is_sock k fd with
  | None => (mkFdCtx false false false false fd max64 max64, k)
  | Some true =>
      let flags := default (-1) (getfl k fd) in
      (mkFdCtx true true true false fd max64 max64,
       if nonblock flags then k else setfl fd (Z.lor flags O_NONBLOCK) k)
  | Some false => (mkFdCtx true false false false fd max64 max64, k)
  end.

Definition IsClose (c : FdCtx) (k : K) : bool := bool_decide (getfl k (fd_ c) = None).

Definition SetTimeout (type v : Z) (c : FdCtx) : FdCtx :=
  if type =? SO_RCVTIMEO
  then mkFdCtx (is_init_ c) (is_socket_ c) (sys_nonblock_ c) (user_nonblock_ c) (fd_ c) v (send_timeout_ c)
  else mkFdCtx (is_init_ c) (is_socket_ c) (sys_nonblock_ c) (user_nonblock_ c) (fd_ c) (recv_timeout_ c) v.

Definition GetTimeout (type : Z) (c : FdCtx) : Z :=
  if type =? SO_RCVTIMEO then recv_timeout_ c else send_timeout_ c.

Definition SetUserNonblock (v : bool) (c : FdCtx) : FdCtx :=
  mkFdCtx (is_init_ c) (is_socket_ c) (sys_nonblock_ c) v (fd_ c) (recv_timeout_ c) (send_timeout_ c).

(** ** FdManager *)

Definition new_FdManager (k : K) : FdManager K := mkFdManager [] (replicate 64 None) k.

(** [while (fd >= (int)data_.size()) data_.resize(fd * 1.5)] *)
Fixpoint resize_loop (fuel : nat) (fd : Z) (d : list (option nat)) : result (list (option nat)) :=
  match fuel with
  | O => Fail out_of_fuel
  | S fuel =>
      if fd <? Z.of_nat (length d) then Ok d
      else let n := Z.to_nat (fd * 3 / 2) in
           resize_loop fuel fd (take n d ++ replicate (n - length d) None)
  end.

(** The part of [Get] under the write lock. *)
Definition Get_create (fd : Z) : prog (FdManager K) (option nat) :=
  fun m =>
    let '(c, k) := new_FdCtx fd (sys m) in
    let p := length (ctxs m) in
    match resize_loop 2 fd (data_ m) with
    | Ok d => (Ok (Some p), mkFdManager (ctxs m ++ [c]) (<[Z.to_nat fd := Some p]> d) k)
    | Fail e => (Fail e, m)
    end.

Definition Get (fd : Z) (auto_create : bool) : prog (FdManager K) (option nat) :=
  let* m := gets id in
  if fd <? 0 then ret None else
  match data_ m !! Z.to_nat fd with
  | None => if auto_create then Get_create fd else ret None
  | Some (Some p) => ret (Some p)
  | Some None => if auto_create then Get_create fd else ret None
  end.

Definition Del (fd : Z) : prog (FdManager K) unit :=
  modify (fun m => if fd <? 0 then m else set_data (<[Z.to_nat fd := None]> (data_ m)) m).

Definition ctx_of (p : nat) : prog (FdManager K) FdCtx :=
  fun m => match ctxs m !! p with Some c => (Ok c, m) | None => (Fail undefined, m) end.

Definition update_ctx (p : nat) (g : FdCtx -> FdCtx) : prog (FdManager K) unit :=
  modify (fun m => set_ctxs (alter g p (ctxs m)) m).

(** ** Hooked calls that do not wait *)

(** The context of an open socket, as [fcntl] and [ioctl] look for it. *)
Definition socket_ctx (fd : Z) : prog (FdManager K) (option nat) :=
  let* p := Get fd false in
  match p with
  | None => ret None
  | Some p =>
      let* c := ctx_of p in
      let* m := gets id in
      ret (if IsClose c (sys m) || negb (is_socket_ c) then None else Some p)
  end.

(** [fcntl(fd, F_SETFL, arg)]; whether the system accepted it. *)
Definition fcntl_setfl (fd arg : Z) : prog (FdManager K) bool :=
  let* p := socket_ctx fd in
  let* arg :=
    match p with
    | None => ret arg
    | Some p =>
        update_ctx p (SetUserNonblock (nonblock arg)) ;;
        let* c := ctx_of p in
        ret (if sys_nonblock_ c then Z.lor arg O_NONBLOCK else Z.land arg (Z.lnot O_NONBLOCK))
    end in
  let* m := gets id in
  modify (fun m => set_sys (setfl fd arg (sys m)) m) ;;
  ret (bool_decide (is_Some (getfl (sys m) fd))).

(** [fcntl(fd, F_GETFL)]; [None] is -1. *)
Definition fcntl_getfl (fd : Z) : prog (FdManager K) (option Z) :=
  let* m := gets id in
  let arg := getfl (sys m) fd in
  let* p := socket_ctx fd in
  match p with
  | None => ret arg
  | Some p =>
      let* c := ctx_of p in
      ret ((fun a => if user_nonblock_ c then Z.lor a O_NONBLOCK else Z.land a (Z.lnot O_NONBLOCK)) <$> arg)
  end.

(** [ioctl(fd, FIONBIO, &v)] *)
Definition ioctl_fionbio (fd : Z) (v : bool) : prog (FdManager K) unit :=
  let* p := socket_ctx fd in
  match p with Some p => update_ctx p (SetUserNonblock v) | None => ret tt end ;;
  modify (fun m => set_sys (fionbio fd v (sys m)) m).

(** [setsockopt(fd, SOL_SOCKET, opt, &{sec, usec})] as far as the library keeps it. *)
Definition setsockopt_timeo (fd opt tv_sec tv_usec : Z) : prog (FdManager K) unit :=
  if (opt =? SO_RCVTIMEO) || (opt =? SO_SNDTIMEO) then
    let* p := Get fd false in
    match p with
    | Some p => update_ctx p (SetTimeout opt (u64 (tv_sec * 1000 + tv_usec / 1000)))
    | None => ret tt
    end
  else ret tt.

(** [socket]: the descriptor is registered unless the call failed. *)
Definition socket : prog (FdManager K) Z :=
  let* m := gets id in
  let '(fd, k) := openF By_socket (sys m) in
  modify (set_sys k) ;;
  if fd =? -1 then ret (-1) else let* _ := Get fd true in ret fd.

(** [accept], from the moment the original function has returned. *)
Definition accept_tail : prog (FdManager K) Z :=
  let* m := gets id in
  let '(fd, k) := openF By_accept (sys m) in
  modify (set_sys k) ;;
  if 0 <=? fd then let* _ := Get fd true in ret fd else ret fd.
End Manager.

(** ** The process: the descriptor table and the thread's [IOManager] *)

Record Process (K E : Type) := mkProcess { fdm : FdManager K; iom : option (IOManager E) }.
Arguments mkProcess {K E}.
Arguments fdm {K E}.
Arguments iom {K E}.

Section Processes.
Context {K E : Type} `{System K} `{Epoll E}.

Definition on_fdm {A} (c : prog (FdManager K) A) : prog (Process K E) A :=
  fun p => let '(r, m) := c (fdm p) in (r, mkProcess m (iom p)).

(** [if (iom) iom->CancelAll(fd)] *)
Definition cancel_events (fd : Z) : prog (Process K E) unit :=
  fun p => match iom p with
           | None => (Ok tt, p)
           | Some io => match CancelAll fd io with
                        | (Ok _, io') => (Ok tt, mkProcess (fdm p) (Some io'))
                        | (Fail e, io') => (Fail e, mkProcess (fdm p) (Some io'))
                        end
           end.

Definition close (fd : Z) : prog (Process K E) unit :=
  let* c := on_fdm (Get fd false) in
  match c with
  | Some _ => cancel_events fd ;; on_fdm (Del fd)
  | None => ret tt
  end ;;
  on_fdm (modify (fun m => set_sys (closeF fd (sys m)) m)).
End Processes.

(** ** Sleeping *)

(** The milliseconds handed to [AddTimer], in the types of the source. *)
Definition sleep_ms (seconds : Z) : Z := u32 (seconds * 1000).
Definition usleep_ms (usec : Z) : Z := usec / 1000.
Definition nanosleep_ms (tv_sec tv_nsec : Z) : Z := u64 (s32 (tv_sec * 1000 + Z.quot tv_nsec 1000000)).

(** ** Calls that wait

    The fiber that makes the call, [e], runs on the [IOManager] of its thread.  The
    original function answers its calls in turn.  While the fiber is suspended,
    others run: [after] is what they make of the manager until the fiber is resumed,
    [cancelled] what [tinfo->cancelled] holds then, [time] the clock. *)

Inductive syscall := Returns (n : Z) | Errno (e : Z).

Record resumption (E : Type) := mkResumption { after : IOManager E -> IOManager E; cancelled : Z; time : Z }.
Arguments mkResumption {E}.
Arguments after {E}.
Arguments cancelled {E}.
Arguments time {E}.

(** [armed] and [refused] record the timers the call has added and whether
    [AddEvent] has failed. *)
Record world (E : Type) := mkWorld {
  calls : list syscall;
  resumes : list (resumption E);
  io : IOManager E;
  clock : Z;
  armed : list nat;
  refused : bool }.
Arguments mkWorld {E}.
Arguments calls {E}.
Arguments resumes {E}.
Arguments io {E}.
Arguments clock {E}.
Arguments armed {E}.
Arguments refused {E}.

(** What [doIO] finds in the context of the descriptor. *)
Inductive io_mode := Direct | Closed | Async (timeout : Z).

Definition io_mode_of (hook_enabled : bool) (ctx : option FdCtx) (closed : bool) (timeout_so : Z) : io_mode :=
  if negb hook_enabled then Direct else
  match ctx with
  | None => Direct
  | Some c => if closed then Closed
              else if negb (is_socket_ c) || user_nonblock_ c then Direct
              else Async (GetTimeout timeout_so c)
  end.

Definition connect_mode_of (hook_enabled : bool) (ctx : option FdCtx) (closed : bool) (timeout_ms : Z) : io_mode :=
  if negb hook_enabled then Direct else
  match ctx with
  | None => Closed
  | Some c => if closed then Closed
              else if negb (is_socket_ c) || user_nonblock_ c then Direct
              else Async timeout_ms
  end.

Section Waiting.
Context {E : Type} `{Epoll E} `{Allocator}.

Definition on_io {A} (c : prog (IOManager E) A) : prog (world E) A :=
  fun w => let '(r, m) := c (io w) in (r, mkWorld (calls w) (resumes w) m (clock w) (armed w) (refused w)).

(** The original function, once. *)
Definition call_fun : prog (world E) syscall :=
  fun w => match calls w with
           | r :: l => (Ok r, mkWorld l (resumes w) (io w) (clock w) (armed w) (refused w))
           | [] => (Fail out_of_fuel, w)
           end.

(** [while (n == -1 && errno == EINTR) n = fun(...)] *)
Fixpoint call_uninterrupted (fuel : nat) : prog (world E) syscall :=
  match fuel with
  | O => fail out_of_fuel
  | S fuel =>
      let* r := call_fun in
      match r with
      | Errno e => if e =? EINTR then call_uninterrupted fuel else ret r
      | _ => ret r
      end
  end.

(** The timer, if there is a timeout; its callback, known by the number [lambda],
    runs as long as [tinfo] exists. *)
Definition add_timer (timeout : Z) (lambda tinfo : nat) : prog (world E) (option nat) :=
  if timeout =? max64 then ret None else
  let* w := gets id in
  let* p := on_io (on_timers (AddConditionTimer (clock w) timeout (Fn lambda) tinfo false)) in
  (if (p : nat * bool).2 then on_io OnTimerInsertedAtFront else ret tt) ;;
  modify (fun w => mkWorld (calls w) (resumes w) (io w) (clock w) (p.1 :: armed w) (refused w)) ;;
  ret (Some p.1).

(** [if (timer) timer->Cancel();] *)
Definition cancel_timer (timer : option nat) : prog (world E) unit :=
  match timer with
  | Some t => let* _ := on_io (on_timers (Timer.Cancel t)) in ret tt
  | None => ret tt
  end.

Definition add_event (e : env) (fd event : Z) : prog (world E) Z :=
  let* rt := on_io (AddEvent e fd event Null) in
  (if rt =? 0 then ret tt
   else modify (fun w => mkWorld (calls w) (resumes w) (io w) (clock w) (armed w) true)) ;;
  ret rt.

(** [Yield], and [tinfo->cancelled] once the fiber continues: without a timer nobody
    sets it. *)
Definition yield (timer : option nat) : prog (world E) Z :=
  fun w => match resumes w with
           | k :: ks => (Ok (match timer with Some _ => cancelled k | None => 0 end),
                         mkWorld (calls w) ks (after k (io w)) (time k) (armed w) (refused w))
           | [] => (Fail out_of_fuel, w)
           end.

(** From the label [retry] on; [fuel] bounds the rounds. *)
Fixpoint retry (fuel : nat) (e : env) (fd event timeout : Z) (lambda tinfo : nat) : prog (world E) syscall :=
  match fuel with
  | O => fail out_of_fuel
  | S fuel =>
      let* w := gets id in
      let* n := call_uninterrupted (S (length (calls w))) in
      match n with
      | Errno err =>
          if negb (err =? EAGAIN) then ret n else
          let* timer := add_timer timeout lambda tinfo in
          let* rt := add_event e fd event in
          if negb (rt =? 0) then cancel_timer timer ;; ret n
          else
            let* c := yield timer in
            cancel_timer timer ;;
            if negb (c =? 0) then ret (Errno c)
            else retry fuel e fd event timeout lambda tinfo
      | _ => ret n
      end
  end.

(** A round uses up at least one answer of the original function. *)
Definition doIO (mode : io_mode) (e : env) (fd event : Z) (lambda tinfo : nat) : prog (world E) syscall :=
  match mode with
  | Direct => call_fun
  | Closed => ret (Errno EBADF)
  | Async timeout => let* w := gets id in retry (S (length (calls w))) e fd event timeout lambda tinfo
  end.

(** [so_error] is what [getsockopt(SO_ERROR)] answers at the end. *)
Definition connectWithTimeout (mode : io_mode) (e : env) (fd : Z) (lambda tinfo : nat) (so_error : syscall)
    : prog (world E) syscall :=
  let verdict := match so_error with
                 | Returns err => if err =? 0 then Returns 0 else Errno err
                 | Errno err => Errno err
                 end in
  match mode with
  | Direct => call_fun
  | Closed => ret (Errno EBADF)
  | Async timeout =>
      let* n := call_fun in
      match n with
      | Errno err =>
          if negb (err =? EINPROGRESS) then ret n else
          let* timer := add_timer timeout lambda tinfo in
          let* rt := add_event e fd WRITE in
          if rt =? 0 then
            let* c := yield timer in
            cancel_timer timer ;;
            if negb (c =? 0) then ret (Errno c) else ret verdict
          else cancel_timer timer ;; ret verdict
      | _ => ret n
      end
  end.
End Waiting.

(** ** The descriptor table keeps its promise *)

Section Table.
Context {K : Type} `{System K}.
Implicit Types m : FdManager K.

(** The context [Get fd] finds. *)
Definition ptr m (fd : Z) : option nat := if fd <? 0 then None else mjoin (data_ m !! Z.to_nat fd).
Definition managed m (fd : Z) : option FdCtx := ptr m fd ≫= fun p => ctxs m !! p.

(** A context in the table belongs to an open socket that does not block. *)
Definition ctx_good m (fd : Z) (c : FdCtx) : Prop :=
  fd_ c = fd /\ is_socket_ c = true /\ sys_nonblock_ c = true /\ nonblock <$> getfl (sys m) fd = Some true.

Record fd_inv m : Prop := {
  fdi_size : (64 <= length (data_ m))%nat;
  fdi_ctx fd p : ptr m fd = Some p -> exists c, ctxs m !! p = Some c /\ ctx_good m fd c }.

Lemma Get_ok fd m : Get fd false m = (Ok (ptr m fd), m).
Proof.
  unfold Get, ptr, bind. cbn. destruct (fd <? 0); [done|].
  destruct (data_ m !! Z.to_nat fd) as [[p|]|] eqn:E; done.
Qed.

Lemma socket_ctx_ok fd m : fd_inv m -> socket_ctx fd m = (Ok (ptr m fd), m).
Proof.
  intros Hi. unfold socket_ctx, bind. rewrite Get_ok. destruct (ptr m fd) as [p|] eqn:Ep; [|done].
  destruct (fdi_ctx _ Hi _ _ Ep) as (c & Hc & Hfd & Hs & _ & Hn). unfold ctx_of. cbn. rewrite Hc. cbn.
  unfold IsClose. rewrite Hfd, Hs. destruct (getfl (sys m) fd); [done|discriminate].
Qed.

Lemma resize_loop_ok fd d :
  (64 <= length d)%nat -> 0 <= fd ->
  exists d', resize_loop 2 fd d = Ok d' /\ (Z.to_nat fd < length d')%nat /\ (64 <= length d')%nat /\
    forall i, mjoin (d' !! i) = mjoin (d !! i).
Proof.
  intros Hd Hfd. cbn [resize_loop]. destruct (Z.ltb_spec fd (Z.of_nat (length d))); [exists d; split_and!; done || lia|].
  assert (Z.of_nat (length d) <= Z.of_nat (Z.to_nat (fd * 3 / 2)) /\ fd < Z.of_nat (Z.to_nat (fd * 3 / 2))) as [Hn Hf].
  { pose proof (Z.div_mod (fd * 3) 2). pose proof (Z.mod_pos_bound (fd * 3) 2). lia. }
  set (n := Z.to_nat (fd * 3 / 2)) in *. rewrite take_ge by lia.
  assert (length (d ++ replicate (n - length d) None) = n) as Hl.
  { rewrite length_app, length_replicate. lia. }
  rewrite Hl, (proj2 (Z.ltb_lt _ _) Hf). eexists. split_and!; [done|lia|lia|].
  intros i. destruct (decide (i < length d)%nat); [by rewrite lookup_app_l|].
  rewrite lookup_app_r, (lookup_ge_None_2 d) by lia.
  destruct (replicate (n - length d) None !! (i - length d)%nat) eqn:E; [|done].
  by apply lookup_replicate in E as [-> _].
Qed.

Lemma nonblock_lor fl : nonblock (Z.lor fl O_NONBLOCK) = true.
Proof.
  unfold nonblock. apply negb_true_iff, Z.eqb_neq. intros E. apply (f_equal (fun z => Z.testbit z 11)) in E.
  rewrite Z.land_spec, Z.lor_spec, orb_true_r in E. discriminate.
Qed.

Lemma nonblock_clear fl : nonblock (Z.land fl (Z.lnot O_NONBLOCK)) = false.
Proof. unfold nonblock. by rewrite <- Z.land_assoc, (Z.land_comm (Z.lnot _)), Z.land_lnot_diag, Z.land_0_r. Qed.

Lemma new_FdCtx_ok fd k :
  is_sock k fd = Some true ->
  exists k', new_FdCtx fd k = (mkFdCtx true true true false fd max64 max64, k') /\
    nonblock <$> getfl k' fd = Some true /\ forall fd', fd <> fd' -> getfl k' fd' = getfl k fd'.
Proof.
  intros Hs. unfold new_FdCtx. rewrite Hs.
  destruct (proj1 (fl_sock k fd) (ex_intro _ _ Hs)) as [fl Hfl]. rewrite Hfl. cbn.
  destruct (nonblock fl) eqn:En; eexists; split_and!; [done|by rewrite Hfl; cbn; rewrite En|done|done| |].
  - rewrite setfl_flag, Hfl. cbn. by rewrite nonblock_lor.
  - intros. by apply setfl_other.
Qed.

(** Two states that agree on every descriptor but [fd]. *)
Definition same_but (fd : Z) m m' : Prop :=
  forall fd', fd <> fd' -> managed m' fd' = managed m fd' /\ getfl (sys m') fd' = getfl (sys m) fd'.

Lemma ptr_inj m fd fd' p : fd_inv m -> ptr m fd = Some p -> ptr m fd' = Some p -> fd = fd'.
Proof.
  intros Hi H1 H2. destruct (fdi_ctx _ Hi _ _ H1) as (c & Hc & <- & _).
  destruct (fdi_ctx _ Hi _ _ H2) as (c' & Hc' & <- & _). congruence.
Qed.

Lemma ptr_range m fd p : ptr m fd = Some p -> 0 <= fd.
Proof. unfold ptr. destruct (Z.ltb_spec fd 0); [done|lia]. Qed.

Lemma Get_create_ok fd m :
  fd_inv m -> 0 <= fd -> is_sock (sys m) fd = Some true -> ptr m fd = None ->
  exists m', Get fd true m = (Ok (Some (length (ctxs m))), m') /\ fd_inv m' /\
    managed m' fd = Some (mkFdCtx true true true false fd max64 max64) /\ same_but fd m m'.
Proof.
  intros Hi Hfd Hs Hp. destruct (new_FdCtx_ok fd (sys m) Hs) as (k' & Ek & Hk & Hk').
  destruct (resize_loop_ok fd (data_ m) (fdi_size _ Hi) Hfd) as (d & Ed & Hl & Hl64 & Hd).
  set (c := mkFdCtx true true true false fd max64 max64) in *.
  set (m' := mkFdManager (ctxs m ++ [c]) (<[Z.to_nat fd := Some (length (ctxs m))]> d) k').
  assert (Get_create fd m = (Ok (Some (length (ctxs m))), m')) as E by (unfold Get_create; by rewrite Ek, Ed).
  assert (ptr m' fd = Some (length (ctxs m))) as Ep.
  { unfold ptr, m'. cbn. rewrite (proj2 (Z.ltb_ge fd 0)) by done. by rewrite list_lookup_insert_eq. }
  assert (forall fd', fd <> fd' -> ptr m' fd' = ptr m fd') as Ep'.
  { intros fd' Hn. unfold ptr, m'. cbn. destruct (Z.ltb_spec fd' 0); [done|].
    rewrite list_lookup_insert_ne by lia. apply Hd. }
  exists m'. split_and!.
  - unfold Get, bind. cbn. rewrite (proj2 (Z.ltb_ge fd 0)) by done. unfold ptr in Hp.
    rewrite (proj2 (Z.ltb_ge fd 0)) in Hp by done. destruct (data_ m !! Z.to_nat fd) as [[p|]|]; done.
  - split; [unfold m'; cbn; by rewrite length_insert|].
    intros fd' p Hp'. destruct (decide (fd = fd')) as [<-|Hn].
    + rewrite Ep in Hp'. injection Hp' as <-. exists c. split; [cbn; by rewrite list_lookup_middle|done].
    + rewrite Ep' in Hp' by done. destruct (fdi_ctx _ Hi _ _ Hp') as (c' & Hc' & Hg).
      exists c'. split; [cbn; by apply lookup_app_l_Some|]. unfold ctx_good in *. cbn. by rewrite Hk'.
  - unfold managed. rewrite Ep. cbn. by rewrite list_lookup_middle.
  - intros fd' Hn. split; [|cbn; by apply Hk']. unfold managed. rewrite Ep' by done.
    destruct (ptr m fd') as [p|] eqn:Hp'; [|done]. cbn.
    destruct (fdi_ctx _ Hi _ _ Hp') as (c' & Hc' & _). rewrite Hc'. by apply lookup_app_l_Some.
Qed.

(** The kernel's side changes at [fd] only and leaves it non-blocking. *)
Lemma set_sys_ok fd k m :
  fd_inv m -> (is_Some (ptr m fd) -> nonblock <$> getfl k fd = Some true) ->
  (forall fd', fd <> fd' -> getfl k fd' = getfl (sys m) fd') -> fd_inv (set_sys k m).
Proof.
  intros Hi Hk Hk'. split; [apply Hi|]. intros fd' p Hp. change (ptr m fd' = Some p) in Hp.
  destruct (fdi_ctx _ Hi _ _ Hp) as (c & Hc & H1 & H2 & H3 & H4). exists c. split; [done|].
  unfold ctx_good. cbn. split_and!; [done..|]. destruct (decide (fd = fd')) as [<-|]; [by apply Hk|by rewrite Hk'].
Qed.

(** An update of the context that keeps what the table relies on. *)
Lemma update_ctx_ok fd p g m :
  fd_inv m -> ptr m fd = Some p ->
  (forall c, fd_ (g c) = fd_ c /\ is_socket_ (g c) = is_socket_ c /\ sys_nonblock_ (g c) = sys_nonblock_ c) ->
  exists m', update_ctx p g m = (Ok tt, m') /\ fd_inv m' /\ ptr m' fd = Some p /\ sys m' = sys m /\
    managed m' fd = g <$> managed m fd /\ same_but fd m m'.
Proof.
  intros Hi Hp Hg. set (m' := set_ctxs (alter g p (ctxs m)) m).
  assert (forall fd', ptr m' fd' = ptr m fd') as Ep by done.
  exists m'. split_and!; [done| |done|done| |].
  - split; [apply Hi|]. intros fd' p' Hp'. rewrite Ep in Hp'.
    destruct (fdi_ctx _ Hi _ _ Hp') as (c & Hc & Hc').
    destruct (decide (p = p')) as [<-|Hn].
    + exists (g c). unfold m'. cbn. rewrite list_lookup_alter_eq, Hc. split; [done|].
      unfold ctx_good in *. destruct (Hg c) as (-> & -> & ->). done.
    + exists c. unfold m'. cbn. by rewrite list_lookup_alter_ne.
  - unfold managed. rewrite Ep, Hp. unfold m'. cbn. by rewrite list_lookup_alter_eq.
  - intros fd' Hn. split; [|done]. unfold managed. rewrite Ep. destruct (ptr m fd') as [p'|] eqn:Hp'; [|done].
    unfold m'. cbn. rewrite list_lookup_alter_ne; [done|]. intros <-. by apply Hn, (ptr_inj m fd fd' p).
Qed.

(** The flag the user has set on a managed descriptor, as the hooks must show it. *)
Definition shows m (v : gmap Z bool) : Prop := fd_inv m /\ forall fd, v !! fd = user_nonblock_ <$> managed m fd.

Lemma managed_None m fd : fd_inv m -> ptr m fd = None <-> managed m fd = None.
Proof.
  intros Hi. unfold managed. destruct (ptr m fd) as [p|] eqn:E; [|done].
  destruct (fdi_ctx _ Hi _ _ E) as (c & Hc & _). cbn. by rewrite Hc.
Qed.

Lemma shows_same_but m m' v fd w :
  shows m v -> fd_inv m' -> same_but fd m m' ->
  w !! fd = user_nonblock_ <$> managed m' fd -> (forall fd', fd <> fd' -> w !! fd' = v !! fd') -> shows m' w.
Proof.
  intros [_ Hv] Hi Hs Hw Hw'. split; [done|]. intros fd'. destruct (decide (fd = fd')) as [<-|Hn]; [done|].
  rewrite Hw', Hv by done. by destruct (Hs fd' Hn) as [-> _].
Qed.

Lemma same_but_trans fd m1 m2 m3 : same_but fd m1 m2 -> same_but fd m2 m3 -> same_but fd m1 m3.
Proof. intros H1 H2 f Hf. destruct (H1 f Hf) as [? ?], (H2 f Hf) as [? ?]. split; congruence. Qed.

(** The contexts of [m'], by those of [m] and what became of [fd]'s. *)
Definition ctxs_by (fd : Z) (x : option FdCtx) m m' : Prop := forall f, managed m' f = if decide (f = fd) then x else managed m f.

Lemma ctxs_by_same fd x m m' : same_but fd m m' -> managed m' fd = x -> ctxs_by fd x m m'.
Proof. intros Hb Hx f. case_decide as E; [by subst|]. by destruct (Hb f) as [? _]. Qed.

(** [socket] and [accept] register the descriptor they return, blocking for the
    user. *)
Lemma open_ok o m fd k v :
  shows m v -> openF o (sys m) = (fd, k) -> 0 <= fd ->
  exists m', Get fd true (set_sys k m) = (Ok (Some (length (ctxs m))), m') /\ shows m' (<[fd := false]> v) /\
    ctxs_by fd (Some (mkFdCtx true true true false fd max64 max64)) m m'.
Proof.
  intros [Hi Hv] Ho Hfd. destruct (open_new _ _ _ _ Ho Hfd) as [Hn Hs].
  assert (ptr m fd = None) as Hp.
  { destruct (ptr m fd) as [p|] eqn:Hp; [|done]. destruct (fdi_ctx _ Hi _ _ Hp) as (c & _ & _ & _ & _ & Hc).
    by rewrite Hn in Hc. }
  assert (fd_inv (set_sys k m)) as Hi1.
  { apply (set_sys_ok fd); [done|rewrite Hp; by intros []|]. intros fd' Hd. by apply (open_other _ _ _ _ fd' Ho). }
  destruct (Get_create_ok fd (set_sys k m) Hi1 Hfd Hs Hp) as (m' & E & Hi' & Hm & Hb).
  exists m'. split; [done|]. split; [|by apply (ctxs_by_same fd _ (set_sys k m))]. apply (shows_same_but m m' v fd); [done|done| | |].
  - intros f Hf. destruct (Hb f Hf) as [-> ->]. split; [done|]. by apply (open_other _ _ _ _ f Ho).
  - by rewrite lookup_insert_eq, Hm.
  - intros f Hf. by apply lookup_insert_ne.
Qed.

(** Whatever the user asks, a managed socket stays non-blocking in the kernel. *)
Lemma fcntl_setfl_ok fd arg m v :
  shows m v -> exists b m', fcntl_setfl fd arg m = (Ok b, m') /\ shows m' (alter (fun _ => nonblock arg) fd v) /\
    ctxs_by fd (SetUserNonblock (nonblock arg) <$> managed m fd) m m'.
Proof.
  intros [Hi Hv]. unfold fcntl_setfl. rewrite (bind_ok _ _ _ _ _ (socket_ctx_ok fd m Hi)).
  destruct (ptr m fd) as [p|] eqn:Hp.
  - destruct (update_ctx_ok fd p (SetUserNonblock (nonblock arg)) m Hi Hp) as (m1 & E1 & Hi1 & Hp1 & Hs1 & Hm1 & Hb1); [done|].
    destruct (fdi_ctx _ Hi1 _ _ Hp1) as (c & Hc & _ & _ & Hn & Hfl).
    unfold bind. rewrite E1. cbn. unfold ctx_of. rewrite Hc. cbn. rewrite Hn. eexists _, _. split; [done|].
    split; [|by apply (ctxs_by_same fd _ m m1)]. apply (shows_same_but m _ v fd).
    + done.
    + apply (set_sys_ok fd); [done| |].
      * intros _. rewrite setfl_flag. destruct (getfl (sys m1) fd); [cbn; by rewrite nonblock_lor|done].
      * intros. by apply setfl_other.
    + intros f Hf. destruct (Hb1 f Hf) as [? ?]. split; [done|]. cbn. by rewrite setfl_other by done.
    + change (managed (set_sys _ m1) fd) with (managed m1 fd). rewrite Hm1, lookup_alter_eq, Hv.
      by destruct (managed m fd).
    + intros. by apply lookup_alter_ne.
  - pose proof (proj1 (managed_None m fd Hi) Hp) as Hmn. unfold bind. cbn. eexists _, _. split; [done|].
    split; [|rewrite Hmn; by apply (ctxs_by_same fd _ m m)]. apply (shows_same_but m _ v fd); [done| | | |].
    + apply (set_sys_ok fd); [done|rewrite Hp; by intros []|]. intros. by apply setfl_other.
    + intros f Hf. split; [done|]. cbn. by apply setfl_other.
    + change (managed (set_sys _ m) fd) with (managed m fd). rewrite lookup_alter_eq, Hv.
      by rewrite Hmn.
    + intros. by apply lookup_alter_ne.
Qed.

Lemma ioctl_fionbio_ok fd m v :
  shows m v -> exists m', ioctl_fionbio fd true m = (Ok tt, m') /\ shows m' (alter (fun _ => true) fd v) /\
    ctxs_by fd (SetUserNonblock true <$> managed m fd) m m'.
Proof.
  intros [Hi Hv]. unfold ioctl_fionbio. rewrite (bind_ok _ _ _ _ _ (socket_ctx_ok fd m Hi)).
  assert (exists m1, match ptr m fd with Some p => update_ctx p (SetUserNonblock true) | None => ret tt end m = (Ok tt, m1) /\
    fd_inv m1 /\ sys m1 = sys m /\ managed m1 fd = SetUserNonblock true <$> managed m fd /\ same_but fd m m1)
    as (m1 & E1 & Hi1 & Hs1 & Hm1 & Hb1).
  { destruct (ptr m fd) as [p|] eqn:Hp.
    - destruct (update_ctx_ok fd p (SetUserNonblock true) m Hi Hp) as (m1 & E1 & Hi1 & _ & Hs1 & Hm1 & Hb1); [done|].
      by exists m1.
    - exists m. rewrite (proj1 (managed_None m fd Hi) Hp). by split_and!. }
  rewrite (bind_ok _ _ _ _ _ E1). eexists. split; [done|]. split; [|by apply (ctxs_by_same fd _ m m1)]. apply (shows_same_but m _ v fd).
  - done.
  - apply (set_sys_ok fd); [done| |].
    + intros [p Hp]. destruct (fdi_ctx _ Hi1 _ _ Hp) as (c & _ & _ & _ & _ & Hfl). rewrite fionbio_flag.
      by destruct (getfl (sys m1) fd).
    + intros. by apply fionbio_other.
  - intros f Hf. destruct (Hb1 f Hf) as [? ?]. split; [done|]. cbn. by rewrite fionbio_other.
  - change (managed (set_sys _ m1) fd) with (managed m1 fd). rewrite Hm1, lookup_alter_eq, Hv. by destruct (managed m fd).
  - intros. by apply lookup_alter_ne.
Qed.

Lemma setsockopt_timeo_ok fd opt sec usec m v :
  shows m v -> exists m', setsockopt_timeo fd opt sec usec m = (Ok tt, m') /\ shows m' v /\
    ctxs_by fd ((if (opt =? SO_RCVTIMEO) || (opt =? SO_SNDTIMEO) then SetTimeout opt (u64 (sec * 1000 + usec / 1000)) else id) <$> managed m fd) m m'.
Proof.
  intros [Hi Hv]. unfold setsockopt_timeo. destruct (_ || _); [|exists m; split; [done|]; split; [done|]; apply ctxs_by_same; [done|]; by destruct (managed m fd)].
  rewrite (bind_ok _ _ _ _ _ (Get_ok fd m)). destruct (ptr m fd) as [p|] eqn:Hp.
  2: { exists m. split; [done|]. split; [done|]. apply ctxs_by_same; [done|]. by rewrite (proj1 (managed_None m fd Hi) Hp). }
  destruct (update_ctx_ok fd p (SetTimeout opt (u64 (sec * 1000 + usec / 1000))) m Hi Hp)
    as (m' & E & Hi' & _ & _ & Hm & Hb).
  { intros c. unfold SetTimeout. by destruct (opt =? SO_RCVTIMEO). }
  exists m'. split; [done|]. split; [|by apply ctxs_by_same]. apply (shows_same_but m m' v fd); try done.
  rewrite Hv, Hm. destruct (managed m fd); [|done]. cbn. unfold SetTimeout. by destruct (opt =? SO_RCVTIMEO).
Qed.

(** [close] once the events are cancelled. *)
Lemma close_tail_ok fd m v :
  shows m v ->
  exists m1 m2, match ptr m fd with Some _ => Del fd | None => ret tt end m = (Ok tt, m1) /\
    m2 = set_sys (closeF fd (sys m1)) m1 /\ shows m2 (delete fd v) /\ ctxs_by fd None m m2.
Proof.
  intros [Hi Hv].
  assert (exists m1, match ptr m fd with Some _ => Del fd | None => ret tt end m = (Ok tt, m1) /\
    fd_inv m1 /\ sys m1 = sys m /\ ptr m1 fd = None /\ same_but fd m m1) as (m1 & E1 & Hi1 & Hs1 & Hp1 & Hb1).
  { destruct (ptr m fd) as [p|] eqn:Hp; [|by exists m].
    pose proof (ptr_range _ _ _ Hp) as Hr. unfold Del, modify. rewrite (proj2 (Z.ltb_ge fd 0)) by done.
    set (m1 := set_data _ m).
    assert (ptr m1 fd = None) as E1.
    { unfold ptr, m1. cbn. destruct (fd <? 0); [done|].
      destruct (decide (Z.to_nat fd < length (data_ m))%nat); [by rewrite list_lookup_insert_eq|].
      rewrite lookup_ge_None_2; [done|]. rewrite length_insert. lia. }
    assert (forall f, fd <> f -> ptr m1 f = ptr m f) as E2.
    { intros f Hf. unfold ptr, m1. cbn. destruct (Z.ltb_spec f 0); [done|]. by rewrite list_lookup_insert_ne by lia. }
    exists m1. split_and!; try done.
    - split; [unfold m1; cbn; rewrite length_insert; apply Hi|].
      intros f q Hq. destruct (decide (fd = f)) as [<-|Hf]; [congruence|]. rewrite E2 in Hq by done. apply (fdi_ctx _ Hi _ _ Hq).
    - intros f Hf. split; [|done]. unfold managed. by rewrite E2. }
  exists m1, (set_sys (closeF fd (sys m1)) m1). split_and!; [done..| |].
  2: { apply (ctxs_by_same fd _ m m1); [done|]. unfold managed. by rewrite Hp1. }
  apply (shows_same_but m _ v fd); [done| | | |].
  - apply (set_sys_ok fd); [done|rewrite Hp1; by intros []|]. intros. by apply close_other.
  - intros f Hf. destruct (Hb1 f Hf). split; [done|]. cbn. by rewrite close_other.
  - rewrite lookup_delete_eq. unfold managed. by rewrite (Hp1 : ptr (set_sys _ m1) fd = None).
  - intros. by apply lookup_delete_ne.
Qed.

(** [F_GETFL] answers with the user's flag. *)
Lemma fcntl_getfl_ok fd m v :
  shows m v -> is_Some (v !! fd) ->
  exists fl, fcntl_getfl fd m = (Ok (Some fl), m) /\ v !! fd = Some (nonblock fl).
Proof.
  intros [Hi Hv] Hsome. rewrite Hv in *. unfold managed in *. destruct (ptr m fd) as [p|] eqn:Hp; [|by destruct Hsome].
  destruct (fdi_ctx _ Hi _ _ Hp) as (c & Hc & _ & _ & _ & Hfl). unfold fcntl_getfl. unfold bind, gets.
  rewrite (socket_ctx_ok fd m Hi), Hp. unfold ctx_of. cbn. rewrite Hc. cbn.
  destruct (getfl (sys m) fd) as [fl|]; [|discriminate]. cbn. eexists. split; [done|]. f_equal.
  destruct (user_nonblock_ c); [by rewrite nonblock_lor|by rewrite nonblock_clear].
Qed.
End Table.

(** ** Sequences of hooked calls *)

(** [HOpen o fd]: a [socket] or [accept] that returned [fd]. *)
Inductive hcmd :=
  | HOpen (o : opener) (fd : Z)
  | HClose (fd : Z)
  | HSetfl (fd arg : Z)
  | HFionbio (fd : Z) (v : bool)
  | HTimeo (fd opt tv_sec tv_usec : Z).

(** What the user has asked of the descriptors that are open: blocking when they
    are created, then as the last call said. *)
Definition user_view (v : gmap Z bool) (c : hcmd) : gmap Z bool :=
  match c with
  | HOpen _ fd => if 0 <=? fd then <[fd := false]> v else v
  | HClose fd => delete fd v
  | HSetfl fd arg => alter (fun _ => nonblock arg) fd v
  | HFionbio fd b => alter (fun _ => b) fd v
  | HTimeo _ _ _ _ => v
  end.

(** The context of [fd] after a call, by the one before it. *)
Definition ctx_after (c : hcmd) (fd : Z) (x : option FdCtx) : option FdCtx :=
  match c with
  | HOpen _ f => if decide (fd = f) then if 0 <=? f then Some (mkFdCtx true true true false f max64 max64) else x else x
  | HClose f => if decide (fd = f) then None else x
  | HSetfl f arg => if decide (fd = f) then SetUserNonblock (nonblock arg) <$> x else x
  | HFionbio f b => if decide (fd = f) then SetUserNonblock b <$> x else x
  | HTimeo f opt sec usec =>
      if decide (fd = f) then
        (if (opt =? SO_RCVTIMEO) || (opt =? SO_SNDTIMEO) then SetTimeout opt (u64 (sec * 1000 + usec / 1000)) else id) <$> x
      else x
  end.

Definition not_fionbio_off (c : hcmd) : Prop := match c with HFionbio _ false => False | _ => True end.

Section Sequences.
Context {K E : Type} `{System K} `{Epoll E}.
Implicit Types p : Process K E.

Inductive hstep : Process K E -> hcmd -> Process K E -> Prop :=
  | step_socket p p' fd : on_fdm socket p = (Ok fd, p') -> hstep p (HOpen By_socket fd) p'
  | step_accept p p' fd : on_fdm accept_tail p = (Ok fd, p') -> hstep p (HOpen By_accept fd) p'
  | step_close p p' fd : close fd p = (Ok tt, p') -> hstep p (HClose fd) p'
  | step_setfl p p' fd arg b : on_fdm (fcntl_setfl fd arg) p = (Ok b, p') -> hstep p (HSetfl fd arg) p'
  | step_fionbio p p' fd v : on_fdm (ioctl_fionbio fd v) p = (Ok tt, p') -> hstep p (HFionbio fd v) p'
  | step_timeo p p' fd opt s u : on_fdm (setsockopt_timeo fd opt s u) p = (Ok tt, p') -> hstep p (HTimeo fd opt s u) p'.

Inductive hsteps : Process K E -> list hcmd -> Process K E -> Prop :=
  | hsteps_nil p : hsteps p [] p
  | hsteps_snoc p cs p1 c p2 : hsteps p cs p1 -> hstep p1 c p2 -> hsteps p (cs ++ [c]) p2.

Lemma on_fdm_inv {A} (c : prog (FdManager K) A) p a p' :
  on_fdm c p = (Ok a, p') -> c (fdm p) = (Ok a, fdm p') /\ iom p' = iom p.
Proof. unfold on_fdm. destruct (c (fdm p)) as [[x|] m]; intros [= <- <-]. by split. Qed.

Lemma socket_step m v fd m' :
  shows m v -> socket m = (Ok fd, m') \/ accept_tail m = (Ok fd, m') -> shows m' (user_view v (HOpen By_socket fd)) /\
    forall f, managed m' f = ctx_after (HOpen By_socket fd) f (managed m f).
Proof.
  intros Hs. assert (forall o f k, openF o (sys m) = (f, k) -> f < 0 -> set_sys k m = m) as Hneg.
  { intros o f k Ho Hf. rewrite (open_fails _ _ _ _ Ho Hf). by destruct m. }
  intros [E1|E1]; [unfold socket in E1|unfold accept_tail in E1]; unfold bind at 1, gets, id in E1.
  - destruct (openF By_socket (sys m)) as [f k] eqn:Ho. unfold bind at 1, modify in E1. destruct (Z.eqb_spec f (-1)) as [->|Hf].
    { injection E1 as <- <-. cbn. rewrite (Hneg _ _ _ Ho) by done. split; [done|]. intros f. by case_decide. }
    destruct (Z.leb_spec 0 f) as [Hf0|Hf0].
    + destruct (open_ok _ _ _ _ _ Hs Ho Hf0) as (m2 & E2 & Hs2 & Hm2). rewrite (bind_ok _ _ _ _ _ E2) in E1. injection E1 as <- <-.
      cbn. by rewrite (proj2 (Z.leb_le 0 f)).
    + unfold Get, bind in E1. cbn in E1. rewrite (proj2 (Z.ltb_lt f 0)) in E1 by done. injection E1 as <- <-.
      cbn. rewrite (proj2 (Z.leb_gt 0 f)) by done. rewrite (Hneg _ _ _ Ho) by done. split; [done|]. intros g. by case_decide.
  - destruct (openF By_accept (sys m)) as [f k] eqn:Ho. unfold bind at 1, modify in E1. destruct (Z.leb_spec 0 f) as [Hf0|Hf0].
    + destruct (open_ok _ _ _ _ _ Hs Ho Hf0) as (m2 & E2 & Hs2 & Hm2). rewrite (bind_ok _ _ _ _ _ E2) in E1. injection E1 as <- <-.
      cbn. by rewrite (proj2 (Z.leb_le 0 f)).
    + injection E1 as <- <-. cbn. rewrite (proj2 (Z.leb_gt 0 f)) by done. rewrite (Hneg _ _ _ Ho) by done. split; [done|]. intros g. by case_decide.
Qed.

Lemma cancel_events_inv fd p p' : cancel_events fd p = (Ok tt, p') -> fdm p' = fdm p.
Proof.
  unfold cancel_events. destruct (iom p); [|by intros [= <-]].
  destruct (CancelAll fd _) as [[]]; [by intros [= <-]|done].
Qed.

Lemma close_step fd p p' v : shows (fdm p) v -> close fd p = (Ok tt, p') ->
  shows (fdm p') (delete fd v) /\ ctxs_by fd None (fdm p) (fdm p').
Proof.
  intros Hs. destruct (close_tail_ok fd (fdm p) v Hs) as (m1 & m2 & E1 & -> & Hs2).
  unfold close. intros (q & p1 & E2 & E3)%bind_ok_inv. unfold on_fdm in E2. rewrite Get_ok in E2. injection E2 as <- <-.
  apply bind_ok_inv in E3 as (u & p2 & E4 & E5). injection E5 as <-. cbn.
  enough (fdm p2 = m1) as -> by done. destruct (ptr (fdm p) fd).
  - apply bind_ok_inv in E4 as ([] & p3 & E6 & E7). apply cancel_events_inv in E6. cbn in E6.
    destruct u. apply on_fdm_inv in E7 as [E7 _]. rewrite E6 in E7. congruence.
  - injection E4 as <- <-. injection E1 as <-. done.
Qed.

Lemma hstep_ok p c p' v : shows (fdm p) v -> not_fionbio_off c -> hstep p c p' ->
  shows (fdm p') (user_view v c) /\ forall fd, managed (fdm p') fd = ctx_after c fd (managed (fdm p) fd).
Proof.
  intros Hs Hc Hst. destruct Hst as [p p' fd Hx|p p' fd Hx|p p' fd Hx|p p' fd arg b Hx|p p' fd b Hx|p p' fd opt s u Hx];
    [apply on_fdm_inv in Hx as [Hx _]..| |apply on_fdm_inv in Hx as [Hx _]|apply on_fdm_inv in Hx as [Hx _]|apply on_fdm_inv in Hx as [Hx _]].
  - apply (socket_step (fdm p)); auto.
  - apply (socket_step (fdm p)); auto.
  - destruct (close_step fd p _ _ Hs Hx) as [Hs' Hm]. split; [done|]. intros f. apply Hm.
  - destruct (fcntl_setfl_ok fd arg _ v Hs) as (b' & m' & E1 & H1 & H2). rewrite E1 in Hx. injection Hx as _ <-.
    split; [done|]. intros f. rewrite (H2 f). cbn. by case_decide; subst.
  - destruct b; [|done]. destruct (ioctl_fionbio_ok fd _ v Hs) as (m' & E1 & H1 & H2). rewrite E1 in Hx. injection Hx as <-.
    split; [done|]. intros f. rewrite (H2 f). cbn. by case_decide; subst.
  - destruct (setsockopt_timeo_ok fd opt s u _ v Hs) as (m' & E1 & H1 & H2). rewrite E1 in Hx. injection Hx as <-.
    split; [done|]. intros f. rewrite (H2 f). cbn. by case_decide; subst.
Qed.

Lemma shows_new (k : K) : shows (new_FdManager k) ∅.
Proof.
  assert (forall fd, ptr (new_FdManager k) fd = None) as Hp.
  { intros fd. unfold ptr. change (data_ (new_FdManager k)) with (replicate 64 (@None nat)).
    destruct (fd <? 0); [done|]. destruct (replicate 64 (@None nat) !! Z.to_nat fd) eqn:E1; [|done]. by apply lookup_replicate in E1 as [-> _]. }
  split; [split; [cbn; lia|intros fd q; by rewrite Hp]|].
  intros fd. unfold managed. by rewrite Hp.
Qed.

Lemma hsteps_ok k io cs p' :
  hsteps (mkProcess (new_FdManager k) io) cs p' -> Forall not_fionbio_off cs ->
  shows (fdm p') (fold_left user_view cs ∅).
Proof.
  remember (mkProcess (new_FdManager k) io) as p eqn:Hp. induction 1 as [p|p cs p1 c p2 _ IH Hst]; intros Hf.
  - rewrite Hp. apply shows_new.
  - apply Forall_app in Hf as [Hf1 [Hf2 _]%Forall_cons_1]. rewrite fold_left_app. cbn.
    by apply (hstep_ok p1 c p2); auto.
Qed.

Lemma hsteps_ctx k io cs p' fd :
  hsteps (mkProcess (new_FdManager k) io) cs p' -> Forall not_fionbio_off cs ->
  managed (fdm p') fd = fold_left (fun x c => ctx_after c fd x) cs None.
Proof.
  remember (mkProcess (new_FdManager k) io) as p eqn:Hp. induction 1 as [p|p cs p1 c p2 Hs IH Hst]; intros Hf.
  - rewrite Hp. cbn. destruct (shows_new k) as [_ Hv]. specialize (Hv fd). by destruct (managed _ fd).
  - apply Forall_app in Hf as [Hf1 [Hf2 _]%Forall_cons_1]. rewrite fold_left_app. cbn. rewrite <- (IH Hp Hf1).
    rewrite Hp in Hs. apply (hstep_ok p1 c p2 _ (hsteps_ok _ _ _ _ Hs Hf1) Hf2 Hst).
Qed.

(** C7: the library may make a socket non-blocking in the kernel without the program
    noticing: after any sequence of hooked calls that does not clear [FIONBIO], a
    descriptor has a context exactly when it was opened and not closed; it then does
    not block in the kernel, and [fcntl(fd, F_GETFL)] shows [O_NONBLOCK] exactly as
    the program set it last. *)
Theorem user_sees_own_flag k io cs p fd :
  hsteps (mkProcess (new_FdManager k) io) cs p -> Forall not_fionbio_off cs ->
  match fold_left user_view cs ∅ !! fd with
  | Some b => nonblock <$> getfl (sys (fdm p)) fd = Some true /\
              exists fl, fcntl_getfl fd (fdm p) = (Ok (Some fl), fdm p) /\ nonblock fl = b
  | None => Get fd false (fdm p) = (Ok None, fdm p)
  end.
Proof.
  intros Hst Hf. pose proof (hsteps_ok k io cs p Hst Hf) as Hs.
  destruct (fold_left user_view cs ∅ !! fd) as [b|] eqn:Eb.
  - destruct (fcntl_getfl_ok fd _ _ Hs ltac:(by exists b)) as (fl & Efl & Hb). split.
    + destruct Hs as [Hi Hv]. rewrite Hv in Eb. unfold managed in Eb.
      destruct (ptr (fdm p) fd) as [q|] eqn:Hq; [|done]. by destruct (fdi_ctx _ Hi _ _ Hq) as (c & _ & _ & _ & _ & ?).
    + exists fl. split; [done|]. congruence.
  - destruct Hs as [Hi Hv]. rewrite Get_ok. do 2 f_equal. apply (managed_None _ _ Hi).
    rewrite Hv in Eb. by destruct (managed (fdm p) fd).
Qed.

(** [close] on a thread with an [IOManager] delivers the events that wait on the
    descriptor, as [CancelAll] does, before it forgets the context and closes the
    descriptor: afterwards nothing is registered for it, unless [epoll_ctl] failed,
    and the other descriptors are as before. *)
Theorem close_releases fd m io v :
  shows m v -> io_inv io -> 0 <= fd -> fd <> tickle_fd io -> is_Some (v !! fd) ->
  exists r io' m', CancelAll fd io = (Ok r, io') /\ io_inv io' /\
    close fd (mkProcess m (Some io)) = (Ok tt, mkProcess m' (Some io')) /\
    shows m' (delete fd v) /\ getfl (sys m') fd = None /\
    (r = true -> forall o, objs io' !! Z.to_nat fd = Some o -> events o = 0).
Proof.
  intros Hs Hio Hfd Htf Hsome. destruct (CancelAll_ok io fd Hio Hfd Htf) as (r & io' & E1 & Hi' & _ & Hr).
  destruct (close_tail_ok fd m v Hs) as (m1 & m2 & E2 & -> & Hs2 & _).
  assert (exists q, ptr m fd = Some q) as [q Hq].
  { destruct (ptr m fd) eqn:Hq; [by eexists|]. destruct Hs as [Hi Hv]. rewrite Hv in Hsome.
    rewrite (proj1 (managed_None m fd Hi) Hq) in Hsome. by destruct Hsome. }
  rewrite Hq in E2. exists r, io', (set_sys (closeF fd (sys m1)) m1). split_and!; [done|done| |done|apply close_gone|].
  - unfold close. assert (on_fdm (Get fd false) (mkProcess m (Some io)) = (Ok (Some q), mkProcess m (Some io))) as E3.
    { unfold on_fdm. cbn [fdm]. by rewrite Get_ok, Hq. }
    rewrite (bind_ok _ _ _ _ _ E3). unfold bind, cancel_events. cbn [iom]. rewrite E1. unfold on_fdm. cbn [fdm iom]. by rewrite E2.
  - intros -> o Ho. destruct Hr as (o0 & Ho0 & _ & _ & (o' & Eo & He) & _). rewrite Eo in Ho.
    rewrite list_lookup_insert_eq in Ho; [by injection Ho as <-|]. by apply lookup_lt_Some in Ho0.
Qed.
End Sequences.

(** ** What a hooked call returns *)

Definition interim (r : syscall) : bool := match r with Errno e => (e =? EINTR) || (e =? EAGAIN) | _ => false end.
Definition is_eintr (r : syscall) : bool := match r with Errno e => e =? EINTR | _ => false end.
Definition is_eagain (r : syscall) : bool := match r with Errno e => e =? EAGAIN | _ => false end.

(** The calls up to the first that is not interrupted. *)
Lemma split_eintr l :
  (exists l1 r l2, l = l1 ++ r :: l2 /\ Forall (fun x => is_eintr x = true) l1 /\ is_eintr r = false) \/
  Forall (fun x => is_eintr x = true) l.
Proof.
  induction l as [|x l IH]; [by right|]. destruct (is_eintr x) eqn:Ex.
  - destruct IH as [(l1 & r & l2 & -> & H1 & H2)|IH]; [left|right; by constructor].
    exists (x :: l1), r, l2. split_and!; [done|by constructor|done].
  - left. exists [], x, l. split_and!; [done|constructor|done].
Qed.

Section Outcomes.
Context {E : Type} `{Epoll E} `{Allocator} (e : env) (fd event : Z).
Context (Hfd : 0 <= fd) (Hmax : fd * 3 / 2 < 2 ^ 31) (Hev : event_ok event).
Implicit Types (w : world E) (m : IOManager E) (k : resumption E).

(** The manager works, and this fiber may wait on it. *)
Record usable m : Prop := {
  us_inv : io_inv m;
  us_timers : Timer.inv (timers m);
  us_add : may_add m e Null;
  us_self : is_Some (scheds m !! self m);
  us_fd : fd <> tickle_fd m }.

(** Nobody else waits for the event. *)
Definition unregistered m : Prop := forall o, objs m !! Z.to_nat fd = Some o -> has (events o) event = false.

(** What may happen while the fiber is suspended: the manager is used through its
    operations, the timers through theirs, and the fiber is resumed because its event
    was delivered, so that it is no longer registered. *)
Definition polite k : Prop :=
  forall m, usable m -> usable (after k m) /\ unregistered (after k m) /\
    exists cs, tsteps (timers m) cs (timers (after k m)).

Lemma io_frame m m' :
  objs m' = objs m -> fd_contexts_ m' = fd_contexts_ m -> pending_event_cnt_ m' = pending_event_cnt_ m ->
  kernel m' = kernel m -> dom (scheds m') = dom (scheds m) -> tickle_fd m' = tickle_fd m -> io_inv m -> io_inv m'.
Proof.
  intros E1 E2 E3 E4 E5 E6 [H1 H2 H3 H4 H5]. split; rewrite ?E1, ?E2, ?E3, ?E4, ?E6; try done.
  intros p o Ho. destruct (H3 p o Ho) as [H6 H7 H8 H9]. split; rewrite ?E4, ?E6; try done.
  intros ev Hx. by apply (ctx_ok_frame m), H7.
Qed.

Lemma usable_timers m t : usable m -> Timer.inv t -> usable (set_iotimers t m).
Proof. intros [H1 H2 H3 H4 H5] Ht. split; try done. by apply (io_frame m). Qed.

Lemma usable_pipes m pp : usable m -> usable (set_pipes pp m).
Proof. intros [H1 H2 H3 H4 H5]. split; try done. by apply (io_frame m). Qed.

(** One operation on the timers. *)
Lemma on_timers_ok w c o t' :
  usable (io w) -> tvalid (timers (io w)) c -> texec c (timers (io w)) = (Ok o, t') ->
  usable (set_iotimers t' (io w)) /\ tsteps (timers (io w)) [c] t'.
Proof.
  intros Hu Hv Ho. assert (tstep (timers (io w)) c t') as Hs by (by econstructor).
  split; [|by econstructor; [|constructor]]. apply usable_timers; [done|]. by apply (tstep_good _ _ _ (us_timers _ Hu) Hs).
Qed.

(** A timer that the call owns is on its way or gone. *)
Definition owned (timer : option nat) m : Prop :=
  match timer with Some t => has_callback t (timers m) \/ disarmed t (timers m) | None => True end.

Definition armed_with (timer : option nat) (l : list nat) : list nat :=
  match timer with Some t => t :: l | None => l end.

Definition timed (timeout : Z) : bool := negb (timeout =? max64).

Lemma add_timer_ok timeout lambda tinfo w :
  usable (io w) -> unregistered (io w) -> 0 <= timeout < 2 ^ 64 ->
  exists timer m cs, add_timer timeout lambda tinfo w =
      (Ok timer, mkWorld (calls w) (resumes w) m (clock w) (armed_with timer (armed w)) (refused w)) /\
    (timer = None <-> timed timeout = false) /\ usable m /\ unregistered m /\ owned timer m /\
    tsteps (timers (io w)) cs (timers m).
Proof.
  intros Hu Hn Ht. unfold add_timer, timed. destruct (timeout =? max64).
  { exists None, (io w), []. split_and!; try done; [by destruct w|constructor]. }
  destruct (AddTimer_ok (timers (io w)) (clock w) timeout (Bind_OnTimer tinfo (Fn lambda)) false (us_timers _ Hu) Ht)
    as (l & front & Ea & Hi & Hl & _). cbn zeta in *. set (t := alloc (heap (timers (io w)))) in *.
  match type of Ea with _ = (_, ?x) => set (tm := x) in * end.
  destruct (on_timers_ok w (TAddCond (clock w) timeout (Fn lambda) tinfo false) (OTimer t front) tm Hu Ht) as [Hu1 Hs].
  { cbn [texec]. unfold bind, AddConditionTimer. by rewrite Ea. }
  unfold bind at 1, gets, id. unfold bind at 1, on_io, on_timers, AddConditionTimer. rewrite Ea. cbn [fst snd].
  assert (owned (Some t) (set_iotimers tm (io w))) as Ho.
  { left. eexists. cbn. rewrite lookup_insert_eq. by split. }
  destruct front; cbn [fst snd].
  - destruct (us_self _ Hu) as [sc Hsc]. unfold OnTimerInsertedAtFront, bind, gets, Tickle, id. cbn. rewrite Hsc.
    destruct (HasIdleThreads sc); cbn.
    + exists (Some t), (set_iotimers tm (io w)), [TAddCond (clock w) timeout (Fn lambda) tinfo false].
      split_and!; done.
    + eexists (Some t), _, [TAddCond (clock w) timeout (Fn lambda) tinfo false]. split; [done|].
      split_and!; try done. by apply usable_pipes.
  - exists (Some t), (set_iotimers tm (io w)), [TAddCond (clock w) timeout (Fn lambda) tinfo false].
    split_and!; done.
Qed.

Lemma cancel_timer_ok timer w :
  usable (io w) -> unregistered (io w) -> owned timer (io w) ->
  exists m cs, cancel_timer timer w = (Ok tt, mkWorld (calls w) (resumes w) m (clock w) (armed w) (refused w)) /\
    usable m /\ unregistered m /\ tsteps (timers (io w)) cs (timers m) /\
    match timer with Some t => disarmed t (timers m) | None => True end.
Proof.
  intros Hu Hn Ho. destruct timer as [t|].
  2:{ exists (io w), []. split_and!; try done; [by destruct w|constructor]. }
  assert (exists x, heap (timers (io w)) !! t = Some x) as [x Hx].
  { destruct Ho as [(x & ? & _)|[_ (x & ? & _)]]; by exists x. }
  destruct (Cancel_ok (timers (io w)) t x (us_timers _ Hu) Hx) as (l & Ec & Hc). cbn zeta in Ec.
  assert (exists b tm, Timer.Cancel t (timers (io w)) = (Ok b, tm) /\ disarmed t tm) as (b & tm & Eb & Hd).
  { rewrite Ec. destruct (callable (Timer.callback_ x)) eqn:Ex.
    - destruct (Hc eq_refl) as [_ P]. eexists _, _. split; [done|]. split; cbn; [|eexists; by rewrite lookup_insert_eq].
      pose proof (inv_nodup _ _ (us_timers _ Hu)) as Hnd. rewrite app_nil_r, P in Hnd. by apply NoDup_cons in Hnd as [??].
    - eexists _, _. split; [done|]. destruct Ho as [(y & Hy & Hy')|]; [congruence|done]. }
  destruct (on_timers_ok w (TCancel t) (OBool b) tm Hu ltac:(by exists x)) as [Hu1 Hs].
  { cbn [texec]. unfold bind. by rewrite Eb. }
  exists (set_iotimers tm (io w)), [TCancel t].
  split; [unfold cancel_timer, bind, on_io, on_timers; by rewrite Eb|]. split_and!; done.
Qed.

Lemma add_event_ok w :
  usable (io w) -> unregistered (io w) ->
  exists rt m, add_event e fd event w =
      (Ok rt, mkWorld (calls w) (resumes w) m (clock w) (armed w) (negb (rt =? 0) || refused w)) /\
    usable m /\ timers m = timers (io w) /\ (rt <> 0 -> unregistered m).
Proof.
  intros Hu Hn. destruct Hu as [H1 H2 H3 H4 H5].
  destruct (AddEvent_ok (io w) e fd event Null H1 Hfd Hmax H5 Hev H3 Hn) as (r & m & Er & Hi & (B1 & B2 & B3 & B4) & Hs & Hr & Hp & Hreg).
  exists r, m. split; [|split_and!; [split|done|done]].
  - unfold add_event, bind, on_io. rewrite Er. destruct (r =? 0); [|done]. by destruct w.
  - done.
  - by rewrite B1.
  - unfold may_add in *. by rewrite Hs.
  - rewrite Hs, B2. done.
  - by rewrite B3.
Qed.

(** [call_uninterrupted] on the calls the system is going to answer. *)
Lemma call_uninterrupted_ok fuel w l1 r l2 :
  calls w = l1 ++ r :: l2 -> Forall (fun x => is_eintr x = true) l1 -> is_eintr r = false -> (length l1 < fuel)%nat ->
  call_uninterrupted fuel w = (Ok r, mkWorld l2 (resumes w) (io w) (clock w) (armed w) (refused w)).
Proof.
  revert w l1. induction fuel as [|fuel IH]; intros w l1 Hc Hl Hr Hf; [lia|].
  cbn [call_uninterrupted]. unfold bind, call_fun. rewrite Hc. destruct l1 as [|x l1]; cbn.
  - destruct r as [n|err]; [done|]. cbn in Hr. by rewrite Hr.
  - apply Forall_cons in Hl as [Hx Hl]. destruct x as [n|err]; [done|]. cbn in Hx. rewrite Hx.
    rewrite (IH _ l1); cbn in *; [done..|lia].
Qed.

Lemma tsteps_app (m1 m2 m3 : TimerManager) cs1 cs2 : tsteps m1 cs1 m2 -> tsteps m2 cs2 m3 -> tsteps m1 (cs1 ++ cs2) m3.
Proof. induction 1; [done|]. intros. econstructor; eauto. Qed.

(** The timers a call has left behind. *)
Definition left_behind (w w' : world E) : Prop := exists l, armed w' = l ++ armed w /\ Forall (fun t => disarmed t (timers (io w'))) l.

(** The timer of a round, from [AddEvent] to its cancellation. *)
Lemma wait_round timeout lambda tinfo w k ks :
  usable (io w) -> unregistered (io w) -> 0 <= timeout < 2 ^ 64 -> resumes w = k :: ks -> polite k ->
  exists timer rt w1, (let* timer := add_timer timeout lambda tinfo in
                       let* rt := add_event e fd event in ret (timer, rt)) w = (Ok (timer, rt), w1) /\
    calls w1 = calls w /\ resumes w1 = resumes w /\ refused w1 = negb (rt =? 0) || refused w /\
    (timer = None <-> timed timeout = false) /\
    (rt <> 0 -> exists w2 cs, cancel_timer timer w1 = (Ok tt, w2) /\ calls w2 = calls w /\ refused w2 = true /\
       tsteps (timers (io w)) cs (timers (io w2)) /\ left_behind w w2) /\
    (rt = 0 -> exists c w2 w3 cs, yield timer w1 = (Ok c, w2) /\ c = (if timed timeout then cancelled k else 0) /\
       cancel_timer timer w2 = (Ok tt, w3) /\ calls w3 = calls w /\ resumes w3 = ks /\ refused w3 = refused w /\
       usable (io w3) /\ unregistered (io w3) /\ tsteps (timers (io w)) cs (timers (io w3)) /\ left_behind w w3).
Proof using Hfd Hmax Hev.
  intros Hu Hn Ht Hk Hp.
  destruct (add_timer_ok timeout lambda tinfo w Hu Hn Ht) as (timer & m1 & cs1 & E1 & Hiff & Hu1 & Hn1 & Ho1 & Hs1).
  set (w1 := mkWorld (calls w) (resumes w) m1 (clock w) (armed_with timer (armed w)) (refused w)) in *.
  destruct (add_event_ok w1 Hu1 Hn1) as (rt & m2 & E2 & Hu2 & Ht2 & Hn2).
  set (w2 := mkWorld (calls w1) (resumes w1) m2 (clock w1) (armed w1) (negb (rt =? 0) || refused w1)) in *.
  exists timer, rt, w2. split; [unfold bind; rewrite E1, E2; done|]. split_and!; try done; try (by apply Hiff).
  - intros Hrt. assert (owned timer m2) as Ho2 by (unfold owned in *; by rewrite Ht2).
    destruct (cancel_timer_ok timer w2 Hu2 (Hn2 Hrt) Ho2) as (m3 & cs3 & E3 & Hu3 & Hn3 & Hs3 & Hd).
    eexists _, (cs1 ++ cs3). split; [exact E3|]. split_and!; try done.
    + cbn. by rewrite (proj2 (Z.eqb_neq rt 0) Hrt).
    + apply (tsteps_app _ (timers m1)); [done|]. change (timers m1) with (timers (io w1)). by rewrite <- Ht2.
    + exists (match timer with Some t => [t] | None => [] end). destruct timer; split; try done; by constructor.
  - intros Hrt. destruct (Hp m2 Hu2) as (Hu3 & Hn3 & cs & Hs).
    set (w3 := mkWorld (calls w) ks (after k m2) (time k) (armed_with timer (armed w)) (negb (rt =? 0) || refused w)).
    assert (owned timer (io w3)) as Ho3.
    { destruct timer as [t|]; [|done]. apply (tsteps_callback (timers m2) cs); [apply Hu2|done|]. by rewrite Ht2. }
    destruct (cancel_timer_ok timer w3 Hu3 Hn3 Ho3) as (m4 & cs4 & E4 & Hu4 & Hn4 & Hs4 & Hd).
    eexists _, w3, _, (cs1 ++ cs ++ cs4). split; [unfold yield; cbn; rewrite Hk; done|].
    split; [|split; [exact E4|split_and!; try done]].
    + destruct timer as [t|]; [|by rewrite (proj1 Hiff eq_refl)]. destruct (timed timeout); [done|].
      by discriminate (proj2 Hiff eq_refl).
    + cbn. by rewrite Hrt.
    + apply (tsteps_app _ (timers m1)); [done|]. apply (tsteps_app _ (timers (after k m2))); [|done].
      change (timers m1) with (timers (io w1)). by rewrite <- Ht2.
    + exists (match timer with Some t => [t] | None => [] end). destruct timer; split; try done; by constructor.
Qed.

(** What a call that waits may return: the system's final answer [r0], [EAGAIN] when
    the event was refused, or what a timer left in [tinfo->cancelled]. *)
Definition outcome (timeout : Z) (r0 : syscall) (w : world E) (r : syscall) (w' : world E) : Prop :=
  (r = r0 \/ (r = Errno EAGAIN /\ refused w' = true) \/
   (timed timeout = true /\ exists k, k ∈ resumes w /\ cancelled k <> 0 /\ r = Errno (cancelled k))) /\
  left_behind w w'.

Lemma left_behind_trans w1 w2 w3 cs :
  Timer.inv (timers (io w2)) -> tsteps (timers (io w2)) cs (timers (io w3)) ->
  left_behind w1 w2 -> left_behind w2 w3 -> left_behind w1 w3.
Proof.
  intros Hi Hs (l1 & E1 & F1) (l2 & E2 & F2). exists (l2 ++ l1). split; [by rewrite E2, E1, app_assoc|].
  apply Forall_app_2; [done|]. apply (Forall_impl _ _ _ F1). intros t. by apply (tsteps_disarmed _ cs).
Qed.

(** Up to the first [EAGAIN]: the interrupted calls are repeated, then the round waits. *)
Lemma retry_eagain fuel timeout lambda tinfo w l1 l2 :
  calls w = l1 ++ Errno EAGAIN :: l2 -> Forall (fun x => is_eintr x = true) l1 ->
  retry (S fuel) e fd event timeout lambda tinfo w =
  (let* timer := add_timer timeout lambda tinfo in
   let* rt := add_event e fd event in
   if negb (rt =? 0) then cancel_timer timer ;; ret (Errno EAGAIN)
   else
     let* c := yield timer in
     cancel_timer timer ;;
     if negb (c =? 0) then ret (Errno c) else retry fuel e fd event timeout lambda tinfo)
    (mkWorld l2 (resumes w) (io w) (clock w) (armed w) (refused w)).
Proof using Type.
  intros Hc Hl. cbn [retry]. unfold bind at 1, gets, id.
  by rewrite (bind_ok _ _ _ _ _ (call_uninterrupted_ok (S (length (calls w))) w l1 (Errno EAGAIN) l2 Hc Hl eq_refl
    ltac:(rewrite Hc, length_app; cbn; lia))).
Qed.

(** One round of the loop that ends in [EAGAIN]. *)
Lemma retry_round fuel timeout lambda tinfo w l1 l2 k ks :
  calls w = l1 ++ Errno EAGAIN :: l2 -> Forall (fun x => is_eintr x = true) l1 ->
  usable (io w) -> unregistered (io w) -> 0 <= timeout < 2 ^ 64 -> resumes w = k :: ks -> polite k ->
  (exists w', retry (S fuel) e fd event timeout lambda tinfo w = (Ok (Errno EAGAIN), w') /\ refused w' = true /\
     (exists cs, tsteps (timers (io w)) cs (timers (io w'))) /\ left_behind w w') \/
  (exists w', retry (S fuel) e fd event timeout lambda tinfo w =
       (if timed timeout && negb (cancelled k =? 0) then (Ok (Errno (cancelled k)), w')
        else retry fuel e fd event timeout lambda tinfo w') /\
     calls w' = l2 /\ resumes w' = ks /\ refused w' = refused w /\ usable (io w') /\ unregistered (io w') /\
     (exists cs, tsteps (timers (io w)) cs (timers (io w'))) /\ left_behind w w').
Proof using Hfd Hmax Hev.
  intros Hc Hl Hu Hn Ht Hk Hp. rewrite (retry_eagain fuel timeout lambda tinfo w l1 l2 Hc Hl).
  set (w0 := mkWorld l2 (resumes w) (io w) (clock w) (armed w) (refused w)).
  destruct (wait_round timeout lambda tinfo w0 k ks Hu Hn Ht Hk Hp)
    as (timer & rt & w1 & E1 & C1 & R1 & F1 & Hiff & Hbad & Hgood).
  unfold bind in E1 |- *. destruct (add_timer timeout lambda tinfo w0) as [[tm|] wa]; [|done].
  destruct (add_event e fd event wa) as [[x|] wb]; [|done]. unfold ret in E1. injection E1 as -> -> ->.
  destruct (Z.eqb_spec rt 0) as [Hz|Hnz]; cbn [negb].
  - right. destruct (Hgood Hz) as (c & w2 & w3 & cs & Ey & Ec & Ex & C3 & R3 & F3 & Hu3 & Hn3 & Hs3 & Hb3).
    exists w3. rewrite Ey, Ex. split; [|split_and!; try done; by exists cs].
    rewrite Ec. destruct (timed timeout); cbn; [|done]. by destruct (cancelled k =? 0).
  - left. destruct (Hbad Hnz) as (w2 & cs & Ex & C2 & F2 & Hs2 & Hb2). exists w2. rewrite Ex.
    split_and!; try done. by exists cs.
Qed.

Lemma retry_final fuel timeout lambda tinfo w l r0 l2 :
  calls w = l ++ r0 :: l2 -> Forall (fun x => interim x = true) l -> interim r0 = false -> (length l < fuel)%nat ->
  usable (io w) -> unregistered (io w) -> 0 <= timeout < 2 ^ 64 ->
  (length l <= length (resumes w))%nat -> Forall polite (resumes w) ->
  exists r w', retry fuel e fd event timeout lambda tinfo w = (Ok r, w') /\ outcome timeout r0 w r w' /\
    exists cs, tsteps (timers (io w)) cs (timers (io w')).
Proof using Hfd Hmax Hev.
  revert w l. induction fuel as [|fuel IH]; intros w l Hc Hl Hr Hf Hu Hn Ht Hlen Hp; [lia|].
  destruct (split_eintr l) as [(l1 & x & l3 & -> & H1 & H2)|Hst].
  - apply Forall_app in Hl as [_ Hl]. apply Forall_cons in Hl as [Hx Hl]. rewrite length_app in *. cbn in Hf, Hlen.
    assert (x = Errno EAGAIN) as ->.
    { destruct x as [n|err]; [done|]. cbn in Hx, H2. rewrite H2 in Hx. apply Z.eqb_eq in Hx. by rewrite Hx. }
    destruct (resumes w) as [|k ks] eqn:Er; [cbn in Hlen; lia|]. apply Forall_cons in Hp as [Hk Hp].
    rewrite <- app_assoc in Hc. cbn in Hc.
    destruct (retry_round fuel timeout lambda tinfo w l1 (l3 ++ r0 :: l2) k ks Hc H1 Hu Hn Ht Er Hk)
      as [(w' & E1 & F1 & Hs1 & Hb1)|(w1 & E1 & C1 & R1 & F1 & Hu1 & Hn1 & (cs & Hs1) & Hb1)].
    + exists (Errno EAGAIN), w'. split; [done|]. split; [|done]. split; [|done]. right. by left.
    + rewrite E1. destruct (timed timeout && negb (cancelled k =? 0)) eqn:Et.
      * exists (Errno (cancelled k)), w1. split; [done|]. split; [|by exists cs]. split; [|done]. right. right.
        apply andb_true_iff in Et as [Et Hz%negb_true_iff%Z.eqb_neq]. split; [done|]. exists k.
        split_and!; [rewrite Er; by left|done|done].
      * destruct (IH w1 l3) as (r & w' & E2 & [Ho Hb2] & cs2 & Hs2); try done; try lia.
        { rewrite R1. cbn in Hlen. lia. } { by rewrite R1. }
        exists r, w'. split; [done|]. split; [|exists (cs ++ cs2); by apply (tsteps_app _ (timers (io w1)))]. split.
        -- destruct Ho as [Ho|[Ho|(Ht' & k' & Hk' & Ho)]]; [by left|right; by left|right; right].
           split; [done|]. exists k'. split; [rewrite Er; right; by rewrite <- R1|done].
        -- apply (left_behind_trans w w1 w' cs2); try done. apply Hu1.
  - assert (is_eintr r0 = false /\ is_eagain r0 = false) as [Hri Hra].
    { destruct r0; [done|]. cbn in *. by apply orb_false_iff in Hr. }
    cbn [retry]. unfold bind at 1, gets, id.
    rewrite (bind_ok _ _ _ _ _ (call_uninterrupted_ok (S (length (calls w))) w l r0 l2 Hc Hst Hri
      ltac:(rewrite Hc, length_app; cbn; lia))).
    eexists r0, _. split; [destruct r0 as [n|err]; [done|]; cbn in Hra; by rewrite Hra|].
    split; [|exists []; constructor]. split; [by left|]. exists []. split; [done|constructor].
Qed.

(** A hooked call is as good as a blocking one.  However often the system
    interrupts it or has nothing to give yet, it registers the event, lets others run
    and tries again, and it returns: the system's first final answer; or [EAGAIN] when
    the event could not be registered; or, only if the descriptor has a timeout, the
    error a timer left behind.  Every timer it armed is out of the set and without
    its callback when it returns, whatever the others did to the timers meanwhile. *)
Theorem doIO_returns timeout lambda tinfo w l r0 l2 :
  calls w = l ++ r0 :: l2 -> Forall (fun x => interim x = true) l -> interim r0 = false ->
  usable (io w) -> unregistered (io w) -> 0 <= timeout < 2 ^ 64 ->
  (length l <= length (resumes w))%nat -> Forall polite (resumes w) ->
  exists r w', doIO (Async timeout) e fd event lambda tinfo w = (Ok r, w') /\ outcome timeout r0 w r w'.
Proof using Hfd Hmax Hev.
  intros Hc Hl Hr Hu Hn Ht Hlen Hp. unfold doIO, bind, gets, id.
  destruct (retry_final (S (length (calls w))) timeout lambda tinfo w l r0 l2) as (r & w' & E1 & Ho & _); try done; [|by exists r, w'].
  rewrite Hc, length_app. cbn. lia.
Qed.
End Outcomes.

Section Connecting.
Context {E : Type} `{Epoll E} `{Allocator} (e : env) (fd : Z).
Implicit Types w : world E.

End Connecting.

(** ** A system *)

(** The status flags of the open sockets, lowest free descriptor first. *)
Abbreviation socks := (list (option Z)).

Definition sock_fl (k : socks) (fd : Z) : option Z := if fd <? 0 then None else mjoin (k !! Z.to_nat fd).
Definition sock_put (fd : Z) (v : option Z) (k : socks) : socks :=
  if bool_decide (sock_fl k fd = None) then k else <[Z.to_nat fd := v]> k.
Definition set_nonblock (b : bool) (fl : Z) : Z := if b then Z.lor fl O_NONBLOCK else Z.land fl (Z.lnot O_NONBLOCK).

Fixpoint first_free (k : socks) : nat :=
  match k with Some _ :: k => S (first_free k) | _ => O end.

Lemma first_free_spec k : mjoin (k !! first_free k) = None /\ (first_free k <= length k)%nat.
Proof. induction k as [|[fl|] k IH]; cbn; [split; [done|lia]| |split; [done|lia]]. split; [apply IH|lia]. Qed.

Lemma sock_put_eq fd v k : sock_fl (sock_put fd v k) fd = if bool_decide (sock_fl k fd = None) then None else v.
Proof.
  unfold sock_put. case_bool_decide as Hn; [done|]. unfold sock_fl in *. destruct (fd <? 0); [done|].
  destruct (k !! Z.to_nat fd) as [x|] eqn:E; [|done]. by rewrite list_lookup_insert_eq by (by eapply lookup_lt_Some).
Qed.

Lemma sock_put_ne fd v k fd' : fd <> fd' -> sock_fl (sock_put fd v k) fd' = sock_fl k fd'.
Proof.
  intros Hn. unfold sock_put. case_bool_decide as Hk; [done|]. unfold sock_fl in *.
  destruct (Z.ltb_spec fd' 0); [done|]. destruct (Z.ltb_spec fd 0); [done|]. by rewrite list_lookup_insert_ne by lia.
Qed.

Definition sock_open (k : socks) : Z * socks :=
  (Z.of_nat (first_free k), <[first_free k := Some 2]> (k ++ [None])).

Lemma sock_open_fl k fd :
  sock_fl (sock_open k).2 fd = if decide (fd = (sock_open k).1) then Some 2 else sock_fl k fd.
Proof.
  destruct (first_free_spec k) as [_ Hl]. unfold sock_fl, sock_open. cbn. case_decide as Hd.
  - subst. rewrite (proj2 (Z.ltb_ge _ 0)), Nat2Z.id by lia. rewrite list_lookup_insert_eq; [done|].
    rewrite length_app. cbn. lia.
  - destruct (Z.ltb_spec fd 0); [done|]. rewrite list_lookup_insert_ne by lia.
    destruct (decide (Z.to_nat fd < length k)%nat); [by rewrite lookup_app_l|].
    rewrite lookup_app_r, (lookup_ge_None_2 k) by lia. by destruct (Z.to_nat fd - length k)%nat.
Qed.

#[global, program] Instance socks_system : System socks := {
  getfl := sock_fl;
  is_sock k fd := (fun _ => true) <$> sock_fl k fd;
  setfl fd fl k := sock_put fd (Some fl) k;
  fionbio fd b k := sock_put fd (set_nonblock b <$> sock_fl k fd) k;
  openF _ k := sock_open k;
  closeF fd k := sock_put fd None k }.
Next Obligation. intros. cbv beta. by rewrite fmap_is_Some. Qed.
Next Obligation. intros. cbv beta. rewrite sock_put_eq. by destruct (sock_fl k fd). Qed.
Next Obligation. intros. cbv beta. by apply sock_put_ne. Qed.
Next Obligation.
  intros. cbv beta. destruct (decide (fd = fd')) as [<-|]; [|by rewrite sock_put_ne]. rewrite sock_put_eq. by destruct (sock_fl k fd).
Qed.
Next Obligation.
  intros. cbv beta. rewrite sock_put_eq. destruct (sock_fl k fd); [|done]. cbn. f_equal. unfold set_nonblock.
  destruct b; [apply nonblock_lor|apply nonblock_clear].
Qed.
Next Obligation. intros. cbv beta. by apply sock_put_ne. Qed.
Next Obligation.
  intros. cbv beta. destruct (decide (fd = fd')) as [<-|]; [|by rewrite sock_put_ne]. rewrite sock_put_eq. by destruct (sock_fl k fd).
Qed.
Next Obligation. intros _ k fd k' [= <- <-] Hf. lia. Qed.
Next Obligation.
  cbv beta. intros _ k fd k' E Hf. assert (fd = (sock_open k).1 /\ k' = (sock_open k).2) as [-> ->] by (by rewrite E).
  rewrite sock_open_fl, decide_True by done. split; [|done].
  unfold sock_fl. rewrite (proj2 (Z.ltb_ge _ 0)) by done. cbn. rewrite Nat2Z.id. apply first_free_spec.
Qed.
Next Obligation.
  cbv beta. intros _ k fd k' fd' E Hf. assert (fd = (sock_open k).1 /\ k' = (sock_open k).2) as [-> ->] by (by rewrite E).
  rewrite sock_open_fl, decide_False by done. done.
Qed.
Next Obligation. intros. cbv beta. rewrite sock_put_eq. by destruct (bool_decide _). Qed.
Next Obligation. intros. cbv beta. by apply sock_put_ne. Qed.

(** ** Examples *)

Abbreviation demo_process := (Process (list (option Z)) (gmap Z (Z * nat))).

Definition hexec (c : hcmd) : prog demo_process unit :=
  match c with
  | HOpen By_socket fd => let* r := on_fdm socket in require (r =? fd) undefined
  | HOpen By_accept fd => let* r := on_fdm accept_tail in require (r =? fd) undefined
  | HClose fd => close fd
  | HSetfl fd arg => let* _ := on_fdm (fcntl_setfl fd arg) in ret tt
  | HFionbio fd v => on_fdm (ioctl_fionbio fd v)
  | HTimeo fd opt s u => on_fdm (setsockopt_timeo fd opt s u)
  end.

Definition fresh_process : demo_process := mkProcess (new_FdManager []) (Some demo_io).

Definition after_hooks (cs : list hcmd) : demo_process := fold_left (fun p c => (hexec c p).2) cs fresh_process.

(** Two sockets, the first closed and its descriptor used again. *)
Definition demo_hooks : list hcmd :=
  [HOpen By_socket 0; HOpen By_accept 1; HSetfl 1 O_NONBLOCK; HClose 0; HOpen By_socket 0; HTimeo 0 SO_RCVTIMEO 2 0].

Ltac run_hook := first
  [ apply step_socket | apply step_accept | apply step_close | apply (step_setfl _ _ _ _ true)
  | apply step_fionbio | apply step_timeo ]; vm_compute; reflexivity.

Lemma demo_hooks_steps : hsteps fresh_process demo_hooks (after_hooks demo_hooks).
Proof.
  apply (hsteps_snoc _ (take 5 demo_hooks) (after_hooks (take 5 demo_hooks)) (HTimeo 0 SO_RCVTIMEO 2 0)); [|run_hook].
  apply (hsteps_snoc _ (take 4 demo_hooks) (after_hooks (take 4 demo_hooks)) (HOpen By_socket 0)); [|run_hook].
  apply (hsteps_snoc _ (take 3 demo_hooks) (after_hooks (take 3 demo_hooks)) (HClose 0)); [|run_hook].
  apply (hsteps_snoc _ (take 2 demo_hooks) (after_hooks (take 2 demo_hooks)) (HSetfl 1 O_NONBLOCK)); [|run_hook].
  apply (hsteps_snoc _ (take 1 demo_hooks) (after_hooks (take 1 demo_hooks)) (HOpen By_accept 1)); [|run_hook].
  apply (hsteps_snoc _ [] fresh_process (HOpen By_socket 0)); [apply hsteps_nil|run_hook].
Qed.

Lemma user_sees_own_flag_witness :
  nonblock <$> getfl (sys (fdm (after_hooks demo_hooks))) 1 = Some true /\
  exists fl, fcntl_getfl 1 (fdm (after_hooks demo_hooks)) = (Ok (Some fl), fdm (after_hooks demo_hooks)) /\ nonblock fl = true.
Proof.
  apply (user_sees_own_flag [] (Some demo_io) demo_hooks (after_hooks demo_hooks) 1);
    [apply demo_hooks_steps|repeat constructor].
Defined.

(** The process of [demo_hooks], with a reader waiting on descriptor 1. *)
Definition waiting_io : IOManager (gmap Z (Z * nat)) := (AddEvent demo_env 1 READ Null demo_io).2.

Lemma waiting_io_inv : io_inv waiting_io.
Proof.
  destruct (AddEvent_ok demo_io demo_env 1 READ Null) as (r & m' & E & Hi & _);
    [apply demo_io_inv|done|done|done|by left| |intros o; vm_compute; by intros [= <-]|].
  - split; [|by right]. exists 0%nat. split; [done|]. vm_compute. by eexists.
  - unfold waiting_io. by rewrite E.
Qed.

Lemma close_releases_witness :
  exists r io' m', CancelAll 1 waiting_io = (Ok r, io') /\ io_inv io' /\
    close 1 (mkProcess (fdm (after_hooks demo_hooks)) (Some waiting_io)) = (Ok tt, mkProcess m' (Some io')) /\
    shows m' (delete 1 (fold_left user_view demo_hooks ∅)) /\ getfl (sys m') 1 = None /\
    (r = true -> forall o, objs io' !! Z.to_nat 1 = Some o -> events o = 0).
Proof.
  apply (close_releases 1 (fdm (after_hooks demo_hooks)) waiting_io (fold_left user_view demo_hooks ∅)).
  - apply (hsteps_ok [] (Some demo_io)); [apply demo_hooks_steps|repeat constructor].
  - apply waiting_io_inv.
  - lia.
  - vm_compute. discriminate.
  - vm_compute. by eexists.
Defined.

#[local] Existing Instance bump.

(** What runs while the fiber waits on descriptor 7: its event is delivered, leaving
    the manager of [demo_io], with the timers as they are. *)
Definition demo_resumption (c : Z) : resumption (gmap Z (Z * nat)) :=
  mkResumption (fun m => set_iotimers (timers m) demo_io) c 1500.

Lemma demo_usable tms : Timer.inv tms -> usable demo_env 7 (set_iotimers tms demo_io).
Proof.
  intros Ht. apply usable_timers; [|done]. split; [apply demo_io_inv|apply inv_new| |by eexists|done].
  split; [|by right]. exists 0%nat. split; [done|]. by eexists.
Qed.

Lemma demo_unregistered tms event : unregistered 7 event (set_iotimers tms demo_io).
Proof. intros o. vm_compute. by intros [= <-]. Qed.

Lemma demo_polite event c : polite demo_env 7 event (demo_resumption c).
Proof.
  intros m Hm. split_and!; [apply demo_usable, Hm|apply demo_unregistered|]. exists []. constructor.
Qed.

Definition demo_world (c : Z) : world (gmap Z (Z * nat)) :=
  mkWorld [Errno EINTR; Errno EAGAIN; Errno EINTR; Errno EAGAIN; Returns 42]
    (replicate 4 (demo_resumption c)) (set_iotimers (timers demo_io) demo_io) 1000 [] false.

(** Two waits, and the answer; with a timer that runs out, its error. *)
Example doIO_runs :
  (doIO (Async 500) demo_env 7 READ 1 2 (demo_world 0)).1 = Ok (Returns 42) /\
  timers_ (timers (io (doIO (Async 500) demo_env 7 READ 1 2 (demo_world 0)).2)) = [] /\
  length (armed (doIO (Async 500) demo_env 7 READ 1 2 (demo_world 0)).2) = 2%nat /\
  (doIO (Async 500) demo_env 7 READ 1 2 (demo_world ETIMEDOUT)).1 = Ok (Errno ETIMEDOUT).
Proof. vm_compute. done. Qed.

Lemma doIO_returns_witness :
  exists r w', doIO (Async 500) demo_env 7 READ 1 2 (demo_world 0) = (Ok r, w') /\
    outcome 500 (Returns 42) (demo_world 0) r w'.
Proof.
  apply (doIO_returns demo_env 7 READ ltac:(lia) ltac:(done) ltac:(by left) 500 1 2 (demo_world 0)
           [Errno EINTR; Errno EAGAIN; Errno EINTR; Errno EAGAIN] (Returns 42) []).
  - reflexivity.
  - repeat constructor.
  - reflexivity.
  - apply demo_usable, inv_new.
  - apply demo_unregistered.
  - lia.
  - cbn. lia.
  - change (Forall (polite demo_env 7 READ) (replicate 4 (demo_resumption 0))). by apply Forall_replicate, demo_polite.
Defined.


(** Three calls do not do what the replaced function does.  [ioctl(FIONBIO)] with
    0 reaches the kernel, so that the next [read] blocks the whole thread although
    the context still says the system never blocks; a timeout of zero, which means
    none, arms a timer that is due at once; and [sleep] takes the
    milliseconds modulo 2^32, so that sleeping 4294968 seconds sleeps 704 ms. *)
Theorem hooks_that_differ :
  (let p := after_hooks [HOpen By_socket 0; HFionbio 0 false] in
   nonblock <$> getfl (sys (fdm p)) 0 = Some false /\ sys_nonblock_ <$> managed (fdm p) 0 = Some true) /\
  (let p := after_hooks [HOpen By_socket 0; HTimeo 0 SO_RCVTIMEO 0 0] in
   io_mode_of true (managed (fdm p) 0) false SO_RCVTIMEO = Async 0 /\
   timed 0 = true) /\
  sleep_ms 4294968 = 704.
Proof. vm_compute. done. Qed.
