(* ===== verification/Sleep.v ===== *)
(** * Sleeping: [sleep], [usleep] and [nanosleep] of [gudov/hook.cpp]

    The replaced functions hand the fiber to a timer and give up the thread; the theorem
    follows the timer through whatever else the program does with its timers. *)

From S2P Require Import Prelude Timer Fiber Scheduler IOManager Hook.
From stdpp Require Import base gmap numbers list relations.
From Stdlib Require Import ZArith Lia.
Open Scope Z_scope.
Open Scope prog_scope.

(** ** Sleeping *)

Section Sleeping.
Context {E : Type} `{Epoll E} `{Allocator}.
Implicit Types (w : world E) (m : TimerManager).

(** What the three functions share: the timer, whose handle is dropped, and the [Yield].
    [wake] is the number of [std::bind(&IOManager::Schedule, iom, fiber, -1)]. *)
Definition nap (ms : Z) (wake : nat) : prog (world E) Z :=
  let* w := gets id in
  let* p := on_io (on_timers (AddTimer (clock w) ms (Fn wake) false)) in
  (if (p : nat * bool).2 then on_io OnTimerInsertedAtFront else ret tt) ;;
  let* _ := yield None in
  ret 0.

Definition sleep (hook_enabled : bool) (seconds : Z) (wake : nat) : prog (world E) syscall :=
  if negb hook_enabled then call_fun else let* r := nap (sleep_ms seconds) wake in ret (Returns r).
Definition usleep (hook_enabled : bool) (usec : Z) (wake : nat) : prog (world E) syscall :=
  if negb hook_enabled then call_fun else let* r := nap (usleep_ms usec) wake in ret (Returns r).
Definition nanosleep (hook_enabled : bool) (tv_sec tv_nsec : Z) (wake : nat) : prog (world E) syscall :=
  if negb hook_enabled then call_fun else let* r := nap (nanosleep_ms tv_sec tv_nsec) wake in ret (Returns r).

(** The function the timer calls. *)
Definition wake_up (fiber : nat) : prog (IOManager E) unit :=
  let* m := gets id in io_schedule (self m) (AFiber (Some fiber)).

(** ** A timer that nobody else knows *)

(** A call that is not made on [t], and that does not find [t] due. *)
Definition spares (t : nat) (deadline : Z) (m : TimerManager) (c : tcmd) : Prop :=
  match c with
  | TCancel t' | TRefresh _ t' | TReset _ _ _ t' => t' <> t
  | TExpired now => now < deadline /\ rolled_over m now = false
  | _ => True
  end.

Definition elsewhere (t : nat) (deadline : Z) (m m' : TimerManager) : Prop :=
  exists c, tstep m c m' /\ spares t deadline m c.

Lemma armed_in m t x : Timer.inv m -> heap m !! t = Some x -> callable (Timer.callback_ x) = true -> t ∈ timers_ m.
Proof. intros Hi Hx Hc. pose proof (inv_armed _ _ Hi _ _ Hx Hc) as Ht. by rewrite app_nil_r in Ht. Qed.

Lemma expired_iff m now t x : Timer.inv m -> heap m !! t = Some x -> callable (Timer.callback_ x) = true ->
  t ∈ expired_at m now <-> rolled_over m now = true \/ next_ x <= now.
Proof.
  intros Hi Hx Hc. pose proof (armed_in _ _ _ Hi Hx Hc) as Ht. unfold expired_at, due. destruct (rolled_over m now); [naive_solver|].
  rewrite list_elem_of_filter, (next_of_lookup _ _ _ Hx). naive_solver.
Qed.

(** Such a call leaves the timer as it is. *)
Lemma spares_step t x m c m' : Timer.inv m -> heap m !! t = Some x -> callable (Timer.callback_ x) = true ->
  tstep m c m' -> spares t (next_ x) m c -> Timer.inv m' /\ heap m' !! t = Some x.
Proof.
  intros Hi Hx Hc Hs Hp. split; [by apply (tstep_good _ _ _ Hi Hs)|]. destruct Hs as [c o m' Hv Ho].
  assert (forall a y, a <> t -> heap (mkTimerManager (<[a := y]> (heap m)) [] 0 false) !! t = Some x) as Hne.
  { intros a y Ha. cbn. by rewrite lookup_insert_ne. }
  assert (alloc (heap m) <> t) as Hal by (intros Ea; pose proof (alloc_fresh (heap m)) as Hf; congruence).
  destruct c as [now ms f r|now ms f wc r|a|now a|now ms b a|now|now]; cbn [texec tvalid spares] in *; unfold bind in Ho.
  - destruct (AddTimer_ok m now ms f r Hi Hv) as (l & fr & Ea & _). cbn zeta in Ea. rewrite Ea in Ho. injection Ho as _ <-. by apply Hne.
  - unfold AddConditionTimer in Ho. destruct (AddTimer_ok m now ms (Bind_OnTimer wc f) r Hi Hv) as (l & fr & Ea & _). cbn zeta in Ea.
    rewrite Ea in Ho. injection Ho as _ <-. by apply Hne.
  - destruct Hv as [y Hy]. destruct (Cancel_ok m a y Hi Hy) as (l & Ec & _). cbn zeta in Ec. rewrite Ec in Ho.
    destruct (callable (Timer.callback_ y)); injection Ho as _ <-; [by apply Hne|done].
  - destruct Hv as [y Hy]. destruct (Refresh_ok m now a y Hi Hy) as (l & Ec & _). cbn zeta in Ec. rewrite Ec in Ho.
    destruct (callable (Timer.callback_ y)); injection Ho as _ <-; [by apply Hne|done].
  - destruct Hv as [Hms [y Hy]]. destruct (timer_reset_ok m now ms b a y Hi Hy Hms) as (l & fr & Ec & _). cbn zeta in Ec. rewrite Ec in Ho.
    destruct (_ && _); [by injection Ho as _ <-|]. destruct (callable (Timer.callback_ y)); injection Ho as _ <-; [by apply Hne|done].
  - rewrite GetNextTimeout_eq in Ho by done. by injection Ho as _ <-.
  - destruct (ListExpiredCallbacks_ok m now Hi) as (m2 & Ee & _ & Hx'). rewrite Ee in Ho. injection Ho as _ <-.
    rewrite (expired_out _ _ _ Hx'); [done|]. rewrite (expired_iff m now t x) by done. destruct Hp as [? ->]. intros [?|?]; [done|lia].
Qed.

Lemma elsewhere_keeps t x m m' : Timer.inv m -> heap m !! t = Some x -> callable (Timer.callback_ x) = true ->
  rtc (elsewhere t (next_ x)) m m' -> Timer.inv m' /\ heap m' !! t = Some x.
Proof.
  intros Hi Hx Hc. induction 1 as [m|m m1 m' (c & Hs & Hp) _ IH]; [done|].
  destruct (spares_step t x m c m1 Hi Hx Hc Hs Hp) as [Hi1 Hx1]. by apply IH.
Qed.
(** ** Waking up *)

Inductive nap_call := Sleep (seconds : Z) | Usleep (usec : Z) | Nanosleep (tv_sec tv_nsec : Z).

Definition nap_ms (c : nap_call) : Z :=
  match c with Sleep s => sleep_ms s | Usleep us => usleep_ms us | Nanosleep s ns => nanosleep_ms s ns end.
Definition do_nap (hook_enabled : bool) (c : nap_call) (wake : nat) : prog (world E) syscall :=
  match c with
  | Sleep s => sleep hook_enabled s wake
  | Usleep us => usleep hook_enabled us wake
  | Nanosleep s ns => nanosleep hook_enabled s ns wake
  end.

(** [useconds_t] is unsigned. *)
Definition nap_valid (c : nap_call) : Prop := match c with Usleep us => 0 <= us < 2 ^ 32 | _ => True end.

Lemma nap_ms_range c : nap_valid c -> 0 <= nap_ms c < 2 ^ 64.
Proof.
  destruct c as [s|us|s ns]; cbn [nap_ms nap_valid]; intros Hc; unfold sleep_ms, usleep_ms, nanosleep_ms.
  - unfold u32, wrapu. pose proof (Z.mod_pos_bound (s * 1000) (2 ^ 32) ltac:(lia)). lia.
  - split; [apply Z.div_pos; lia|]. apply Z.div_lt_upper_bound; lia.
  - apply u64_range.
Qed.

Lemma do_nap_eq c wake w : do_nap true c wake w =
  match nap (nap_ms c) wake w with (Ok r, w') => (Ok (Returns r), w') | (Fail x, w') => (Fail x, w') end.
Proof. destruct c; cbn [do_nap nap_ms]; unfold sleep, usleep, nanosleep; cbn [negb]; unfold bind, ret; by destruct (nap _ _ w) as [[]]. Qed.

Lemma nap_ok ms wake w k ks sc : Timer.inv (timers (io w)) -> scheds (io w) !! self (io w) = Some sc -> 0 <= ms < 2 ^ 64 -> resumes w = k :: ks ->
  exists m1 : IOManager E, nap ms wake w = (Ok 0, mkWorld (calls w) ks (after k m1) (time k) (armed w) (refused w)) /\ Timer.inv (timers m1) /\
    heap (timers m1) !! alloc (heap (timers (io w))) = Some (new_Timer (clock w) ms (Fn wake) false).
Proof.
  intros Hi Hsc Hms Hk. destruct (AddTimer_ok (timers (io w)) (clock w) ms (Fn wake) false Hi Hms) as (l & front & Ea & Hi' & _). cbn zeta in *.
  unfold nap. unfold bind at 1, gets, id. unfold bind at 1, on_io at 1, on_timers. rewrite Ea. cbn [fst snd].
  match type of Ea with _ = (_, ?x) => set (tm := x) in * end.
  assert (heap tm !! alloc (heap (timers (io w))) = Some (new_Timer (clock w) ms (Fn wake) false)) as Ht by (unfold tm; cbn; by rewrite lookup_insert_eq).
  destruct front.
  - unfold OnTimerInsertedAtFront, on_io, bind, gets, id, Tickle. cbn [io self set_iotimers scheds]. rewrite Hsc.
    destruct (HasIdleThreads sc); unfold yield; cbn [resumes calls io armed refused]; rewrite Hk; by eexists.
  - unfold bind, ret, yield. cbn [resumes calls io armed refused]. rewrite Hk. by exists (set_iotimers tm (io w)).
Qed.

Lemma Schedule_range_eq cbs b (s : Scheduler) : exists b', Schedule_range (map ACallback cbs) b s =
  (Ok b', set_tasks (tasks_ s ++ filter (fun t => runnable t = true) (map (fun f => new_Task (ACallback f) (-1)) cbs)) s).
Proof.
  revert b s. induction cbs as [|f cbs IH]; intros b s; cbn [map Schedule_range].
  - exists b. unfold ret. by rewrite filter_nil, app_nil_r; destruct s.
  - unfold bind. fold (Schedule (ACallback f) (-1)). rewrite Schedule_eq. set (s1 := if runnable _ then _ else s).
    destruct (IH (bool_decide (tasks_ s = []) || b) s1) as [b' ->]. exists b'. f_equal. unfold s1. rewrite filter_cons.
    destruct (runnable (new_Task (ACallback f) (-1))) eqn:Er; [rewrite decide_True by done|rewrite decide_False by done]; [|done].
    cbn. by rewrite <- app_assoc.
Qed.
(** A round in which nothing is ready and a timer with a callback is in the set. *)
Lemma idle_round_timers (M : IOManager E) sc now now' t x : Timer.inv (timers M) -> scheds M !! self M = Some sc -> 0 < now < 2 ^ 64 ->
  heap (timers M) !! t = Some x -> callable (Timer.callback_ x) = true ->
  exists M', Idle_round now now' [] M = (Ok true, M') /\ self M' = self M /\
    tsteps (timers M) [TNext now; TExpired now'] (timers M') /\
    exists sc', scheds M' !! self M = Some sc' /\
      forall f, f ∈ map (callback_of (heap (timers M))) (expired_at (timers M) now') -> callable f = true -> new_Task (ACallback f) (-1) ∈ tasks_ sc'.
Proof.
  intros Hi Hsc Hnow Hx Hc. pose proof (armed_in _ _ _ Hi Hx Hc) as Ht. set (T := timers M) in *. set (T1 := set_tickled false T).
  pose proof (GetNextTimeout_eq T now Hi) as En. assert (Timer.inv T1) as Hi1 by by apply (upto_frame [] T).
  destruct (ListExpiredCallbacks_ok T1 now' Hi1) as (T2 & Ee & Hi2 & Hexp).
  assert (tsteps T [TNext now; TExpired now'] T2) as Hts.
  { apply (tsteps_cons _ _ T1); [|apply (tsteps_cons _ _ T2); [|constructor]]; (econstructor; [exact I|]); cbn [texec]; unfold bind;
      [by rewrite En|by rewrite Ee]. }
  unfold Idle_round, io_Stopping. unfold bind at 1 2, on_timers at 1. fold T. rewrite En. unfold bind, gets, id, on_sched. cbn [self set_iotimers scheds]. rewrite Hsc.
  cbn [fst snd ret timers set_scheds set_iotimers]. rewrite insert_id by done.
  match goal with |- context [(?v =? max64) && _ && _] => assert ((v =? max64) = false) as -> end.
  { apply Z.eqb_neq. destruct (timers_ T) as [|a l] eqn:El; [by apply not_elem_of_nil in Ht|].
    destruct (inv_alive _ _ Hi a) as [y Hy]; [rewrite El; by left|]. rewrite (next_of_lookup _ _ _ Hy).
    destruct (inv_range _ _ Hi a y Hy) as [_ Hn]. destruct (Z.leb_spec (next_ y) now); [done|]. rewrite u64_small by lia. unfold max64. lia. }
  cbn [andb]. unfold on_timers. cbn [timers set_iotimers set_scheds]. fold T1. rewrite Ee. cbn [set_iotimers timers].
  change (expired_at T1 now') with (expired_at T now') in *. change (heap T1) with (heap T) in *.
  set (cbs := map (callback_of (heap T)) (expired_at T now')) in *. destruct (decide (cbs = [])) as [E0|E0].
  - rewrite bool_decide_true by done. cbn [process_events]. eexists. split; [reflexivity|]. split; [done|]. split; [exact Hts|].
    exists sc. split; [done|]. rewrite E0. intros f Hf. by apply not_elem_of_nil in Hf.
  - rewrite bool_decide_false by done. cbn [self set_iotimers set_scheds scheds]. rewrite Hsc.
    destruct (Schedule_range_eq cbs false sc) as [b' ->]. set (sc' := set_tasks _ sc).
    assert (forall f, f ∈ cbs -> callable f = true -> new_Task (ACallback f) (-1) ∈ tasks_ sc') as Hf.
    { intros f Hf Hcf. unfold sc'. cbn [tasks_ set_tasks]. apply elem_of_app. right. apply list_elem_of_filter. split; [by destruct f|]. apply list_elem_of_In, (in_map (fun f => new_Task (ACallback f) (-1))). by apply list_elem_of_In. }
    destruct b'; [|cbn [process_events]; eexists; split; [reflexivity|]; split; [done|]; split; [exact Hts|]; exists sc'; cbn; by rewrite lookup_insert_eq].
    unfold Tickle. cbn [scheds set_scheds set_iotimers]. rewrite lookup_insert_eq.
    destruct (HasIdleThreads sc'); cbn [process_events]; eexists; (split; [reflexivity|]); (split; [done|]); (split; [exact Hts|]); exists sc'; cbn; by rewrite lookup_insert_eq.
Qed.
End Sleeping.

(** ** The theorems at work *)

#[local] Existing Instance bump.

(** The conversions are exact as long as the milliseconds fit. *)
Lemma nap_ms_exact : (forall s, 0 <= s < 4294968 -> s * 1000 < 2 ^ 32 -> nap_ms (Sleep s) = s * 1000) /\
  (forall us, nap_ms (Usleep (us * 1000)) = us) /\
  (forall s ms, 0 <= s -> 0 <= ms < 1000 -> s * 1000 + ms < 2 ^ 31 -> nap_ms (Nanosleep s (ms * 1000000)) = s * 1000 + ms).
Proof.
  split_and!; cbn [nap_ms]; unfold sleep_ms, usleep_ms, nanosleep_ms.
  - intros s H1 H2. unfold u32. by rewrite wrapu_small by lia.
  - intros us. by rewrite Z.div_mul.
  - intros s ms H1 H2 H3. rewrite Z.quot_mul by lia. unfold s32, u64. rewrite wraps_small by lia. by rewrite wrapu_small by lia.
Qed.

(** A sleep of less than a millisecond does not wait. *)
Example short_naps : nap_ms (Usleep 999) = 0 /\ nap_ms (Nanosleep 0 999999) = 0.
Proof. vm_compute. done. Qed.

Definition sleepy_world : world (gmap Z (Z * nat)) := mkWorld [] [demo_resumption 0] demo_io 1000 [] false.

