(* ===== verification/HookCalls.v ===== *)
(** * The replaced calls, one by one: [gudov/hook.cpp]

    The functions that read, write, accept and connect, as the program calls them: they
    find the context of the descriptor and hand the original function to [doIO] or
    [connectWithTimeout]; what their timer does when it runs out; and [fcntl], command
    by command. *)

From S2P Require Import Prelude Timer Fiber Scheduler IOManager Hook.
From stdpp Require Import base gmap numbers list.
From Stdlib Require Import ZArith Lia.
Open Scope Z_scope.
Open Scope prog_scope.

(** ** The context of a descriptor *)

Section Contexts.
Context {K : Type} `{System K}.

(** [FdMgr::GetInstance()->Get(fd)], and [IsClose] of what it returns. *)
Definition look_up (fd : Z) : prog (FdManager K) (option FdCtx * bool) :=
  let* p := Get fd false in
  match p with
  | None => ret (None, false)
  | Some p => let* c := ctx_of p in let* m := gets id in ret (Some c, IsClose c (sys m))
  end.

Lemma look_up_ok fd m : fd_inv m -> look_up fd m = (Ok (managed m fd, false), m).
Proof.
  intros Hi. unfold look_up. rewrite (bind_ok _ _ _ _ _ (Get_ok fd m)). unfold managed. destruct (ptr m fd) as [p|] eqn:Hp; [|done].
  destruct (fdi_ctx _ Hi _ _ Hp) as (c & Hc & Hfd & _ & _ & Hfl). unfold bind, ctx_of, gets, id, ret. cbn. rewrite Hc.
  unfold IsClose. rewrite Hfd. by destruct (getfl (sys m) fd).
Qed.
End Contexts.

(** ** Reading and writing *)

Section Calls.
Context {K E : Type} `{System K} `{Epoll E} `{Allocator}.

Abbreviation hooked := (prog (FdManager K * world E)).

(** [doIO(fd, fun, name, event, timeout_so, ...)] from its beginning. *)
Definition doIO_on (hook_enabled : bool) (event timeout_so : Z) (e : env) (fd : Z) (lambda tinfo : nat) : hooked syscall :=
  fun '(m, w) =>
    match look_up fd m with
    | (Ok (ctx, closed), m) =>
        let '(r, w) := doIO (io_mode_of hook_enabled ctx closed timeout_so) e fd event lambda tinfo w in (r, (m, w))
    | (Fail x, m) => (Fail x, (m, w))
    end.
End Calls.

Module Hooked.
Section Hooked.
Context {K E : Type} `{System K} `{Epoll E} `{Allocator} (hook_enabled : bool) (e : env).
Implicit Types fd : Z.

Abbreviation call := (prog (FdManager K * world E) syscall).

Definition read fd lambda tinfo : call := doIO_on hook_enabled READ SO_RCVTIMEO e fd lambda tinfo.
Definition readv fd lambda tinfo : call := doIO_on hook_enabled READ SO_RCVTIMEO e fd lambda tinfo.
Definition recv fd lambda tinfo : call := doIO_on hook_enabled READ SO_RCVTIMEO e fd lambda tinfo.
Definition recvfrom fd lambda tinfo : call := doIO_on hook_enabled READ SO_RCVTIMEO e fd lambda tinfo.
Definition recvmsg fd lambda tinfo : call := doIO_on hook_enabled READ SO_RCVTIMEO e fd lambda tinfo.
Definition write fd lambda tinfo : call := doIO_on hook_enabled WRITE SO_SNDTIMEO e fd lambda tinfo.
Definition writev fd lambda tinfo : call := doIO_on hook_enabled WRITE SO_SNDTIMEO e fd lambda tinfo.
Definition send fd lambda tinfo : call := doIO_on hook_enabled WRITE SO_SNDTIMEO e fd lambda tinfo.
Definition sendto fd lambda tinfo : call := doIO_on hook_enabled WRITE SO_SNDTIMEO e fd lambda tinfo.
Definition sendmsg fd lambda tinfo : call := doIO_on hook_enabled WRITE SO_SNDTIMEO e fd lambda tinfo.

(** The new descriptor is registered whether or not hooks are enabled. *)
Definition accept fd lambda tinfo : call :=
  let* r := doIO_on hook_enabled READ SO_RCVTIMEO e fd lambda tinfo in
  match r with
  | Returns n => if 0 <=? n then fun '(m, w) => match Get n true m with (Ok _, m) => (Ok r, (m, w)) | (Fail x, m) => (Fail x, (m, w)) end else ret r
  | Errno _ => ret r
  end.

Definition connect (s_connectTimeout : Z) fd lambda tinfo (so_error : syscall) : call :=
  fun '(m, w) =>
    match look_up fd m with
    | (Ok (ctx, closed), m) =>
        let '(r, w) := connectWithTimeout (connect_mode_of hook_enabled ctx closed s_connectTimeout) e fd lambda tinfo so_error w in (r, (m, w))
    | (Fail x, m) => (Fail x, (m, w))
    end.
End Hooked.
End Hooked.

(** The calls that read and those that write. *)
Inductive io_call := Read | Readv | Recv | Recvfrom | Recvmsg | Write | Writev | Send | Sendto | Sendmsg.

Definition event_of (c : io_call) : Z := match c with Read | Readv | Recv | Recvfrom | Recvmsg => READ | _ => WRITE end.
Definition timeout_of (c : io_call) (ctx : FdCtx) : Z :=
  match c with Read | Readv | Recv | Recvfrom | Recvmsg => recv_timeout_ ctx | _ => send_timeout_ ctx end.

Section Returning.
Context {K E : Type} `{System K} `{Epoll E} `{Allocator} (e : env).
Implicit Types (m : FdManager K) (w : world E).

Definition do_call (c : io_call) (fd : Z) (lambda tinfo : nat) : prog (FdManager K * world E) syscall :=
  match c with
  | Read => Hooked.read true e fd lambda tinfo
  | Readv => Hooked.readv true e fd lambda tinfo
  | Recv => Hooked.recv true e fd lambda tinfo
  | Recvfrom => Hooked.recvfrom true e fd lambda tinfo
  | Recvmsg => Hooked.recvmsg true e fd lambda tinfo
  | Write => Hooked.write true e fd lambda tinfo
  | Writev => Hooked.writev true e fd lambda tinfo
  | Send => Hooked.send true e fd lambda tinfo
  | Sendto => Hooked.sendto true e fd lambda tinfo
  | Sendmsg => Hooked.sendmsg true e fd lambda tinfo
  end.

(** The mode in which a call runs, by what the program has asked of the descriptor. *)
Definition mode_for (c : io_call) (ctx : option FdCtx) : io_mode :=
  match ctx with Some x => if user_nonblock_ x then Direct else Async (timeout_of c x) | None => Direct end.

Lemma do_call_eq c fd lambda tinfo m w : fd_inv m -> do_call c fd lambda tinfo (m, w) =
  let '(r, w') := doIO (mode_for c (managed m fd)) e fd (event_of c) lambda tinfo w in (r, (m, w')).
Proof.
  intros Hi. assert (forall so, io_mode_of true (managed m fd) false so =
    match managed m fd with Some x => if user_nonblock_ x then Direct else Async (GetTimeout so x) | None => Direct end) as Hm.
  { intros so. unfold io_mode_of, managed. cbn [negb]. destruct (ptr m fd) as [p|] eqn:Hp; [|done].
    destruct (fdi_ctx _ Hi _ _ Hp) as (x & Hx & _ & Hs & _). cbn. rewrite Hx. by rewrite Hs. }
  destruct c; cbn [do_call]; unfold Hooked.read, Hooked.readv, Hooked.recv, Hooked.recvfrom, Hooked.recvmsg, Hooked.write, Hooked.writev,
    Hooked.send, Hooked.sendto, Hooked.sendmsg, doIO_on; rewrite look_up_ok, Hm by done; done.
Qed.
(** What the program has asked of [fd]: its context, by the history of its calls. *)
Definition asked (cs : list hcmd) (fd : Z) : option FdCtx := fold_left (fun x c => ctx_after c fd x) cs None.

Lemma asked_timeouts cs fd x c : asked cs fd = Some x -> 0 <= timeout_of c x < 2 ^ 64.
Proof.
  unfold asked. assert (forall y, (forall x, y = Some x -> 0 <= timeout_of c x < 2 ^ 64) ->
    fold_left (fun x c => ctx_after c fd x) cs y = Some x -> 0 <= timeout_of c x < 2 ^ 64) as Hg; [|by apply Hg].
  induction cs as [|h cs IH]; intros y Hy; [apply Hy|]. cbn [fold_left]. apply IH. intros z Hz. clear IH.
  assert (forall g, (forall a, timeout_of c (g a) = timeout_of c a \/ 0 <= timeout_of c (g a) < 2 ^ 64) -> g <$> y = Some z -> 0 <= timeout_of c z < 2 ^ 64) as Hg.
  { intros g Hg. destruct y as [a|]; [|done]. intros [= <-]. destruct (Hg a) as [->|?]; [by apply Hy|done]. }
  destruct h as [o f|f|f arg|f b|f opt sec usec]; cbn [ctx_after] in Hz; (destruct (decide (fd = f)); [|by apply Hy]).
  - destruct (0 <=? f); [|by apply Hy]. injection Hz as <-. by destruct c.
  - done.
  - apply (Hg _) in Hz; [done|]. intros a. left. by destruct c.
  - apply (Hg _) in Hz; [done|]. intros a. left. by destruct c.
  - apply (Hg _) in Hz; [done|]. intros a. destruct (_ || _); [|by left]. pose proof (u64_range (sec * 1000 + usec / 1000)) as Hu.
    unfold SetTimeout. destruct (opt =? SO_RCVTIMEO); destruct c; (by left) || (by right).
Qed.

End Returning.

(** ** When a timer runs out *)

Section Timeouts.
Context {E : Type} `{Epoll E}.

(** The function of the timer: [winfo.lock()] finds the information of a call that has
    not returned, [cancelled] is its member; the event is cancelled, whose fiber thereby
    becomes runnable. *)
Definition on_timeout (alive : bool) (cancelled : Z) (fd event : Z) : prog (IOManager E) Z :=
  if negb alive || negb (cancelled =? 0) then ret cancelled
  else let* _ := CancelEvent fd event in ret ETIMEDOUT.

(** A call that still waits is told [ETIMEDOUT], and what waited for the event is
    scheduled, if [epoll_ctl] allows it; one that has returned, or was told before, is
    left alone. *)
Lemma timeout_tells m alive c fd event : io_inv m -> 0 <= fd -> fd <> tickle_fd m -> event_ok event ->
  exists c' m', on_timeout alive c fd event m = (Ok c', m') /\ io_inv m' /\
    if alive && (c =? 0) then c' = ETIMEDOUT /\
      (exists r, CancelEvent fd event m = (Ok r, m') /\
        (r = true -> exists o s sc, objs m !! Z.to_nat fd = Some o /\ scheds m !! s = Some sc /\
           scheds m' = <[s := pushed (continuation (context_of o event)) sc]> (scheds m)))
    else c' = c /\ m' = m.
Proof.
  intros Hi Hfd Htf Hev. unfold on_timeout. destruct alive; cbn [negb orb andb]; [|by exists c, m].
  destruct (c =? 0); cbn [negb]; [|by exists c, m]. destruct (CancelEvent_ok m fd event Hi Hfd Htf Hev) as (r & m' & E1 & Hi' & _ & Hr).
  exists ETIMEDOUT, m'. split; [unfold bind, ret; by rewrite E1|]. split; [done|]. split; [done|]. exists r. split; [done|].
  intros Ht. destruct (Hr Ht) as (o & s & sc & Ho & _ & _ & Hs & Es & _). by exists o, s, sc.
Qed.
End Timeouts.

(** ** [fcntl] *)

Definition F_DUPFD : Z := 0.
Definition F_GETFD : Z := 1.
Definition F_SETFD : Z := 2.
Definition F_GETFL : Z := 3.
Definition F_SETFL : Z := 4.
Definition F_GETLK : Z := 5.
Definition F_SETLK : Z := 6.
Definition F_SETLKW : Z := 7.
Definition F_SETOWN : Z := 8.
Definition F_GETOWN : Z := 9.
Definition F_SETSIG : Z := 10.
Definition F_GETSIG : Z := 11.
Definition F_SETOWN_EX : Z := 15.
Definition F_GETOWN_EX : Z := 16.
Definition F_SETLEASE : Z := 1024.
Definition F_GETLEASE : Z := 1025.
Definition F_NOTIFY : Z := 1026.
Definition F_DUPFD_CLOEXEC : Z := 1030.
Definition F_SETPIPE_SZ : Z := 1031.
Definition F_GETPIPE_SZ : Z := 1032.
Definition F_ADD_SEALS : Z := 1033.

Section Fcntl.
Context {K : Type} `{System K} (fcntlF : Z -> Z -> option Z -> K -> Z * K).

(** The commands whose argument is handed on: an [int], a lock, an owner. *)
Definition takes_argument (cmd : Z) : bool :=
  existsb (Z.eqb cmd) [F_DUPFD; F_DUPFD_CLOEXEC; F_SETFD; F_SETOWN; F_SETSIG; F_SETLEASE; F_NOTIFY; F_SETPIPE_SZ;
                       F_SETLK; F_SETLKW; F_GETLK; F_GETOWN_EX; F_SETOWN_EX].

(** The original function, for a command other than the two about flags. *)
Definition pass_on (fd cmd : Z) (arg : option Z) : prog (FdManager K) Z :=
  fun m => let '(r, k) := fcntlF fd cmd arg (sys m) in (Ok r, set_sys k m).

Definition fcntl (fd cmd arg : Z) : prog (FdManager K) Z :=
  if cmd =? F_SETFL then let* ok := fcntl_setfl fd arg in ret (if ok : bool then 0 else -1)
  else if cmd =? F_GETFL then let* r := fcntl_getfl fd in ret (default (-1) r)
  else if takes_argument cmd then pass_on fd cmd (Some arg)
  else pass_on fd cmd None.

(** Every command but the two about flags goes to the system, with its argument if the
    command is one of those the library knows to have one; the others lose theirs. *)
Lemma fcntl_hands_on fd cmd arg m : cmd <> F_SETFL -> cmd <> F_GETFL ->
  fcntl fd cmd arg m = (let '(r, k) := fcntlF fd cmd (if takes_argument cmd then Some arg else None) (sys m) in (Ok r, set_sys k m)).
Proof.
  intros H1 H2. unfold fcntl. rewrite (proj2 (Z.eqb_neq _ _) H1), (proj2 (Z.eqb_neq _ _) H2). by destruct (takes_argument cmd).
Qed.

(** Sealing a file is such a command. *)
Lemma seals_lost fd a a' m : fcntl fd F_ADD_SEALS a m = fcntl fd F_ADD_SEALS a' m.
Proof. by rewrite !fcntl_hands_on. Qed.

(** The two about flags, on a descriptor the library manages: what was set is what is
    shown, though the system keeps the descriptor from blocking. *)
Lemma fcntl_flags fd arg m v : shows m v -> is_Some (v !! fd) ->
  exists r m' fl, fcntl fd F_SETFL arg m = (Ok r, m') /\ fcntl fd F_GETFL 0 m' = (Ok fl, m') /\ nonblock fl = nonblock arg.
Proof.
  intros Hs Hv. destruct (fcntl_setfl_ok fd arg m v Hs) as (b & m' & E1 & Hs' & _).
  destruct (fcntl_getfl_ok fd m' _ Hs') as (fl & E2 & Hfl); [rewrite lookup_alter_eq; by apply fmap_is_Some|].
  exists (if b then 0 else -1), m', fl. split; [unfold fcntl, bind; rewrite Z.eqb_refl, E1; done|]. split.
  { unfold fcntl. change (F_GETFL =? F_SETFL) with false. change (F_GETFL =? F_GETFL) with true. cbv iota. unfold bind. by rewrite E2. }
  rewrite lookup_alter_eq in Hfl. destruct Hv as [b' Hb']. rewrite Hb' in Hfl. by injection Hfl.
Qed.
End Fcntl.

(** ** The theorems at work *)

#[local] Existing Instance bump.

(** Descriptor 0 blocks, as far as the program knows, and has a timeout for reading of
    two seconds; descriptor 1 was made non-blocking. *)
Example demo_asked : (user_nonblock_ <$> asked demo_hooks 0) = Some false /\ (recv_timeout_ <$> asked demo_hooks 0) = Some 2000 /\
  (user_nonblock_ <$> asked demo_hooks 1) = Some true /\ asked demo_hooks 2 = None.
Proof. vm_compute. done. Qed.

Lemma demo_usable_0 tms : Timer.inv tms -> usable demo_env 0 (set_iotimers tms demo_io).
Proof.
  intros Ht. apply usable_timers; [|done]. split; [apply demo_io_inv|apply inv_new| |by eexists|done].
  split; [|by right]. exists 0%nat. split; [done|]. by eexists.
Qed.

Lemma demo_unregistered_0 tms event : unregistered 0 event (set_iotimers tms demo_io).
Proof. intros o. vm_compute. by intros [= <-]. Qed.

