(* ===== verification/Lifetime.v ===== *)
(** * The life of a scheduler, seen from the thread that makes it

    The constructor, [Stop] and the destructor of [gudov/scheduler.cpp] with the
    variables of the thread that they set, the flag of [gudov/hook.cpp], and the
    destructor of [gudov/iomanager.cpp]. *)

From S2P Require Import Prelude Timer Fiber Scheduler IOManager Hook.
From stdpp Require Import base gmap numbers list.
From Stdlib Require Import ZArith Lia.
Open Scope Z_scope.
Open Scope prog_scope.

(** ** The variables of a thread *)

(** A scheduler is named by a number, and its [root_fiber_] by the same. *)
Record locals := mkLocals { t_scheduler : option nat; t_scheduler_fiber : option nat; t_hookEnable : bool }.

Definition GetScheduler (l : locals) : option nat := t_scheduler l.
Definition GetMainFiber (l : locals) : option nat := t_scheduler_fiber l.
Definition IsHookEnable (l : locals) : bool := t_hookEnable l.
Definition SetHookEnable (flag : bool) (l : locals) : locals := mkLocals (t_scheduler l) (t_scheduler_fiber l) flag.
Definition SetThis (n : nat) (l : locals) : locals := mkLocals (Some n) (t_scheduler_fiber l) (t_hookEnable l).

(** What [Run] does first, on the thread that made the scheduler. *)
Definition Run_enter (n : nat) (l : locals) : locals := SetThis n (SetHookEnable true l).

(** The schedulers that exist, those whose root fiber has terminated, and the variables. *)
Record life := mkLife { live : gmap nat Scheduler; ended : gset nat; here : locals }.

Definition no_life : life := mkLife ∅ ∅ (mkLocals None None false).

(** ** Making, stopping and destroying *)

Section Lives.
Context (me : Z).

Definition create (n : nat) (threads : Z) (use_caller : bool) : prog life unit :=
  fun s =>
    match new_Scheduler me threads use_caller (bool_decide (is_Some (GetScheduler (here s)))) with
    | Ok c => (Ok tt, mkLife (<[n := c]> (live s)) (ended s ∖ {[n]}) (if use_caller then mkLocals (Some n) (Some n) (IsHookEnable (here s)) else here s))
    | Fail e => (Fail e, s)
    end.

(** [Stop] behind its first test, up to the point where it waits for the pool. *)
Definition stop_pool (on_own_thread : bool) : prog Scheduler (Z * list Z) :=
  let* s := gets id in
  modify (set_stopping true) ;;
  require (if use_caller_ s then on_own_thread else negb on_own_thread) assert_failed ;;
  let tickles := thread_count_ s + (if use_caller_ s then 1 else 0) in
  let* s := gets id in
  modify (set_threads (thread_ids_ s) []) ;;
  ret (tickles, threads_ s).

(** [Stop] on this thread; [stopping] is what the virtual [Stopping] answers.  The root
    fiber, if there is one, is resumed and runs until it ends. *)
Definition stop (n : nat) (stopping : bool) : prog life unit :=
  fun s =>
    match live s !! n with
    | None => (Fail undefined, s)
    | Some c =>
        if stopping then (Ok tt, s)
        else match stop_pool (bool_decide (GetScheduler (here s) = Some n)) c with
             | (Fail e, c) => (Fail e, mkLife (<[n := c]> (live s)) (ended s) (here s))
             | (Ok _, c) =>
                 let s := mkLife (<[n := c]> (live s)) (ended s) (here s) in
                 if use_caller_ c then
                   if bool_decide (n ∈ ended s) then (Fail assert_failed, s)
                   else (Ok tt, mkLife (live s) ({[n]} ∪ ended s) (Run_enter n (here s)))
                 else (Ok tt, s)
             end
    end.

Definition del_Scheduler (n : nat) : prog life unit :=
  fun s =>
    match live s !! n with
    | None => (Fail undefined, s)
    | Some c =>
        if negb (stopping_ c) then (Fail assert_failed, s)
        else (Ok tt, mkLife (delete n (live s)) (ended s)
                (if bool_decide (GetScheduler (here s) = Some n) then mkLocals None (t_scheduler_fiber (here s)) (t_hookEnable (here s)) else here s))
    end.

(** Both versions of [Stop] agree. *)
Lemma Stop_pool b c : Stop b c = if Stopping c then (Ok None, c) else match stop_pool b c with (Ok p, c') => (Ok (Some p), c') | (Fail e, c') => (Fail e, c') end.
Proof using Type.
  unfold Stop, stop_pool, bind, gets, id. destruct (Stopping c); [done|]. cbn. by destruct (use_caller_ c), b.
Qed.

(** What a thread does with its schedulers; [LPool] is what the pool of one does. *)
Inductive lop := LNew (n : nat) (threads : Z) (use_caller : bool) | LStop (n : nat) (stopping : bool) | LDelete (n : nat) | LPool (n : nat) (c : Scheduler).

Definition lexec (o : lop) : prog life unit :=
  match o with
  | LNew n threads use_caller => create n threads use_caller
  | LStop n stopping => stop n stopping
  | LDelete n => del_Scheduler n
  | LPool n c => modify (fun s => mkLife (<[n := c]> (live s)) (ended s) (here s))
  end.

(** New objects have new names, [Stopping] is as the base class has it or stricter, and
    the pool changes neither the mode nor the flag. *)
Definition llegal (o : lop) (s : life) : Prop :=
  match o with
  | LNew n _ _ => live s !! n = None
  | LStop n stopping => exists c, live s !! n = Some c /\ (stopping = true -> Stopping c = true)
  | LDelete n => is_Some (live s !! n)
  | LPool n c => exists c0, live s !! n = Some c0 /\ use_caller_ c = use_caller_ c0 /\ stopping_ c = stopping_ c0
  end.

Inductive lives : list lop -> life -> Prop :=
  | lives_nil : lives [] no_life
  | lives_snoc ops s o s' : lives ops s -> llegal o s -> lexec o s = (Ok tt, s') -> lives (ops ++ [o]) s'.

(** Whether [Stop] has been called on [n] since it was made. *)
Definition stop_seen (n : nat) (b : bool) (o : lop) : bool :=
  match o with
  | LNew m _ _ => if decide (m = n) then false else b
  | LStop m _ => if decide (m = n) then true else b
  | _ => b
  end.
Definition was_stopped (n : nat) (ops : list lop) : bool := foldl (stop_seen n) false ops.

Record life_inv (ops : list lop) (s : life) : Prop := {
  li_here n : GetScheduler (here s) = Some n <-> exists c, live s !! n = Some c /\ use_caller_ c = true;
  li_stopped n c : live s !! n = Some c -> stopping_ c = was_stopped n ops;
  li_ended n c : live s !! n = Some c -> use_caller_ c = true -> n ∈ ended s <-> was_stopped n ops = true }.

Lemma was_stopped_snoc n ops o : was_stopped n (ops ++ [o]) = stop_seen n (was_stopped n ops) o.
Proof using Type. unfold was_stopped. by rewrite foldl_app. Qed.

Lemma stop_pool_ok b c : stop_pool b c = if eqb b (use_caller_ c) then (Ok (thread_count_ c + (if use_caller_ c then 1 else 0), threads_ c), set_threads (thread_ids_ c) [] (set_stopping true c))
  else (Fail assert_failed, set_stopping true c).
Proof using Type. unfold stop_pool, bind, gets, id. cbn. by destruct (use_caller_ c) eqn:E, b. Qed.

Lemma own_thread ops s n c : life_inv ops s -> live s !! n = Some c -> bool_decide (GetScheduler (here s) = Some n) = use_caller_ c.
Proof using Type.
  intros Hi Hn. destruct (use_caller_ c) eqn:Eu.
  - apply bool_decide_eq_true, (li_here _ _ Hi). by exists c.
  - apply bool_decide_eq_false. intros (c' & Hc & Hu)%(li_here _ _ Hi). congruence.
Qed.

Lemma stop_eq ops s n c (stopping : bool) : life_inv ops s -> live s !! n = Some c -> stopping = false ->
  let c' := set_threads (thread_ids_ c) [] (set_stopping true c) in let s1 := mkLife (<[n := c']> (live s)) (ended s) (here s) in
  stop n stopping s =
    if use_caller_ c then if was_stopped n ops then (Fail assert_failed, s1) else (Ok tt, mkLife (live s1) ({[n]} ∪ ended s) (Run_enter n (here s)))
    else (Ok tt, s1).
Proof using Type.
  intros Hi Hn ->. cbn zeta. unfold stop. rewrite Hn, stop_pool_ok, (own_thread _ _ _ _ Hi Hn), eqb_reflx. cbn [use_caller_ set_threads set_stopping ended].
  destruct (use_caller_ c) eqn:Eu; [|done]. pose proof (li_ended _ _ Hi n c Hn Eu) as He. destruct (was_stopped n ops).
  - by rewrite bool_decide_true by by apply He.
  - rewrite bool_decide_false; [done|]. intros Hin. by apply He in Hin.
Qed.

Lemma create_ok n threads use_caller s : (exists s', create n threads use_caller s = (Ok tt, s')) <->
  0 < threads /\ (use_caller = true -> GetScheduler (here s) = None).
Proof using Type.
  unfold create, new_Scheduler. destruct (Z.ltb_spec 0 threads) as [Ht|Ht]; cbn [negb]; [|split; [by intros [? [=]]|intros []; lia]].
  destruct use_caller; [|by split; [|eauto]]. destruct (GetScheduler (here s)) as [k|]; cbn.
  - split; [by intros [? [=]]|]. intros [_ Hx]. by specialize (Hx eq_refl).
  - split; [done|eauto].
Qed.

Lemma created n threads use_caller s s' : create n threads use_caller s = (Ok tt, s') ->
  exists c, use_caller_ c = use_caller /\ stopping_ c = false /\
    s' = mkLife (<[n := c]> (live s)) (ended s ∖ {[n]}) (if use_caller then mkLocals (Some n) (Some n) (IsHookEnable (here s)) else here s).
Proof using Type.
  unfold create, new_Scheduler. destruct (negb _); [done|]. destruct use_caller; [destruct (bool_decide _); [done|]|]; intros [= <-]; (eexists; split; [|split; [|reflexivity]]; reflexivity).
Qed.

Lemma seen_other n m b o : n <> m -> match o with LNew k _ _ | LStop k _ => k = m | _ => True end -> stop_seen n b o = b.
Proof using Type. intros Hn. destruct o; cbn; intros; subst; [by rewrite decide_False|by rewrite decide_False|done|done]. Qed.

Lemma new_inv ops s n threads use_caller s' : life_inv ops s -> live s !! n = None -> create n threads use_caller s = (Ok tt, s') ->
  life_inv (ops ++ [LNew n threads use_caller]) s'.
Proof using Type.
  intros Hi Hn Hc. assert (use_caller = true -> GetScheduler (here s) = None) as Hnone by (apply (create_ok n threads use_caller s); by exists s').
  destruct (created _ _ _ _ _ Hc) as (c & Hu & Hs & ->). split.
  - intros k. cbn [here live]. destruct use_caller.
    + cbn. split; [intros [= <-]; exists c; by rewrite lookup_insert_eq|]. intros (c' & Hk & Hu'). destruct (decide (k = n)) as [->|Hk']; [done|].
      rewrite lookup_insert_ne in Hk by done. assert (GetScheduler (here s) = Some k) as Hg by (apply (li_here _ _ Hi); by exists c').
      by rewrite Hnone in Hg.
    + rewrite (li_here _ _ Hi). destruct (decide (k = n)) as [->|Hk].
      * rewrite Hn, lookup_insert_eq. split; [by intros (? & [=] & _)|]. intros (? & [= <-] & ?). congruence.
      * by rewrite lookup_insert_ne.
  - intros k c'. cbn [live]. rewrite was_stopped_snoc. destruct (decide (k = n)) as [->|Hk].
    + rewrite lookup_insert_eq. intros [= <-]. cbn. by rewrite decide_True.
    + rewrite lookup_insert_ne by done. rewrite (seen_other k n) by done. apply (li_stopped _ _ Hi).
  - intros k c'. cbn [live ended]. rewrite was_stopped_snoc. destruct (decide (k = n)) as [->|Hk].
    + intros _ _. cbn. rewrite decide_True by done. set_solver.
    + rewrite lookup_insert_ne by done. rewrite (seen_other k n) by done. intros Hc' Hu'. rewrite <- (li_ended _ _ Hi k c' Hc' Hu'). set_solver.
Qed.

(** A scheduler is replaced by one of the same mode, and its flag follows the history. *)
Lemma replaced_inv ops s n c c' e' l' o : life_inv ops s -> live s !! n = Some c -> use_caller_ c' = use_caller_ c ->
  match o with LNew k _ _ | LStop k _ => k = n | _ => True end -> stopping_ c' = stop_seen n (was_stopped n ops) o ->
  GetScheduler l' = GetScheduler (here s) -> (forall k, k <> n -> k ∈ e' <-> k ∈ ended s) ->
  (use_caller_ c = true -> n ∈ e' <-> stop_seen n (was_stopped n ops) o = true) ->
  life_inv (ops ++ [o]) (mkLife (<[n := c']> (live s)) e' l').
Proof using Type.
  intros Hi Hn Hu Ho Hs Hl He Hen. split; cbn [here live ended].
  - intros k. rewrite Hl, (li_here _ _ Hi). destruct (decide (k = n)) as [->|Hk]; [|by rewrite lookup_insert_ne].
    rewrite Hn, lookup_insert_eq. split; intros (? & [= <-] & ?); eexists; split; try done; congruence.
  - intros k x. rewrite was_stopped_snoc. destruct (decide (k = n)) as [->|Hk]; [rewrite lookup_insert_eq; by intros [= <-]|].
    rewrite lookup_insert_ne, (seen_other k n) by done. apply (li_stopped _ _ Hi).
  - intros k x. rewrite was_stopped_snoc. destruct (decide (k = n)) as [->|Hk]; [rewrite lookup_insert_eq; intros [= <-] Hux; apply Hen; congruence|].
    rewrite lookup_insert_ne, (seen_other k n) by done. rewrite He by done. apply (li_ended _ _ Hi).
Qed.

Lemma stop_inv ops s n (b : bool) c s' : life_inv ops s -> live s !! n = Some c -> (b = true -> Stopping c = true) -> stop n b s = (Ok tt, s') ->
  life_inv (ops ++ [LStop n b]) s'.
Proof using Type.
  intros Hi Hn Hb Hs. destruct b.
  - unfold stop in Hs. rewrite Hn in Hs. injection Hs as <-. pose proof (li_stopped _ _ Hi n c Hn) as Hw.
    assert (was_stopped n ops = true) as Ht by (rewrite <- Hw; specialize (Hb eq_refl); unfold Stopping in Hb; by destruct (stopping_ c)).
    assert (forall k, was_stopped k (ops ++ [LStop n true]) = was_stopped k ops) as Hk.
    { intros k. rewrite was_stopped_snoc. destruct (decide (k = n)) as [->|]; [|by apply (seen_other k n)]. rewrite Ht. cbn. by rewrite decide_True. }
    split; [apply Hi|intros k x; rewrite Hk; apply Hi|intros k x; rewrite Hk; apply Hi].
  - rewrite (stop_eq ops s n c false Hi Hn eq_refl) in Hs. cbn zeta in Hs. assert (forall b, stop_seen n b (LStop n false) = true) as Hst.
    { intros b. cbn. by rewrite decide_True. }
    destruct (use_caller_ c) eqn:Eu; [destruct (was_stopped n ops); [done|]|]; injection Hs as <-; cbn [live];
      apply (replaced_inv ops s n c); try done; try (rewrite Hst; done).
    + cbn. symmetry. apply (li_here _ _ Hi). by exists c.
    + set_solver.
    + intros _. rewrite Hst. set_solver.
    + congruence.
Qed.

Lemma delete_inv ops s n s' : life_inv ops s -> del_Scheduler n s = (Ok tt, s') -> life_inv (ops ++ [LDelete n]) s'.
Proof using Type.
  intros Hi Hd. unfold del_Scheduler in Hd. destruct (live s !! n) as [c|] eqn:Hn; [|done]. destruct (negb _); [done|]. injection Hd as <-.
  assert (forall k, was_stopped k (ops ++ [LDelete n]) = was_stopped k ops) as Hk by (intros k; by rewrite was_stopped_snoc).
  split; cbn [here live ended].
  - intros k. destruct (decide (k = n)) as [->|Hne].
    + rewrite lookup_delete_eq. split; [|by intros (? & [=] & _)]. by case_bool_decide.
    + rewrite lookup_delete_ne by done. rewrite <- (li_here _ _ Hi). case_bool_decide as Eg; [|done]. rewrite Eg. cbn. split; [done|congruence].
  - intros k x Hx. rewrite Hk. apply (li_stopped _ _ Hi). by apply lookup_delete_Some in Hx as [_ ?].
  - intros k x Hx. rewrite Hk. apply (li_ended _ _ Hi). by apply lookup_delete_Some in Hx as [_ ?].
Qed.

Lemma lives_inv ops s : lives ops s -> life_inv ops s.
Proof using Type.
  induction 1 as [|ops s o s' _ IH Hl Ho].
  - split; cbn; intros n; [split; [done|]; by intros (? & []%lookup_empty_Some & _)|by intros c []%lookup_empty_Some..].
  - destruct o as [n threads uc|n b|n|n c]; cbn [lexec llegal] in *.
    + by apply (new_inv _ s).
    + destruct Hl as (c & Hc & Hb). by apply (stop_inv _ s n b c).
    + by apply (delete_inv _ s).
    + injection Ho as <-. destruct Hl as (c0 & Hc & Hu & Hs). apply (replaced_inv ops s n c0); try done.
      * rewrite Hs. by apply (li_stopped _ _ IH).
      * intros Hu0. by apply (li_ended _ _ IH n c0).
Qed.

End Lives.

(** ** The destructor of an I/O scheduler *)

(** [delete fd_contexts_[i]], for every [i]; a second one of the same object is undefined. *)
Fixpoint delete_contexts (ps : list nat) (h : list (option FdContext)) : result (list (option FdContext)) :=
  match ps with
  | [] => Ok h
  | p :: ps => match h !! p with Some (Some _) => delete_contexts ps (<[p := None]> h) | _ => Fail undefined end
  end.

Lemma delete_contexts_ok (d : nat) (l : list FdContext) :
  delete_contexts (seq d (length l)) (replicate d None ++ (Some <$> l)) = Ok (replicate (d + length l) None).
Proof.
  revert d. induction l as [|o l IH]; intros d; cbn [seq length delete_contexts fmap list_fmap].
  - by rewrite app_nil_r, Nat.add_0_r.
  - rewrite lookup_app_r, length_replicate, Nat.sub_diag by (rewrite length_replicate; lia). cbn.
    rewrite insert_app_r_alt by (rewrite length_replicate; lia). rewrite length_replicate, Nat.sub_diag. cbn.
    specialize (IH (S d)). rewrite replicate_S_end, <- app_assoc in IH. rewrite Nat.add_succ_r. exact IH.
Qed.

Section Destructor.
Context {K E : Type} `{System K} `{Epoll E}.

(** [Stop] of an I/O scheduler: its own [Stopping] decides. *)
Definition io_Stop (now : Z) (on_own_thread : bool) : prog (IOManager E) (option (Z * list Z)) :=
  let* p := io_Stopping now in
  if (p : Z * bool).2 then ret None else
  let* m := gets id in
  let* r := on_sched (self m) (stop_pool on_own_thread) in
  ret (Some r).

(** The destructor; [drain] is what happens until the pool has come to its end, and
    [epfd], [rd], [wr] are the descriptors. *)
Definition del_IOManager (now : Z) (on_own_thread : bool) (drain : IOManager E -> IOManager E) (epfd rd wr : Z) : prog (Process K E) (list (option FdContext)) :=
  fun p =>
    match iom p with
    | None => (Fail undefined, p)
    | Some m =>
        match io_Stop now on_own_thread m with
        | (Fail e, m) => (Fail e, mkProcess (fdm p) (Some m))
        | (Ok r, m) =>
            let m := match r with Some _ => drain m | None => m end in
            (close epfd ;; close rd ;; close wr ;; lift (delete_contexts (fd_contexts_ m) (Some <$> objs m))) (mkProcess (fdm p) (Some m))
        end
    end.

Lemma close_unmanaged fd (p : Process K E) : ptr (fdm p) fd = None ->
  close fd p = (Ok tt, mkProcess (set_sys (closeF fd (sys (fdm p))) (fdm p)) (iom p)).
Proof. intros Hp. unfold close, bind, on_fdm. rewrite Get_ok, Hp. done. Qed.

Lemma io_Stop_ok now m sc : io_inv m -> Timer.inv (timers m) -> scheds m !! self m = Some sc ->
  exists r m1, io_Stop now (use_caller_ sc) m = (Ok r, m1) /\ io_inv m1 /\
    scheds m1 !! self m1 = Some (if r then set_threads (thread_ids_ sc) [] (set_stopping true sc) else sc) /\ (r = None -> stopping_ sc = true).
Proof.
  intros Hi Ht Hsc. unfold io_Stop, io_Stopping. unfold bind at 1 2, on_timers. rewrite (GetNextTimeout_eq _ _ Ht). unfold bind, gets, id, on_sched.
  cbn [self set_iotimers scheds]. rewrite Hsc. cbn [ret fst snd self set_scheds set_iotimers scheds]. set (T := set_tickled false (timers m)).
  destruct (_ && _ && Stopping sc) eqn:Eb.
  - eexists None, _. split; [reflexivity|]. split; [apply (io_frame m); try done; cbn; by rewrite dom_insert_lookup_L by by eexists|].
    cbn. rewrite lookup_insert_eq. split; [done|]. intros _. unfold Stopping in Eb. by destruct (stopping_ sc); [|rewrite andb_false_r in Eb].
  - cbn [scheds self set_scheds set_iotimers]. rewrite lookup_insert_eq, stop_pool_ok, eqb_reflx. eexists (Some _), _. split; [reflexivity|].
    split; [apply (io_frame m); try done; cbn; by rewrite !dom_insert_lookup_L by (rewrite ?lookup_insert_eq; by eexists)|]. cbn. by rewrite lookup_insert_eq.
Qed.

(** The destructor returns, frees every context once and closes the three descriptors and
    no other; and its scheduler is stopped, as the destructor of the base class asks. *)
Lemma manager_destroyed now own drain epfd rd wr (p : Process K E) m sc :
  iom p = Some m -> io_inv m -> Timer.inv (timers m) -> scheds m !! self m = Some sc -> own = use_caller_ sc ->
  (forall m1, io_inv m1 -> scheds m1 !! self m1 = Some (set_threads (thread_ids_ sc) [] (set_stopping true sc)) ->
     io_inv (drain m1) /\ exists sc', scheds (drain m1) !! self (drain m1) = Some sc' /\ stopping_ sc' = true) ->
  ptr (fdm p) epfd = None -> ptr (fdm p) rd = None -> ptr (fdm p) wr = None ->
  exists h p', del_IOManager now own drain epfd rd wr p = (Ok h, p') /\ Forall (eq None) h /\
    (exists m' sc', iom p' = Some m' /\ scheds m' !! self m' = Some sc' /\ stopping_ sc' = true /\ length h = length (objs m')) /\
    forall fd, getfl (sys (fdm p')) fd = if bool_decide (fd = epfd \/ fd = rd \/ fd = wr) then None else getfl (sys (fdm p)) fd.
Proof.
  intros Hm Hi Ht Hsc -> Hd H1 H2 H3. destruct (io_Stop_ok now m sc Hi Ht Hsc) as (r & m1 & Es & Hi1 & Hsc1 & Hr).
  set (m2 := match r with Some _ => drain m1 | None => m1 end).
  assert (io_inv m2 /\ exists sc', scheds m2 !! self m2 = Some sc' /\ stopping_ sc' = true) as (Hi2 & sc2 & Hsc2 & Hst).
  { unfold m2. destruct r; [by apply Hd|]. split; [done|]. exists sc. auto. }
  unfold del_IOManager. rewrite Hm, Es. fold m2.
  erewrite bind_ok by (apply close_unmanaged; exact H1). erewrite bind_ok by (apply close_unmanaged; exact H2).
  erewrite bind_ok by (apply close_unmanaged; exact H3).
  cbn [fdm iom sys set_sys]. rewrite (io_table _ Hi2). unfold lift.
  assert (delete_contexts (seq 0 (length (objs m2))) (Some <$> objs m2) = Ok (replicate (length (objs m2)) None)) as -> by exact (delete_contexts_ok 0 (objs m2)). eexists _, _. split; [reflexivity|]. split; [by apply Forall_replicate|].
  split; [exists m2, sc2; by rewrite length_replicate|]. intros fd. cbn [fdm sys set_sys].
  case_bool_decide as Hfd.
  - destruct (decide (fd = wr)) as [->|?]; [apply close_gone|]. rewrite close_other by done.
    destruct (decide (fd = rd)) as [->|?]; [apply close_gone|]. rewrite close_other by done.
    destruct Hfd as [-> | [-> | -> ]]; [apply close_gone|done|done].
  - rewrite !close_other by (intros <-; tauto). done.
Qed.
End Destructor.

(** ** The theorems at work *)

Module LifeDemo.
(** Two schedulers in turn, each stopped and destroyed, beside one that does not use the
    caller. *)
Definition demo_lives : list lop :=
  [ LNew 0 1 true; LNew 1 2 false; LStop 0 false; LStop 0 true; LDelete 0; LNew 2 3 true; LStop 1 false ].

Fixpoint after_lives (ops : list lop) (s : life) : life := match ops with [] => s | o :: ops => after_lives ops (lexec 11 o s).2 end.
End LifeDemo.
Import LifeDemo.

Lemma demo_lives_steps : exists s, lives 11 demo_lives s /\ is_Some (live s !! 1%nat) /\ is_Some (live s !! 2%nat).
Proof.
  assert (lives 11 [] no_life) as H0 by constructor.
  pose proof (lives_snoc 11 _ _ (LNew 0 1 true) _ H0 eq_refl eq_refl) as H1.
  pose proof (lives_snoc 11 _ _ (LNew 1 2 false) _ H1 eq_refl eq_refl) as H2.
  pose proof (lives_snoc 11 _ _ (LStop 0 false) _ H2 ltac:(eexists; split; [reflexivity|done]) eq_refl) as H3.
  pose proof (lives_snoc 11 _ _ (LStop 0 true) _ H3 ltac:(eexists; split; [reflexivity|done]) eq_refl) as H4.
  pose proof (lives_snoc 11 _ _ (LDelete 0) _ H4 ltac:(eexists; reflexivity) eq_refl) as H5.
  pose proof (lives_snoc 11 _ _ (LNew 2 3 true) _ H5 eq_refl eq_refl) as H6.
  pose proof (lives_snoc 11 _ _ (LStop 1 false) _ H6 ltac:(eexists; split; [reflexivity|done]) eq_refl) as H7.
  eexists. split; [exact H7|]. split; eexists; reflexivity.
Qed.


(** A thread that has made, stopped and destroyed a scheduler has no scheduler, but the hooks
    are on, and the pointer to the main fiber is that of a fiber which is gone. *)
Example hooks_outlive : here (after_lives [LNew 0 1 true; LStop 0 false; LDelete 0] no_life) = mkLocals None (Some 0%nat) true.
Proof. vm_compute. reflexivity. Qed.

(** A task that is scheduled behind [Stop] makes the next [Stop] abort. *)
Example late_task_aborts :
  let s := after_lives [LNew 0 1 true; LStop 0 false; LPool 0 (mkScheduler [new_Task (ACallback (Fn 1)) (-1)] true [11] 0 [] 0 0 true 11)] no_life in
  (Stopping <$> live s !! 0%nat) = Some false /\ (stop 0 false s).1 = Fail assert_failed.
Proof. vm_compute. done. Qed.
