(* ===== verification/Http.v ===== *)
(** * HTTP messages: [gudov/http/http.h] and [gudov/http/http.cpp]

    Methods and status codes with their names, the case-insensitive header map, and
    requests and responses with their printed form.  A [std::string] is a [string];
    [std::map] is the list of its pairs in the order of its keys. *)

From S2P Require Import Prelude OrderedMap.
From stdpp Require Import base numbers list sorting strings pretty.
From Stdlib Require Import ZArith Lia Ascii.
Open Scope Z_scope.

(** ** Methods and status codes *)

Inductive HttpMethod :=
  | DELETE | GET | HEAD | POST | PUT | CONNECT | OPTIONS | TRACE | COPY | LOCK | MKCOL | MOVE
  | PROPFIND | PROPPATCH | SEARCH | UNLOCK | BIND | REBIND | UNBIND | ACL | REPORT | MKACTIVITY
  | CHECKOUT | MERGE | MSEARCH | NOTIFY | SUBSCRIBE | UNSUBSCRIBE | PATCH | PURGE | MKCALENDAR
  | LINK | UNLINK | SOURCE | INVALID_METHOD.

#[global] Instance HttpMethod_eq_dec : EqDecision HttpMethod.
Proof. solve_decision. Defined.

(** [HTTP_METHOD_MAP]: the enumerators in the order of their numbers, with the text
    the preprocessor makes of the third argument. *)
Definition HTTP_METHOD_MAP : list (HttpMethod * string) :=
  [ (DELETE, "DELETE"); (GET, "GET"); (HEAD, "HEAD"); (POST, "POST"); (PUT, "PUT");
  (CONNECT, "CONNECT"); (OPTIONS, "OPTIONS"); (TRACE, "TRACE"); (COPY, "COPY"); (LOCK, "LOCK");
  (MKCOL, "MKCOL"); (MOVE, "MOVE"); (PROPFIND, "PROPFIND"); (PROPPATCH, "PROPPATCH");
  (SEARCH, "SEARCH"); (UNLOCK, "UNLOCK"); (BIND, "BIND"); (REBIND, "REBIND"); (UNBIND, "UNBIND");
  (ACL, "ACL"); (REPORT, "REPORT"); (MKACTIVITY, "MKACTIVITY"); (CHECKOUT, "CHECKOUT");
  (MERGE, "MERGE"); (MSEARCH, "M - SEARCH"); (NOTIFY, "NOTIFY"); (SUBSCRIBE, "SUBSCRIBE");
  (UNSUBSCRIBE, "UNSUBSCRIBE"); (PATCH, "PATCH"); (PURGE, "PURGE"); (MKCALENDAR, "MKCALENDAR");
  (LINK, "LINK"); (UNLINK, "UNLINK"); (SOURCE, "SOURCE") ].

Definition method_value (m : HttpMethod) : Z :=
  match m with
  | DELETE => 0 | GET => 1 | HEAD => 2 | POST => 3 | PUT => 4 | CONNECT => 5 | OPTIONS => 6
  | TRACE => 7 | COPY => 8 | LOCK => 9 | MKCOL => 10 | MOVE => 11 | PROPFIND => 12
  | PROPPATCH => 13 | SEARCH => 14 | UNLOCK => 15 | BIND => 16 | REBIND => 17 | UNBIND => 18
  | ACL => 19 | REPORT => 20 | MKACTIVITY => 21 | CHECKOUT => 22 | MERGE => 23 | MSEARCH => 24
  | NOTIFY => 25 | SUBSCRIBE => 26 | UNSUBSCRIBE => 27 | PATCH => 28 | PURGE => 29
  | MKCALENDAR => 30 | LINK => 31 | UNLINK => 32 | SOURCE => 33 | INVALID_METHOD => 34
  end.

(** [HTTP_STATUS_MAP]: code and description; a [HttpStatus] is its number, since any
    number of a parsed response is cast to it. *)
Definition HTTP_STATUS_MAP : list (Z * string) :=
  [ (100, "Continue"); (101, "Switching Protocols"); (102, "Processing"); (200, "OK");
  (201, "Created"); (202, "Accepted"); (203, "Non - Authoritative Information");
  (204, "No Content"); (205, "Reset Content"); (206, "Partial Content"); (207, "Multi - Status");
  (208, "Already Reported"); (226, "IM Used"); (300, "Multiple Choices");
  (301, "Moved Permanently"); (302, "Found"); (303, "See Other"); (304, "Not Modified");
  (305, "Use Proxy"); (307, "Temporary Redirect"); (308, "Permanent Redirect");
  (400, "Bad Request"); (401, "Unauthorized"); (402, "Payment Required"); (403, "Forbidden");
  (404, "Not Found"); (405, "Method Not Allowed"); (406, "Not Acceptable");
  (407, "Proxy Authentication Required"); (408, "Request Timeout"); (409, "Conflict");
  (410, "Gone"); (411, "Length Required"); (412, "Precondition Failed");
  (413, "Payload Too Large"); (414, "URI Too Long"); (415, "Unsupported Media Type");
  (416, "Range Not Satisfiable"); (417, "Expectation Failed"); (421, "Misdirected Request");
  (422, "Unprocessable Entity"); (423, "Locked"); (424, "Failed Dependency");
  (426, "Upgrade Required"); (428, "Precondition Required"); (429, "Too Many Requests");
  (431, "Request Header Fields Too Large"); (451, "Unavailable For Legal Reasons");
  (500, "Internal Server Error"); (501, "Not Implemented"); (502, "Bad Gateway");
  (503, "Service Unavailable"); (504, "Gateway Timeout"); (505, "HTTP Version Not Supported");
  (506, "Variant Also Negotiates"); (507, "Insufficient Storage"); (508, "Loop Detected");
  (510, "Not Extended"); (511, "Network Authentication Required") ].

(** [if (strcmp(text, m) == 0) return name;], for each line of the map. *)
Definition StringToHttpMethod (m : string) : HttpMethod :=
  match List.find (fun e => String.eqb e.2 (c_str m)) HTTP_METHOD_MAP with
  | Some e => e.1
  | None => INVALID_METHOD
  end.

(** [if (strncmp(text, m, strlen(text)) == 0) return name;] *)
Definition CharsToHttpMethod (m : string) : HttpMethod :=
  match List.find (fun e => String.prefix e.2 (c_str m)) HTTP_METHOD_MAP with
  | Some e => e.1
  | None => INVALID_METHOD
  end.

Definition HttpMethodToString (m : HttpMethod) : string :=
  match (map snd HTTP_METHOD_MAP) !! Z.to_nat (method_value m) with
  | Some t => t
  | None => "<unknown>"
  end.

Definition HttpStatusToString (s : Z) : string :=
  match List.find (fun e => e.1 =? s) HTTP_STATUS_MAP with
  | Some e => e.2
  | None => "<unknown>"
  end.

(** ** Comparing names *)

(** The character [strcasecmp] compares: lower case, 0 at the end. *)
Definition tolower (c : ascii) : Z :=
  let n := Z.of_N (N_of_ascii c) in if (65 <=? n) && (n <=? 90) then n + 32 else n.
Definition head (s : string) : Z := match s with EmptyString => 0 | String c _ => tolower c end.
Definition tail (s : string) : string := match s with EmptyString => EmptyString | String _ s => s end.

Fixpoint strcasecmp (l r : string) : Z :=
  match l with
  | EmptyString => 0 - head r
  | String c l =>
      let a := tolower c in
      if (a =? 0) || negb (a =? head r) then a - head r else strcasecmp l (tail r)
  end.

Definition CaseInsensitiveLess (lhs rhs : string) : bool := strcasecmp lhs rhs <? 0.

(** ** Messages *)

Abbreviation MapType := (list (string * string)).

Definition find_header : string -> MapType -> option string := map_find CaseInsensitiveLess.

Record HttpRequest := mkRequest {
  method_ : HttpMethod;
  version_ : Z;
  close_ : bool;
  path_ : string;
  query_ : string;
  fragment_ : string;
  body_ : string;
  headers_ : MapType;
  params_ : MapType;
  cookies_ : MapType }.

Record HttpResponse := mkResponse {
  rstatus_ : Z;
  rversion_ : Z;
  rclose_ : bool;
  rbody_ : string;
  rreason_ : string;
  rheaders_ : MapType }.

Definition new_HttpRequest (version : Z) (close : bool) : HttpRequest :=
  mkRequest GET version close "/" EmptyString EmptyString EmptyString [] [] [].

Definition new_HttpResponse (version : Z) (close : bool) : HttpResponse :=
  mkResponse 200 version close EmptyString EmptyString [].

Definition set_method v (r : HttpRequest) := mkRequest v (version_ r) (close_ r) (path_ r) (query_ r) (fragment_ r) (body_ r) (headers_ r) (params_ r) (cookies_ r).
Definition set_version v (r : HttpRequest) := mkRequest (method_ r) v (close_ r) (path_ r) (query_ r) (fragment_ r) (body_ r) (headers_ r) (params_ r) (cookies_ r).
Definition set_close v (r : HttpRequest) := mkRequest (method_ r) (version_ r) v (path_ r) (query_ r) (fragment_ r) (body_ r) (headers_ r) (params_ r) (cookies_ r).
Definition set_path v (r : HttpRequest) := mkRequest (method_ r) (version_ r) (close_ r) v (query_ r) (fragment_ r) (body_ r) (headers_ r) (params_ r) (cookies_ r).
Definition set_query v (r : HttpRequest) := mkRequest (method_ r) (version_ r) (close_ r) (path_ r) v (fragment_ r) (body_ r) (headers_ r) (params_ r) (cookies_ r).
Definition set_fragment v (r : HttpRequest) := mkRequest (method_ r) (version_ r) (close_ r) (path_ r) (query_ r) v (body_ r) (headers_ r) (params_ r) (cookies_ r).
Definition set_body v (r : HttpRequest) := mkRequest (method_ r) (version_ r) (close_ r) (path_ r) (query_ r) (fragment_ r) v (headers_ r) (params_ r) (cookies_ r).
Definition set_headers v (r : HttpRequest) := mkRequest (method_ r) (version_ r) (close_ r) (path_ r) (query_ r) (fragment_ r) (body_ r) v (params_ r) (cookies_ r).
Definition set_params v (r : HttpRequest) := mkRequest (method_ r) (version_ r) (close_ r) (path_ r) (query_ r) (fragment_ r) (body_ r) (headers_ r) v (cookies_ r).
Definition set_cookies v (r : HttpRequest) := mkRequest (method_ r) (version_ r) (close_ r) (path_ r) (query_ r) (fragment_ r) (body_ r) (headers_ r) (params_ r) v.

Definition GetHeader (key def : string) (r : HttpRequest) : string := default def (find_header key (headers_ r)).
Definition GetParam (key def : string) (r : HttpRequest) : string := default def (find_header key (params_ r)).
Definition GetCookie (key def : string) (r : HttpRequest) : string := default def (find_header key (cookies_ r)).

Definition SetHeader (key val : string) (r : HttpRequest) : HttpRequest :=
  set_headers (map_assign CaseInsensitiveLess key val (headers_ r)) r.
Definition SetParam (key val : string) (r : HttpRequest) : HttpRequest :=
  set_params (map_assign CaseInsensitiveLess key val (params_ r)) r.
Definition SetCookie (key val : string) (r : HttpRequest) : HttpRequest :=
  set_cookies (map_assign CaseInsensitiveLess key val (cookies_ r)) r.

Definition DelHeader (key : string) (r : HttpRequest) : HttpRequest :=
  set_headers (map_erase CaseInsensitiveLess key (headers_ r)) r.
Definition DelParam (key : string) (r : HttpRequest) : HttpRequest :=
  set_params (map_erase CaseInsensitiveLess key (params_ r)) r.
Definition DelCookie (key : string) (r : HttpRequest) : HttpRequest :=
  set_cookies (map_erase CaseInsensitiveLess key (cookies_ r)) r.

(** [HasHeader(key, val)]: whether it is there, and what [*val] holds afterwards. *)
Definition HasHeader (key val : string) (r : HttpRequest) : bool * string :=
  match find_header key (headers_ r) with Some v => (true, v) | None => (false, val) end.
Definition HasParam (key val : string) (r : HttpRequest) : bool * string :=
  match find_header key (params_ r) with Some v => (true, v) | None => (false, val) end.
Definition HasCookie (key val : string) (r : HttpRequest) : bool * string :=
  match find_header key (cookies_ r) with Some v => (true, v) | None => (false, val) end.

(** [CheckGetAs] and [GetAs]; [cast] is [boost::lexical_cast<T>], [None] when it
    throws. *)
Definition CheckGetAs {T} (cast : string -> option T) (m : MapType) (key : string) (def : T) : bool * T :=
  match find_header key m with
  | None => (false, def)
  | Some s => match cast s with Some v => (true, v) | None => (false, def) end
  end.

Definition GetAs {T} (cast : string -> option T) (m : MapType) (key : string) (def : T) : T :=
  match find_header key m with
  | None => def
  | Some s => match cast s with Some v => v | None => def end
  end.

(** The members that use them. *)
Definition CheckGetHeaderAs {T} (cast : string -> option T) (key : string) (def : T) (r : HttpRequest) : bool * T := CheckGetAs cast (headers_ r) key def.
Definition GetHeaderAs {T} (cast : string -> option T) (key : string) (def : T) (r : HttpRequest) : T := GetAs cast (headers_ r) key def.
Definition CheckGetParamAs {T} (cast : string -> option T) (key : string) (def : T) (r : HttpRequest) : bool * T := CheckGetAs cast (params_ r) key def.
Definition GetParamAs {T} (cast : string -> option T) (key : string) (def : T) (r : HttpRequest) : T := GetAs cast (params_ r) key def.
Definition CheckGetCookieAs {T} (cast : string -> option T) (key : string) (def : T) (r : HttpRequest) : bool * T := CheckGetAs cast (cookies_ r) key def.
Definition GetCookieAs {T} (cast : string -> option T) (key : string) (def : T) (r : HttpRequest) : T := GetAs cast (cookies_ r) key def.
Definition rCheckGetHeaderAs {T} (cast : string -> option T) (key : string) (def : T) (r : HttpResponse) : bool * T := CheckGetAs cast (rheaders_ r) key def.
Definition rGetHeaderAs {T} (cast : string -> option T) (key : string) (def : T) (r : HttpResponse) : T := GetAs cast (rheaders_ r) key def.

Definition Init (r : HttpRequest) : HttpRequest :=
  let conn := GetHeader "connection" EmptyString r in
  if negb (String.eqb conn EmptyString) then
    if strcasecmp conn "keep-alive" =? 0 then set_close false r else set_close true r
  else r.

(** ** Printing *)

Definition CRLF : string := String "013" (String "010" EmptyString).

Definition nonempty (s : string) : bool := negb (String.eqb s EmptyString).

(** [HTTP/x.y] *)
Definition version_text (v : Z) : string :=
  "HTTP/" +:+ pretty (Z.shiftr v 4) +:+ "." +:+ pretty (Z.land v 15).

Definition connection_text (close : bool) : string := if close then "close" else "keep-alive".

(** The headers, [connection] left out, [sep] between name and value. *)
Fixpoint header_lines (sep : string) (m : MapType) : string :=
  match m with
  | [] => EmptyString
  | (k, v) :: m =>
      if strcasecmp k "connection" =? 0 then header_lines sep m
      else k +:+ sep +:+ v +:+ CRLF +:+ header_lines sep m
  end.

Definition body_part (body : string) : string :=
  if nonempty body
  then "content-length: " +:+ pretty (Z.of_nat (String.length body)) +:+ CRLF +:+ CRLF +:+ body
  else CRLF.

Definition request_line (r : HttpRequest) : string :=
  HttpMethodToString (method_ r) +:+ " " +:+ path_ r +:+ (if nonempty (query_ r) then "?" else EmptyString) +:+
  query_ r +:+ (if nonempty (fragment_ r) then "#" else EmptyString) +:+ fragment_ r +:+ " " +:+ version_text (version_ r).

Definition Dump (r : HttpRequest) : string :=
  request_line r +:+ CRLF +:+
  "connection: " +:+ connection_text (close_ r) +:+ CRLF +:+
  header_lines ":" (headers_ r) +:+ body_part (body_ r).

Definition status_line (r : HttpResponse) : string :=
  version_text (rversion_ r) +:+ " " +:+ pretty (rstatus_ r) +:+ " " +:+
  (if nonempty (rreason_ r) then rreason_ r else HttpStatusToString (rstatus_ r)).

Definition Dump_response (r : HttpResponse) : string :=
  status_line r +:+ CRLF +:+ header_lines ": " (rheaders_ r) +:+
  "connection: " +:+ connection_text (rclose_ r) +:+ CRLF +:+ body_part (rbody_ r).

Definition rGetHeader (key def : string) (r : HttpResponse) : string := default def (find_header key (rheaders_ r)).
Definition rset_headers v (r : HttpResponse) := mkResponse (rstatus_ r) (rversion_ r) (rclose_ r) (rbody_ r) (rreason_ r) v.
Definition rset_status v (r : HttpResponse) := mkResponse v (rversion_ r) (rclose_ r) (rbody_ r) (rreason_ r) (rheaders_ r).
Definition rset_body v (r : HttpResponse) := mkResponse (rstatus_ r) (rversion_ r) (rclose_ r) v (rreason_ r) (rheaders_ r).
Definition rSetHeader (key val : string) (r : HttpResponse) : HttpResponse :=
  rset_headers (map_assign CaseInsensitiveLess key val (rheaders_ r)) r.
Definition rDelHeader (key : string) (r : HttpResponse) : HttpResponse :=
  rset_headers (map_erase CaseInsensitiveLess key (rheaders_ r)) r.

(** ** Names are ordered without regard to case *)

Lemma tolower_range c : 0 <= tolower c < 256.
Proof.
  unfold tolower. pose proof (N_ascii_bounded c). destruct (Z.leb_spec 65 (Z.of_N (N_of_ascii c))), (Z.leb_spec (Z.of_N (N_of_ascii c)) 90); cbn; lia.
Qed.

Lemma head_nonneg s : 0 <= head s.
Proof. destruct s as [|c s]; cbn; [lia|]. pose proof (tolower_range c). lia. Qed.

Lemma strcasecmp_unfold l r :
  strcasecmp l r = if (head l =? 0) || negb (head l =? head r) then head l - head r else strcasecmp (tail l) (tail r).
Proof. by destruct l. Qed.

Lemma strcasecmp_refl s : strcasecmp s s = 0.
Proof.
  induction s as [|c s IH]; [done|]. rewrite strcasecmp_unfold, Z.eqb_refl. cbn [negb orb]. rewrite orb_false_r.
  destruct (head (String c s) =? 0); [lia|done].
Qed.

Lemma strcasecmp_antisym l r : strcasecmp r l = - strcasecmp l r.
Proof.
  revert r. induction l as [|c l IH]; intros r; rewrite strcasecmp_unfold, (strcasecmp_unfold _ r); cbn [tail].
  - pose proof (head_nonneg r). cbn. destruct (Z.eqb_spec (head r) 0); cbn; lia.
  - pose proof (head_nonneg r). pose proof (head_nonneg (String c l)).
    destruct (Z.eqb_spec (head r) 0), (Z.eqb_spec (head (String c l)) 0), (Z.eqb_spec (head r) (head (String c l))),
      (Z.eqb_spec (head (String c l)) (head r)); cbn [orb negb]; try lia. apply IH.
Qed.

Lemma strcasecmp_trans x y z : strcasecmp x y <= 0 -> strcasecmp y z <= 0 ->
  strcasecmp x z <= 0 /\ (strcasecmp x z = 0 -> strcasecmp x y = 0 /\ strcasecmp y z = 0).
Proof.
  revert y z. induction x as [|c x IH]; intros y z.
  - pose proof (head_nonneg y). pose proof (head_nonneg z). cbn [strcasecmp].
    intros _. rewrite (strcasecmp_unfold y z). destruct (Z.eqb_spec (head y) 0), (Z.eqb_spec (head y) (head z)); cbn; lia.
  - rewrite (strcasecmp_unfold (String c x) y), (strcasecmp_unfold (String c x) z), (strcasecmp_unfold y z).
    pose proof (head_nonneg (String c x)). pose proof (head_nonneg y). pose proof (head_nonneg z). cbn [tail].
    specialize (IH (tail y) (tail z)).
    destruct (Z.eqb_spec (head (String c x)) 0), (Z.eqb_spec (head y) 0), (Z.eqb_spec (head (String c x)) (head y)),
      (Z.eqb_spec (head (String c x)) (head z)), (Z.eqb_spec (head y) (head z)); cbn [orb negb]; lia.
Qed.

#[global] Instance header_order : WeakOrder CaseInsensitiveLess.
Proof.
  unfold CaseInsensitiveLess. split.
  - intros x. by rewrite strcasecmp_refl.
  - intros x y z. rewrite !Z.ltb_lt. intros H1 H2. destruct (strcasecmp_trans x y z) as [H3 H4]; [lia|lia|].
    destruct (Z.eq_dec (strcasecmp x z) 0) as [E|]; [|lia]. destruct (H4 E). lia.
  - intros x y z. rewrite !Z.ltb_lt. intros H1.
    destruct (Z.lt_ge_cases (strcasecmp x y) 0) as [|H2]; [by left|].
    destruct (Z.lt_ge_cases (strcasecmp y z) 0) as [|H3]; [by right|].
    pose proof (strcasecmp_antisym x y). pose proof (strcasecmp_antisym y z). pose proof (strcasecmp_antisym x z).
    destruct (strcasecmp_trans z y x) as [H7 H8]; lia.
Qed.

Lemma same_name k k' : CaseInsensitiveLess k k' || CaseInsensitiveLess k' k = negb (strcasecmp k k' =? 0).
Proof.
  unfold CaseInsensitiveLess. pose proof (strcasecmp_antisym k k').
  destruct (Z.ltb_spec (strcasecmp k k') 0), (Z.ltb_spec (strcasecmp k' k) 0), (Z.eqb_spec (strcasecmp k k') 0); cbn; lia || done.
Qed.

(** ** The header map *)

Inductive hop := OpSet (key val : string) | OpDel (key : string).

Definition apply_hop (r : HttpRequest) (o : hop) : HttpRequest :=
  match o with OpSet k v => SetHeader k v r | OpDel k => DelHeader k r end.

(** The value last given to a name, upper and lower case being the same. *)
Definition last_value (key : string) (acc : option string) (o : hop) : option string :=
  match o with
  | OpSet k v => if strcasecmp key k =? 0 then Some v else acc
  | OpDel k => if strcasecmp key k =? 0 then None else acc
  end.

Lemma equiv_header k k' : equiv_key CaseInsensitiveLess k k' = (strcasecmp k k' =? 0).
Proof. unfold equiv_key. by rewrite same_name, negb_involutive. Qed.

Lemma apply_hops ops r key :
  map_ok CaseInsensitiveLess (headers_ r) ->
  map_ok CaseInsensitiveLess (headers_ (fold_left apply_hop ops r)) /\
  find_header key (headers_ (fold_left apply_hop ops r)) = fold_left (last_value key) ops (find_header key (headers_ r)).
Proof.
  revert r. induction ops as [|o ops IH]; intros r Hr; [done|]. cbn [fold_left].
  assert (map_ok CaseInsensitiveLess (headers_ (apply_hop r o))) as Ho.
  { destruct o; [by apply (map_assign_ok CaseInsensitiveLess)|by apply (map_erase_ok CaseInsensitiveLess)]. }
  destruct (IH _ Ho) as [H1 H2]. split; [done|]. rewrite H2. f_equal. unfold find_header.
  destruct o; cbn [apply_hop SetHeader DelHeader set_headers headers_ last_value];
    [rewrite (find_assign CaseInsensitiveLess) by done|rewrite (find_erase CaseInsensitiveLess) by done]; by rewrite equiv_header.
Qed.

(** Whatever is set and deleted, in whatever spelling, [GetHeader] returns the
    value last given to the name, or the default when there is none; and the map
    holds one entry per name. *)
Theorem headers_last_value ops key def version close :
  let r := fold_left apply_hop ops (new_HttpRequest version close) in
  GetHeader key def r = default def (fold_left (last_value key) ops None) /\
  StronglySorted (fun p q => strcasecmp p.1 q.1 < 0) (headers_ r).
Proof.
  cbn zeta. destruct (apply_hops ops (new_HttpRequest version close) key) as [H1 H2]; [constructor|].
  split; [unfold GetHeader; by rewrite H2|].
  clear H2. unfold map_ok in H1. induction H1 as [|p m _ IH Hf]; constructor; [done|].
  apply (Forall_impl _ _ _ Hf). intros q. unfold before, CaseInsensitiveLess. lia.
Qed.

(** A header as a number, or another type: the last value if it converts, and the default if
    there is none or if it does not; [CheckGetHeaderAs] tells which. *)
Lemma headers_typed {T} (cast : string -> option T) ops key (def : T) version close :
  let r := fold_left apply_hop ops (new_HttpRequest version close) in
  let v := fold_left (last_value key) ops None in
  GetHeaderAs cast key def r = default def (mbind cast v) /\
  CheckGetHeaderAs cast key def r = (bool_decide (is_Some (mbind cast v)), default def (mbind cast v)).
Proof.
  cbn zeta. destruct (apply_hops ops (new_HttpRequest version close) key) as [_ H2]; [constructor|].
  unfold GetHeaderAs, CheckGetHeaderAs, GetAs, CheckGetAs. rewrite H2. change (find_header key (headers_ (new_HttpRequest version close))) with (@None string).
  destruct (fold_left (last_value key) ops None) as [v|]; cbn; [destruct (cast v)|]; done.
Qed.

(** ** Methods *)


Lemma CharsToHttpMethod_name m rest : m <> INVALID_METHOD -> CharsToHttpMethod (HttpMethodToString m +:+ rest) = m.
Proof.
  intros Hm. unfold CharsToHttpMethod.
  assert (c_str (HttpMethodToString m +:+ rest) = HttpMethodToString m +:+ c_str rest) as -> by (by destruct m).
  destruct m; try done; by destruct (c_str rest).
Qed.

(** Every method survives printing and reading its name, also when the name is
    only the beginning of what is read, as in a request line: no name is the
    beginning of another. *)
Theorem methods_roundtrip m rest :
  m <> INVALID_METHOD ->
  StringToHttpMethod (HttpMethodToString m) = m /\ CharsToHttpMethod (HttpMethodToString m +:+ rest) = m.
Proof. intros Hm. split; [by destruct m|by apply CharsToHttpMethod_name]. Qed.

(** ** Reading a message *)

Definition CR : ascii := "013".
Definition LF : ascii := "010".

Fixpoint lacks (c : ascii) (s : string) : bool :=
  match s with EmptyString => true | String d s => negb (Ascii.eqb d c) && lacks c s end.

(** A line and what follows its CRLF. *)
Fixpoint read_line (s : string) : option (string * string) :=
  match s with
  | EmptyString => None
  | String c s' =>
      let more := match read_line s' with Some (l, r) => Some (String c l, r) | None => None end in
      if Ascii.eqb c CR
      then match s' with
           | String d r => if Ascii.eqb d LF then Some (EmptyString, r) else more
           | EmptyString => more
           end
      else more
  end.

Fixpoint skip_spaces (s : string) : string :=
  match s with String " " s' => skip_spaces s' | _ => s end.

(** Name and value of a header line. *)
Fixpoint split_field (s : string) : option (string * string) :=
  match s with
  | EmptyString => None
  | String c s' =>
      if Ascii.eqb c ":" then Some (EmptyString, skip_spaces s')
      else match split_field s' with Some (k, v) => Some (String c k, v) | None => None end
  end.

(** The header lines up to the empty one, and the rest. *)
Fixpoint read_fields (fuel : nat) (s : string) : option (MapType * string) :=
  match fuel with
  | O => None
  | S fuel =>
      match read_line s with
      | None => None
      | Some (EmptyString, rest) => Some ([], rest)
      | Some (l, rest) =>
          match split_field l, read_fields fuel rest with
          | Some f, Some (fs, body) => Some (f :: fs, body)
          | _, _ => None
          end
      end
  end.

Definition read_message (s : string) : option (string * MapType * string) :=
  match read_line s with
  | None => None
  | Some (start, rest) =>
      match read_fields (String.length s) rest with Some (fs, body) => Some (start, fs, body) | None => None end
  end.

Lemma lacks_app c s t : lacks c (s +:+ t) = lacks c s && lacks c t.
Proof. induction s as [|d s IH]; [done|]. change (negb (Ascii.eqb d c) && lacks c (s +:+ t) = negb (Ascii.eqb d c) && lacks c s && lacks c t). rewrite IH. apply andb_assoc. Qed.

Lemma read_line_app l rest : lacks CR l = true -> read_line (l +:+ CRLF +:+ rest) = Some (l, rest).
Proof.
  induction l as [|c l IH]; intros Hl; [done|]. cbn in Hl. apply andb_true_iff in Hl as [Hc Hl].
  change (String c l +:+ CRLF +:+ rest) with (String c (l +:+ CRLF +:+ rest)). cbn [read_line].
  rewrite (IH Hl). apply negb_true_iff in Hc. by rewrite Hc.
Qed.

Lemma split_field_app k v : lacks ":" k = true -> split_field (k +:+ ":" +:+ v) = Some (k, skip_spaces v).
Proof.
  induction k as [|c k IH]; intros Hk; [done|]. cbn in Hk. apply andb_true_iff in Hk as [Hc Hk].
  change (String c k +:+ ":" +:+ v) with (String c (k +:+ ":" +:+ v)). cbn [split_field].
  rewrite (IH Hk). apply negb_true_iff in Hc. by rewrite Hc.
Qed.

(** Header lines, the value as it follows the colon. *)
Fixpoint lines (fs : MapType) : string :=
  match fs with [] => EmptyString | (k, v) :: fs => k +:+ ":" +:+ v +:+ CRLF +:+ lines fs end.

(** A name and a value that can be told apart again. *)
Definition clean (f : string * string) : Prop :=
  lacks CR f.1 = true /\ lacks ":" f.1 = true /\ lacks CR f.2 = true.

Lemma read_fields_lines fs body fuel :
  Forall clean fs -> (length fs < fuel)%nat ->
  read_fields fuel (lines fs +:+ CRLF +:+ body) = Some (map (fun f => (f.1, skip_spaces f.2)) fs, body).
Proof.
  intros Hfs. revert fuel. induction Hfs as [|[k v] fs (H1 & H2 & H3) _ IH]; intros [|fuel] Hf; [cbn in Hf; lia|done|cbn in Hf; lia|].
  cbn [lines read_fields].
  assert ((k +:+ ":" +:+ v +:+ CRLF +:+ lines fs) +:+ CRLF +:+ body = (k +:+ ":" +:+ v) +:+ CRLF +:+ (lines fs +:+ CRLF +:+ body)) as ->.
  { by rewrite !str_app_assoc. }
  cbn in H1, H2, H3. rewrite read_line_app by (rewrite !lacks_app, H1, H3; done). rewrite split_field_app by done.
  rewrite IH by (cbn in Hf; lia). cbn. by destruct k.
Qed.

Lemma lines_length fs : (length fs <= String.length (lines fs))%nat.
Proof. induction fs as [|[k v] fs IH]; cbn [lines]; [done|]. rewrite !str_length_app. cbn. lia. Qed.

Lemma read_message_lines start fs body :
  lacks CR start = true -> Forall clean fs ->
  read_message (start +:+ CRLF +:+ lines fs +:+ CRLF +:+ body) = Some (start, map (fun f => (f.1, skip_spaces f.2)) fs, body).
Proof.
  intros Hs Hfs. unfold read_message. rewrite read_line_app by done. rewrite read_fields_lines; [done|done|].
  rewrite !str_length_app. pose proof (lines_length fs). cbn. lia.
Qed.

Lemma lines_app fs gs : lines (fs ++ gs) = lines fs +:+ lines gs.
Proof. induction fs as [|[k v] fs IH]; [done|]. cbn [lines app]. rewrite IH. by rewrite !str_app_assoc. Qed.

(** The headers that are printed. *)
Definition printed (m : MapType) : MapType := List.filter (fun f => negb (strcasecmp f.1 "connection" =? 0)) m.

Lemma header_lines_eq pad m : header_lines (":" +:+ pad) m = lines (map (fun f => (f.1, pad +:+ f.2)) (printed m)).
Proof.
  induction m as [|[k v] m IH]; [done|]. cbn [header_lines printed List.filter fst].
  destruct (strcasecmp k "connection" =? 0); cbn [negb]; [done|]. cbn [map lines fst snd].
  rewrite IH. by rewrite !str_app_assoc.
Qed.

(** The digits of a number are no separators. *)
Definition is_digit (c : ascii) : bool := (48 <=? nat_of_ascii c)%nat && (nat_of_ascii c <=? 57)%nat.

Fixpoint digits (s : string) : bool := match s with EmptyString => true | String c s => is_digit c && digits s end.

Lemma pretty_N_char_digit x : is_digit (pretty_N_char x) = true.
Proof. unfold pretty_N_char. by repeat case_match. Qed.

Lemma pretty_N_go_digits x s : digits s = true -> digits (pretty_N_go x s) = true.
Proof.
  revert s. induction (N.lt_wf_0 x) as [x _ IH]; intros s Hs.
  destruct (decide (0 < x)%N); [|by replace x with 0%N by lia; rewrite pretty_N_go_0].
  rewrite pretty_N_go_step by done. apply IH; [by apply N.div_lt|].
  cbn. by rewrite pretty_N_char_digit.
Qed.

Lemma pretty_digits n : 0 <= n -> digits (pretty n) = true.
Proof.
  intros Hn. destruct n as [|p|p]; [done| |lia]. change (digits (pretty_N (N.pos p)) = true). unfold pretty_N.
  case_decide; [done|]. by apply pretty_N_go_digits.
Qed.

Lemma digits_lacks c s : digits s = true -> is_digit c = false -> lacks c s = true.
Proof.
  intros Hs Hc. induction s as [|d s IH]; [done|]. cbn in *. apply andb_true_iff in Hs as [Hd Hs].
  rewrite (IH Hs), andb_true_r, negb_true_iff. apply Ascii.eqb_neq. congruence.
Qed.

Lemma digits_skip s : digits s = true -> skip_spaces s = s.
Proof. destruct s as [|c s]; [done|]. cbn. intros [Hc _]%andb_true_iff. by destruct c as [[] [] [] [] [] [] [] []]. Qed.

(** A value that does not begin with a space reads back as it is. *)
Definition clean_header (f : string * string) : Prop := clean f /\ skip_spaces f.2 = f.2.

(** The header that announces a body. *)
Definition length_header (body : string) : MapType :=
  if nonempty body then [("content-length", pretty (Z.of_nat (String.length body)))] else [].

Lemma length_header_clean body : Forall clean_header (length_header body).
Proof.
  unfold length_header. destruct (nonempty body); [|constructor]. constructor; [|constructor].
  pose proof (pretty_digits (Z.of_nat (String.length body)) ltac:(lia)) as Hd. unfold clean_header, clean. cbn [fst snd].
  split_and!; [done|done|by apply digits_lacks|by apply digits_skip].
Qed.

Lemma body_part_eq body :
  body_part body = lines (map (fun f => (f.1, " " +:+ f.2)) (length_header body)) +:+ CRLF +:+ body.
Proof.
  unfold body_part, length_header. destruct (nonempty body) eqn:E.
  - cbn [map lines fst snd]. by rewrite !str_app_assoc.
  - unfold nonempty in E. apply negb_false_iff, String.eqb_eq in E as ->. done.
Qed.

Lemma read_back pad fs :
  skip_spaces pad = EmptyString -> lacks CR pad = true -> (forall v, skip_spaces (pad +:+ v) = skip_spaces v) ->
  Forall clean_header fs ->
  Forall clean (map (fun f => (f.1, pad +:+ f.2)) fs) /\
  map (fun f : string * string => (f.1, skip_spaces f.2)) (map (fun f => (f.1, pad +:+ f.2)) fs) = fs.
Proof.
  intros _ Hp Hs. induction 1 as [|[k v] fs [(H1 & H2 & H3) H4] _ [IH1 IH2]]; [done|].
  cbn in H1, H2, H3, H4. split.
  - constructor; [|done]. unfold clean. cbn. rewrite lacks_app, Hp, H3. done.
  - cbn [map fst snd]. rewrite Hs, H4. by rewrite IH2.
Qed.

Lemma printed_clean m : Forall clean_header m -> Forall clean_header (printed m).
Proof. intros Hm. apply Forall_forall. intros x Hx. apply list_elem_of_In, filter_In in Hx as [Hx _].
  rewrite Forall_forall in Hm. apply Hm. by apply list_elem_of_In. Qed.

(** The printed form of a message: start line, headers, body. *)
Definition message (start : string) (fs : MapType) (body : string) : option (string * MapType * string) :=
  Some (start, fs, body).

Lemma connection_clean c : clean_header ("connection", connection_text c).
Proof. by destruct c. Qed.

(** The printed form of a request reads back: the request line, then
    [connection] as [close_] says, the headers other than [connection] in the order
    of the map, [content-length] with the size of the body when there is one, and
    the body, whatever bytes it has. *)
Theorem request_reads_back r :
  lacks CR (request_line r) = true -> Forall clean_header (headers_ r) ->
  read_message (Dump r) =
    message (request_line r)
      (("connection", connection_text (close_ r)) :: printed (headers_ r) ++ length_header (body_ r)) (body_ r).
Proof.
  intros Hl Hh.
  destruct (read_back " " [("connection", connection_text (close_ r))]) as [C1 E1]; [done|done|done|by repeat constructor; destruct (close_ r)|].
  destruct (read_back EmptyString (printed (headers_ r))) as [C2 E2]; [done|done|done|by apply printed_clean|].
  destruct (read_back " " (length_header (body_ r))) as [C3 E3]; [done|done|done|apply length_header_clean|].
  assert (Dump r = request_line r +:+ CRLF +:+ lines (map (fun f => (f.1, " " +:+ f.2)) [("connection", connection_text (close_ r))] ++
    map (fun f => (f.1, EmptyString +:+ f.2)) (printed (headers_ r)) ++ map (fun f => (f.1, " " +:+ f.2)) (length_header (body_ r))) +:+ CRLF +:+ body_ r) as ->.
  { unfold Dump. rewrite body_part_eq, !lines_app. change ":" with (":" +:+ EmptyString). rewrite header_lines_eq.
    cbn [map lines fst snd]. by rewrite !str_app_assoc. }
  rewrite read_message_lines; [|done|by repeat apply Forall_app_2]. unfold message. f_equal. f_equal. f_equal.
  rewrite !map_app, E1, E2, E3. done.
Qed.

Lemma response_read r :
  lacks CR (status_line r) = true -> Forall clean_header (rheaders_ r) ->
  read_message (Dump_response r) =
    message (status_line r)
      (printed (rheaders_ r) ++ ("connection", connection_text (rclose_ r)) :: length_header (rbody_ r)) (rbody_ r).
Proof.
  intros Hl Hh.
  destruct (read_back " " (printed (rheaders_ r) ++ ("connection", connection_text (rclose_ r)) :: length_header (rbody_ r)))
    as [C1 E1]; [done|done|done| |].
  { apply Forall_app_2; [by apply printed_clean|]. constructor; [apply connection_clean|apply length_header_clean]. }
  assert (Dump_response r = status_line r +:+ CRLF +:+ lines (map (fun f => (f.1, " " +:+ f.2))
    (printed (rheaders_ r) ++ ("connection", connection_text (rclose_ r)) :: length_header (rbody_ r))) +:+ CRLF +:+ rbody_ r) as ->.
  { unfold Dump_response. rewrite body_part_eq, map_app, lines_app. change ": " with (":" +:+ " "). rewrite header_lines_eq.
    cbn [map lines fst snd]. by rewrite !str_app_assoc. }
  rewrite read_message_lines by done. unfold message. by rewrite E1.
Qed.

(** The printed form of a response reads back likewise, its [connection] header
    after the others. *)
Theorem response_reads_back r :
  lacks CR (status_line r) = true -> Forall clean_header (rheaders_ r) ->
  read_message (Dump_response r) =
    message (status_line r)
      (printed (rheaders_ r) ++ ("connection", connection_text (rclose_ r)) :: length_header (rbody_ r)) (rbody_ r).
Proof. apply response_read. Qed.

(** ** Examples *)

Lemma methods_roundtrip_witness :
  StringToHttpMethod (HttpMethodToString UNLOCK) = UNLOCK /\
  CharsToHttpMethod (HttpMethodToString UNLOCK +:+ " /x HTTP/1.1") = UNLOCK.
Proof. apply (methods_roundtrip UNLOCK " /x HTTP/1.1"). discriminate. Defined.

Definition demo_request : HttpRequest :=
  set_body "a=1" (set_query "q=1" (SetHeader "Host" "example.org" (SetHeader "Connection" "x" (new_HttpRequest 17 false)))).

Lemma request_reads_back_witness :
  read_message (Dump demo_request) =
    message "GET /?q=1 HTTP/1.1" [("connection", "keep-alive"); ("Host", "example.org"); ("content-length", "3")] "a=1".
Proof. apply (request_reads_back demo_request); [reflexivity|repeat constructor]. Defined.

Lemma response_reads_back_witness :
  read_message (Dump_response (rset_status 404 (rSetHeader "Server" "gudov/1.0.0" (new_HttpResponse 17 true)))) =
    message "HTTP/1.1 404 Not Found" [("Server", "gudov/1.0.0"); ("connection", "close")] EmptyString.
Proof.
  apply (response_reads_back (rset_status 404 (rSetHeader "Server" "gudov/1.0.0" (new_HttpResponse 17 true))));
    [reflexivity|repeat constructor].
Defined.

(** What the tables and the printed form do not guard against.  The preprocessor
    leaves spaces in the name of [M-SEARCH], which is therefore neither read nor
    written as the protocol has it, and in two reason phrases; a [content-length]
    header of the message is printed along with the one of its body, so that a
    forwarded request announces two lengths; and a response without a body that
    keeps the connection open announces none. *)
Theorem http_text_flaws :
  StringToHttpMethod "M-SEARCH" = INVALID_METHOD /\ HttpMethodToString MSEARCH = "M - SEARCH" /\
  HttpStatusToString 207 = "Multi - Status" /\
  read_message (Dump (set_body "abc" (SetHeader "Content-Length" "5" (new_HttpRequest 17 true)))) =
    message "GET / HTTP/1.1" [("connection", "close"); ("Content-Length", "5"); ("content-length", "3")] "abc" /\
  read_message (Dump_response (new_HttpResponse 17 false)) =
    message "HTTP/1.1 200 OK" [("connection", "keep-alive")] EmptyString.
Proof. vm_compute. done. Qed.
