(* ===== verification/HttpParser.v ===== *)
(** * HTTP parsers: [gudov/http/http_parser.cpp]

    The callbacks and the two parser classes.  What they need of the state machines of
    [http11_parser.rl] and [httpclient_parser.rl] is a class: a function from their
    state and the bytes to a new state, the number of bytes consumed and the callbacks
    made on the way.  [HttpGrammar] and [ClientGrammar] have its instances. *)

From S2P Require Import Prelude Http.
From stdpp Require Import base numbers list strings.
From Stdlib Require Import ZArith Lia Ascii Strings.Byte.
Open Scope Z_scope.

(** ** Callbacks *)

(** A callback with the text it is given; for the method and the status the text
    goes on to the end of the buffer, since the handlers do not use the length. *)
Inductive callback :=
  | request_method (at_ : string)
  | request_uri (s : string)
  | fragment (s : string)
  | request_path (s : string)
  | query_string (s : string)
  | http_version (at_ : string) (length : nat)
  | header_done
  | http_field (field value : string)
  | reason_phrase (s : string)
  | status_code (at_ : string)
  | chunk_size
  | last_chunk.

(** [strncmp(a, b, n) == 0] *)
Fixpoint strncmp_eq (n : nat) (a b : string) : bool :=
  match n with
  | O => true
  | S n =>
      match a, b with
      | String c a, String d b => if Ascii.eqb c d then (if Ascii.eqb c zero then true else strncmp_eq n a b) else false
      | EmptyString, EmptyString => true
      | EmptyString, String d _ => Ascii.eqb d zero
      | String c _, EmptyString => Ascii.eqb c zero
      end
  end.

(** The version of a message, by its name; [None] is error 1001. *)
Definition version_of (at_ : string) (length : nat) : option Z :=
  if strncmp_eq length at_ "HTTP/1.1" then Some 17
  else if strncmp_eq length at_ "HTTP/1.0" then Some 16
  else None.

(** [atoi] of digits. *)
Fixpoint atoi_digits (acc : Z) (s : string) : Z :=
  match s with
  | String c s => let d := Z.of_N (N_of_ascii c) in
                  if (48 <=? d) && (d <=? 57) then atoi_digits (acc * 10 + (d - 48)) s else acc
  | EmptyString => acc
  end.
Definition atoi (s : string) : Z := atoi_digits 0 s.

(** ** The request parser *)

Record HttpRequestParser (P : Type) := mkReqParser { parser_ : P; error_ : Z; data_ : HttpRequest }.
Arguments mkReqParser {P}.
Arguments parser_ {P}.
Arguments error_ {P}.
Arguments data_ {P}.

(** The handlers registered by the constructor; error 1000 for an unknown method,
    1001 for an unknown version; a header with an empty name is dropped. *)
Definition on_request (e : callback) (s : Z * HttpRequest) : Z * HttpRequest :=
  let '(err, r) := s in
  match e with
  | request_method at_ =>
      let m := CharsToHttpMethod at_ in
      if decide (m = INVALID_METHOD) then (1000, r) else (err, set_method m r)
  | fragment f => (err, set_fragment f r)
  | request_path p => (err, set_path p r)
  | query_string q => (err, set_query q r)
  | http_version at_ n =>
      match version_of at_ n with Some v => (err, set_version v r) | None => (1001, r) end
  | http_field f v => if String.eqb f EmptyString then (err, r) else (err, SetHeader f v r)
  | _ => (err, r)
  end.

(** The machine: [http_parser_init], [http_parser_execute] from offset 0,
    [http_parser_finish] and [http_parser_has_error].  It consumes no more than it
    is given. *)
Class Machine (P : Type) := {
  machine_init : P;
  machine_execute : P -> string -> result (P * nat * list callback);
  machine_finish : P -> bool;
  machine_has_error : P -> bool;
  machine_consumes p s q n es : machine_execute p s = Ok (q, n, es) -> (n <= String.length s)%nat }.

Section Parsers.
Context {P : Type} `{Machine P}.

Definition new_HttpRequestParser : HttpRequestParser P := mkReqParser machine_init 0 (new_HttpRequest 17 true).

(** [execute(data, len)]: the number of bytes consumed; the rest moves to the front
    of the buffer. *)
Definition execute (p : HttpRequestParser P) (data : string) : result (HttpRequestParser P * nat) :=
  match machine_execute (parser_ p) data with
  | Fail e => Fail e
  | Ok (m, offset, es) =>
      let '(err, r) := fold_left (fun s e => on_request e s) es (error_ p, data_ p) in
      Ok (mkReqParser m err r, offset)
  end.

Definition IsFinished (p : HttpRequestParser P) : bool := machine_finish (parser_ p).
Definition HasError (p : HttpRequestParser P) : bool := negb (error_ p =? 0) || machine_has_error (parser_ p).

(** [GetHeaderAs<uint64_t>("content-length", 0)]; [cast] is [boost::lexical_cast]. *)
Definition GetContentLength (cast : string -> option Z) (p : HttpRequestParser P) : Z :=
  GetAs cast (headers_ (data_ p)) "content-length" 0.
End Parsers.

(** ** The response parser *)

Record HttpResponseParser (P : Type) := mkRspParser { rparser_ : P; rerror_ : Z; rdata_ : HttpResponse }.
Arguments mkRspParser {P}.
Arguments rparser_ {P}.
Arguments rerror_ {P}.
Arguments rdata_ {P}.

Definition rset_reason v (r : HttpResponse) := mkResponse (rstatus_ r) (rversion_ r) (rclose_ r) (rbody_ r) v (rheaders_ r).
Definition rset_version v (r : HttpResponse) := mkResponse (rstatus_ r) v (rclose_ r) (rbody_ r) (rreason_ r) (rheaders_ r).

Definition on_response (e : callback) (s : Z * HttpResponse) : Z * HttpResponse :=
  let '(err, r) := s in
  match e with
  | reason_phrase t => (err, rset_reason t r)
  | status_code at_ => (err, rset_status (atoi at_) r)
  | http_version at_ n =>
      match version_of at_ n with Some v => (err, rset_version v r) | None => (1001, r) end
  | http_field f v => if String.eqb f EmptyString then (err, r) else (err, rSetHeader f v r)
  | _ => (err, r)
  end.

Section ResponseParsers.
Context {P : Type} `{Machine P}.

Definition new_HttpResponseParser : HttpResponseParser P := mkRspParser machine_init 0 (new_HttpResponse 17 true).

(** [execute(data, len, chunck)]: the machine starts again for a chunk. *)
Definition execute_response (p : HttpResponseParser P) (data : string) (chunck : bool) : result (HttpResponseParser P * nat) :=
  match machine_execute (if chunck then machine_init else rparser_ p) data with
  | Fail e => Fail e
  | Ok (m, offset, es) =>
      let '(err, r) := fold_left (fun s e => on_response e s) es (rerror_ p, rdata_ p) in
      Ok (mkRspParser m err r, offset)
  end.

Definition IsFinished_response (p : HttpResponseParser P) : bool := machine_finish (rparser_ p).
Definition HasError_response (p : HttpResponseParser P) : bool := negb (rerror_ p =? 0) || machine_has_error (rparser_ p).
Definition GetContentLength_response (cast : string -> option Z) (p : HttpResponseParser P) : Z :=
  GetAs cast (rheaders_ (rdata_ p)) "content-length" 0.
End ResponseParsers.

(** ** What the callbacks build *)

(** The callbacks a machine makes for a request, in the order of the text. *)
Definition request_callbacks (m : HttpMethod) (rest path query frag version : string) (fs : MapType) : list callback :=
  [request_method (HttpMethodToString m +:+ rest); request_path path; query_string query; fragment frag;
   http_version version (String.length version)] ++ map (fun f => http_field f.1 f.2) fs ++ [header_done].

Lemma on_request_fields fs err r :
  Forall (fun f => f.1 <> EmptyString) fs ->
  fold_left (fun s e => on_request e s) (map (fun f => http_field f.1 f.2) fs) (err, r) =
    (err, fold_left apply_hop (map (fun f => OpSet f.1 f.2) fs) r).
Proof.
  revert r. induction fs as [|[f v] fs IH]; intros r Hf; [done|]. apply Forall_cons in Hf as [Hn Hf]. cbn [map fold_left fst snd] in *.
  cbn [on_request]. rewrite (proj2 (String.eqb_neq f EmptyString)) by done. by apply IH.
Qed.

(** Setting headers leaves the other fields. *)
Lemma apply_hops_frame ops r :
  let r' := fold_left apply_hop ops r in
  method_ r' = method_ r /\ version_ r' = version_ r /\ path_ r' = path_ r /\ query_ r' = query_ r /\
  fragment_ r' = fragment_ r /\ body_ r' = body_ r /\ close_ r' = close_ r.
Proof.
  revert r. induction ops as [|o ops IH]; intros r; [done|]. cbn [fold_left]. cbn zeta in *.
  specialize (IH (apply_hop r o)). destruct o; exact IH.
Qed.

(** The request built from the callbacks of a well-formed head has the method,
    target, version and, for every name, the last value given to it, whatever the
    spelling; no error is set. *)
Theorem callbacks_build_request m rest path query frag (v11 : bool) fs key def :
  m <> INVALID_METHOD -> Forall (fun f => f.1 <> EmptyString) fs ->
  let version := if v11 then "HTTP/1.1" else "HTTP/1.0" in
  let '(err, r) := fold_left (fun s e => on_request e s)
                     (request_callbacks m rest path query frag version fs) (0, new_HttpRequest 17 true) in
  err = 0 /\ method_ r = m /\ path_ r = path /\ query_ r = query /\ fragment_ r = frag /\
  version_ r = (if v11 then 17 else 16) /\
  GetHeader key def r = default def (fold_left (last_value key) (map (fun f => OpSet f.1 f.2) fs) None).
Proof.
  intros Hm Hf. cbn zeta. unfold request_callbacks. rewrite !fold_left_app.
  assert (CharsToHttpMethod (HttpMethodToString m +:+ rest) = m) as Em by (by apply CharsToHttpMethod_name).
  set (r0 := set_version (if v11 then 17 else 16) (set_fragment frag (set_query query (set_path path (set_method m (new_HttpRequest 17 true)))))).
  match goal with |- context [fold_left _ [request_method _; _; _; _; _] ?z] =>
    assert (fold_left (fun s e => on_request e s) [request_method (HttpMethodToString m +:+ rest); request_path path; query_string query; fragment frag;
      http_version (if v11 then "HTTP/1.1" else "HTTP/1.0") (String.length (if v11 then "HTTP/1.1" else "HTTP/1.0"))] z = (0, r0)) as ->
  end.
  { cbn [fold_left on_request]. rewrite Em, decide_False by done. by destruct v11. }
  rewrite on_request_fields by done. cbn [fold_left on_request].
  destruct (apply_hops_frame (map (fun f => OpSet f.1 f.2) fs) r0) as (H1 & H2 & H3 & H4 & H5 & _ & _).
  destruct (apply_hops (map (fun f => OpSet f.1 f.2) fs) r0 key) as [_ H6]; [constructor|].
  split_and!; try done. unfold GetHeader. by rewrite H6.
Qed.

Lemma callbacks_build_request_witness :
  let '(err, r) := fold_left (fun s e => on_request e s)
                     (request_callbacks POST " /a HTTP/1.0" "/a" EmptyString EmptyString "HTTP/1.0"
                        [("Host", "x"); ("HOST", "y")]) (0, new_HttpRequest 17 true) in
  err = 0 /\ method_ r = POST /\ path_ r = "/a" /\ query_ r = EmptyString /\ fragment_ r = EmptyString /\
  version_ r = 16 /\ GetHeader "host" EmptyString r = "y".
Proof.
  apply (callbacks_build_request POST " /a HTTP/1.0" "/a" EmptyString EmptyString false
           [("Host", "x"); ("HOST", "y")] "host" EmptyString); [discriminate|repeat constructor; discriminate].
Defined.
