(* ===== verification/HttpGrammar.v ===== *)
(** * The request machine: [gudov/http/http11_parser.rl], [gudov/http/http11_parser.h]

    The grammar, expression by expression, its actions on the parser structure, and
    [http_parser_execute].  The machine stops behind the head of the request. *)

From S2P Require Import Prelude Ragel Http HttpParser.
From stdpp Require Import base numbers list strings.
From Stdlib Require Import NArith ZArith Lia Ascii.
Open Scope Z_scope.

(** ** The grammar *)

Inductive http_action :=
  | do_mark | start_field | write_field | start_value | write_value | do_request_method | do_request_uri | do_fragment
  | start_query | do_query_string | do_http_version | do_request_path | do_done | do_xml | do_json.

#[global] Instance http_action_eq_dec : EqDecision http_action.
Proof. solve_decision. Defined.

(** What the constructor of the parser leaves as it was: [parser->uri_relaxed], which
    nothing sets, and [parser->query_start]. *)
Class Uninit := { uri_relaxed : bool; old_query_start : Z }.

Module HttpGrammar.
Local Open Scope ragel_scope.
Abbreviation rl := (rx http_action).

Section Grammar.
Context `{Uninit}.

Definition CR_LF : rl := lit (String (ascii_of_nat 13) (String (ascii_of_nat 10) EmptyString)) |. Chr (code 10).

Definition more_delims_c : cls := if uri_relaxed then one_of "{}^" else [].
Definition sub_delims_c : cls := one_of "!$&'()*+,;=" ++ more_delims_c.
Definition unreserved_c : cls := alpha ++ digit ++ one_of "-._~".
Definition sub_delims : rl := Chr sub_delims_c.
Definition unreserved : rl := Chr unreserved_c.
Definition pct_encoded : rl := lit "%" ~. Chr xdigit ~. Chr xdigit.
Definition pchar : rl := unreserved |. pct_encoded |. sub_delims |. lit ":" |. lit "@".

Definition fragment : rl := star (pchar |. lit "/" |. lit "?") >. do_mark %. do_fragment.
Definition query : rl := star (pchar |. lit "/" |. lit "?") %. do_query_string.

Definition segment_nz_nc : rl := many1 (unreserved |. pct_encoded |. sub_delims |. lit "@").
Definition segment_nz : rl := many1 pchar.
Definition segment : rl := star pchar.

Definition path_empty : rl := Eps.
Definition path_rootless : rl := segment_nz ~. star (lit "/" ~. segment).
Definition path_noscheme : rl := segment_nz_nc ~. star (lit "/" ~. segment).
Definition path_absolute : rl := lit "/" ~. opt (segment_nz ~. star (lit "/" ~. segment)).
Definition path_abempty : rl := star (lit "/" ~. segment).

Definition reg_name : rl := star (unreserved |. pct_encoded |. sub_delims).

(** [("1"-"9")] and its like are differences: the first of the two characters. *)
Definition dec_octet : rl :=
  Chr digit |. (lit "1" ~. Chr digit) |. (lit "1" ~. rep 2 (Chr digit)) |. (lit "2" ~. lit "0" ~. Chr digit) |. (lit "25" ~. lit "0").
Definition IPv4address : rl := dec_octet ~. lit "." ~. dec_octet ~. lit "." ~. dec_octet ~. lit "." ~. dec_octet.
Definition h16 : rl := rep_upto 1 3 (Chr xdigit).
Definition ls32 : rl := (h16 ~. lit ":" ~. h16) |. IPv4address.
Definition h16c : rl := h16 ~. lit ":".
Definition from (n : nat) (r : rl) : rl := rep n r ~. star r.

(** The [6] of [6( h16 ":" )] is the character of code 6, and so on. *)
Definition IPv6address : rl :=
  (Chr (code 6) ~. h16c ~. ls32) |.
  (lit "::" ~. Chr (code 5) ~. h16c ~. ls32) |.
  (opt h16 ~. lit "::" ~. Chr (code 4) ~. h16c ~. ls32) |.
  (opt (from 1 h16c ~. h16) ~. lit "::" ~. Chr (code 3) ~. h16c ~. ls32) |.
  (opt (from 2 h16c ~. h16) ~. lit "::" ~. Chr (code 2) ~. h16c ~. ls32) |.
  (opt (from 3 h16c ~. h16) ~. lit "::" ~. h16c ~. ls32) |.
  (opt (from 4 h16c ~. h16) ~. lit "::" ~. ls32) |.
  (opt (from 5 h16c ~. h16) ~. lit "::" ~. h16) |.
  (opt (from 6 h16c ~. h16) ~. lit "::").
Definition IPvFuture : rl := lit "v" ~. many1 (Chr xdigit) ~. lit "." ~. many1 (unreserved |. sub_delims |. lit ":").
Definition IP_literal : rl := lit "[" ~. (IPv6address |. IPvFuture) ~. lit "]".

(** [IP_literal] and [IPv4address] are referred to by number. *)
Definition port : rl := star (Chr digit).
Definition host : rl := Sub 0 |. Sub 1 |. reg_name.
Definition userinfo : rl := star (unreserved |. pct_encoded |. sub_delims |. lit ":").
Definition authority : rl := opt (userinfo ~. lit "@") ~. host ~. opt (lit ":" ~. port).

Definition scheme : rl := Chr alpha ~. star (Chr (alpha ++ digit ++ one_of "+-.")).

Definition relative_part : rl := (lit "//" ~. authority ~. path_abempty) |. path_absolute |. path_noscheme |. path_empty.
Definition hier_part : rl := (lit "//" ~. authority ~. path_abempty) |. path_absolute |. path_rootless |. path_empty.

Definition relative_ref : rl :=
  (relative_part %. do_request_path ~. opt (lit "?" %. start_query ~. query)) >. do_mark %. do_request_uri ~. opt (lit "#" ~. fragment).
Definition URI : rl :=
  scheme ~. lit ":" ~. (hier_part %. do_request_path ~. opt (lit "?" %. start_query ~. query)) >. do_mark %. do_request_uri ~.
  opt (lit "#" ~. fragment).
Definition URI_reference : rl := URI |. relative_ref.

Definition Method : rl := rep_upto 1 19 (Chr (upper ++ digit)) >. do_mark %. do_request_method.
Definition http_number : rl := lit "1." ~. Chr (one_of "01").
Definition HTTP_Version : rl := (lit "HTTP/" ~. http_number) >. do_mark %. do_http_version.
Definition Request_Line : rl := Method ~. lit " " ~. URI_reference ~. lit " " ~. HTTP_Version ~. CR_LF.

(** [(0 - 31)] is a difference as well. *)
Definition HTTP_CTL : cls := code 0 ++ code 127.
Definition HTTP_separator : cls := one_of "()<>@,;:\/[]?={} " ++ code 34 ++ code 9.
Definition blank : cls := one_of " " ++ code 9.
Definition lws : rl := opt CR_LF ~. many1 (Chr blank).
Definition token_c : cls := cls_minus ascii_ (HTTP_CTL ++ HTTP_separator).
Definition content : rl := Chr (cls_minus any HTTP_CTL) |. lws.

Definition field_name : rl := many1 (Chr token_c) >. start_field %. write_field.
Definition field_value : rl := star content >. start_value %. write_value.
Definition message_header : rl := (field_name ~. lit ":" ~. star lws ~. field_value) :>. CR_LF.

Definition Request : rl := Request_Line ~. star message_header ~. CR_LF.

Definition SocketJSONStart : rl := lit "@" ~. relative_part.
Definition SocketJSONData : rl := (lit "{" ~. star (Chr any) ~. lit "}") :>>. Chr (code 0).
Definition SocketXMLData : rl :=
  ((lit "<" ~. many1 (Chr (alpha ++ digit ++ one_of "-."))) >. do_mark %. do_request_path ~. Chr (one_of "/" ++ space ++ one_of ">") ~.
   star (Chr any) ~. lit ">") :>>. Chr (code 0).
Definition SocketJSON : rl := SocketJSONStart >. do_mark %. do_request_path ~. lit " " ~. SocketJSONData >. do_mark @. do_json.
Definition SocketXML : rl := SocketXMLData @. do_xml.
Definition SocketRequest : rl := SocketXML |. SocketJSON.

Definition main : rl := numbered ((Request |. SocketRequest) @. do_done).
End Grammar.

#[global] Instance http_defs `{Uninit} : Defs http_action := {| defs := [IP_literal; IPv4address]; defs_closed := ltac:(repeat constructor) |}.
End HttpGrammar.

(** ** The parser *)

Record http_parser := mkHttpParser {
  cs : option (state http_action);
  body_start : Z;
  content_len : Z;
  nread : Z;
  mark : Z;
  field_start : Z;
  field_len : Z;
  query_start : Z;
  xml_sent : bool;
  json_sent : bool }.

Definition set_mark v p := mkHttpParser (cs p) (body_start p) (content_len p) (nread p) v (field_start p) (field_len p) (query_start p) (xml_sent p) (json_sent p).
Definition set_field_start v p := mkHttpParser (cs p) (body_start p) (content_len p) (nread p) (mark p) v (field_len p) (query_start p) (xml_sent p) (json_sent p).
Definition set_field_len v p := mkHttpParser (cs p) (body_start p) (content_len p) (nread p) (mark p) (field_start p) v (query_start p) (xml_sent p) (json_sent p).
Definition set_query_start v p := mkHttpParser (cs p) (body_start p) (content_len p) (nread p) (mark p) (field_start p) (field_len p) v (xml_sent p) (json_sent p).
Definition set_xml_sent v p := mkHttpParser (cs p) (body_start p) (content_len p) (nread p) (mark p) (field_start p) (field_len p) (query_start p) v (json_sent p).
Definition set_json_sent v p := mkHttpParser (cs p) (body_start p) (content_len p) (nread p) (mark p) (field_start p) (field_len p) (query_start p) (xml_sent p) v.
Definition set_body_at b n p := mkHttpParser (cs p) b n (nread p) (mark p) (field_start p) (field_len p) (query_start p) (xml_sent p) (json_sent p).
Definition set_cs v p := mkHttpParser v (body_start p) (content_len p) (nread p) (mark p) (field_start p) (field_len p) (query_start p) (xml_sent p) (json_sent p).
Definition set_nread v p := mkHttpParser (cs p) (body_start p) (content_len p) v (mark p) (field_start p) (field_len p) (query_start p) (xml_sent p) (json_sent p).

(** *** Actions

    [buffer] is the text handed to [http_parser_execute]; the callbacks are collected. *)
Section Actions.
Context (buffer : list ascii).

(** [PTR_TO(F)], to the end of the buffer. *)
Definition PTR_TO (f : Z) : string := String.string_of_list_ascii (drop (Z.to_nat f) buffer).
(** [LEN(AT, FPC)], a [size_t]. *)
Definition LEN (at_ : Z) (fpc : nat) : Z := u64 (Z.of_nat fpc - at_).

(** [std::string(at, length)], made by the callbacks. *)
Definition text_at (at_ length_ : Z) : result string :=
  if 2 ^ 63 <=? length_ then Fail length_error
  else if at_ + length_ <=? Z.of_nat (length buffer) then Ok (String.string_of_list_ascii (take (Z.to_nat length_) (drop (Z.to_nat at_) buffer)))
  else Fail undefined.

Definition parsing := (http_parser * list callback)%type.
Definition emit (c : callback) (e : parsing) : parsing := (e.1, e.2 ++ [c]).
Definition emit_text (c : string -> callback) (at_ length_ : Z) (e : parsing) : result (parsing * bool) :=
  match text_at at_ length_ with Ok t => Ok (emit (c t) e, false) | Fail x => Fail x end.
Definition on_parser (f : http_parser -> http_parser) (e : parsing) : result (parsing * bool) := Ok ((f e.1, e.2), false).

Definition http_act (a : http_action) (fpc : nat) (e : parsing) : result (parsing * bool) :=
  let parser := e.1 in
  match a with
  | do_mark | start_value => on_parser (set_mark (Z.of_nat fpc)) e
  | start_field => on_parser (set_field_start (Z.of_nat fpc)) e
  | write_field => on_parser (set_field_len (LEN (field_start parser) fpc)) e
  | write_value =>
      if field_len parser =? 0 then Ok (emit (http_field EmptyString EmptyString) e, false)
      else match text_at (field_start parser) (field_len parser) with
           | Ok f => emit_text (http_field f) (mark parser) (LEN (mark parser) fpc) e
           | Fail x => Fail x
           end
  | do_request_method => Ok (emit (request_method (PTR_TO (mark parser))) e, false)
  | do_request_uri => Ok (emit (request_uri (PTR_TO (mark parser))) e, false)
  | do_fragment => emit_text fragment (mark parser) (LEN (mark parser) fpc) e
  | start_query => on_parser (set_query_start (Z.of_nat fpc)) e
  | do_query_string => emit_text query_string (query_start parser) (LEN (query_start parser) fpc) e
  | do_http_version => Ok (emit (http_version (PTR_TO (mark parser)) (Z.to_nat (LEN (mark parser) fpc))) e, false)
  | do_request_path => emit_text request_path (mark parser) (LEN (mark parser) fpc) e
  | do_done =>
      if xml_sent parser || json_sent parser
      then Ok ((set_body_at (mark parser) (s32 (Z.of_nat fpc - mark parser + 1)) parser, e.2), true)
      else Ok (emit header_done (set_body_at (Z.of_nat fpc + 1) (content_len parser) parser, e.2), true)
  | do_xml => on_parser (set_xml_sent true) e
  | do_json => on_parser (set_json_sent true) e
  end.
End Actions.

Lemma LEN_small at_ fpc : 0 <= at_ <= Z.of_nat fpc -> Z.of_nat fpc < 2 ^ 31 -> LEN at_ fpc = Z.of_nat fpc - at_.
Proof. intros H H'. unfold LEN, u64. apply wrapu_small. lia. Qed.

(** *** Operations *)

Section Operations.
Context `{Uninit}.

Definition http_parser_init : http_parser :=
  mkHttpParser (Some [HttpGrammar.main]) 0 0 0 0 0 0 old_query_start false false.

Definition http_parser_has_error (p : http_parser) : bool := match cs p with None => true | Some _ => false end.
Definition http_parser_is_finished (p : http_parser) : bool := match cs p with Some s => accepting s | None => false end.
Definition http_parser_finish (p : http_parser) : Z :=
  if http_parser_has_error p then -1 else if http_parser_is_finished p then 1 else 0.

(** [write exec] from the state [cs]. *)
Definition exec (c : option (state http_action)) (buffer : list ascii) (e : parsing) : result (option (state http_action) * nat * parsing) :=
  match c with
  | None => Ok (None, 0%nat, e)
  | Some s => run (http_act buffer) s 0 buffer e
  end.

(** [http_parser_execute(parser, buffer, len, 0)]: the parser, the bytes consumed, and the
    callbacks. *)
Definition http_parser_execute (p : http_parser) (data : string) : result (http_parser * nat * list callback) :=
  let buffer := String.list_ascii_of_string data in
  let len := Z.of_nat (length buffer) in
  if len =? 0 then Ok (p, 0%nat, []) else
  let p := set_field_start 0 (set_field_len 0 (set_mark 0 (set_nread 0 p))) in
  if negb (len =? s32 len) then Fail assert_failed else
  match exec (cs p) buffer (p, []) with
  | Fail x => Fail x
  | Ok (c, i, (p, es)) =>
      let p := if http_parser_has_error p then p else set_cs c p in
      let p := set_nread (Z.of_nat i) p in
      if (nread p <=? len) && (body_start p <=? len) && (mark p <? len) && (field_len p <=? len) && (field_start p <? len)
      then Ok (p, i, es) else Fail assert_failed
  end.
End Operations.
