(* ===== verification/HttpRead.v ===== *)
(** * What the request machine reads

    The head of a request, followed through the machine of [http11_parser.rl]: the
    callbacks it makes, and that it stops behind the head. *)

From S2P Require Import Prelude Ragel Http HttpParser HttpGrammar.
From stdpp Require Import base numbers list strings pretty.
From Stdlib Require Import NArith ZArith Lia Ascii.
Open Scope Z_scope.

(** ** The assertions behind the machine *)

(** The offsets lie in a buffer of [n] bytes. *)
Definition within (n : Z) (p : http_parser) : Prop :=
  0 <= mark p < n /\ 0 <= field_start p < n /\ 0 <= field_len p <= n /\ 0 <= body_start p <= n.

(** What only the end of the machine looks at. *)
Definition behind (i : nat) (p : http_parser) : Prop := mark p <= Z.of_nat i /\ field_start p <= Z.of_nat i.

Lemma http_act_within buffer a i e e' b : Z.of_nat (length buffer) < 2 ^ 31 -> (i < length buffer)%nat ->
  within (Z.of_nat (length buffer)) e.1 -> behind i e.1 -> http_act buffer a i e = Ok (e', b) ->
  within (Z.of_nat (length buffer)) e'.1 /\ behind i e'.1.
Proof.
  intros Hn Hi (H1 & H2 & H3 & H4) (H5 & H6). destruct e as [p es]. cbn [fst snd] in *. pose proof (LEN_small (field_start p) i ltac:(lia) ltac:(lia)) as Hl.
  unfold http_act, on_parser, emit_text, emit. cbn [fst snd]. unfold within, behind.
  destruct a; repeat case_match; intros [= <- <-]; cbn [fst snd mark field_start field_len body_start set_mark set_field_start set_field_len set_query_start set_xml_sent set_json_sent set_body_at];
    rewrite ?Hl; lia.
Qed.

Lemma http_act_fails buffer a i e x : http_act buffer a i e = Fail x -> x = length_error \/ x = undefined.
Proof.
  assert (forall m n, text_at buffer m n = Fail x -> x = length_error \/ x = undefined) as Ht.
  { intros m n. unfold text_at. repeat case_match; intros [= <-]; tauto. }
  unfold http_act, on_parser, emit_text. destruct a; repeat case_match; intros [= <-]; eauto.
Qed.

Lemma do_actions_within buffer l i e e' b : Z.of_nat (length buffer) < 2 ^ 31 -> (i < length buffer)%nat ->
  within (Z.of_nat (length buffer)) e.1 -> behind i e.1 -> do_actions (http_act buffer) l i e = Ok (e', b) ->
  within (Z.of_nat (length buffer)) e'.1 /\ behind i e'.1.
Proof.
  intros Hn Hi. revert e. induction l as [|a l IH]; intros e Hw Hb; cbn [do_actions]; [by intros [= <- <-]|].
  destruct (http_act buffer a i e) as [[e1 []]|] eqn:Ea; [|intros E|done].
  - intros [= <- <-]. by apply (http_act_within _ _ _ _ _ _ Hn Hi Hw Hb Ea).
  - destruct (http_act_within _ _ _ _ _ _ Hn Hi Hw Hb Ea) as [Hw' Hb']. by apply (IH e1 Hw' Hb').
Qed.

Lemma run_within `{Uninit} buffer s i w e o j e' : Z.of_nat (length buffer) < 2 ^ 31 -> (i + length w <= length buffer)%nat ->
  within (Z.of_nat (length buffer)) e.1 -> behind i e.1 -> run (http_act buffer) s i w e = Ok (o, j, e') ->
  (j <= i + length w)%nat /\ within (Z.of_nat (length buffer)) e'.1.
Proof.
  intros Hn. revert s i e. induction w as [|x w IH]; intros s i e Hi Hw Hb; cbn [run length] in Hi |- *; [intros [= <- <- <-]; split; [lia|done]|].
  destruct (step s x) as [[l s']|]; [|intros [= <- <- <-]; split; [lia|done]].
  destruct (do_actions (http_act buffer) l i e) as [[e1 []]|] eqn:Ed; [| |done];
    destruct (do_actions_within buffer l i e e1 _ Hn ltac:(lia) Hw Hb Ed) as [Hw' Hb'].
  - intros [= <- <- <-]. split; [lia|done].
  - intros E. apply IH in E; [destruct E; split; [lia|done]|lia|done|unfold behind in *; lia].
Qed.

Lemma execute_asserts `{Uninit} p data : body_start p = 0 -> Z.of_nat (String.length data) < 2 ^ 31 ->
  match http_parser_execute p data with
  | Ok (p', n, es) => (n <= String.length data)%nat /\ nread p' = (if (0 <? String.length data)%nat then Z.of_nat n else nread p)
  | Fail e => e <> assert_failed
  end.
Proof.
  assert (String.length data = length (String.list_ascii_of_string data)) as -> by (by induction data as [|c s IH]; cbn; [|rewrite IH]).
  intros Hb Hn. unfold http_parser_execute. set (buffer := String.list_ascii_of_string data) in *.
  destruct (Z.eqb_spec (Z.of_nat (length buffer)) 0) as [E0|E0]; [by replace (length buffer) with 0%nat by lia|].
  rewrite (proj2 (Nat.ltb_lt 0 _)) by lia. unfold s32 at 1. rewrite wraps_small, Z.eqb_refl by lia. cbn [negb].
  set (p0 := set_field_start 0 (set_field_len 0 (set_mark 0 (set_nread 0 p)))).
  assert (within (Z.of_nat (length buffer)) p0) as Hw by (unfold within, p0; cbn; lia).
  assert (forall i o p' es', exec (cs p0) buffer (p0, []) = Ok (o, i, (p', es')) -> (i <= length buffer)%nat /\ within (Z.of_nat (length buffer)) p') as Hx.
  { intros i o p' es'. unfold exec. destruct (cs p0) as [s|]; [|intros [= <- <- <- <-]; split; [lia|done]].
    intros E. by apply (run_within buffer s 0 buffer (p0, [])) in E. }
  destruct (exec _ _ _) as [[[o i] [p' es]]|x] eqn:Ex.
  - destruct (Hx _ _ _ _ eq_refl) as [Hi (H1 & H2 & H3 & H4)].
    assert (forall q, q = p' \/ q = set_cs o p' ->
      (nread (set_nread (Z.of_nat i) q) <=? Z.of_nat (length buffer)) && (body_start (set_nread (Z.of_nat i) q) <=? Z.of_nat (length buffer)) &&
      (mark (set_nread (Z.of_nat i) q) <? Z.of_nat (length buffer)) && (field_len (set_nread (Z.of_nat i) q) <=? Z.of_nat (length buffer)) &&
      (field_start (set_nread (Z.of_nat i) q) <? Z.of_nat (length buffer)) = true) as Hq.
    { intros q [->| ->]; cbn; rewrite !andb_true_iff, !Z.leb_le, !Z.ltb_lt; lia. }
    rewrite Hq by (destruct (http_parser_has_error p'); tauto). split; [lia|done].
  - intros ->. unfold exec in Ex. destruct (cs p0) as [s|]; [|done]. apply run_fails in Ex as (a & k & d & Ea). by apply http_act_fails in Ea as [].
Qed.

(** C26: The assertions of [http_parser_execute] hold, whatever the text and whatever the
    state of the machine, as long as the text is shorter than 2 GB and no body has been
    found before; and it never consumes more than it is given. *)
Theorem parser_asserts_hold `{Uninit} p data : body_start p = 0 -> Z.of_nat (String.length data) < 2 ^ 31 ->
  match http_parser_execute p data with
  | Ok (p', n, es) => (n <= String.length data)%nat /\ nread p' = (if (0 <? String.length data)%nat then Z.of_nat n else nread p)
  | Fail e => e <> assert_failed
  end.
Proof. apply execute_asserts. Qed.

Definition demo_uninit : Uninit := {| uri_relaxed := false; old_query_start := 0 |}.

Lemma parser_asserts_hold_witness :
  match @http_parser_execute demo_uninit (@http_parser_init demo_uninit) "GET /" with
  | Ok (p', n, es) => (n <= 5)%nat /\ nread p' = Z.of_nat n
  | Fail e => e <> assert_failed
  end.
Proof. apply (@parser_asserts_hold demo_uninit (@http_parser_init demo_uninit) "GET /"); [reflexivity|]. cbn. lia. Defined.

(** ** The states of a request *)

Module HttpStates.
Import HttpGrammar.
Section States.
Context `{Uninit}.

Definition pct : list cls := [chr "%"; xdigit; xdigit].
Definition pchar_units : list (list cls) := pct :: singles [unreserved_c; sub_delims_c; chr ":"; chr "@"].
Definition path_units : list (list cls) := [chr "/"] :: pchar_units.
Definition query_units : list (list cls) := [chr "?"] :: path_units.
(** The tokens of RFC 2616, without control characters; the first character of a value
    that is not empty; the others. *)
Definition name_c : cls := cls_minus token_c [(1, 31)%N].
Definition value_c : cls := [(33, 126); (128, 255)]%N.
Definition value_units : list (list cls) := singles [value_c; blank].

Definition method_script (m : HttpMethod) : list (cls * list http_action) :=
  match quiet_script (HttpMethodToString m) with
  | (c, _) :: w => (c, [do_mark]) :: w ++ [(chr " ", [do_request_method])]
  | [] => []
  end.
Definition version_script : list (cls * list http_action) :=
  (chr "H", [do_mark]) :: quiet_script "TTP/1." ++ [(one_of "01", []); (code 13, [do_http_version]); (code 10, [])].
Definition empty_script : list (cls * list http_action) := [(code 13, [start_value; write_value]); (code 10, [])].
Definition value_script : list (cls * list http_action) := [(code 13, [write_value]); (code 10, [])].

Definition g_start : list (state http_action) := [[main]].
Definition g_target := follow_play g_start (method_script GET).
Definition g_slash := follow g_target (chr "/").
Definition g_segment := closure 50 path_units (follow_units g_slash pchar_units) [].
Definition g_path := g_slash ++ g_segment.
Definition g_query0 := follow g_path (chr "?").
Definition g_query := closure 50 query_units (follow_units g_query0 query_units) [].
Definition g_fragment0 := follow g_path (chr "#") ++ follow g_query (chr "#").
Definition g_fragment := closure 50 query_units (follow_units g_fragment0 query_units) [].
Definition g_version := follow g_path (chr " ") ++ follow g_query (chr " ") ++ follow g_fragment (chr " ").
Definition g_line := follow_play g_version version_script.
Definition g_name := closure 10 (singles [name_c]) (follow g_line name_c) [].
Definition g_colon := follow g_name (chr ":").
Definition g_before := states_nub (g_colon ++ follow g_colon blank).
Definition g_value := closure 50 value_units (follow g_before value_c) [].
Definition g_end := follow g_line (code 13).
Definition g_done := follow g_end (code 10).
End States.

(** All methods but the one whose name has a hyphen in it. *)
Definition methods : list HttpMethod :=
  [DELETE; GET; HEAD; POST; PUT; CONNECT; OPTIONS; TRACE; COPY; LOCK; MKCOL; MOVE; PROPFIND; PROPPATCH; SEARCH; UNLOCK; BIND; REBIND;
   UNBIND; ACL; REPORT; MKACTIVITY; CHECKOUT; MERGE; NOTIFY; SUBSCRIBE; UNSUBSCRIBE; PATCH; PURGE; MKCALENDAR; LINK; UNLINK; SOURCE].
End HttpStates.
Import HttpStates.
#[local] Abbreviation blank := HttpGrammar.blank.

Lemma http_edges `{U : Uninit} :
  forallb (fun m => plays g_start (method_script m) g_target) methods &&
  edge g_target (chr "/") [do_mark] g_slash && enters g_slash [] pchar_units g_segment && loops g_segment path_units &&
  edge g_path (chr "?") [do_request_path] g_query0 && enters g_query0 [start_query] query_units g_query && loops g_query query_units &&
  edge g_path (chr "#") [do_request_path; do_request_uri] g_fragment0 && edge g_query (chr "#") [do_query_string; do_request_uri] g_fragment0 &&
  enters g_fragment0 [do_mark] query_units g_fragment && loops g_fragment query_units &&
  edge g_path (chr " ") [do_request_path; do_request_uri] g_version && edge g_query (chr " ") [do_query_string; do_request_uri] g_version &&
  edge g_fragment (chr " ") [do_fragment] g_version && plays g_version version_script g_line &&
  edge g_line name_c [start_field] g_name && loops g_name (singles [name_c]) && edge g_name (chr ":") [write_field] g_before &&
  edge g_before blank [start_value] g_before && edge g_before value_c [start_value] g_value && loops g_value value_units &&
  plays g_before empty_script g_line && plays g_value value_script g_line &&
  edge g_line (code 13) [start_field] g_end && edge g_end (code 10) [do_done] g_done && forallb accepting g_done = true.
Proof. destruct U as [[] q]; vm_compute; reflexivity. Qed.

(** One of the facts above. *)
Ltac http_fact :=
  let H := fresh in pose proof http_edges as H;
  repeat match goal with H : _ && _ = true |- _ => apply andb_prop in H as [? ?] end;
  match goal with H : ?P |- ?Q => constr_eq P Q; exact H end.

(** Appended lists, associated to the right. *)
Ltac flat := repeat progress (rewrite <- ?app_assoc; cbn [app]).

(** ** The head, piece by piece

    [pre] is what was read before. *)

Section Reading.
Context `{U : Uninit} (buffer : list ascii) (Hlen : Z.of_nat (length buffer) < 2 ^ 31).
#[local] Abbreviation go := (run (http_act buffer)).
#[local] Abbreviation text := String.string_of_list_ascii.
#[local] Abbreviation off pre := (Z.of_nat (length pre)).

(** Neither XML nor JSON, and no error. *)
Definition calm (p : http_parser) : Prop := xml_sent p = false /\ json_sent p = false /\ is_Some (cs p).

Lemma LEN_mid pre mid post : buffer = pre ++ mid ++ post -> LEN (off pre) (length pre + length mid) = off mid.
Proof using Hlen.
  intros Hb. assert (length buffer = length pre + (length mid + length post))%nat as Hl by by rewrite Hb, !length_app.
  rewrite LEN_small; lia.
Qed.

Lemma text_mid pre mid post : buffer = pre ++ mid ++ post -> text_at buffer (off pre) (off mid) = Ok (text mid).
Proof using Hlen.
  intros Hb. unfold text_at. rewrite (proj2 (Z.leb_gt _ _)), (proj2 (Z.leb_le _ _)).
  - by rewrite !Nat2Z.id, Hb, drop_app_length, take_app_length.
  - pose proof Hlen as Hl. rewrite Hb, !length_app in Hl |- *. lia.
  - pose proof Hlen as Hl. rewrite Hb, !length_app in Hl. lia.
Qed.

(** *** Header lines *)

(** The blanks before a value move the mark. *)
Lemma go_blanks s i pad z p es : s ∈ g_before -> Forall (fun x => mem blank x = true) pad ->
  exists s' m, s' ∈ g_before /\ go s i (pad ++ z) (p, es) = go s' (i + length pad) z (set_mark m p, es).
Proof using Type.
  intros Hs Hp. revert s i p Hs. induction Hp as [|x pad Hx Hp IH]; intros s i p Hs.
  - exists s, (mark p). split; [exact Hs|]. cbn [app length]. rewrite Nat.add_0_r. by destruct p.
  - destruct (run_edge (http_act buffer) g_before blank [start_value] g_before s x) as (s1 & Hs1 & Hr); [http_fact|exact Hs|exact Hx|].
    destruct (IH s1 (S i) (set_mark (Z.of_nat i) p) Hs1) as (s2 & m & Hs2 & Hr2). exists s2, m. split; [exact Hs2|].
    cbn [app length]. rewrite Hr. cbn [do_actions http_act on_parser fst snd]. rewrite Hr2. by rewrite Nat.add_succ_r.
Qed.

(** A value: empty, or with a first character that is no blank. *)
Definition value_text (v : list ascii) : Prop :=
  match v with [] => True | x :: w => mem value_c x = true /\ made value_units w end.

Definition newline : list ascii := [ascii_of_N 13; ascii_of_N 10].

(** The value, from the blanks on; [k] is the name. *)
Lemma go_value s i0 k kpost pad v pre post p es : s ∈ g_before -> buffer = pre ++ v ++ newline ++ post -> length pre = (i0 + length pad)%nat ->
  Forall (fun x => mem blank x = true) pad -> value_text v -> calm p -> field_len p = off k -> k <> [] ->
  text_at buffer (field_start p) (off k) = Ok (text k) -> kpost = newline ++ post ->
  exists s' p', s' ∈ g_line /\ calm p' /\
    go s i0 (pad ++ v ++ kpost) (p, es) = go s' (length (pre ++ v ++ newline)) post (p', es ++ [http_field (text k) (text v)]).
Proof using Hlen.
  intros Hs Hb Hi Hpad Hv Hc Hl Hk Hf ->. destruct (go_blanks s i0 pad (v ++ newline ++ post) p es Hs Hpad) as (s1 & m & Hs1 & ->).
  rewrite <- Hi. assert (field_len p =? 0 = false) as Hl0 by (rewrite Hl; apply Z.eqb_neq; by destruct k).
  assert (forall q z, calm q -> field_len q = field_len p -> field_start q = field_start p -> mark q = off pre -> z = (length pre + length v)%nat ->
    do_script (http_act buffer) [[write_value]; []] z (q, es) = Ok (q, es ++ [http_field (text k) (text v)])) as Hw.
  { intros q z Hq Eq1 Eq2 Em ->. cbn [do_script do_actions http_act fst snd]. rewrite Eq1, Hl0, Eq2, Hl, Hf. unfold emit_text.
    rewrite Em, (LEN_mid pre v (newline ++ post)), (text_mid pre v (newline ++ post)) by done. done. }
  destruct v as [|x w].
  - destruct (run_plays (http_act buffer) g_before empty_script g_line s1 newline) as (s2 & Hs2 & Hr); [http_fact|exact Hs1|by repeat constructor|].
    exists s2, (set_mark (off pre) p). split; [exact Hs2|]. split; [exact Hc|]. cbn [app]. rewrite length_app. apply Hr.
    etransitivity; [|apply (Hw (set_mark (off pre) p) (length pre)); try done; cbn; lia]. done.
  - destruct Hv as [Hx Hw']. cbn [app].
    destruct (run_edge (http_act buffer) g_before value_c [start_value] g_value s1 x) as (s2 & Hs2 & ->); [http_fact|exact Hs1|exact Hx|].
    cbn [do_actions http_act on_parser fst snd].
    destruct (run_loops (http_act buffer) g_value value_units s2 w) as (s3 & Hs3 & ->); [http_fact|exact Hs2|exact Hw'|].
    destruct (run_plays (http_act buffer) g_value value_script g_line s3 newline) as (s4 & Hs4 & Hr); [http_fact|exact Hs3|by repeat constructor|].
    exists s4, (set_mark (off pre) p). split; [exact Hs4|]. split; [exact Hc|].
    rewrite (Hr _ post _ (set_mark (off pre) p, es ++ [http_field (text k) (text (x :: w))])).
    + f_equal. cbn. rewrite !length_app. cbn. rewrite length_app. cbn. lia.
    + apply (Hw (set_mark (off pre) p)); try done. cbn. lia.
Qed.

(** A header line: the name, the colon, blanks and the value. *)
Record field := mkField { f_name : list ascii; f_pad : list ascii; f_value : list ascii }.
Definition field_line (f : field) : list ascii := f_name f ++ ":"%char :: f_pad f ++ f_value f ++ newline.
Definition field_ok (f : field) : Prop :=
  f_name f <> [] /\ Forall (fun x => mem name_c x = true) (f_name f) /\ Forall (fun x => mem blank x = true) (f_pad f) /\ value_text (f_value f).
Definition field_callback (f : field) : callback := http_field (text (f_name f)) (text (f_value f)).

Lemma go_line s pre f post p es : s ∈ g_line -> buffer = pre ++ field_line f ++ post -> field_ok f -> calm p ->
  exists s' p', s' ∈ g_line /\ calm p' /\
    go s (length pre) (field_line f ++ post) (p, es) = go s' (length (pre ++ field_line f)) post (p', es ++ [field_callback f]).
Proof using Hlen.
  destruct f as [k pad v]. unfold field_line, field_ok, field_callback. cbn [f_name f_pad f_value]. intros Hs Hb (Hk & Hname & Hpad & Hv) Hc.
  destruct k as [|x k]; [done|]. inversion Hname as [|? ? Hx Hk']; subst x0 l.
  assert (buffer = pre ++ (x :: k) ++ (":"%char :: pad ++ v ++ newline ++ post)) as Hb'.
  { rewrite Hb, <- !app_assoc. cbn. by rewrite <- !app_assoc. }
  cbn [app]. destruct (run_edge (http_act buffer) g_line name_c [start_field] g_name s x) as (s1 & Hs1 & ->); [http_fact|exact Hs|exact Hx|].
  cbn [do_actions http_act on_parser fst snd]. rewrite <- app_assoc.
  destruct (run_loops (http_act buffer) g_name (singles [name_c]) s1 k) as (s2 & Hs2 & ->); [http_fact|exact Hs1| |].
  { apply made_chars. eapply Forall_impl; [exact Hk'|]. intros y Hy. cbn [existsb]. by rewrite Hy. }
  cbn [app]. destruct (run_edge (http_act buffer) g_name (chr ":") [write_field] g_before s2 ":"%char) as (s3 & Hs3 & ->); [http_fact|exact Hs2|reflexivity|].
  cbn [do_actions http_act on_parser fst snd]. rewrite <- !app_assoc.
  set (q := set_field_len _ _).
  destruct (go_value s3 (S (S (length pre) + length k)) (x :: k) (newline ++ post) pad v (pre ++ (x :: k) ++ ":"%char :: pad) post q es)
    as (s' & p' & Hs' & Hc' & Hr).
  - exact Hs3.
  - rewrite Hb', <- !app_assoc. cbn. by rewrite <- ?app_assoc.
  - rewrite ?length_app. cbn. rewrite ?length_app. cbn. rewrite ?length_app. lia.
  - exact Hpad.
  - exact Hv.
  - exact Hc.
  - unfold q. cbn [field_len set_field_len field_start set_field_start]. rewrite <- (LEN_mid pre (x :: k) _ Hb'). f_equal. cbn. lia.
  - done.
  - unfold q. cbn [field_start set_field_len set_field_start]. by apply (text_mid pre (x :: k) _ Hb').
  - done.
  - exists s', p'. split; [exact Hs'|]. split; [exact Hc'|]. rewrite Hr. f_equal.
    f_equal. cbn. rewrite <- ?app_assoc. cbn. by rewrite <- ?app_assoc.
Qed.

Lemma go_lines s pre fs post p es : s ∈ g_line -> buffer = pre ++ concat (map field_line fs) ++ post -> Forall field_ok fs -> calm p ->
  exists s' p', s' ∈ g_line /\ calm p' /\
    go s (length pre) (concat (map field_line fs) ++ post) (p, es) =
    go s' (length (pre ++ concat (map field_line fs))) post (p', es ++ map field_callback fs).
Proof using Hlen.
  intros Hs Hb Hfs. revert s pre p es Hs Hb. induction Hfs as [|f fs Hf Hfs IH]; intros s pre p es Hs Hb Hc.
  - exists s, p. split; [exact Hs|]. split; [exact Hc|]. cbn [map concat app]. by rewrite !app_nil_r.
  - cbn [map concat] in *. rewrite <- app_assoc in Hb |- *. destruct (go_line s pre f _ p es Hs Hb Hf Hc) as (s1 & p1 & Hs1 & Hc1 & ->).
    destruct (IH s1 (pre ++ field_line f) p1 (es ++ [field_callback f]) Hs1) as (s2 & p2 & Hs2 & Hc2 & ->); [by rewrite <- app_assoc|done|].
    exists s2, p2. split; [exact Hs2|]. split; [exact Hc2|]. by rewrite <- !app_assoc.
Qed.

(** The empty line: the machine stops behind it. *)
Lemma go_end s pre post p es : s ∈ g_line -> calm p ->
  exists s' p', accepting s' = true /\ is_Some (cs p') /\
    go s (length pre) (newline ++ post) (p, es) = Ok (Some s', length (pre ++ newline), (p', es ++ [header_done])).
Proof using Type.
  intros Hs (Hx & Hj & Hcs). cbn [newline app].
  destruct (run_edge (http_act buffer) g_line (code 13) [start_field] g_end s (ascii_of_N 13)) as (s1 & Hs1 & ->); [http_fact|exact Hs|reflexivity|].
  cbn [do_actions http_act on_parser fst snd].
  destruct (run_edge (http_act buffer) g_end (code 10) [do_done] g_done s1 (ascii_of_N 10)) as (s2 & Hs2 & ->); [http_fact|exact Hs1|reflexivity|].
  cbn [do_actions http_act fst snd]. cbn [xml_sent json_sent set_field_start]. rewrite Hx, Hj. cbn [orb].
  eexists s2, _. split; [|split; [|rewrite length_app; cbn [length newline]; do 3 f_equal; lia]].
  - assert (forallb accepting g_done = true) as Ha by http_fact. rewrite forallb_forall in Ha. exact (Ha _ (proj1 (list_elem_of_In _ _) Hs2)).
  - exact Hcs.
Qed.

(** *** The request line *)

Definition version_chars (d : ascii) : list ascii := String.list_ascii_of_string "HTTP/1." ++ [d].

Lemma PTR_TO_mid pre rest : buffer = pre ++ rest -> PTR_TO buffer (off pre) = text rest.
Proof using Type. intros Hb. unfold PTR_TO. by rewrite Nat2Z.id, Hb, drop_app_length. Qed.

Lemma go_version s pre d post p es : s ∈ g_version -> buffer = pre ++ version_chars d ++ newline ++ post -> mem (one_of "01") d = true -> calm p ->
  exists s' p', s' ∈ g_line /\ calm p' /\
    go s (length pre) (version_chars d ++ newline ++ post) (p, es) =
    go s' (length (pre ++ version_chars d ++ newline)) post (p', es ++ [http_version (text (version_chars d ++ newline ++ post)) 8]).
Proof using Hlen.
  intros Hs Hb Hd Hc. rewrite app_assoc.
  destruct (run_plays (http_act buffer) g_version version_script g_line s (version_chars d ++ newline)) as (s' & Hs' & Hr); [http_fact|exact Hs|by repeat constructor|].
  exists s', (set_mark (off pre) p). split; [exact Hs'|]. split; [exact Hc|]. rewrite length_app. apply Hr.
  cbn [version_script quiet_script map snd app String.list_ascii_of_string do_script do_actions http_act on_parser fst snd mark set_mark].
  rewrite (PTR_TO_mid pre _ Hb). replace (S _) with (length pre + length (version_chars d))%nat by (cbn; lia).
  rewrite (LEN_mid pre (version_chars d) _ Hb), Nat2Z.id. unfold emit. cbn [fst snd]. by rewrite <- app_assoc.
Qed.

Definition tag (x : ascii) (v : list ascii) : list ascii := match v with [] => [] | _ => x :: v end.
Definition fragment_callback (f : list ascii) : list callback := match f with [] => [] | _ => [fragment (text f)] end.

(** The fragment and the blank after it, behind a part that is ended by [l]. *)
Lemma go_fragment g l s pre f post p es cbs : edge g (chr " ") l g_version = true -> edge g (chr "#") l g_fragment0 = true -> s ∈ g ->
  buffer = pre ++ tag "#" f ++ " "%char :: post -> made query_units f -> calm p ->
  do_actions (http_act buffer) l (length pre) (p, es) = Ok ((p, es ++ cbs), false) ->
  exists s' p', s' ∈ g_version /\ calm p' /\
    go s (length pre) (tag "#" f ++ " "%char :: post) (p, es) =
    go s' (length (pre ++ tag "#" f ++ [" "%char])) post (p', es ++ cbs ++ fragment_callback f).
Proof using Hlen.
  intros H1 H2 Hs Hb Hf Hc Hl. destruct f as [|x f].
  - cbn [tag app] in *. destruct (run_edge (http_act buffer) _ _ _ _ s " "%char H1 Hs eq_refl) as (s1 & Hs1 & ->). rewrite Hl.
    exists s1, p. split; [exact Hs1|]. split; [exact Hc|]. cbn [fragment_callback]. rewrite app_nil_r, length_app. cbn. by rewrite Nat.add_1_r.
  - change (tag "#" (x :: f)) with ("#"%char :: x :: f) in *. change (("#"%char :: x :: f) ++ " "%char :: post) with ("#"%char :: (x :: f) ++ " "%char :: post) in *.
    destruct (run_edge (http_act buffer) _ _ _ _ s "#"%char H2 Hs eq_refl) as (s1 & Hs1 & ->). rewrite Hl.
    destruct (run_enters (http_act buffer) g_fragment0 [do_mark] query_units g_fragment s1 (x :: f)) as (s2 & Hs2 & Hr); [http_fact..|exact Hs1|exact Hf|done|].
    rewrite (Hr _ _ _ (set_mark (Z.of_nat (S (length pre))) p, es ++ cbs)) by done.
    destruct (run_edge (http_act buffer) g_fragment (chr " ") [do_fragment] g_version s2 " "%char) as (s3 & Hs3 & ->); [http_fact|exact Hs2|reflexivity|].
    assert (buffer = (pre ++ ["#"%char]) ++ (x :: f) ++ " "%char :: post) as Hb' by by rewrite <- app_assoc.
    replace (S (length pre)) with (length (pre ++ ["#"%char])) by (rewrite length_app; cbn; lia).
    cbn [do_actions http_act emit_text fst snd mark set_mark]. unfold emit_text.
    rewrite (LEN_mid _ _ _ Hb'), (text_mid _ _ _ Hb').
    exists s3, (set_mark (off (pre ++ ["#"%char])) p). split; [exact Hs3|]. split; [exact Hc|]. unfold emit. cbn [fst snd fragment_callback].
    rewrite <- app_assoc. f_equal. rewrite ?length_app. cbn. rewrite ?length_app. cbn. lia.
Qed.

Definition query_callback (q : list ascii) : list callback := match q with [] => [] | _ => [query_string (text q)] end.

(** What follows the path [pa], which begins behind [pre]. *)
Lemma go_query s pre pa q f post p es : s ∈ g_path -> buffer = pre ++ pa ++ tag "?" q ++ tag "#" f ++ " "%char :: post ->
  made query_units q -> made query_units f -> calm p -> mark p = off pre ->
  exists s' p', s' ∈ g_version /\ calm p' /\
    go s (length (pre ++ pa)) (tag "?" q ++ tag "#" f ++ " "%char :: post) (p, es) =
    go s' (length (pre ++ pa ++ tag "?" q ++ tag "#" f ++ [" "%char])) post
      (p', es ++ request_path (text pa) :: query_callback q ++ request_uri (PTR_TO buffer (off pre)) :: fragment_callback f).
Proof using Hlen.
  intros Hs Hb Hq Hf Hc Hm. assert (forall r, do_actions (http_act buffer) (do_request_path :: r) (length (pre ++ pa)) (p, es) =
    do_actions (http_act buffer) r (length (pre ++ pa)) (p, es ++ [request_path (text pa)])) as Hpath.
  { intros r. cbn [do_actions http_act fst snd]. unfold emit_text. rewrite Hm, length_app, (LEN_mid _ _ _ Hb), (text_mid _ _ _ Hb). done. }
  destruct q as [|x q].
  - cbn [tag app] in Hb |- *.
    destruct (go_fragment g_path [do_request_path; do_request_uri] s (pre ++ pa) f post p es [request_path (text pa); request_uri (PTR_TO buffer (off pre))])
      as (s' & p' & Hs' & Hc' & ->); [http_fact..|exact Hs|by rewrite <- app_assoc|exact Hf|exact Hc| |].
    + rewrite Hpath. cbn [do_actions http_act fst snd]. unfold emit. cbn [fst snd]. by rewrite Hm, <- app_assoc.
    + exists s', p'. split; [exact Hs'|]. split; [exact Hc'|]. by rewrite <- !app_assoc.
  - change (tag "?" (x :: q)) with ("?"%char :: x :: q) in *. cbn [app] in Hb |- *.
    destruct (run_edge (http_act buffer) g_path (chr "?") [do_request_path] g_query0 s "?"%char) as (s1 & Hs1 & ->); [http_fact|exact Hs|reflexivity|].
    rewrite Hpath. cbn [do_actions].
    destruct (run_enters (http_act buffer) g_query0 [start_query] query_units g_query s1 (x :: q)) as (s2 & Hs2 & Hr); [http_fact..|exact Hs1|exact Hq|done|].
    set (pre' := pre ++ pa ++ ["?"%char]). assert (buffer = pre' ++ (x :: q) ++ tag "#" f ++ " "%char :: post) as Hb' by by unfold pre'; rewrite <- !app_assoc.
    replace (S (length (pre ++ pa))) with (length pre') by (unfold pre'; rewrite !length_app; cbn; lia).
    change (x :: q ++ tag "#" f ++ " "%char :: post) with ((x :: q) ++ tag "#" f ++ " "%char :: post).
    rewrite (Hr _ _ _ (set_query_start (off pre') p, es ++ [request_path (text pa)])) by done. rewrite <- length_app.
    destruct (go_fragment g_query [do_query_string; do_request_uri] s2 (pre' ++ x :: q) f post (set_query_start (off pre') p) (es ++ [request_path (text pa)])
      [query_string (text (x :: q)); request_uri (PTR_TO buffer (off pre))]) as (s' & p' & Hs' & Hc' & ->);
      [http_fact..|exact Hs2|by rewrite <- app_assoc|exact Hf|exact Hc| |].
    + cbn [do_actions http_act fst snd query_start set_query_start]. unfold emit_text. rewrite length_app, (LEN_mid _ _ _ Hb'), (text_mid _ _ _ Hb').
      unfold emit. cbn [fst snd mark set_query_start]. by rewrite Hm, <- app_assoc.
    + exists s', p'. split; [exact Hs'|]. split; [exact Hc'|]. unfold pre'. rewrite <- !app_assoc. done.
Qed.

(** The path: a slash, and segments of which the first is not empty. *)
Definition path_text (w : list ascii) : Prop := w = [] \/ begins pchar_units path_units w.

Lemma go_target s pre w q f post p es : s ∈ g_target -> buffer = pre ++ ("/"%char :: w) ++ tag "?" q ++ tag "#" f ++ " "%char :: post ->
  path_text w -> made query_units q -> made query_units f -> calm p ->
  exists s' p', s' ∈ g_version /\ calm p' /\
    go s (length pre) (("/"%char :: w) ++ tag "?" q ++ tag "#" f ++ " "%char :: post) (p, es) =
    go s' (length (pre ++ ("/"%char :: w) ++ tag "?" q ++ tag "#" f ++ [" "%char])) post
      (p', es ++ request_path (text ("/"%char :: w)) :: query_callback q ++ request_uri (PTR_TO buffer (off pre)) :: fragment_callback f).
Proof using Hlen.
  intros Hs Hb Hw Hq Hf Hc. cbn [app].
  destruct (run_edge (http_act buffer) g_target (chr "/") [do_mark] g_slash s "/"%char) as (s1 & Hs1 & ->); [http_fact|exact Hs|reflexivity|].
  cbn [do_actions http_act on_parser fst snd].
  assert (exists s2, s2 ∈ g_path /\ forall z e, go s1 (S (length pre)) (w ++ z) e = go s2 (length (pre ++ "/"%char :: w)) z e) as (s2 & Hs2 & Hr).
  { destruct Hw as [->|Hw].
    - exists s1. split; [apply elem_of_app; by left|]. intros z e. cbn [app]. f_equal. rewrite length_app. cbn. lia.
    - destruct (run_begins (http_act buffer) g_slash [] pchar_units path_units g_segment s1 w) as (s2 & Hs2 & Hr); [http_fact..|exact Hs1|exact Hw|].
      exists s2. split; [apply elem_of_app; by right|]. intros z e. rewrite (Hr _ _ _ e) by done. f_equal. rewrite length_app. cbn. lia. }
  rewrite Hr. by apply go_query.
Qed.

(** *** The whole head *)

Definition method_chars (m : HttpMethod) : list ascii := String.list_ascii_of_string (HttpMethodToString m).

Lemma go_method m post p es : m ∈ methods -> calm p -> exists s' p', s' ∈ g_target /\ calm p' /\
  go [HttpGrammar.main] 0 (method_chars m ++ " "%char :: post) (p, es) =
  go s' (length (method_chars m ++ [" "%char])) post (p', es ++ [request_method (text buffer)]).
Proof using Type.
  intros Hm Hc. assert (forallb (fun m => plays g_start (method_script m) g_target) methods = true) as Hall by http_fact.
  rewrite forallb_forall in Hall. specialize (Hall m (proj1 (list_elem_of_In _ _) Hm)).
  assert (exists x t, HttpMethodToString m = String x t) as (x & t & Et) by (destruct m; by eexists _, _).
  unfold method_script, quiet_script, method_chars in *. rewrite Et in *. cbn [String.list_ascii_of_string map] in *. fold (quiet_script (A := http_action) t) in Hall.
  destruct (run_plays (http_act buffer) g_start _ g_target [HttpGrammar.main] ((x :: String.list_ascii_of_string t) ++ [" "%char]) Hall) as (s' & Hs' & Hr).
  - unfold g_start. by left.
  - cbn [map fst app]. constructor; [unfold mem, chr; cbn; by rewrite !N.leb_refl|]. rewrite map_app. apply spelt_app; [apply quiet_spelt|by repeat constructor].
  - exists s', (set_mark 0 p). split; [exact Hs'|]. split; [exact Hc|].
    change ((x :: String.list_ascii_of_string t) ++ " "%char :: post) with ((x :: String.list_ascii_of_string t) ++ [" "%char] ++ post). rewrite app_assoc.
    apply Hr. cbn [map snd do_script do_actions http_act on_parser fst]. rewrite map_app, do_script_app, quiet_do.
    cbn [map snd do_script do_actions http_act fst mark set_mark]. unfold emit. cbn [fst snd]. done.
Qed.

(** The parts of a head: method, path, query, fragment, the digit of the version, and the
    header lines. *)
Record message_head := mkHead { h_method : HttpMethod; h_path : list ascii; h_query : list ascii; h_fragment : list ascii; h_digit : ascii; h_fields : list field }.

Definition head_ok (h : message_head) : Prop :=
  h_method h ∈ methods /\ path_text (h_path h) /\ made query_units (h_query h) /\ made query_units (h_fragment h) /\
  mem (one_of "01") (h_digit h) = true /\ Forall field_ok (h_fields h).

Definition head_chars (h : message_head) : list ascii :=
  method_chars (h_method h) ++ " "%char :: ("/"%char :: h_path h) ++ tag "?" (h_query h) ++ tag "#" (h_fragment h) ++ " "%char ::
  version_chars (h_digit h) ++ newline ++ concat (map field_line (h_fields h)) ++ newline.

(** The callbacks of a head in [buffer]; [u] and [v] are what the machine hands over of the
    text behind the target and the version. *)
Definition head_callbacks (h : message_head) (u v : string) : list callback :=
  request_method (text buffer) :: request_path (text ("/"%char :: h_path h)) :: query_callback (h_query h) ++
  request_uri u :: fragment_callback (h_fragment h) ++ http_version (text (version_chars (h_digit h)) +:+ v) 8 ::
  map field_callback (h_fields h) ++ [header_done].

Lemma text_app l l' : text (l ++ l') = text l +:+ text l'.
Proof using Type. induction l as [|x l IH]; [done|]. exact (f_equal (String x) IH). Qed.

Lemma go_head h rest p : head_ok h -> buffer = head_chars h ++ rest -> calm p ->
  exists s' p' u v, accepting s' = true /\ is_Some (cs p') /\
    go [HttpGrammar.main] 0 buffer (p, []) = Ok (Some s', length (head_chars h), (p', head_callbacks h u v)).
Proof using Hlen.
  intros (Hm & Hp & Hq & Hf & Hd & Hfs) Hb Hc. unfold head_chars in Hb. repeat progress (rewrite <- ?app_assoc in Hb; cbn [app] in Hb).
  set (tail2 := concat (map field_line (h_fields h)) ++ newline ++ rest) in *.
  set (tail1 := version_chars (h_digit h) ++ newline ++ tail2) in *.
  destruct (go_method (h_method h) (("/"%char :: h_path h) ++ tag "?" (h_query h) ++ tag "#" (h_fragment h) ++ " "%char :: tail1) p [] Hm Hc) as (s1 & p1 & Hs1 & Hc1 & E1).
  set (pre1 := method_chars (h_method h) ++ [" "%char]) in *.
  destruct (go_target s1 pre1 (h_path h) (h_query h) (h_fragment h) tail1 p1 ([] ++ [request_method (text buffer)])) as (s2 & p2 & Hs2 & Hc2 & E2);
    [exact Hs1|unfold pre1; rewrite Hb; by flat|exact Hp|exact Hq|exact Hf|exact Hc1|].
  set (pre2 := pre1 ++ ("/"%char :: h_path h) ++ tag "?" (h_query h) ++ tag "#" (h_fragment h) ++ [" "%char]) in *.
  match type of E2 with _ = go _ _ _ (_, ?l) => destruct (go_version s2 pre2 (h_digit h) tail2 p2 l) as (s3 & p3 & Hs3 & Hc3 & E3) end;
    [exact Hs2|unfold pre2, pre1; rewrite Hb; by flat|exact Hd|exact Hc2|].
  set (pre3 := pre2 ++ version_chars (h_digit h) ++ newline) in *.
  match type of E3 with _ = go _ _ _ (_, ?l) => destruct (go_lines s3 pre3 (h_fields h) (newline ++ rest) p3 l) as (s4 & p4 & Hs4 & Hc4 & E4) end;
    [exact Hs3|unfold pre3, pre2, pre1; rewrite Hb; by flat|exact Hfs|exact Hc3|].
  set (pre4 := pre3 ++ concat (map field_line (h_fields h))) in *.
  match type of E4 with _ = go _ _ _ (_, ?l) => destruct (go_end s4 pre4 rest p4 l Hs4 Hc4) as (s5 & p5 & Ha & Hp5 & E5) end.
  exists s5, p5, (PTR_TO buffer (off pre1)), (text (newline ++ tail2)). split; [exact Ha|]. split; [exact Hp5|].
  match type of E1 with ?l = _ => transitivity l; [f_equal; exact Hb|] end.
  do 4 (etransitivity; [first [exact E1 | exact E2 | exact E3 | exact E4]|]). rewrite E5. f_equal. f_equal; [f_equal|].
  - unfold pre4, pre3, pre2, pre1, head_chars. rewrite !length_app. cbn. rewrite !length_app. cbn. rewrite !length_app. cbn. lia.
  - f_equal. unfold head_callbacks. rewrite <- text_app. by flat.
Qed.
End Reading.
