(* ===== verification/Stream.v ===== *)
(** * Streams: [gudov/stream.cpp] over [gudov/socket_stream.cpp]

    Reading and writing an exact number of bytes over a connection that delivers and
    accepts them in pieces.  The connection is a parameter of every call: the bytes
    the peer has sent, and for each [Recv] or [Send] how many bytes the system is
    ready to move, or the negative number it returns. *)

From S2P Require Import Prelude.
From stdpp Require Import base numbers list.
From Stdlib Require Import ZArith Lia Strings.Byte.
Open Scope Z_scope.
Open Scope prog_scope.

(** ** The connection *)

Record Conn := mkConn {
  incoming : list byte;
  ready : list Z;
  outgoing : list byte;
  closed : bool }.

(** [sock_->Recv(buffer, n)]: at most [n] bytes, 0 at the end of the stream, -1 once
    the socket is closed. *)
Definition recv_sock (n : Z) : prog Conn (Z * list byte) :=
  fun c => if closed c then (Ok (-1, []), c) else
           match ready c with
           | [] => (Fail out_of_fuel, c)
           | k :: ks =>
               if k <? 0 then (Ok (k, []), mkConn (incoming c) ks (outgoing c) (closed c))
               else let m := Z.to_nat (Z.min k n) in
                    let bs := take m (incoming c) in
                    (Ok (Z.of_nat (length bs), bs), mkConn (drop m (incoming c)) ks (outgoing c) (closed c))
           end.

(** [if (!IsConnected()) return -1; return sock_->Send(buffer, n);] of the bytes [bs]. *)
Definition send_sock (bs : list byte) : prog Conn Z :=
  fun c => if closed c then (Ok (-1), c) else
           match ready c with
           | [] => (Fail out_of_fuel, c)
           | k :: ks =>
               if k <? 0 then (Ok k, mkConn (incoming c) ks (outgoing c) (closed c))
               else let m := Z.to_nat (Z.min k (Z.of_nat (length bs))) in
                    (Ok (Z.of_nat m), mkConn (incoming c) ks (outgoing c ++ take m bs) (closed c))
           end.

Definition Close : prog Conn unit := modify (fun c => mkConn (incoming c) (ready c) (outgoing c) true).

(** ** Exact sizes *)

(** The destination is the area [dest]; the pointer is [base] bytes into it. *)
Definition store_at (dest : list byte) (a : Z) (bs : list byte) : result (list byte) :=
  match bs with
  | [] => Ok dest
  | _ => if a + Z.of_nat (length bs) <=? Z.of_nat (length dest) then Ok (splice (Z.to_nat a) bs dest) else Fail undefined
  end.

(** The loop of [ReadFixSize(buffer, length)]; [len] is a [size_t]. *)
Fixpoint read_fix (fuel : nat) (max_len base offset left length : Z) (dest : list byte) : prog Conn (Z * list byte) :=
  match fuel with
  | O => fail out_of_fuel
  | S fuel =>
      if left =? 0 then ret (s32 length, dest) else
      let* r := recv_sock (Z.min left max_len) in
      let len := u64 r.1 in
      let* dest := lift (store_at dest (u64 (base + offset)) r.2) in
      if len <=? 0 then ret (s32 len, dest)
      else read_fix fuel max_len base (u64 (offset + len)) (u64 (left - len)) length dest
  end.

(** One answer of the connection is used up in every round but the last. *)
Definition ReadFixSize (max_len base length : Z) (dest : list byte) : prog Conn (Z * list byte) :=
  let* c := gets id in read_fix (S (List.length (ready c))) max_len base 0 length length dest.

(** The bytes [n] from offset [a] of the area that is sent. *)
Definition load_at (src : list byte) (a n : Z) : result (list byte) :=
  if a + n <=? Z.of_nat (length src) then Ok (slice (Z.to_nat a) (Z.to_nat n) src) else Fail undefined.

Fixpoint write_fix (fuel : nat) (max_len offset left length : Z) (src : list byte) : prog Conn Z :=
  match fuel with
  | O => fail out_of_fuel
  | S fuel =>
      if left =? 0 then ret (s32 length) else
      let* bs := lift (load_at src offset (Z.min left max_len)) in
      let* rt := send_sock bs in
      let len := u64 rt in
      if len <=? 0 then ret (s32 len)
      else write_fix fuel max_len (u64 (offset + len)) (u64 (left - len)) length src
  end.

Definition WriteFixSize (max_len length : Z) (src : list byte) : prog Conn Z :=
  let* c := gets id in write_fix (S (List.length (ready c))) max_len 0 length length src.

(** ** What they guarantee *)

(** Every wait ends with something to move. *)
Definition lively (ks : list Z) : Prop := Forall (fun k => 0 < k) ks.

Lemma store_at_ok dest a bs :
  0 <= a -> a + Z.of_nat (length bs) <= Z.of_nat (length dest) -> store_at dest a bs = Ok (splice (Z.to_nat a) bs dest).
Proof. intros Ha Hb. unfold store_at. destruct bs; [by rewrite splice_nil|]. by rewrite (proj2 (Z.leb_le _ _)). Qed.

Section Reading.
Context (max_len : Z) (Hmax : 0 < max_len).

(** One round that moves [m] bytes. *)
Lemma recv_sock_ok c k ks n :
  closed c = false -> ready c = k :: ks -> 0 < k -> 0 < n ->
  exists m, recv_sock n c = (Ok (Z.of_nat m, take m (incoming c)), mkConn (drop m (incoming c)) ks (outgoing c) (closed c)) /\
    (m <= length (incoming c))%nat /\ Z.of_nat m <= n /\ (incoming c <> [] -> (0 < m)%nat).
Proof.
  intros Hc Hr Hk Hn. unfold recv_sock. rewrite Hc, Hr, (proj2 (Z.ltb_ge k 0)) by lia.
  set (m := Z.to_nat (Z.min k n)). exists (Nat.min m (length (incoming c))).
  split_and!; try lia.
  - rewrite length_take, <- take_take, (take_ge _ (length (incoming c))) by lia. do 2 f_equal.
    destruct (Nat.le_gt_cases m (length (incoming c))); [by rewrite Nat.min_l|].
    rewrite Nat.min_r, !drop_ge by lia. done.
  - intros Hne. destruct (incoming c); [done|]. cbn. lia.
Qed.

Lemma read_fix_ok fuel base offset left length dest c :
  closed c = false -> lively (ready c) -> Z.of_nat fuel > left -> left <= Z.of_nat (List.length (ready c)) ->
  0 <= base -> 0 <= offset -> 0 <= left -> offset + left = length -> length < 2 ^ 31 ->
  base + length <= Z.of_nat (List.length dest) -> base + length < 2 ^ 64 ->
  left <= Z.of_nat (List.length (incoming c)) ->
  exists ks, read_fix fuel max_len base offset left length dest c =
    (Ok (length, splice (Z.to_nat (base + offset)) (take (Z.to_nat left) (incoming c)) dest),
     mkConn (drop (Z.to_nat left) (incoming c)) ks (outgoing c) (closed c)) /\ lively ks.
Proof.
  revert offset left dest c. induction fuel as [|fuel IH]; intros offset left dest c Hc Hl Hf Hk Hb Ho Hleft Hlen H31 Hd H64 Hin; [lia|].
  cbn [read_fix]. destruct (Z.eqb_spec left 0) as [->|Hne].
  - exists (ready c). split; [|done]. unfold ret, s32. rewrite wraps_small by lia.
    change (Z.to_nat 0) with 0%nat. rewrite take_0, splice_nil, drop_0. by destruct c.
  - destruct (ready c) as [|k ks] eqn:Er; [cbn in Hk; lia|]. apply Forall_cons in Hl as [Hk0 Hl].
    destruct (recv_sock_ok c k ks (Z.min left max_len) Hc Er Hk0 ltac:(lia)) as (m & E & Hm & Hmn & Hm0).
    assert (0 < m)%nat as Hmpos by (apply Hm0; intros E0; rewrite E0 in Hin; cbn in Hin; lia).
    rewrite (bind_ok _ _ _ _ _ E). cbn [fst snd].
    assert (List.length (take m (incoming c)) = m) as Etk by (rewrite length_take; lia).
    rewrite store_at_ok by (rewrite ?Etk; unfold u64; rewrite wrapu_small by lia; lia).
    unfold bind at 1, lift, u64. rewrite (wrapu_small 64 (Z.of_nat m)) by lia.
    rewrite (proj2 (Z.leb_gt _ _)) by lia. rewrite !wrapu_small by lia.
    cbn in Hk.
    destruct (IH (offset + Z.of_nat m) (left - Z.of_nat m) (splice (Z.to_nat (base + offset)) (take m (incoming c)) dest)
      (mkConn (drop m (incoming c)) ks (outgoing c) (closed c))) as (ks' & E' & Hks'); cbn; try lia; try done.
    { rewrite splice_length; lia. } { rewrite length_drop. lia. }
    exists ks'. split; [|done]. rewrite E'. cbn [incoming outgoing closed]. rewrite drop_drop.
    replace (m + Z.to_nat (left - Z.of_nat m))%nat with (Z.to_nat left) by lia. do 3 f_equal.
    replace (Z.to_nat (base + (offset + Z.of_nat m))) with (Z.to_nat (base + offset) + List.length (take m (incoming c)))%nat by lia.
    rewrite splice_app by lia. f_equal. rewrite take_take_drop. f_equal. lia.
Qed.

(** At the end of the stream. *)
Lemma read_fix_eof fuel base offset left length dest c :
  closed c = false -> lively (ready c) -> Z.of_nat fuel > Z.of_nat (List.length (incoming c)) ->
  Z.of_nat (List.length (incoming c)) < Z.of_nat (List.length (ready c)) ->
  0 <= base -> 0 <= offset -> 0 < left -> offset + left = length -> length < 2 ^ 31 ->
  base + length <= Z.of_nat (List.length dest) -> base + length < 2 ^ 64 ->
  Z.of_nat (List.length (incoming c)) < left ->
  exists dest' c', read_fix fuel max_len base offset left length dest c = (Ok (0, dest'), c').
Proof.
  revert offset left dest c. induction fuel as [|fuel IH]; intros offset left dest c Hc Hl Hf Hk Hb Ho Hleft Hlen H31 Hd H64 Hin; [lia|].
  cbn [read_fix]. rewrite (proj2 (Z.eqb_neq left 0)) by lia.
  destruct (ready c) as [|k ks] eqn:Er; [cbn in Hk; lia|]. apply Forall_cons in Hl as [Hk0 Hl].
  destruct (recv_sock_ok c k ks (Z.min left max_len) Hc Er Hk0 ltac:(lia)) as (m & E & Hm & Hmn & Hm0).
  rewrite (bind_ok _ _ _ _ _ E). cbn [fst snd].
  assert (List.length (take m (incoming c)) = m) as Etk by (rewrite length_take; lia).
  rewrite store_at_ok by (rewrite ?Etk; unfold u64; rewrite wrapu_small by lia; lia).
  unfold bind at 1, lift, u64. rewrite (wrapu_small 64 (Z.of_nat m)) by lia.
  destruct (Z.leb_spec (Z.of_nat m) 0) as [Hz|Hz].
  - eexists _, _. unfold ret, s32. rewrite wraps_small by lia. replace (Z.of_nat m) with 0 by lia. done.
  - rewrite !wrapu_small by lia. cbn in Hk. apply IH; cbn; rewrite ?length_drop; try lia; try done. rewrite splice_length; lia.
Qed.
End Reading.

(** Over a connection whose peer sends enough, in pieces of whatever size,
    [ReadFixSize] returns the length it was asked for, has stored exactly the next
    bytes of the stream at the buffer and has left the others to be read; when the
    stream ends early it returns 0. *)
Theorem ReadFixSize_exact max_len base n dest c :
  0 < max_len -> 0 <= base -> 0 < n < 2 ^ 31 -> base + n <= Z.of_nat (length dest) -> base + n < 2 ^ 64 ->
  closed c = false -> lively (ready c) -> n <= Z.of_nat (length (ready c)) -> Z.of_nat (length (incoming c)) < Z.of_nat (length (ready c)) ->
  if n <=? Z.of_nat (length (incoming c))
  then exists ks, ReadFixSize max_len base n dest c =
         (Ok (n, splice (Z.to_nat base) (take (Z.to_nat n) (incoming c)) dest),
          mkConn (drop (Z.to_nat n) (incoming c)) ks (outgoing c) (closed c))
  else exists dest' c', ReadFixSize max_len base n dest c = (Ok (0, dest'), c').
Proof.
  intros Hm Hb Hn Hd H64 Hc Hl Hk Hi. unfold ReadFixSize, bind, gets, id.
  destruct (Z.leb_spec n (Z.of_nat (length (incoming c)))).
  - destruct (read_fix_ok max_len Hm (S (length (ready c))) base 0 n n dest c) as (ks & E & _); try done; try lia.
    exists ks. rewrite E. by rewrite Z.add_0_r.
  - apply (read_fix_eof max_len Hm); try done; lia.
Qed.

Lemma write_fix_ok max_len fuel offset left length src c :
  0 < max_len -> closed c = false -> lively (ready c) -> Z.of_nat fuel > left -> left <= Z.of_nat (List.length (ready c)) ->
  0 <= offset -> 0 <= left -> offset + left = length -> length < 2 ^ 31 -> length <= Z.of_nat (List.length src) ->
  exists ks, write_fix fuel max_len offset left length src c =
    (Ok length, mkConn (incoming c) ks (outgoing c ++ slice (Z.to_nat offset) (Z.to_nat left) src) (closed c)).
Proof.
  intros Hmax. revert offset left c. induction fuel as [|fuel IH]; intros offset left c Hc Hl Hf Hk Ho Hleft Hlen H31 Hs; [lia|].
  cbn [write_fix]. destruct (Z.eqb_spec left 0) as [->|Hne].
  - exists (ready c). unfold ret, s32. rewrite wraps_small by lia.
    change (Z.to_nat 0) with 0%nat. rewrite slice_0, app_nil_r. by destruct c.
  - destruct (ready c) as [|k ks] eqn:Er; [cbn in Hk; lia|]. apply Forall_cons in Hl as [Hk0 Hl].
    unfold load_at. rewrite (proj2 (Z.leb_le _ _)) by lia. unfold bind at 1, lift.
    set (bs := slice (Z.to_nat offset) (Z.to_nat (Z.min left max_len)) src).
    assert (List.length bs = Z.to_nat (Z.min left max_len)) as Hbs by (apply slice_length; lia).
    unfold bind, send_sock. rewrite Hc, Er, (proj2 (Z.ltb_ge k 0)), Hbs by lia.
    set (m := Z.to_nat (Z.min k (Z.of_nat (Z.to_nat (Z.min left max_len))))).
    unfold u64. rewrite (wrapu_small 64 (Z.of_nat m)) by lia. rewrite (proj2 (Z.leb_gt _ _)) by lia.
    rewrite !wrapu_small by lia. cbn in Hk.
    destruct (IH (offset + Z.of_nat m) (left - Z.of_nat m) (mkConn (incoming c) ks (outgoing c ++ take m bs) (closed c)))
      as (ks' & E'); cbn; try lia; try done.
    exists ks'. cbn [closed] in E'. rewrite Hc in E'. rewrite E'. cbn [incoming outgoing closed]. rewrite <- app_assoc. do 3 f_equal.
    unfold bs, slice. rewrite take_take, Nat.min_l by lia.
    replace (Z.to_nat left) with (m + Z.to_nat (left - Z.of_nat m))%nat by lia.
    rewrite <- take_take_drop, drop_drop. do 3 f_equal. lia.
Qed.

(** Over a connection that accepts bytes, in pieces of whatever size,
    [WriteFixSize] sends exactly the bytes it was given, in order, and returns their
    number. *)
Theorem WriteFixSize_exact max_len n src c :
  0 < max_len -> 0 <= n < 2 ^ 31 -> n <= Z.of_nat (length src) -> closed c = false -> lively (ready c) -> n <= Z.of_nat (length (ready c)) ->
  exists ks, WriteFixSize max_len n src c =
    (Ok n, mkConn (incoming c) ks (outgoing c ++ take (Z.to_nat n) src) (closed c)).
Proof.
  intros Hm Hn Hs Hc Hl Hk. unfold WriteFixSize, bind, gets, id.
  destruct (write_fix_ok max_len (S (length (ready c))) 0 n n src c) as (ks & E); try done; try lia.
  exists ks. rewrite E. done.
Qed.

Lemma read_fix_errors fuel max_len base offset left length dest c j :
  closed c = false -> ready c = replicate j (-1) -> 0 < left -> left + Z.of_nat j < 2 ^ 64 ->
  (read_fix fuel max_len base offset left length dest c).1 = Fail out_of_fuel.
Proof.
  revert offset left c j. induction fuel as [|fuel IH]; intros offset left c j Hc Hr Hl H64; [done|].
  cbn [read_fix]. rewrite (proj2 (Z.eqb_neq left 0)) by lia. unfold bind at 1, recv_sock. rewrite Hc, Hr.
  destruct j as [|j]; [done|]. cbn [replicate]. cbn [fst snd].
  change (-1 <? 0) with true. cbv iota. unfold bind at 1, lift, store_at. cbn [fst snd].
  change (u64 (-1) <=? 0) with false. cbv iota.
  assert (u64 (left - u64 (-1)) = left + 1) as ->.
  { change (u64 (-1)) with (2 ^ 64 - 1). unfold u64, wrapu.
    replace (left - (2 ^ 64 - 1)) with (left + 1 + (-1) * 2 ^ 64) by lia. rewrite Z.mod_add, Z.mod_small by lia. done. }
  apply (IH _ _ _ j); cbn; try done; lia.
Qed.

(** A failing read is not noticed, because its -1 is converted to [size_t]: when
    every read fails, [ReadFixSize] goes on for ever instead of returning the
    error. *)
Theorem read_error_unnoticed max_len base n dest c j :
  closed c = false -> ready c = replicate j (-1) -> 0 < n < 2 ^ 31 -> Z.of_nat j < 2 ^ 63 ->
  (ReadFixSize max_len base n dest c).1 = Fail out_of_fuel.
Proof. intros Hc Hr Hn Hj. unfold ReadFixSize, bind, gets, id. apply (read_fix_errors _ _ _ _ _ _ _ _ j); [done|done|lia|lia]. Qed.

(** ** Whatever the connection does *)

(** [c'] is [c] later on, still open or closed as it was: some answers were used up. *)
Definition later (c c' : Conn) : Prop := closed c' = closed c /\ exists ks, ready c = ks ++ ready c'.

#[export] Instance later_preorder : PreOrder later.
Proof.
  split; [intros c; split; [done|by exists []]|].
  intros c1 c2 c3 [E1 [k1 H1]] [E2 [k2 H2]]. split; [congruence|]. exists (k1 ++ k2). by rewrite H1, H2, app_assoc.
Qed.

Lemma later_lively c c' : later c c' -> lively (ready c) -> lively (ready c').
Proof. unfold lively. intros [_ [ks ->]]. by intros [_ ?]%Forall_app. Qed.

Lemma later_length c c' : later c c' -> (length (ready c') <= length (ready c))%nat.
Proof. intros [_ [ks ->]]. rewrite length_app. lia. Qed.

(** A receive on an open socket takes one answer, or there is none. *)
Lemma recv_sock_run n c r c' :
  closed c = false -> recv_sock n c = (r, c') ->
  later c c' /\ outgoing c' = outgoing c /\
  (r = Fail out_of_fuel /\ ready c' = [] \/ exists x, r = Ok x /\ S (length (ready c')) = length (ready c)).
Proof.
  intros Hc. unfold recv_sock. rewrite Hc. destruct (ready c) as [|k ks] eqn:Er.
  - intros [= <- <-]. split; [done|]. split; [done|by left].
  - destruct (k <? 0); intros [= <- <-]; (split; [split; [done|exists [k]; by rewrite Er]|]); (split; [done|]); right; by eexists.
Qed.

(** [ReadFixSize] sends nothing and only ends early when the connection has no more
    answers, or a store is out of bounds. *)
Lemma read_fix_run fuel max_len base offset left length dest c r c' :
  closed c = false -> (List.length (ready c) < fuel)%nat ->
  read_fix fuel max_len base offset left length dest c = (r, c') ->
  later c c' /\ outgoing c' = outgoing c /\
  (is_ok r = true \/ r = Fail out_of_fuel /\ ready c' = [] \/ r = Fail undefined).
Proof.
  revert offset left dest c. induction fuel as [|fuel IH]; intros offset left dest c Hc Hf; [lia|].
  cbn [read_fix]. destruct (left =? 0); [intros [= <- <-]; split; [done|split; [done|by left]]|].
  unfold bind at 1. destruct (recv_sock (Z.min left max_len) c) as [r1 c1] eqn:E1.
  destruct (recv_sock_run _ _ _ _ Hc E1) as (L1 & O1 & [[-> R1]|(x & -> & R1)]);
    [intros [= <- <-]; split; [done|split; [done|right; by left]]|].
  unfold bind at 1, lift. destruct (store_at dest (u64 (base + offset)) x.2) as [d|e] eqn:Es.
  - destruct (u64 x.1 <=? 0); [intros [= <- <-]; split; [done|split; [done|by left]]|].
    intros E. apply IH in E as (L2 & O2 & Hr); [|by rewrite (proj1 L1)|lia].
    split; [by transitivity c1|]. split; [congruence|done].
  - intros [= <- <-]. split; [done|]. split; [done|]. right. right.
    unfold store_at in Es. destruct x.2; [done|]. destruct (_ <=? _); congruence.
Qed.

Lemma ReadFixSize_run max_len base length dest c r c' :
  closed c = false -> ReadFixSize max_len base length dest c = (r, c') ->
  later c c' /\ outgoing c' = outgoing c /\
  (is_ok r = true \/ r = Fail out_of_fuel /\ ready c' = [] \/ r = Fail undefined).
Proof. intros Hc. unfold ReadFixSize, bind, gets, id. apply read_fix_run; [done|lia]. Qed.

(** While the connection accepts bytes, [WriteFixSize] sends all of them, or there are
    no more answers. *)
Lemma write_fix_run fuel max_len offset left length src c r c' :
  0 < max_len -> closed c = false -> lively (ready c) -> (List.length (ready c) < fuel)%nat ->
  0 <= offset -> 0 <= left -> offset + left = length -> length < 2 ^ 64 -> length <= Z.of_nat (List.length src) ->
  write_fix fuel max_len offset left length src c = (r, c') ->
  later c c' /\ (is_ok r = true /\ outgoing c' = outgoing c ++ slice (Z.to_nat offset) (Z.to_nat left) src \/
                  r = Fail out_of_fuel /\ ready c' = []).
Proof.
  intros Hmax. revert offset left c.
  induction fuel as [|fuel IH]; intros offset left c Hc Hl Hf Ho Hleft Hlen H64 Hs; [lia|].
  cbn [write_fix]. destruct (Z.eqb_spec left 0) as [->|Hne].
  { intros [= <- <-]. split; [done|left]. by rewrite slice_0, app_nil_r. }
  unfold load_at. rewrite (proj2 (Z.leb_le _ _)) by lia. unfold bind at 1, lift.
  set (bs := slice (Z.to_nat offset) (Z.to_nat (Z.min left max_len)) src).
  assert (List.length bs = Z.to_nat (Z.min left max_len)) as Hbs by (apply slice_length; lia).
  unfold bind, send_sock. destruct (ready c) as [|k ks] eqn:Er; rewrite Hc.
  { intros [= <- <-]. split; [done|by right]. }
  apply Forall_cons in Hl as [Hk0 Hl]. rewrite (proj2 (Z.ltb_ge k 0)), Hbs by lia.
  set (m := Z.to_nat (Z.min k (Z.of_nat (Z.to_nat (Z.min left max_len))))).
  unfold u64. rewrite (wrapu_small 64 (Z.of_nat m)) by lia. rewrite (proj2 (Z.leb_gt _ _)) by lia.
  rewrite !wrapu_small by lia. cbn in Hf. intros E.
  apply IH in E as (L & Hr); cbn; try done; try lia. split.
  - destruct L as [L1 [ks' L2]]. cbn in L1, L2. split; [congruence|]. exists (k :: ks'). by rewrite Er, L2.
  - destruct Hr as [[Hr1 Hr2]|Hr]; [left|by right]. split; [done|]. rewrite Hr2. cbn [outgoing]. rewrite <- app_assoc.
    f_equal. unfold bs, slice. rewrite take_take, Nat.min_l by lia.
    replace (Z.to_nat left) with (m + Z.to_nat (left - Z.of_nat m))%nat by lia.
    rewrite <- take_take_drop, drop_drop. do 3 f_equal. lia.
Qed.

Lemma WriteFixSize_run max_len src c r c' :
  0 < max_len -> closed c = false -> lively (ready c) -> Z.of_nat (length src) < 2 ^ 64 ->
  WriteFixSize max_len (Z.of_nat (length src)) src c = (r, c') ->
  later c c' /\ (is_ok r = true /\ outgoing c' = outgoing c ++ src \/ r = Fail out_of_fuel /\ ready c' = []).
Proof.
  intros Hm Hc Hl Hs. unfold WriteFixSize, bind, gets, id. intros E.
  apply write_fix_run in E as (L & Hr); try done; try lia. split; [done|].
  unfold slice in Hr. by rewrite drop_0, take_ge in Hr by lia.
Qed.

(** ** Examples *)

Definition abcdef : list byte := map z2b [97; 98; 99; 100; 101; 102].
Definition demo_conn : Conn := mkConn abcdef [2; 1; 5; 3; 1; 1; 1] [] false.

Lemma ReadFixSize_exact_witness :
  exists ks, ReadFixSize 16384 1 4 (replicate 6 x00) demo_conn =
    (Ok (4, splice 1 (take 4 abcdef) (replicate 6 x00)), mkConn (drop 4 abcdef) ks [] false).
Proof. apply (ReadFixSize_exact 16384 1 4 (replicate 6 x00) demo_conn); try (cbn; lia); repeat constructor. Defined.

Lemma WriteFixSize_exact_witness :
  exists ks, WriteFixSize 2 6 abcdef (mkConn [] [9; 9; 9; 1; 1; 1] [] false) = (Ok 6, mkConn [] ks abcdef false).
Proof.
  apply (WriteFixSize_exact 2 6 abcdef (mkConn [] [9; 9; 9; 1; 1; 1] [] false)); try (cbn; lia); repeat constructor.
Defined.

Lemma read_error_unnoticed_witness :
  (ReadFixSize 16384 0 4 (replicate 4 x00) (mkConn abcdef [-1; -1; -1] [] false)).1 = Fail out_of_fuel.
Proof. apply (read_error_unnoticed 16384 0 4 (replicate 4 x00) (mkConn abcdef [-1; -1; -1] [] false) 3); [reflexivity|reflexivity|lia|lia]. Defined.

(** After one failed read the next bytes go to the address before the buffer; one
    byte more than was asked for is read. *)
Example read_error_shifts :
  ReadFixSize 16384 1 3 (replicate 5 xff) (mkConn abcdef [-1; 9] [] false) =
    (Ok (3, map z2b [97; 98; 99; 100; 255]), mkConn (map z2b [101; 102]) [] [] false) /\
  (ReadFixSize 16384 0 3 (replicate 5 xff) (mkConn abcdef [-1; 9] [] false)).1 = Fail undefined.
Proof. vm_compute. done. Qed.
