(* ===== verification/BufferStream.v ===== *)
(** * Streams over byte buffers: the overloads of [gudov/socket_stream.cpp] and
    [gudov/stream.cpp] that take a [ByteArray]

    A read scatters what arrives over the nodes of the buffer behind its cursor, a write
    gathers the bytes behind it; both then move the cursor by what was transferred. *)

From S2P Require Import Prelude Endian ByteArray ByteArraySpec Stream.
From stdpp Require Import base numbers list.
From Stdlib Require Import ZArith Lia Strings.Byte.
Open Scope Z_scope.
Open Scope prog_scope.

Section BufferStream.
Context `{Uninit}.

Abbreviation bcmd A := (prog (ByteArray * Conn) A).

Definition on_ba {A} (c : prog ByteArray A) : bcmd A := fun '(ba, k) => let '(r, ba') := c ba in (r, (ba', k)).
Definition on_conn {A} (c : prog Conn A) : bcmd A := fun '(ba, k) => let '(r, k') := c k in (r, (ba, k')).

(** What [recvmsg] stores: the bytes fill the areas in their order. *)
Fixpoint scatter (iovs : list iovec) (bs : list byte) : prog ByteArray unit :=
  match bs with
  | [] => ret tt
  | _ =>
      match iovs with
      | [] => fail undefined
      | v :: iovs =>
          let k := Z.to_nat (iov_len v) in
          memcpy_to (Some (iov_node v)) (iov_off v) (take k bs) ;; scatter iovs (drop k bs)
      end
  end.

(** [SocketStream::read(ba, length)]; [&iovs[0]] needs an element. *)
Definition read_ba (length : Z) : bcmd Z :=
  let* conn := gets snd in
  if closed conn then ret (-1)
  else
    let* r := on_ba (GetWriteBuffers length) in
    match r.1 with
    | [] => fail undefined
    | iovs =>
        let* got := on_conn (recv_sock (sumz iov_len iovs)) in
        on_ba (scatter iovs got.2) ;;
        let rt := s32 got.1 in
        (if 0 <? rt then let* ba := gets fst in on_ba (SetPosition (u64 (position_ ba + rt))) else ret tt) ;;
        ret rt
    end.

(** [SocketStream::write(ba, length)] *)
Definition write_ba (length : Z) : bcmd Z :=
  let* st := gets id in
  let '(ba, conn) := st in
  if closed conn then ret (-1)
  else
    let* r := lift (GetReadBuffers ba length) in
    match r.1 with
    | [] => fail undefined
    | iovs =>
        let* sent := on_conn (send_sock (iov_bytes ba iovs)) in
        let rt := s32 sent in
        (if 0 <? rt then on_ba (SetPosition (u64 (position_ ba + rt))) else ret tt) ;;
        ret rt
    end.

(** The loops of [Stream::ReadFixSize(ba, length)] and [WriteFixSize(ba, length)]: [len] is
    a [size_t]. *)
Fixpoint fix_loop (step : Z -> bcmd Z) (fuel : nat) (max_len left length : Z) : bcmd Z :=
  match fuel with
  | O => fail out_of_fuel
  | S fuel =>
      if left =? 0 then ret (s32 length)
      else
        let* rt := step (Z.min left max_len) in
        let len := u64 rt in
        if len <=? 0 then ret (s32 len) else fix_loop step fuel max_len (u64 (left - len)) length
  end.

Definition ReadFixSize_ba (max_len length : Z) : bcmd Z :=
  let* conn := gets snd in fix_loop read_ba (S (List.length (ready conn))) max_len length length.

Definition WriteFixSize_ba (max_len length : Z) : bcmd Z :=
  let* conn := gets snd in fix_loop write_ba (S (List.length (ready conn))) max_len length length.

(** ** Areas of the chain *)

(** The areas of [n] bytes from offset [off] of node [i], in nodes of [b] bytes. *)
Fixpoint cut (fuel b i off n : nat) : list iovec :=
  match fuel with
  | O => []
  | S fuel =>
      if (n =? 0)%nat then []
      else if (n <=? b - off)%nat then [Iov i (Z.of_nat off) (Z.of_nat n)]
      else Iov i (Z.of_nat off) (Z.of_nat (b - off)) :: cut fuel b (S i) 0 (n - (b - off))
  end.

Section Chain.
Context (b : nat) (Hb : (0 < b)%nat).

Lemma iov_loop_cut fuel ba i off n : blocks b (nodes_ ba) -> (i < length (nodes_ ba))%nat -> (off < b)%nat ->
  (b * i + off + n <= b * length (nodes_ ba))%nat -> (length (nodes_ ba) - i < fuel)%nat ->
  iov_loop fuel ba (Some i) (Z.of_nat off) (Z.of_nat b - Z.of_nat off) (Z.of_nat n) = Ok (cut fuel b i off n).
Proof.
  intros Hbl. revert i off n. induction fuel as [|fuel IH]; intros i off n Hi Ho Hfit Hf; [lia|]. cbn [iov_loop cut].
  destruct (Nat.eqb_spec n 0) as [->|Hn]; [done|]. rewrite (proj2 (Z.ltb_lt 0 (Z.of_nat n))) by lia.
  destruct (Nat.leb_spec n (b - off)); [by rewrite (proj2 (Z.leb_le _ _)) by lia|]. rewrite (proj2 (Z.leb_gt _ _)) by lia.
  assert (S i < length (nodes_ ba))%nat by nia. rewrite node_next_in, (node_size_in b ba Hbl) by lia.
  replace (Z.of_nat n - (Z.of_nat b - Z.of_nat off)) with (Z.of_nat (n - (b - off))) by lia.
  specialize (IH (S i) 0%nat (n - (b - off))%nat ltac:(lia) ltac:(lia) ltac:(nia) ltac:(lia)).
  change (Z.of_nat 0) with 0 in IH. rewrite Z.sub_0_r in IH. rewrite IH. do 2 f_equal. f_equal. lia.
Qed.

Lemma cut_sum fuel i off n : (off < b)%nat -> (off + n <= b * fuel)%nat -> sumz iov_len (cut fuel b i off n) = Z.of_nat n.
Proof.
  revert i off n. induction fuel as [|fuel IH]; intros i off n Ho Hf; cbn; [lia|]. destruct (Nat.eqb_spec n 0) as [->|]; [done|].
  destruct (Nat.leb_spec n (b - off)); cbn; [lia|]. rewrite IH by lia. lia.
Qed.

(** One area. *)
Lemma store_area ba i off d : blocks b (nodes_ ba) -> (i < length (nodes_ ba))%nat -> (off + length d <= b)%nat ->
  exists ns, memcpy_to (Some i) (Z.of_nat off) d ba = (Ok tt, with_nodes ns ba) /\ blocks b ns /\
    length ns = length (nodes_ ba) /\ concat ns = splice (b * i + off) d (flat ba).
Proof.
  intros Hbl Hi Hd. destruct (block_lookup _ _ _ Hbl Hi) as (nd & End & Hnd).
  exists (<[i := splice off d nd]> (nodes_ ba)). rewrite (memcpy_to_ok ba i nd) by (done || lia). rewrite Nat2Z.id.
  split_and!; [done| |apply length_insert|by apply splice_block].
  apply blocks_insert; [done|]. rewrite splice_length; lia.
Qed.

Lemma scatter_nil iovs ba : scatter iovs [] ba = (Ok tt, ba).
Proof. by destruct iovs. Qed.

(** Scattering writes the bytes at the offset of the first area. *)
Lemma scatter_cut fuel i off n bs ba : blocks b (nodes_ ba) -> (i < length (nodes_ ba))%nat -> (off < b)%nat ->
  (b * i + off + n <= b * length (nodes_ ba))%nat -> (length (nodes_ ba) - i < fuel)%nat -> (length bs <= n)%nat ->
  exists ns, scatter (cut fuel b i off n) bs ba = (Ok tt, with_nodes ns ba) /\ blocks b ns /\ length ns = length (nodes_ ba) /\
    concat ns = splice (b * i + off) bs (flat ba).
Proof.
  revert i off n bs ba. induction fuel as [|fuel IH]; intros i off n bs ba Hbl Hi Ho Hfit Hf Hn; [lia|].
  destruct (decide (length bs = 0%nat)) as [E0|Hne].
  { apply nil_length_inv in E0 as ->. exists (nodes_ ba). rewrite splice_nil, scatter_nil. by destruct ba. }
  cbn [cut]. destruct (Nat.eqb_spec n 0); [lia|]. destruct (Nat.leb_spec n (b - off)).
  - destruct (store_area ba i off bs) as (ns & E & Hrest); [done|done|lia|]. exists ns. split; [|done].
    destruct bs as [|c bs]; [done|]. cbn [scatter iov_len iov_node iov_off]. rewrite Nat2Z.id, take_ge, drop_ge by done.
    rewrite (bind_ok _ _ _ _ _ E). done.
  - set (d1 := take (b - off) bs). set (d2 := drop (b - off) bs).
    assert (length d1 <= b - off)%nat by (unfold d1; rewrite length_take; lia).
    assert (length d2 = length bs - (b - off))%nat as Hd2 by apply length_drop.
    destruct (store_area ba i off d1) as (ns & E & Hbn & Hln & Hc); [done|done|lia|].
    assert (scatter (Iov i (Z.of_nat off) (Z.of_nat (b - off)) :: cut fuel b (S i) 0 (n - (b - off))) bs ba
            = scatter (cut fuel b (S i) 0 (n - (b - off))) d2 (with_nodes ns ba)) as ->.
    { destruct bs as [|c bs]; [done|]. cbn [scatter iov_len iov_node iov_off]. rewrite Nat2Z.id. by rewrite (bind_ok _ _ _ _ _ E). }
    destruct (IH (S i) 0%nat (n - (b - off))%nat d2 (with_nodes ns ba)) as (ns2 & E2 & Hbn2 & Hln2 & Hc2);
      [done|cbn; nia|done|cbn; nia|cbn; lia|lia|].
    exists ns2. rewrite E2. cbn in Hln2. split_and!; [done|done|lia|]. rewrite Hc2. unfold flat at 1. cbn [nodes_ with_nodes].
    rewrite Hc. destruct (decide (length d2 = 0%nat)) as [E0|Hd].
    { apply nil_length_inv in E0. rewrite E0, splice_nil. f_equal. unfold d1. apply take_ge. unfold d2 in E0.
      apply (f_equal length) in E0. rewrite length_drop in E0. cbn in E0. lia. }
    assert (length d1 = b - off)%nat as Hd1 by (unfold d1; rewrite length_take; lia).
    replace (b * S i + 0)%nat with (b * i + off + length d1)%nat by nia.
    rewrite splice_app by (unfold flat; rewrite (blocks_concat_length b) by done; nia). f_equal. apply take_drop.
Qed.
End Chain.

(** ** One transfer *)

(** The areas a buffer hands out for writing start at its cursor. *)
Lemma GetWriteBuffers_cut ba len : wf ba -> 0 < len -> position_ ba + len + base_size_ ba <= 2 ^ 64 ->
  exists i off ba', let b := Z.to_nat (base_size_ ba) in
    GetWriteBuffers len ba = (Ok (cut (S (length (nodes_ ba'))) b i off (Z.to_nat len), len), ba') /\
    wf ba' /\ same_config ba ba' /\ position_ ba' = position_ ba /\ size_ ba' = size_ ba /\ contents ba' = contents ba /\
    Z.to_nat (position_ ba) = (b * i + off)%nat /\ (i < length (nodes_ ba'))%nat /\ (off < b)%nat /\
    (b * i + off + Z.to_nat len <= b * length (nodes_ ba'))%nat.
Proof.
  intros W Hl Hfit. unfold GetWriteBuffers. rewrite (proj2 (Z.eqb_neq len 0)) by lia.
  destruct (AddCapacity_ok ba len W ltac:(lia) Hfit) as (ba' & extra & E & W' & [Hb He] & Hp & Hs & Hf & Hc & _).
  pose proof (wf_pos _ W'). pose proof (wf_base _ W').
  destruct (iov_from_eq ba' (position_ ba') len W' ltac:(lia) ltac:(lia) ltac:(lia)) as (i & off & Epos & Hi & Ho & Hft & Ei).
  rewrite Hp in Epos. rewrite Hb in *. exists i, off, ba'. rewrite (bind_ok _ _ _ _ _ E), (cursor_ptr ba') by (done || lia). rewrite Hb, Ei.
  rewrite iov_loop_cut by (done || lia || by rewrite <- Hb; apply wf_blocks).
  split_and!; try done. unfold contents. rewrite Hf, Hs. pose proof (flat_length _ W). pose proof (wf_size _ W).
  by rewrite take_app_le by lia.
Qed.

(** Bytes stored in the chain at the cursor, which then moves behind them. *)
Lemma store_and_seek ba ns d : wf ba -> blocks (Z.to_nat (base_size_ ba)) ns -> length ns = length (nodes_ ba) ->
  concat ns = splice (Z.to_nat (position_ ba)) d (flat ba) -> position_ ba + Z.of_nat (length d) <= capacity_ ba ->
  exists ba', SetPosition (position_ ba + Z.of_nat (length d)) (with_nodes ns ba) = (Ok tt, ba') /\ wf ba' /\ same_config ba ba' /\
    position_ ba' = position_ ba + Z.of_nat (length d) /\ abs ba' = spec_write d (abs ba).
Proof.
  intros W Hbl Hln Hc Hfit. pose proof W as [Hb _ Hns Hcap Hp Hs H64 He Hcur].
  assert (wf (with_nodes ns ba)) as W1 by (constructor; cbn; rewrite ?Hln; done).
  destruct (SetPosition_ok (with_nodes ns ba) (position_ ba + Z.of_nat (length d)) W1) as (ba' & E & W' & [Hb' He'] & Hf & _ & Hp' & Hs');
    [cbn; lia|]. pose proof (flat_length _ W). exists ba'. rewrite E. split_and!; try done.
  unfold abs, contents, spec_write. cbn [fbytes fpos]. rewrite Hf, Hp', Hs'. unfold flat at 1. cbn [nodes_ with_nodes size_]. rewrite Hc.
  rewrite <- take_splice by lia. f_equal; [f_equal|]; lia.
Qed.

Lemma recv_open c k ks n : closed c = false -> ready c = k :: ks -> 0 < k -> 0 < n -> incoming c <> [] ->
  exists m, recv_sock n c = (Ok (Z.of_nat m, take m (incoming c)), mkConn (drop m (incoming c)) ks (outgoing c) false) /\
    (0 < m <= length (incoming c))%nat /\ Z.of_nat m <= n.
Proof.
  intros Hc Hr Hk Hn Hi. destruct (recv_sock_ok c k ks n Hc Hr Hk Hn) as (m & E & Hm & Hmn & Hm0).
  exists m. rewrite E, Hc. specialize (Hm0 Hi). split; [done|lia].
Qed.

Lemma read_ba_ok ba c k ks len :
  wf ba -> closed c = false -> ready c = k :: ks -> 0 < k -> 0 < len < 2 ^ 31 -> incoming c <> [] ->
  position_ ba + len + base_size_ ba <= 2 ^ 64 ->
  exists m ba', read_ba len (ba, c) = (Ok (Z.of_nat m), (ba', mkConn (drop m (incoming c)) ks (outgoing c) false)) /\
    (0 < m <= length (incoming c))%nat /\ Z.of_nat m <= len /\ wf ba' /\ same_config ba ba' /\
    position_ ba' = position_ ba + Z.of_nat m /\ abs ba' = spec_write (take m (incoming c)) (abs ba).
Proof.
  intros W Hc Hr Hk Hl Hi Hfit.
  destruct (GetWriteBuffers_cut ba len W ltac:(lia) Hfit) as (i & off & ba1 & E1 & W1 & [Hb1 He1] & Hp1 & Hs1 & Hc1 & Epos & Hii & Hof & Hft).
  pose proof (wf_base _ W). set (b := Z.to_nat (base_size_ ba)) in *. pose proof (wf_blocks _ W1) as Hbl. rewrite Hb1 in Hbl. fold b in Hbl.
  set (iovs := cut (S (length (nodes_ ba1))) b i off (Z.to_nat len)) in *.
  assert (sumz iov_len iovs = len) as Esum by (unfold iovs; rewrite cut_sum by nia; lia).
  destruct (recv_open c k ks len Hc Hr Hk ltac:(lia) Hi) as (m & Er & Hm & Hml).
  assert (length (take m (incoming c)) = m) as Etk by (rewrite length_take; lia).
  destruct (scatter_cut b ltac:(lia) (S (length (nodes_ ba1))) i off (Z.to_nat len) (take m (incoming c)) ba1) as (ns & Es & Hbn & Hln & Hcn);
    try done; try lia. fold iovs in Es.
  pose proof (wf_cap _ W1) as Hcap. rewrite Hb1 in Hcap. pose proof (wf_pos _ W1). pose proof (wf_cap64 _ W1).
  assert (position_ ba1 + Z.of_nat m <= capacity_ ba1) by nia.
  destruct (store_and_seek ba1 ns (take m (incoming c)) W1) as (ba2 & E2 & W2 & [Hb2 He2] & Hp2 & A2);
    [by rewrite Hb1|done|by rewrite Hp1, Epos|by rewrite Etk|]. rewrite Etk in E2, Hp2.
  exists m, ba2. split_and!; try done; try lia; try congruence; [|unfold same_config; split; congruence|].
  - unfold read_ba, bind, gets, on_ba, on_conn. cbn [snd]. rewrite Hc, E1. cbn [fst]. fold iovs.
    destruct iovs as [|v iovs'] eqn:Ev; [cbn in Esum; lia|]. rewrite Esum, Er. cbn [fst snd]. rewrite Es. unfold s32.
    rewrite wraps_small by lia. rewrite (proj2 (Z.ltb_lt _ _)) by lia. cbn [fst position_ with_nodes].
    unfold u64. rewrite wrapu_small by lia. rewrite E2. done.
  - rewrite A2. unfold abs. by rewrite Hc1, Hp1.
Qed.

Lemma write_ba_ok ba c k ks len :
  wf ba -> closed c = false -> ready c = k :: ks -> 0 < k -> 0 < len < 2 ^ 31 -> position_ ba + len <= size_ ba ->
  exists m ba', write_ba len (ba, c) = (Ok (Z.of_nat m),
      (ba', mkConn (incoming c) ks (outgoing c ++ slice (Z.to_nat (position_ ba)) m (contents ba)) false)) /\
    (0 < m)%nat /\ Z.of_nat m <= len /\ wf ba' /\ position_ ba' = position_ ba + Z.of_nat m /\ size_ ba' = size_ ba /\ contents ba' = contents ba.
Proof.
  intros W Hc Hr Hk Hl Hfit. destruct (GetReadBuffers_ok ba len W ltac:(lia)) as (iovs & E & Hv).
  rewrite Z.min_l in E, Hv by lia. pose proof (contents_length _ W). pose proof (wf_pos _ W). pose proof (wf_size _ W). pose proof (wf_cap64 _ W).
  assert (length (iov_bytes ba iovs) = Z.to_nat len) as Hlen by (rewrite Hv; apply slice_length; lia).
  set (m := Z.to_nat (Z.min k (Z.of_nat (length (iov_bytes ba iovs))))).
  destruct (SetPosition_ok ba (position_ ba + Z.of_nat m) W ltac:(lia)) as (ba' & E2 & W' & _ & Hf' & _ & Hp' & Hs').
  exists m, ba'. split_and!; try done; try lia; cycle 1.
  { unfold contents. rewrite Hf'. do 2 f_equal. lia. }
  unfold write_ba, bind, gets, on_ba, on_conn, lift, id, send_sock. rewrite Hc, E. cbn [fst snd].
  destruct iovs as [|v iovs']; [cbn in Hlen; lia|]. rewrite Hc, Hr, (proj2 (Z.ltb_ge k 0)) by lia.
  fold m. unfold s32. rewrite wraps_small by lia. rewrite (proj2 (Z.ltb_lt _ _)) by lia. unfold u64. rewrite wrapu_small by lia.
  rewrite E2, Hv. unfold slice. rewrite take_take, Nat.min_l by lia. done.
Qed.

(** ** The loops *)

(** A loop whose rounds move something towards an end that [J] keeps count of. *)
Lemma fix_loop_ok (J : Z -> ByteArray * Conn -> Prop) step max_len fuel left length st :
  (forall left st, 0 < left < 2 ^ 31 -> J left st ->
    exists m st', step (Z.min left max_len) st = (Ok m, st') /\ 0 < m <= left /\ J (left - m) st') ->
  0 <= left <= length -> length < 2 ^ 31 -> left < Z.of_nat fuel -> J left st ->
  exists st', fix_loop step fuel max_len left length st = (Ok length, st') /\ J 0 st'.
Proof.
  intros Hstep. revert left st. induction fuel as [|fuel IH]; intros left st Hl H31 Hf HJ; [lia|]. cbn [fix_loop].
  destruct (Z.eqb_spec left 0) as [->|Hne].
  { exists st. split; [|done]. unfold ret, s32. by rewrite wraps_small by lia. }
  destruct (Hstep left st ltac:(lia) HJ) as (m & st1 & E & Hm & HJ1). rewrite (bind_ok _ _ _ _ _ E).
  unfold u64. rewrite (wrapu_small 64 m) by lia. rewrite (proj2 (Z.leb_gt _ _)), wrapu_small by lia. apply IH; [lia|lia|lia|done].
Qed.

Section Transfers.
Context (max_len : Z) (Hmax : 0 < max_len < 2 ^ 31).

Lemma ReadFixSize_ba_ok ba c n :
  wf ba -> 0 <= n < 2 ^ 31 -> position_ ba + n + base_size_ ba <= 2 ^ 64 -> closed c = false -> lively (ready c) ->
  n <= Z.of_nat (length (ready c)) -> n <= Z.of_nat (length (incoming c)) ->
  exists ba' ks, ReadFixSize_ba max_len n (ba, c) = (Ok n, (ba', mkConn (drop (Z.to_nat n) (incoming c)) ks (outgoing c) false)) /\
    wf ba' /\ abs ba' = spec_write (take (Z.to_nat n) (incoming c)) (abs ba).
Proof.
  intros W Hn Hfit Hc Hl Hk Hi. unfold ReadFixSize_ba, bind, gets. cbn [snd].
  destruct (fix_loop_ok (fun left '(ba', c') => let m := Z.to_nat (n - left) in
      0 <= left <= n /\ wf ba' /\ base_size_ ba' = base_size_ ba /\ position_ ba' = position_ ba + (n - left) /\
      abs ba' = spec_write (take m (incoming c)) (abs ba) /\ closed c' = false /\ lively (ready c') /\ left <= Z.of_nat (length (ready c')) /\
      incoming c' = drop m (incoming c) /\ outgoing c' = outgoing c)
    read_ba max_len (S (length (ready c))) n n (ba, c)) as ([ba' c'] & E & _ & W' & _ & _ & A & Hc' & _ & _ & Hi' & Ho').
  - intros left [ba1 [inc rdy out cl]] H0 (Hb & W1 & Hb1 & Hp1 & A1 & Hc1 & Hl1 & Hk1 & Hi1 & Ho1). cbn in *. subst.
    destruct rdy as [|k ks]; [cbn in Hk1; lia|]. cbn in Hk1. apply Forall_cons in Hl1 as [Hk0 Hl1]. set (m0 := Z.to_nat (n - left)) in *.
    destruct (read_ba_ok ba1 (mkConn (drop m0 (incoming c)) (k :: ks) (outgoing c) false) k ks (Z.min left max_len)) as
      (m & ba2 & E & Hm & Hml & W2 & [Hb2 _] & Hp2 & A2); try done; try lia.
    { cbn. intros E0%(f_equal length). rewrite length_drop in E0. cbn in E0. lia. }
    cbn [incoming outgoing] in *. rewrite length_drop in Hm. eexists (Z.of_nat m), _. split; [exact E|]. split; [lia|]. cbn.
    replace (Z.to_nat (n - (left - Z.of_nat m))) with (m0 + m)%nat by lia. rewrite drop_drop.
    split_and!; try done; try lia. rewrite A2, A1, spec_write_app by by apply abs_in_range. by rewrite take_take_drop.
  - lia.
  - lia.
  - lia.
  - rewrite Z.sub_diag. cbn. unfold spec_write. rewrite take_0, splice_nil, Nat.add_0_r. split_and!; try done; lia.
  - rewrite E. rewrite Z.sub_0_r in *. exists ba', (ready c'). split; [|done]. destruct c'. cbn in *. by subst.
Qed.

Lemma WriteFixSize_ba_ok ba c n :
  wf ba -> 0 <= n < 2 ^ 31 -> position_ ba + n <= size_ ba -> closed c = false -> lively (ready c) -> n <= Z.of_nat (length (ready c)) ->
  exists ba' ks, WriteFixSize_ba max_len n (ba, c) =
      (Ok n, (ba', mkConn (incoming c) ks (outgoing c ++ slice (Z.to_nat (position_ ba)) (Z.to_nat n) (contents ba)) false)) /\
    wf ba' /\ abs ba' = File (contents ba) (Z.to_nat (position_ ba + n)).
Proof.
  intros W Hn Hfit Hc Hl Hk. unfold WriteFixSize_ba, bind, gets. cbn [snd]. pose proof (wf_pos _ W).
  destruct (fix_loop_ok (fun left '(ba', c') => let m := Z.to_nat (n - left) in
      0 <= left <= n /\ wf ba' /\ size_ ba' = size_ ba /\ position_ ba' = position_ ba + (n - left) /\ contents ba' = contents ba /\
      closed c' = false /\ lively (ready c') /\ left <= Z.of_nat (length (ready c')) /\
      incoming c' = incoming c /\ outgoing c' = outgoing c ++ slice (Z.to_nat (position_ ba)) m (contents ba))
    write_ba max_len (S (length (ready c))) n n (ba, c)) as ([ba' c'] & E & _ & W' & _ & Hp' & A & Hc' & _ & _ & Hi' & Ho').
  - intros left [ba1 [inc rdy out cl]] HL (Hb & W1 & Hb1 & Hp1 & A1 & Hc1 & Hl1 & Hk1 & Hi1 & Ho1). cbn in *. subst.
    destruct rdy as [|k ks]; [cbn in Hk1; lia|]. cbn in Hk1. apply Forall_cons in Hl1 as [Hk0 Hl1]. set (m0 := Z.to_nat (n - left)) in *.
    destruct (write_ba_ok ba1 (mkConn (incoming c) (k :: ks) (outgoing c ++ slice (Z.to_nat (position_ ba)) m0 (contents ba)) false)
      k ks (Z.min left max_len)) as (m & ba2 & E & Hm & Hml & W2 & Hp2 & Hs2 & A2); cbn; try done; try lia.
    eexists (Z.of_nat m), _. split; [exact E|]. split; [lia|]. cbn.
    replace (Z.to_nat (n - (left - Z.of_nat m))) with (m0 + m)%nat by lia. rewrite A2, <- app_assoc, A1.
    replace (Z.to_nat (position_ ba1)) with (Z.to_nat (position_ ba) + m0)%nat by lia. rewrite slice_split.
    split_and!; try done; lia.
  - lia.
  - lia.
  - lia.
  - rewrite Z.sub_diag. cbn. rewrite slice_0, app_nil_r. split_and!; try done; lia.
  - rewrite E. rewrite Z.sub_0_r in *. exists ba', (ready c'). split; [|split; [done|unfold abs; by rewrite A, Hp']].
    destruct c'. cbn in *. by subst.
Qed.
End Transfers.
End BufferStream.

(** ** What they guarantee *)

(** C18: a buffer crosses a connection.  [WriteFixSize] sends exactly the [n] bytes behind the
    sender's cursor, in whatever pieces the connection takes them, and [ReadFixSize] at the
    other end stores exactly them at the receiver's cursor, however its memory is cut into nodes:
    the receiving buffer ends as the abstract file with those bytes written, the sending one with
    its cursor behind them, and both are well formed. *)
Theorem buffer_crosses `{Uninit} max_len n sender cs receiver cr :
  0 < max_len < 2 ^ 31 -> 0 <= n < 2 ^ 31 -> closed cs = false -> closed cr = false -> lively (ready cs) -> lively (ready cr) ->
  n <= Z.of_nat (length (ready cs)) -> n <= Z.of_nat (length (ready cr)) ->
  wf sender -> wf receiver -> position_ sender + n <= size_ sender -> position_ receiver + n + base_size_ receiver <= 2 ^ 64 ->
  exists sender' cs', WriteFixSize_ba max_len n (sender, cs) = (Ok n, (sender', cs')) /\ wf sender' /\
    abs sender' = File (contents sender) (Z.to_nat (position_ sender + n)) /\
    forall sent rest, outgoing cs' = outgoing cs ++ sent -> incoming cr = sent ++ rest ->
      sent = slice (Z.to_nat (position_ sender)) (Z.to_nat n) (contents sender) /\
      exists receiver' cr', ReadFixSize_ba max_len n (receiver, cr) = (Ok n, (receiver', cr')) /\ incoming cr' = rest /\
        wf receiver' /\ abs receiver' = spec_write sent (abs receiver).
Proof.
  intros Hm Hn Hcs Hcr Hls Hlr Hks Hkr Ws Wr Hfs Hfr.
  destruct (WriteFixSize_ba_ok max_len Hm sender cs n) as (s' & ks & E & W' & A); try done.
  eexists s', _. split_and!; [exact E|done|done|]. cbn. intros sent rest <-%app_inv_head Hi.
  split; [done|]. pose proof (contents_length _ Ws). pose proof (wf_pos _ Ws).
  set (sent := slice _ _ _) in *. assert (length sent = Z.to_nat n) as Hlen by (apply slice_length; lia).
  destruct (ReadFixSize_ba_ok max_len Hm receiver cr n) as (r' & ks' & E' & Wr' & A'); try done; [rewrite Hi, length_app; lia|].
  eexists r', _. split; [exact E'|]. cbn. rewrite Hi, <- Hlen, drop_app_length, take_app_length in *. done.
Qed.

(** Six bytes leave a buffer with nodes of 4 bytes and arrive in one with nodes of 3. *)
Definition demo_sender : ByteArray := (exec_all (H := zeroed) [CWrite (demo_bytes 6); CSeek 0] (demo 4)).2.
Definition demo_receiver : ByteArray := demo 3.
Definition slow (bs : list byte) : Conn := mkConn bs [2; 1; 5; 1; 1; 1] [] false.

Lemma demo_sender_wf : wf demo_sender.
Proof.
  let x := eval vm_compute in demo_sender in change demo_sender with x.
  constructor; cbn; [lia|repeat constructor|lia|lia|lia|lia|lia|by left|reflexivity].
Qed.

Lemma slow_lively bs : lively (ready (slow bs)).
Proof. repeat constructor. Qed.

Lemma buffer_crosses_witness :
  exists receiver' cr', @ReadFixSize_ba zeroed 16384 6 (demo_receiver, slow (demo_bytes 6)) = (Ok 6, (receiver', cr')) /\
    wf receiver' /\ contents receiver' = demo_bytes 6.
Proof.
  destruct (@buffer_crosses zeroed 16384 6 demo_sender (slow []) demo_receiver (slow (demo_bytes 6)))
    as (s' & cs' & E & _ & _ & Hrecv);
    [lia|lia|reflexivity|reflexivity|apply slow_lively|apply slow_lively|cbn; lia|cbn; lia|apply demo_sender_wf|apply new_ByteArray_wf; lia
    |vm_compute; discriminate|vm_compute; discriminate|].
  destruct (Hrecv (demo_bytes 6) []) as (_ & r' & cr' & E' & _ & W & A).
  - vm_compute in E. injection E as _ <-. reflexivity.
  - reflexivity.
  - exists r', cr'. split; [exact E'|]. split; [exact W|]. exact (f_equal fbytes A).
Defined.
