(* ===== verification/HttpSession.v ===== *)
(** * HTTP over a stream: [gudov/http/http_session.cpp] and the receiving and sending
      half of [gudov/http/http_connection.cpp]

    A message head is read into a buffer of fixed size until the parser is content;
    the body follows, first what is left in the buffer, then from the stream. *)

From S2P Require Import Prelude Http HttpParser Stream.
From stdpp Require Import base numbers list strings.
From Stdlib Require Import ZArith Lia Strings.Byte.
Open Scope Z_scope.
Open Scope prog_scope.

Definition bytes_of (s : string) : list byte := String.list_byte_of_string s.
Definition text_of (bs : list byte) : string := String.string_of_list_byte bs.

Lemma text_of_bytes s : text_of (bytes_of s) = s.
Proof. apply String.string_of_list_byte_of_string. Qed.

Lemma text_of_app s bs : text_of (bytes_of s ++ bs) = s +:+ text_of bs.
Proof.
  unfold text_of, bytes_of, String.list_byte_of_string, String.string_of_list_byte.
  induction s as [|c s IH]; [done|]. cbn. rewrite Ascii.ascii_of_byte_of_ascii, IH. done.
Qed.

Lemma text_of_length bs : length bs = String.length (text_of bs).
Proof. unfold text_of, String.string_of_list_byte. induction bs as [|b bs IH]; [done|]. cbn. by rewrite IH. Qed.

Lemma bytes_of_length s : length (bytes_of s) = String.length s.
Proof.
  unfold bytes_of, String.list_byte_of_string. rewrite length_map.
  induction s as [|c s IH]; [done|]. cbn. by rewrite IH.
Qed.

(** ** The head *)

Section Head.
Context {Q : Type} (exec : Q -> string -> result (Q * nat)) (has_error is_finished : Q -> bool) (buff_size : Z).

(** The loop over [read] and [execute]; [left_] is what the buffer holds, unparsed.
    The parser that is content with the head, and the bytes after it. *)
Fixpoint recv_head (fuel : nat) (p : Q) (left_ : list byte) : prog Conn (option (Q * list byte)) :=
  match fuel with
  | O => fail out_of_fuel
  | S fuel =>
      let* r := recv_sock (u64 (buff_size - Z.of_nat (length left_))) in
      if r.1 <=? 0 then Close ;; ret None else
      let data := left_ ++ r.2 in
      let* r := lift (exec p (text_of data)) in
      let '(p, nparse) := r in
      if has_error p then Close ;; ret None else
      let left_ := drop nparse data in
      if Z.of_nat (length left_) =? s32 buff_size then Close ;; ret None else
      if is_finished p then ret (Some (p, left_)) else recv_head fuel p left_
  end.

(** A head [h] that arrives in one piece, with a part [d] of what follows it. *)
Lemma recv_head_whole fuel p p' h d rest ks out : 0 < buff_size < 2 ^ 31 -> h ++ d <> [] -> Z.of_nat (length (h ++ d)) < buff_size ->
  exec p (text_of (h ++ d)) = Ok (p', length h) -> has_error p' = false -> is_finished p' = true ->
  recv_head (S fuel) p [] (mkConn (h ++ d ++ rest) (Z.of_nat (length (h ++ d)) :: ks) out false) = (Ok (Some (p', d)), mkConn rest ks out false).
Proof.
  intros Hb Hh Hlt E He Hf. assert (0 < length (h ++ d))%nat as Hpos by (by destruct (h ++ d); [|cbn; lia]).
  cbn [recv_head length]. unfold bind at 1, recv_sock. cbn [closed ready incoming outgoing].
  rewrite (proj2 (Z.ltb_ge _ 0)) by lia. rewrite Z.sub_0_r. unfold u64. rewrite wrapu_small by lia. rewrite Z.min_l, Nat2Z.id by lia.
  rewrite (app_assoc h d rest), take_app_length, drop_app_length. cbn [fst snd app].
  rewrite (proj2 (Z.leb_gt _ 0)) by lia. unfold bind, lift. rewrite E, He, drop_app_length.
  rewrite length_app in Hlt. unfold s32. rewrite wraps_small by lia. rewrite (proj2 (Z.eqb_neq _ _)) by lia. by rewrite Hf.
Qed.

(** What is handed on is a head the parser has accepted, with room left in the
    buffer. *)
Lemma recv_head_ok fuel p left_ c p' left' c' :
  (forall q s q' n, exec q s = Ok (q', n) -> (n <= String.length s)%nat) -> 0 < buff_size < 2 ^ 31 -> Z.of_nat (length left_) < buff_size ->
  recv_head fuel p left_ c = (Ok (Some (p', left')), c') ->
  has_error p' = false /\ is_finished p' = true /\ Z.of_nat (length left') < buff_size.
Proof.
  intros Hx Hb. revert p left_ c. induction fuel as [|fuel IH]; intros p left_ c Hl; [done|]. cbn [recv_head].
  intros ([rt bs] & c1 & E1 & E)%bind_ok_inv. cbn [fst snd] in E. destruct (rt <=? 0); [done|].
  apply bind_ok_inv in E as ([q n] & c2 & [= E2 <-] & E). destruct (has_error q) eqn:Eq; [done|].
  assert (Z.of_nat (length bs) <= buff_size - Z.of_nat (length left_)) as Hbs.
  { unfold u64 in E1. rewrite wrapu_small in E1 by lia. unfold recv_sock in E1. destruct (closed c); [injection E1 as <- <- _; cbn; lia|]. destruct (ready c) as [|k ks]; [done|].
    destruct (Z.ltb_spec k 0); injection E1 as <- <- _; cbn; [lia|]. rewrite length_take. lia. }
  unfold s32 in E. rewrite wraps_small in E by lia.
  destruct (Z.eqb_spec (Z.of_nat (length (drop n (left_ ++ bs)))) buff_size) as [|Hne]; [done|].
  assert (Z.of_nat (length (drop n (left_ ++ bs))) < buff_size) as Hl'.
  { rewrite length_drop, length_app in *. lia. }
  destruct (is_finished q) eqn:Ef; [|by apply (IH q (drop n (left_ ++ bs)) c1)].
  unfold ret in E. injection E as <- <- _. done.
Qed.
End Head.

(** ** The server's side *)

Section Session.
Context {P : Type} `{Machine P} (cast : string -> option Z) (max_len buff_size : Z).

Definition continue_text : list byte := bytes_of ("HTTP/1.1 100 Continue" +:+ CRLF +:+ CRLF).

(** [RecvRequest] after the head: the answer to [Expect], then the body. *)
Definition recv_expect (p : HttpRequestParser P) : prog Conn (HttpRequestParser P) :=
  let v := GetHeader "Expect" EmptyString (data_ p) in
  if strcasecmp v "100-continue" =? 0 then
    let* _ := WriteFixSize max_len (Z.of_nat (length continue_text)) continue_text in
    ret (mkReqParser (parser_ p) (error_ p) (DelHeader "Expect" (data_ p)))
  else ret p.

Definition recv_body (length_ : Z) (data : list byte) : prog Conn (option (list byte)) :=
  let offset := Z.of_nat (length data) in
  let body := replicate (Z.to_nat length_) x00 in
  let* body := lift (store_at body 0 data) in
  let len := offset in
  let length_ := s64 (length_ - offset) in
  if 0 <? length_ then
    let* r := ReadFixSize max_len len (u64 length_) body in
    if r.1 <=? 0 then ret None else ret (Some r.2)
  else ret (Some body).

Definition finish_request (p : HttpRequestParser P) (data : list byte) : prog Conn (option HttpRequest) :=
  let length_ := s64 (GetContentLength cast p) in
  let* p := recv_expect p in
  if 0 <? length_ then
    let* b := recv_body length_ data in
    match b with
    | None => ret None
    | Some body => ret (Some (Init (set_body (text_of body) (data_ p))))
    end
  else ret (Some (Init (data_ p))).

Definition RecvRequest : prog Conn (option HttpRequest) :=
  let* c := gets id in
  let* h := recv_head execute HasError IsFinished buff_size (S (length (ready c))) new_HttpRequestParser [] in
  match h with
  | None => ret None
  | Some (p, data) => finish_request p data
  end.

Definition SendResponse (rsp : HttpResponse) : prog Conn Z :=
  let data := bytes_of (Dump_response rsp) in
  WriteFixSize max_len (Z.of_nat (length data)) data.
End Session.

(** ** The client's side *)

Section Connection.
Context {P : Type} `{Machine P} (cast : string -> option Z) (max_len buff_size : Z).

(** The part of [RecvResponse] after the head, for a response that is not chunked. *)
Definition recv_body_response (length_ : Z) (data : list byte) : prog Conn (option (list byte)) :=
  let offset := Z.of_nat (length data) in
  let body := replicate (Z.to_nat length_) x00 in
  let n := if offset <=? length_ then offset else length_ in
  let* body := lift (store_at body 0 (take (Z.to_nat n) data)) in
  let len := n in
  let length_ := s64 (length_ - offset) in
  if 0 <? length_ then
    let* r := ReadFixSize max_len len (u64 length_) body in
    if r.1 <=? 0 then Close ;; ret None else ret (Some r.2)
  else ret (Some body).

Definition finish_response (p : HttpResponseParser P) (data : list byte) : prog Conn (option HttpResponse) :=
  let length_ := s64 (GetContentLength_response cast p) in
  if 0 <? length_ then
    let* b := recv_body_response length_ data in
    match b with
    | None => ret None
    | Some body => ret (Some (rset_body (text_of body) (rdata_ p)))
    end
  else ret (Some (rdata_ p)).

Definition SendRequest (req : HttpRequest) : prog Conn Z :=
  let data := bytes_of (Dump req) in
  WriteFixSize max_len (Z.of_nat (length data)) data.
End Connection.

(** ** The body *)

Lemma s64_small z : - 2 ^ 63 <= z < 2 ^ 63 -> s64 z = z.
Proof. intros. apply wraps_small; lia. Qed.

Lemma splice_replicate (data : list byte) n :
  (length data <= n)%nat -> splice 0 data (replicate n x00) = data ++ replicate (n - length data) x00.
Proof. intros. unfold splice. rewrite take_0. cbn [app]. f_equal. by rewrite Nat.add_0_l, drop_replicate. Qed.

Section Bodies.
Context (max_len : Z) (Hmax : 0 < max_len).

(** Reading the rest of a body after [data]. *)
Lemma read_rest n data c :
  0 < n < 2 ^ 31 -> Z.of_nat (length data) < n ->
  n - Z.of_nat (length data) <= Z.of_nat (length (incoming c)) ->
  closed c = false -> lively (ready c) -> n <= Z.of_nat (length (ready c)) -> Z.of_nat (length (incoming c)) < Z.of_nat (length (ready c)) ->
  exists ks, ReadFixSize max_len (Z.of_nat (length data)) (n - Z.of_nat (length data))
      (data ++ replicate (Z.to_nat n - length data) x00) c =
    (Ok (n - Z.of_nat (length data), take (Z.to_nat n) (data ++ incoming c)),
     mkConn (drop (Z.to_nat n - length data) (incoming c)) ks (outgoing c) (closed c)).
Proof.
  intros Hn Hd Hin Hc Hl Hr Hlt. set (k := n - Z.of_nat (length data)).
  assert (Z.of_nat (length (data ++ replicate (Z.to_nat n - length data) x00)) = n) as Hlen.
  { rewrite length_app, length_replicate. lia. }
  unfold ReadFixSize, bind, gets, id.
  destruct (read_fix_ok max_len Hmax (S (length (ready c))) (Z.of_nat (length data)) 0 k k
    (data ++ replicate (Z.to_nat n - length data) x00) c) as (ks & E & _); try done; try lia.
  exists ks. rewrite E. rewrite Z.add_0_r, Nat2Z.id.
  replace (Z.to_nat k) with (Z.to_nat n - length data)%nat by lia. do 3 f_equal.
  unfold splice. rewrite take_app_le, take_ge by lia. rewrite drop_ge by (rewrite length_app, length_replicate, length_take; lia).
  rewrite app_nil_r, take_app_ge by lia. done.
Qed.

Lemma store_body n data :
  Z.of_nat (length data) <= n ->
  store_at (replicate (Z.to_nat n) x00) 0 data = Ok (data ++ replicate (Z.to_nat n - length data) x00).
Proof. intros Hd. rewrite store_at_ok by (rewrite ?length_replicate; lia). f_equal. apply splice_replicate. lia. Qed.

Lemma recv_body_ok n data c :
  0 < n < 2 ^ 31 -> Z.of_nat (length data) <= n -> n - Z.of_nat (length data) <= Z.of_nat (length (incoming c)) ->
  closed c = false -> lively (ready c) -> n <= Z.of_nat (length (ready c)) -> Z.of_nat (length (incoming c)) < Z.of_nat (length (ready c)) ->
  exists ks, recv_body max_len n data c =
    (Ok (Some (take (Z.to_nat n) (data ++ incoming c))),
     mkConn (drop (Z.to_nat n - length data) (incoming c)) ks (outgoing c) (closed c)).
Proof.
  intros Hn Hd Hin Hc Hl Hr Hlt. unfold recv_body. rewrite store_body by done. unfold bind at 1, lift.
  rewrite s64_small by lia. destruct (Z.ltb_spec 0 (n - Z.of_nat (length data))) as [Hpos|Hz].
  - destruct (read_rest n data c Hn ltac:(lia) Hin Hc Hl Hr Hlt) as (ks & E). exists ks.
    unfold u64. rewrite wrapu_small by lia. rewrite (bind_ok _ _ _ _ _ E). cbn [fst snd].
    rewrite (proj2 (Z.leb_gt _ _)) by lia. done.
  - exists (ready c). assert (length data = Z.to_nat n) as El by lia. unfold ret.
    rewrite El, Nat.sub_diag, app_nil_r, drop_0. rewrite take_app_le, take_ge by lia. by destruct c.
Qed.

(** Bytes of the next message in the buffer overrun the body. *)
Lemma recv_body_overrun n data c :
  0 < n -> n < Z.of_nat (length data) -> recv_body max_len n data c = (Fail undefined, c).
Proof.
  intros Hn Hd. unfold recv_body, bind, lift, store_at. destruct data as [|b data]; [cbn in Hd; lia|].
  rewrite length_replicate, (proj2 (Z.leb_gt _ _)) by lia. done.
Qed.

Lemma recv_body_response_ok n data c :
  0 < n < 2 ^ 31 -> Z.of_nat (length data) < 2 ^ 31 -> n <= Z.of_nat (length data + length (incoming c)) ->
  closed c = false -> lively (ready c) -> n <= Z.of_nat (length (ready c)) -> Z.of_nat (length (incoming c)) < Z.of_nat (length (ready c)) ->
  exists c', recv_body_response max_len n data c = (Ok (Some (take (Z.to_nat n) (data ++ incoming c))), c').
Proof.
  intros Hn Hd Hin Hc Hl Hr Hlt. unfold recv_body_response.
  destruct (Z.leb_spec (Z.of_nat (length data)) n) as [Hle|Hgt].
  - rewrite Nat2Z.id, (take_ge data) by lia. rewrite store_body by done. unfold bind at 1, lift.
    rewrite s64_small by lia. destruct (Z.ltb_spec 0 (n - Z.of_nat (length data))) as [Hpos|Hz].
    + destruct (read_rest n data c Hn ltac:(lia) ltac:(lia) Hc Hl Hr Hlt) as (ks & E). eexists.
      unfold u64. rewrite wrapu_small by lia. rewrite (bind_ok _ _ _ _ _ E). cbn [fst snd].
      rewrite (proj2 (Z.leb_gt _ _)) by lia. done.
    + eexists. assert (length data = Z.to_nat n) as El by lia. unfold ret.
      rewrite El, Nat.sub_diag, app_nil_r. rewrite take_app_le, take_ge by lia. done.
  - rewrite store_body by (rewrite length_take; lia). unfold bind at 1, lift.
    rewrite s64_small, (proj2 (Z.ltb_ge _ _)) by lia. eexists. unfold ret.
    rewrite length_take, Nat.min_l, Nat.sub_diag, app_nil_r by lia. by rewrite take_app_le by lia.
Qed.
End Bodies.

Section Requests.
Context {P : Type} `{Machine P} (cast : string -> option Z) (max_len : Z).
Implicit Types p : HttpRequestParser P.

Definition no_expect p : Prop := strcasecmp (GetHeader "Expect" EmptyString (data_ p)) "100-continue" <> 0.

Lemma recv_expect_skip p c : no_expect p -> recv_expect max_len p c = (Ok p, c).
Proof. intros Hp. unfold recv_expect. by rewrite (proj2 (Z.eqb_neq _ _) Hp). Qed.

Lemma finish_exact p data c n :
  0 < max_len -> GetContentLength cast p = n -> 0 < n < 2 ^ 31 -> no_expect p ->
  Z.of_nat (length data) <= n -> n - Z.of_nat (length data) <= Z.of_nat (length (incoming c)) ->
  closed c = false -> lively (ready c) -> n <= Z.of_nat (length (ready c)) -> Z.of_nat (length (incoming c)) < Z.of_nat (length (ready c)) ->
  exists ks, finish_request cast max_len p data c =
    (Ok (Some (Init (set_body (text_of (take (Z.to_nat n) (data ++ incoming c))) (data_ p)))),
     mkConn (drop (Z.to_nat n - length data) (incoming c)) ks (outgoing c) (closed c)).
Proof.
  intros Hm Hn Hr He Hd Hin Hc Hl Hk Hlt. unfold finish_request. rewrite Hn, s64_small by lia.
  rewrite (bind_ok _ _ _ _ _ (recv_expect_skip p c He)), (proj2 (Z.ltb_lt 0 n)) by lia.
  destruct (recv_body_ok max_len Hm n data c Hr Hd Hin Hc Hl Hk Hlt) as (ks & E). exists ks.
  by rewrite (bind_ok _ _ _ _ _ E).
Qed.


(** When more than the body is already in the buffer, as with a request that
    follows at once, all of it is copied into the body, which is too small for it:
    the server writes past the end of the string. *)
Theorem request_body_overrun p data c n :
  GetContentLength cast p = n -> 0 < n < 2 ^ 31 -> no_expect p -> n < Z.of_nat (length data) ->
  finish_request cast max_len p data c = (Fail undefined, c).
Proof.
  intros Hn Hr He Hd. unfold finish_request. rewrite Hn, s64_small by lia.
  rewrite (bind_ok _ _ _ _ _ (recv_expect_skip p c He)), (proj2 (Z.ltb_lt 0 n)) by lia.
  by rewrite (bind_fail _ _ _ _ _ (recv_body_overrun max_len n data c ltac:(lia) Hd)).
Qed.
End Requests.

Section Responses.
Context {P : Type} `{Machine P} (cast : string -> option Z) (max_len : Z).

(** The client copies no more than the body, however much is in the buffer. *)
Theorem response_body_exact (p : HttpResponseParser P) data c n :
  0 < max_len -> GetContentLength_response cast p = n -> 0 < n < 2 ^ 31 -> Z.of_nat (length data) < 2 ^ 31 ->
  n <= Z.of_nat (length data + length (incoming c)) ->
  closed c = false -> lively (ready c) -> n <= Z.of_nat (length (ready c)) -> Z.of_nat (length (incoming c)) < Z.of_nat (length (ready c)) ->
  exists c', finish_response cast max_len p data c =
    (Ok (Some (rset_body (text_of (take (Z.to_nat n) (data ++ incoming c))) (rdata_ p))), c').
Proof.
  intros Hm Hn Hr Hd Hin Hc Hl Hk Hlt. unfold finish_response. rewrite Hn, s64_small by lia.
  rewrite (proj2 (Z.ltb_lt 0 n)) by lia.
  destruct (recv_body_response_ok max_len Hm n data c Hr Hd Hin Hc Hl Hk Hlt) as (c' & E). exists c'.
  by rewrite (bind_ok _ _ _ _ _ E).
Qed.

(** A response sent over a connection that takes its bytes in whatever pieces
    arrives whole: what the peer receives reads back as its status line, its headers
    and its body. *)
Theorem sent_response_reads_back r c :
  0 < max_len -> Z.of_nat (String.length (Dump_response r)) < 2 ^ 31 -> outgoing c = [] -> closed c = false -> lively (ready c) ->
  Z.of_nat (String.length (Dump_response r)) <= Z.of_nat (length (ready c)) ->
  lacks CR (status_line r) = true -> Forall clean_header (rheaders_ r) ->
  exists n c', SendResponse max_len r c = (Ok n, c') /\ 0 < n /\
    read_message (text_of (outgoing c')) =
      message (status_line r)
        (printed (rheaders_ r) ++ ("connection", connection_text (rclose_ r)) :: length_header (rbody_ r)) (rbody_ r).
Proof.
  intros Hm Hd Ho Hc Hl Hk Hs Hh. unfold SendResponse, WriteFixSize, bind, gets, id. rewrite bytes_of_length.
  destruct (write_fix_ok max_len (S (length (ready c))) 0 (Z.of_nat (String.length (Dump_response r)))
    (Z.of_nat (String.length (Dump_response r))) (bytes_of (Dump_response r)) c) as (ks & E); try done; try lia.
  { rewrite bytes_of_length. lia. }
  eexists _, _. split; [exact E|]. split.
  - unfold Dump_response. rewrite !str_length_app. cbn. lia.
  - cbn [outgoing]. rewrite Ho. cbn [app]. unfold slice. rewrite drop_0, take_ge by (rewrite bytes_of_length; lia).
    rewrite text_of_bytes. by apply response_read.
Qed.
End Responses.

(** ** Whatever the connection does *)

Lemma recv_head_run {Q} (exec : Q -> string -> result (Q * nat)) has_error is_finished buff_size fuel p left_ c r c' :
  closed c = false -> (length (ready c) < fuel)%nat ->
  recv_head exec has_error is_finished buff_size fuel p left_ c = (r, c') ->
  outgoing c' = outgoing c /\
  ((exists x, r = Ok (Some x) /\ later c c' /\ (length (ready c') < length (ready c))%nat) \/
   r = Ok None \/ (r = Fail out_of_fuel /\ ready c' = []) \/ exists q s e, exec q s = Fail e /\ r = Fail e).
Proof.
  revert p left_ c. induction fuel as [|fuel IH]; intros p left_ c Hc Hf; [lia|]. cbn [recv_head]. unfold bind at 1.
  destruct (recv_sock _ c) as [r1 c1] eqn:E1.
  destruct (recv_sock_run _ _ _ _ Hc E1) as (L1 & O1 & [[-> R1]|(x & -> & R1)]); [intros [= <- <-]; tauto|].
  destruct (x.1 <=? 0); [intros [= <- <-]; tauto|]. unfold bind, lift.
  destruct (exec p (text_of (left_ ++ x.2))) as [[q n]|e] eqn:Ex; [|intros [= <- <-]; split; [done|]; do 3 right; by eexists _, _, _].
  destruct (has_error q); [intros [= <- <-]; tauto|].
  destruct (_ =? s32 buff_size); [intros [= <- <-]; tauto|].
  destruct (is_finished q); [intros [= <- <-]; split; [done|]; left; eexists; split_and!; [done|done|lia]|].
  intros E. apply IH in E as (O2 & Hr); [|by rewrite (proj1 L1)|lia]. split; [congruence|].
  destruct Hr as [(y & -> & L2 & R2)|Hr]; [left|by right]. exists y. split_and!; [done|by transitivity c1|lia].
Qed.

(** What the server may have said before a request is complete. *)
Definition interim_answer (b : bool) : list byte := if b then continue_text else [].

Section Receiving.
Context {P : Type} `{Machine P} (cast : string -> option Z) (max_len buff_size : Z) (Hmax : 0 < max_len).
Implicit Types p : HttpRequestParser P.

(** The machine, or what it called, threw. *)
Definition parser_fails (e : failure) : Prop := exists m s, machine_execute m s = Fail e.

Lemma execute_fails p s e : execute p s = Fail e -> parser_fails e.
Proof using Type.
  unfold execute. destruct (machine_execute (parser_ p) s) as [[[m n] es]|e'] eqn:E; [by destruct (fold_left _ _ _)|].
  intros [= <-]. by eexists _, _.
Qed.

Lemma recv_expect_run p c r c' :
  closed c = false -> lively (ready c) -> recv_expect max_len p c = (r, c') ->
  later c c' /\ (is_ok r = true /\ (exists b, outgoing c' = outgoing c ++ interim_answer b) \/
                  r = Fail out_of_fuel /\ ready c' = []).
Proof using Hmax.
  intros Hc Hl. unfold recv_expect. destruct (_ =? 0).
  - unfold bind. destruct (WriteFixSize _ _ _ c) as [r1 c1] eqn:E1.
    apply WriteFixSize_run in E1 as (L & Hr); try done. destruct Hr as [[Hok Ho]|[-> Hr]].
    + destruct r1; [|done]. intros [= <- <-]. split; [done|left]. split; [done|by exists true].
    + intros [= <- <-]. split; [done|by right].
  - intros [= <- <-]. split; [done|left]. split; [done|]. exists false. cbn. by rewrite app_nil_r.
Qed.

Lemma recv_body_run length_ data c r c' :
  closed c = false -> recv_body max_len length_ data c = (r, c') ->
  later c c' /\ outgoing c' = outgoing c /\
  (is_ok r = true \/ r = Fail out_of_fuel /\ ready c' = [] \/ r = Fail undefined).
Proof using Type.
  intros Hc. unfold recv_body, bind at 1, lift. destruct (store_at _ 0 data) as [d|e] eqn:Es.
  - destruct (0 <? _); [|intros [= <- <-]; split; [done|tauto]].
    unfold bind. destruct (ReadFixSize _ _ _ _ c) as [r1 c1] eqn:E1.
    apply ReadFixSize_run in E1 as (L & O & Hr); [|done].
    destruct r1 as [x|e]; [destruct (x.1 <=? 0); intros [= <- <-]; by split_and!; [| |left]|].
    intros [= <- <-]. split_and!; try done. destruct Hr as [|[[[= ->] ?]|[= ->]]]; tauto.
  - intros [= <- <-]. split_and!; try done. right. right. unfold store_at in Es. destruct data; [done|].
    destruct (_ <=? _); congruence.
Qed.

Lemma RecvRequest_run c r c' :
  closed c = false -> lively (ready c) -> RecvRequest cast max_len buff_size c = (r, c') ->
  (exists req b, r = Ok (Some req) /\ later c c' /\ (length (ready c') < length (ready c))%nat /\
     outgoing c' = outgoing c ++ interim_answer b) \/
  (exists b, r = Ok None /\ outgoing c' = outgoing c ++ interim_answer b) \/
  (r = Fail out_of_fuel /\ ready c' = []) \/ r = Fail undefined \/ exists e, r = Fail e /\ parser_fails e.
Proof using Hmax.
  intros Hc Hl. unfold RecvRequest. unfold bind at 1, gets, id. unfold bind at 1.
  destruct (recv_head _ _ _ _ _ _ _ c) as [r1 c1] eqn:E1.
  apply recv_head_run in E1 as (O1 & Hr1); [|done|lia].
  destruct Hr1 as [([p data] & -> & L1 & R1)|[->|[[-> R1]|(q & s & e & Ex & ->)]]].
  2: { intros [= <- <-]. right. left. exists false. cbn. by rewrite app_nil_r. }
  2: { intros [= <- <-]. tauto. }
  2: { intros [= <- <-]. do 4 right. exists e. split; [done|by eapply execute_fails]. }
  unfold finish_request. unfold bind at 1. destruct (recv_expect max_len p c1) as [r2 c2] eqn:E2.
  assert (closed c1 = false) as Hc1 by (by rewrite (proj1 L1)).
  apply recv_expect_run in E2 as (L2 & Hr2); [|done|by apply (later_lively c)].
  pose proof (later_length _ _ L2). destruct Hr2 as [[Hok (b & O2)]|[-> R2]]; [|intros [= <- <-]; tauto].
  destruct r2 as [p2|]; [|done]. rewrite O1 in O2.
  destruct (0 <? _); [|intros [= <- <-]; left; eexists _, b; split_and!; [done|by transitivity c1|lia|done]].
  unfold bind. destruct (recv_body _ _ _ c2) as [r3 c3] eqn:E3.
  apply recv_body_run in E3 as (L3 & O3 & Hr3); [|by rewrite (proj1 L2)]. pose proof (later_length _ _ L3).
  destruct Hr3 as [Hok3|[[-> R3]| ->]]; [|intros [= <- <-]; tauto..].
  destruct r3 as [[body|]|]; [| |done]; intros [= <- <-].
  - left. eexists _, b. split_and!; [done|by transitivity c1; [|transitivity c2]|lia|by rewrite O3].
  - right. left. exists b. split; [done|by rewrite O3].
Qed.
End Receiving.

(** ** A machine, and the theorems at work *)

(** The words of a start line. *)
Fixpoint first_word (s : string) : string * string :=
  match s with
  | EmptyString => (EmptyString, EmptyString)
  | String c s => if Ascii.eqb c (Ascii.ascii_of_nat 32) then (EmptyString, s) else let '(w, r) := first_word s in (String c w, r)
  end.

(** A machine that waits for the whole head and then reports it. *)
Definition whole_head (finished : bool) (s : string) : result (bool * nat * list callback) :=
  match read_message s with
  | None => Ok (finished, 0%nat, [])
  | Some (start, fs, body) =>
      let '(_, r) := first_word start in
      let '(path, version) := first_word r in
      Ok (true, (String.length s - String.length body)%nat,
          [request_method start; request_path path; http_version version (String.length version)] ++
          map (fun f => http_field f.1 f.2) fs ++ [header_done])
  end.

#[local] Program Instance whole_head_machine : Machine bool :=
  {| machine_init := false; machine_execute := whole_head; machine_finish b := b; machine_has_error _ := false |}.
Next Obligation.
  intros p s q n es. unfold whole_head. destruct (read_message s) as [[[start fs] body]|]; [|intros [= <- <- <-]; lia].
  destruct (first_word start), (first_word s1). intros [= <- <- <-]. lia.
Qed.

Definition demo_cast (s : string) : option Z := Some (atoi s).

Definition demo_post : string :=
  "POST /a HTTP/1.1" +:+ CRLF +:+ "Content-Length: 3" +:+ CRLF +:+ CRLF +:+ "abc".

(** A request that arrives in pieces, its body last. *)
Definition demo_stream (more : string) (pieces : list Z) : Conn := mkConn (bytes_of (demo_post +:+ more)) pieces [] false.

Example receive_in_pieces :
  let r := (RecvRequest demo_cast 16384 4096 (demo_stream EmptyString [10; 25; 5; 1; 1])).1 in
  match r with
  | Ok (Some req) => method_ req = POST /\ path_ req = "/a" /\ body_ req = "abc" /\ GetHeader "CONTENT-LENGTH" EmptyString req = "3"
  | _ => False
  end.
Proof. vm_compute. done. Qed.

(** The parser after the head of [demo_post]. *)
Definition demo_head : HttpRequestParser bool :=
  match execute new_HttpRequestParser demo_post with Ok (p, _) => p | Fail _ => new_HttpRequestParser end.


Lemma request_body_overrun_witness :
  finish_request demo_cast 16384 demo_head (bytes_of "abcGET / HTTP/1.1") (mkConn [] [] [] false) =
    (Fail undefined, mkConn [] [] [] false).
Proof.
  apply (request_body_overrun demo_cast 16384 demo_head (bytes_of "abcGET / HTTP/1.1") (mkConn [] [] [] false) 3);
    try (vm_compute; intuition discriminate); try reflexivity; lia.
Defined.

Definition demo_response_head : HttpResponseParser bool :=
  mkRspParser true 0 (rSetHeader "content-length" "3" (new_HttpResponse 17 true)).

Lemma response_body_exact_witness :
  exists c', finish_response demo_cast 16384 demo_response_head (bytes_of "abcHTTP/1.1") (mkConn [] [1; 1; 1] [] false) =
    (Ok (Some (rset_body "abc" (rdata_ demo_response_head))), c').
Proof.
  apply (response_body_exact demo_cast 16384 demo_response_head (bytes_of "abcHTTP/1.1") (mkConn [] [1; 1; 1] [] false) 3);
    try (vm_compute; intuition discriminate); try reflexivity; try lia.
  repeat constructor.
Defined.

Lemma sent_response_reads_back_witness :
  let r := rset_body "hello" (new_HttpResponse 17 true) in
  exists n c', SendResponse 16 r (mkConn [] (replicate 100 7) [] false) = (Ok n, c') /\ 0 < n /\
    read_message (text_of (outgoing c')) =
      message "HTTP/1.1 200 OK" [("connection", "close"); ("content-length", "5")] "hello".
Proof.
  apply (sent_response_reads_back 16 (rset_body "hello" (new_HttpResponse 17 true)) (mkConn [] (replicate 100 7) [] false));
    try (vm_compute; intuition discriminate); try reflexivity; try lia.
  - apply Forall_replicate. lia.
  - constructor.
Defined.
