(* ===== verification/HttpWire.v ===== *)
(** * A request over the wire

    The request a client prints, read by the machine of [http11_parser.rl] and received by
    [HttpSession::RecvRequest]. *)

From S2P Require Import Prelude OrderedMap Ragel Http HttpParser HttpGrammar HttpRead Stream HttpSession.
From stdpp Require Import base numbers list strings pretty.
From Stdlib Require Import NArith ZArith Lia Ascii Strings.Byte.
Open Scope Z_scope.
Open Scope prog_scope.
Import HttpStates.
#[local] Abbreviation chars := String.list_ascii_of_string.
#[local] Abbreviation text := String.string_of_list_ascii.

(** ** The machine *)

#[global] Program Instance http_machine `{Uninit} : Machine http_parser :=
  {| machine_init := http_parser_init; machine_execute := http_parser_execute;
     machine_finish p := negb (http_parser_finish p =? 0); machine_has_error := http_parser_has_error |}.
Next Obligation.
  intros U p s q n es. unfold http_parser_execute. assert (length (chars s) = String.length s) as <- by (by induction s as [|c s IH]; cbn; [|rewrite IH]).
  destruct (_ =? 0); [intros [= _ <- _]; lia|]. destruct (negb _); [done|]. destruct (exec _ _ _) as [[[o i] [p' es']]|]; [|done].
  destruct (_ && _) eqn:E; [|done]. intros [= _ <- _]. rewrite !andb_true_iff, !Z.leb_le in E. cbn [nread set_nread] in E. lia.
Qed.

(** The head at the front of the text is read, and nothing behind it. *)
Lemma execute_head `{Uninit} h rest : head_ok h -> Z.of_nat (length (head_chars h ++ rest)) < 2 ^ 31 ->
  exists p u v, http_parser_execute http_parser_init (text (head_chars h ++ rest)) =
      Ok (p, length (head_chars h), head_callbacks (head_chars h ++ rest) h u v) /\ http_parser_finish p = 1.
Proof.
  intros Hh Hlen. set (buffer := head_chars h ++ rest) in *.
  assert (chars (text buffer) = buffer) as Hbuf by apply String.list_ascii_of_string_of_list_ascii.
  pose proof (execute_asserts http_parser_init (text buffer) eq_refl) as Ha.
  assert (String.length (text buffer) = length buffer) as El by (generalize buffer; induction buffer0 as [|c s IH]; cbn; [|rewrite IH]; done).
  rewrite El in Ha. specialize (Ha Hlen). unfold http_parser_execute in Ha |- *. rewrite Hbuf in Ha |- *.
  assert (0 < length (head_chars h))%nat as Hpos by (unfold head_chars; rewrite length_app; cbn; lia).
  assert ((Z.of_nat (length buffer) =? 0) = false) as E0 by (apply Z.eqb_neq; unfold buffer; rewrite length_app; lia).
  rewrite E0 in Ha |- *. unfold s32 in Ha |- *. rewrite wraps_small, Z.eqb_refl in Ha |- * by lia. cbn [negb] in Ha |- *.
  set (p0 := set_field_start 0 _) in *.
  destruct (go_head buffer Hlen h rest p0 Hh eq_refl) as (s' & p' & u & v & Hacc & [s0 Hcs] & E); [by repeat split; eexists|].
  unfold exec in Ha |- *. change (cs p0) with (Some [HttpGrammar.main]) in Ha |- *. cbn [exec] in Ha |- *. rewrite E in Ha |- *.
  assert (http_parser_has_error p' = false) as He by (unfold http_parser_has_error; by rewrite Hcs). rewrite He in Ha |- *.
  destruct (_ && _) in Ha |- *; [|done]. exists (set_nread (Z.of_nat (length (head_chars h))) (set_cs (Some s') p')), u, v. split; [done|].
  unfold http_parser_finish, http_parser_has_error, http_parser_is_finished. cbn [cs set_nread set_cs]. by rewrite Hacc.
Qed.

(** ** What a client prints *)

Section Printed.
Context `{U : Uninit}.

(** A header that the machine can read back: a token, and a value without control
    characters that does not begin with a blank. *)
Definition plain_header (f : string * string) : Prop :=
  f.1 <> EmptyString /\ Forall (fun x => mem name_c x = true) (chars f.1) /\ value_text (chars f.2).

Record printable (r : HttpRequest) : Prop := {
  pr_method : method_ r ∈ methods;
  pr_path : matches HttpGrammar.path_absolute (chars (path_ r));
  pr_query : matches HttpGrammar.query (chars (query_ r));
  pr_fragment : matches HttpGrammar.fragment (chars (fragment_ r));
  pr_version : version_ r = 16 \/ version_ r = 17;
  pr_headers : Forall plain_header (headers_ r) }.

(** The headers in the order in which they are printed. *)
Definition sent_headers (r : HttpRequest) : MapType :=
  ("connection", connection_text (close_ r)) :: printed (headers_ r) ++ length_header (body_ r).

Definition as_field (pad : list ascii) (f : string * string) : field := mkField (chars f.1) pad (chars f.2).

Definition request_head (r : HttpRequest) : message_head :=
  mkHead (method_ r) (drop 1 (chars (path_ r))) (chars (query_ r)) (chars (fragment_ r)) (if version_ r =? 17 then "1"%char else "0"%char)
    (as_field [" "%char] ("connection", connection_text (close_ r)) :: map (as_field []) (printed (headers_ r)) ++
     map (as_field [" "%char]) (length_header (body_ r))).

Lemma tag_chars x s : chars ((if nonempty s then String x EmptyString else EmptyString) +:+ s) = tag x (chars s).
Proof using Type. by destruct s. Qed.

Lemma lines_chars pad fs : chars (lines (map (fun f => (f.1, text pad +:+ f.2)) fs)) = concat (map field_line (map (as_field pad) fs)).
Proof using Type.
  induction fs as [|[k v] fs IH]; [done|]. cbn [map lines fst snd concat]. rewrite !chars_app, IH, String.list_ascii_of_string_of_list_ascii.
  unfold field_line, as_field. cbn [f_name f_pad f_value fst snd]. by flat.
Qed.

Lemma version_chars_text v : v = 16 \/ v = 17 -> chars (version_text v) = version_chars (if v =? 17 then "1"%char else "0"%char).
Proof using Type. by intros [->| ->]. Qed.

(** The path begins with a slash; the rest is segments. *)
Lemma path_absolute_text w : matches HttpGrammar.path_absolute w -> exists v, w = "/"%char :: v /\ path_text v.
Proof using Type.
  intros (v0 & H0 & v & -> & Hv)%cat_split. inversion H0 as [|? x Hx| | | | | | | | | | | |]; subst.
  assert (x = "/"%char) as ->.
  { unfold mem in Hx. cbn in Hx. rewrite orb_false_r, andb_true_iff, !N.leb_le in Hx.
    rewrite <- (ascii_N_embedding x), <- (ascii_N_embedding "/"%char). f_equal. cbn. lia. }
  exists v. split; [done|]. inversion Hv as [| | | |? ? ? H1|? ? ? H1| | | | | | | |]; subst; [right|left; by inversion H1].
  apply cat_split in H1 as (v1 & (va & Ha & vb & -> & Hb)%cat_split & vc & -> & Hc).
  assert (made pchar_units va) as Hua.
  { apply (covers_made _ HttpGrammar.pchar); [|exact Ha]. destruct U as [[] ?]; reflexivity. }
  assert (va <> []) as Hne.
  { intros ->. apply final_matches in Ha. destruct U as [[] ?]; done. }
  assert (made path_units vb /\ made path_units vc) as [Hub Huc].
  { split; [refine (covers_made _ _ _ _ Hb)|refine (covers_made _ _ _ _ Hc)]; destruct U as [[] ?]; reflexivity. }
  destruct Hua as [|u v1 v2 Hu Hs Hm]; [done|]. exists u, v1, (v2 ++ vb ++ vc). split_and!; [done|done| |by rewrite <- !app_assoc].
  apply made_cat; [|by apply made_cat]. clear -Hm. induction Hm as [|u v w Hu Hs Hm IH]; [constructor|]. apply (made_app _ u); [by right|done|done].
Qed.

Lemma dump_head r : printable r -> chars (Dump r) = head_chars (request_head r) ++ chars (body_ r).
Proof using Type.
  intros [_ Hp _ _ Hv _]. apply path_absolute_text in Hp as (w & Ew & _).
  unfold Dump, request_line. rewrite body_part_eq. change (header_lines ":" (headers_ r)) with (header_lines (":" +:+ EmptyString) (headers_ r)).
  rewrite header_lines_eq. unfold head_chars, request_head. cbn [h_method h_path h_query h_fragment h_digit h_fields]. rewrite Ew. cbn [drop].
  rewrite <- !str_app_assoc. rewrite !chars_app. rewrite <- (tag_chars "?"), <- (tag_chars "#"), !chars_app.
  rewrite (lines_chars [] _ : chars (lines (map (fun f => (f.1, EmptyString +:+ f.2)) _)) = _).
  rewrite (lines_chars [" "%char] _ : chars (lines (map (fun f => (f.1, " " +:+ f.2)) _)) = _).
  rewrite (version_chars_text _ Hv), Ew. cbn [map concat]. rewrite map_app, concat_app.
  unfold field_line at 2, as_field at 1, method_chars. cbn [f_name f_pad f_value fst snd]. flat. cbn. by flat.
Qed.

Lemma pretty_value_text n : 0 <= n -> value_text (chars (pretty n)).
Proof using Type.
  intros Hn. pose proof (pretty_digits n Hn) as Hd. assert (forall t, digits t = true -> Forall (fun x => mem value_c x = true) (chars t)) as Hall.
  { induction t as [|x t IH]; intros Ht; [constructor|]. cbn in Ht |- *. apply andb_true_iff in Ht as [Hx Ht]. constructor; [|by apply IH].
    unfold is_digit in Hx. apply andb_true_iff in Hx as [H1 H2]. rewrite Nat.leb_le in H1, H2. unfold nat_of_ascii in H1, H2.
    unfold mem, value_c. cbn [existsb fst snd]. apply orb_true_iff. left. apply andb_true_iff. rewrite !N.leb_le. lia. }
  apply Hall in Hd. destruct (chars (pretty n)) as [|x w]; [done|]. inversion Hd as [|? ? Hx Hw]; subst. split; [done|].
  apply made_chars. eapply Forall_impl; [exact Hw|]. intros y Hy. cbn [existsb]. by rewrite Hy.
Qed.

Lemma plain_field pad f : plain_header f -> Forall (fun x => mem HttpGrammar.blank x = true) pad -> field_ok (as_field pad f).
Proof using Type. destruct f as [[|x k] v]; intros (H1 & H2 & H3) Hp; [done|]. by split. Qed.

Lemma sent_plain r : printable r -> Forall plain_header (sent_headers r).
Proof using Type.
  intros Hr. apply Forall_cons. split.
  { split; [done|]. split; [by repeat constructor|]. destruct (close_ r); (split; [done|]); apply made_chars; by repeat constructor. }
  apply Forall_app. split.
  - apply Forall_forall. intros f Hf%list_elem_of_In. apply filter_In in Hf as [Hf%list_elem_of_In _].
    exact (proj1 (Forall_forall _ _) (pr_headers r Hr) f Hf).
  - unfold length_header. destruct (nonempty (body_ r)); [|constructor]. apply Forall_singleton. split; [done|]. split; [by repeat constructor|].
    apply pretty_value_text. lia.
Qed.

Lemma request_head_ok r : printable r -> head_ok (request_head r).
Proof using Type.
  intros Hr. pose proof (sent_plain r Hr) as Hs. destruct Hr as [Hm Hp Hq Hf Hv _]. unfold head_ok, request_head. cbn [h_method h_path h_query h_fragment h_digit h_fields].
  apply path_absolute_text in Hp as (w & -> & Hw). split_and!; [done|done| | | |].
  - refine (covers_made _ _ _ _ Hq). destruct U as [[] ?]; reflexivity.
  - refine (covers_made _ _ _ _ Hf). destruct U as [[] ?]; reflexivity.
  - by destruct (version_ r =? 17).
  - unfold sent_headers in Hs. apply Forall_cons in Hs as [H1 [H2 H3]%Forall_app]. apply Forall_cons. split; [apply plain_field; [exact H1|by repeat constructor]|].
    apply Forall_app. split; apply Forall_map; (eapply Forall_impl; [eassumption|]); intros f Hf'; (apply plain_field; [exact Hf'|by repeat constructor]).
Qed.

(** What the callbacks for [r] build. *)
Definition base_request (r : HttpRequest) : HttpRequest :=
  set_version (version_ r) (set_fragment (fragment_ r) (set_query (query_ r) (set_path (path_ r) (set_method (method_ r) (new_HttpRequest 17 true))))).
Definition received (r : HttpRequest) : HttpRequest := fold_left apply_hop (map (fun f => OpSet f.1 f.2) (sent_headers r)) (base_request r).

Lemma field_callbacks pad fs : map field_callback (map (as_field pad) fs) = map (fun f => http_field f.1 f.2) fs.
Proof using Type.
  induction fs as [|[k v] fs IH]; [done|]. cbn [map]. rewrite IH. unfold field_callback, as_field. cbn [f_name f_value fst snd].
  by rewrite !String.string_of_list_ascii_of_string.
Qed.

Lemma methods_valid m : m ∈ methods -> m <> INVALID_METHOD.
Proof using Type. intros Hm%list_elem_of_In ->. cbn in Hm. intuition discriminate. Qed.

Lemma callbacks_received r rest u v : printable r ->
  fold_left (fun s e => on_request e s) (head_callbacks (head_chars (request_head r) ++ rest) (request_head r) u v) (0, new_HttpRequest 17 true) = (0, received r).
Proof using Type.
  intros Hr. pose proof (sent_plain r Hr) as Hs. destruct Hr as [Hm Hp _ _ Hv _]. apply path_absolute_text in Hp as (w & Ew & _).
  unfold head_callbacks. set (buf := head_chars (request_head r) ++ rest).
  assert (text ("/"%char :: h_path (request_head r)) = path_ r) as ->.
  { unfold request_head. cbn [h_path]. rewrite Ew. cbn [drop]. rewrite drop_0, <- Ew. apply String.string_of_list_ascii_of_string. }
  assert (CharsToHttpMethod (text buf) = method_ r) as Em.
  { unfold buf, head_chars, request_head. cbn [h_method]. rewrite <- app_assoc, text_app. unfold method_chars.
    rewrite String.string_of_list_ascii_of_string. by apply CharsToHttpMethod_name, methods_valid. }
  clearbody buf. unfold request_head. cbn [h_query h_fragment h_digit h_fields map fold_left]. cbn [on_request]. rewrite Em, decide_False by by apply methods_valid.
  rewrite fold_left_app. cbn [fold_left]. rewrite fold_left_app. cbn [fold_left]. rewrite fold_left_app. cbn [fold_left].
  assert (map field_callback (map (as_field []) (printed (headers_ r)) ++ map (as_field [" "%char]) (length_header (body_ r))) =
    map (fun f => http_field f.1 f.2) (printed (headers_ r) ++ length_header (body_ r))) as -> by by rewrite map_app, !field_callbacks, map_app.
  assert (field_callback (as_field [" "%char] ("connection", connection_text (close_ r))) = http_field "connection" (connection_text (close_ r))) as -> by (by destruct (close_ r)).
  match goal with |- on_request header_done (fold_left _ (map _ ?l) (on_request (http_field ?k ?v) ?st)) = _ =>
    change (on_request header_done (fold_left (fun s e => on_request e s) (map (fun f => http_field f.1 f.2) ((k, v) :: l)) st) = (0, received r));
    assert (st = (0, base_request r)) as ->
  end.
  { destruct Hv as [Ev|Ev]; rewrite Ev; destruct (query_ r) as [|x q] eqn:Eq, (fragment_ r) as [|y f] eqn:Ef;
      cbn [String.list_ascii_of_string query_callback fragment_callback fold_left on_request];
      unfold base_request; rewrite ?Eq, ?Ef, ?Ev; cbn; rewrite ?String.string_of_list_ascii_of_string; reflexivity. }
  rewrite on_request_fields; [done|]. unfold sent_headers in Hs. eapply Forall_impl; [exact Hs|]. by intros f [? _].
Qed.
End Printed.

(** ** What the server receives *)

Section Received.
Context `{U : Uninit}.

(** The value last given to a name by the entries of a map. *)
Lemma last_of_map key m acc : map_ok CaseInsensitiveLess m ->
  fold_left (last_value key) (map (fun f => OpSet f.1 f.2) m) acc = match find_header key m with Some v => Some v | None => acc end.
Proof using Type.
  intros Hm. revert acc. induction Hm as [|[k v] m Hm IH Hall]; intros acc; [done|]. cbn [map fold_left last_value fst snd]. rewrite IH.
  unfold find_header in *. cbn [map_find]. rewrite <- equiv_header. destruct (equiv_key CaseInsensitiveLess key k) eqn:E.
  - rewrite (map_find_above CaseInsensitiveLess key k v m Hall) by tauto. unfold equiv_key in E. apply negb_true_iff, orb_false_iff in E as [-> ->]. done.
  - unfold equiv_key in E. apply negb_false_iff, orb_true_iff in E as [E|E].
    + rewrite (less_asym CaseInsensitiveLess _ _ E), E. by rewrite (map_find_above CaseInsensitiveLess key k v m Hall) by tauto.
    + by rewrite E.
Qed.

(** Names that [Dump] writes itself. *)
Definition own_name (key : string) : bool := (strcasecmp key "connection" =? 0) || (strcasecmp key "content-length" =? 0).

Lemma same_key key k k' : strcasecmp key k = 0 -> strcasecmp k k' = 0 -> strcasecmp key k' = 0.
Proof using Type.
  intros H1 H2. pose proof (strcasecmp_trans key k k' ltac:(lia) ltac:(lia)) as [H3 _].
  pose proof (strcasecmp_antisym key k). pose proof (strcasecmp_antisym k k'). pose proof (strcasecmp_antisym key k').
  pose proof (strcasecmp_trans k' k key ltac:(lia) ltac:(lia)) as [H9 _]. lia.
Qed.

Lemma last_printed key m acc : strcasecmp key "connection" <> 0 ->
  fold_left (last_value key) (map (fun f => OpSet f.1 f.2) (printed m)) acc = fold_left (last_value key) (map (fun f => OpSet f.1 f.2) m) acc.
Proof using Type.
  intros Hk. revert acc. induction m as [|[k v] m IH]; intros acc; [done|]. cbn [printed List.filter fst]. fold (printed m).
  destruct (Z.eqb_spec (strcasecmp k "connection") 0) as [E|E]; cbn [negb map fold_left last_value fst snd]; rewrite IH; [|done].
  destruct (Z.eqb_spec (strcasecmp key k) 0) as [E'|]; [|done]. by destruct Hk; apply (same_key key k).
Qed.

Lemma received_headers key r : map_ok CaseInsensitiveLess (headers_ r) ->
  find_header key (headers_ (received r)) =
    if (strcasecmp key "content-length" =? 0) && nonempty (body_ r) then Some (pretty (Z.of_nat (String.length (body_ r))))
    else if strcasecmp key "connection" =? 0 then Some (connection_text (close_ r)) else find_header key (headers_ r).
Proof using Type.
  intros Hm. unfold received. destruct (apply_hops (map (fun f => OpSet f.1 f.2) (sent_headers r)) (base_request r) key) as [_ ->]; [constructor|].
  cbn [base_request set_version headers_ set_fragment set_query set_path set_method new_HttpRequest]. unfold sent_headers. cbn [map fold_left last_value fst snd].
  rewrite map_app, fold_left_app. set (acc := if strcasecmp key "connection" =? 0 then _ else _).
  assert (fold_left (last_value key) (map (fun f => OpSet f.1 f.2) (printed (headers_ r))) acc =
    if strcasecmp key "connection" =? 0 then Some (connection_text (close_ r)) else find_header key (headers_ r)) as ->.
  { unfold acc. destruct (Z.eqb_spec (strcasecmp key "connection") 0) as [E|E].
    - clear acc Hm. induction (headers_ r) as [|[k v] m IH]; [done|]. cbn [printed List.filter fst]. fold (printed m).
      destruct (Z.eqb_spec (strcasecmp k "connection") 0) as [E'|E']; cbn [negb]; [done|]. cbn [map fold_left last_value fst snd].
      destruct (Z.eqb_spec (strcasecmp key k) 0) as [E2|]; [|done]. destruct E'. apply (same_key k key); [|done]. rewrite strcasecmp_antisym. lia.
    - rewrite last_printed by done. rewrite last_of_map by done. by destruct (find_header key (headers_ r)). }
  unfold length_header. destruct (nonempty (body_ r)); [|by rewrite andb_false_r]. cbn [map fold_left last_value fst snd]. by rewrite andb_true_r.
Qed.

Lemma received_frame r : let q := received r in
  method_ q = method_ r /\ version_ q = version_ r /\ path_ q = path_ r /\ query_ q = query_ r /\ fragment_ q = fragment_ r /\ body_ q = EmptyString.
Proof using Type.
  cbn zeta. destruct (apply_hops_frame (map (fun f => OpSet f.1 f.2) (sent_headers r)) (base_request r)) as (H1 & H2 & H3 & H4 & H5 & H6 & _). done.
Qed.

Definition head_size (r : HttpRequest) : nat := length (head_chars (request_head r)).

(** The parser on the head of [r], whatever follows. *)
Lemma execute_request r rest : printable r -> Z.of_nat (head_size r + length rest) < 2 ^ 31 ->
  exists p, execute (new_HttpRequestParser (P := http_parser)) (text (head_chars (request_head r) ++ rest)) = Ok (mkReqParser p 0 (received r), head_size r) /\
    HasError (mkReqParser p 0 (received r)) = false /\ IsFinished (mkReqParser p 0 (received r)) = true.
Proof using Type.
  intros Hr Hlen. destruct (execute_head (request_head r) rest) as (p & u & v & E & Hf); [by apply request_head_ok|by rewrite length_app|].
  exists p. unfold execute, new_HttpRequestParser. cbn [parser_ error_ data_ machine_execute machine_init http_machine]. rewrite E, callbacks_received by done.
  split; [done|]. unfold HasError, IsFinished. cbn [parser_ error_ machine_has_error machine_finish http_machine]. rewrite Hf.
  unfold http_parser_finish in Hf. destruct (http_parser_has_error p); [done|]. done.
Qed.
End Received.

Section Arrives.
Context `{U : Uninit} (cast : string -> option Z) (max_len buff_size : Z).
Context (Hcast : forall n, 0 <= n < 2 ^ 64 -> cast (pretty n) = Some n).

(** The request [q] received for [r]: everything but the headers [Dump] writes itself is as
    it was sent. *)
Definition same_request (r q : HttpRequest) : Prop :=
  method_ q = method_ r /\ version_ q = version_ r /\ path_ q = path_ r /\ query_ q = query_ r /\ fragment_ q = fragment_ r /\
  body_ q = body_ r /\ close_ q = close_ r /\ forall key def, own_name key = false -> GetHeader key def q = GetHeader key def r.

(** The request is no riddle for the server: it does not ask to be told to go on, and one
    without a body does not announce one. *)
Definition straightforward (r : HttpRequest) : Prop :=
  strcasecmp (GetHeader "Expect" EmptyString r) "100-continue" <> 0 /\
  (nonempty (body_ r) = false -> find_header "content-length" (headers_ r) = None).

Lemma received_same r b : map_ok CaseInsensitiveLess (headers_ r) -> b = body_ r -> same_request r (Init (set_body b (received r))).
Proof using Type.
  intros Hm ->. destruct (received_frame r) as (H1 & H2 & H3 & H4 & H5 & H6). unfold Init.
  assert (GetHeader "connection" EmptyString (set_body (body_ r) (received r)) = connection_text (close_ r)) as ->.
  { unfold GetHeader. cbn [headers_ set_body]. by rewrite received_headers. }
  assert (forall q, headers_ q = headers_ (received r) -> forall key def, own_name key = false -> GetHeader key def q = GetHeader key def r) as Hh.
  { intros q Hq key def [E1 E2]%orb_false_iff. unfold GetHeader. by rewrite Hq, received_headers, E1, E2. }
  destruct (close_ r) eqn:Ec; cbn [connection_text]; repeat split; try done; by apply Hh.
Qed.

Lemma received_length r : map_ok CaseInsensitiveLess (headers_ r) -> straightforward r -> Z.of_nat (String.length (body_ r)) < 2 ^ 31 ->
  forall p : http_parser, GetContentLength cast (mkReqParser p 0 (received r)) = Z.of_nat (String.length (body_ r)).
Proof using Hcast.
  intros Hm [_ Hb] Hlen p. unfold GetContentLength, GetAs. cbn [data_]. rewrite received_headers by done.
  change (strcasecmp "content-length" "content-length" =? 0) with true. change (strcasecmp "content-length" "connection" =? 0) with false. cbn [andb].
  destruct (nonempty (body_ r)) eqn:En; [by rewrite Hcast by lia|]. rewrite Hb by done. unfold nonempty in En.
  apply negb_false_iff, String.eqb_eq in En as ->. done.
Qed.

Lemma dump_bytes r : printable r -> bytes_of (Dump r) = bytes_of (text (head_chars (request_head r))) ++ bytes_of (body_ r).
Proof using Type.
  intros Hr. unfold bytes_of, String.list_byte_of_string. rewrite <- map_app. f_equal.
  rewrite String.list_ascii_of_string_of_list_ascii. by apply dump_head.
Qed.

Lemma head_bytes_size r : length (bytes_of (text (head_chars (request_head r)))) = head_size r.
Proof using Type. unfold bytes_of, String.list_byte_of_string. rewrite length_map, String.list_ascii_of_string_of_list_ascii. done. Qed.

Lemma text_of_rest l bs : text_of (bytes_of (text l) ++ bs) = text (l ++ chars (text_of bs)).
Proof using Type. rewrite text_of_app, text_app. by rewrite String.string_of_list_ascii_of_string. Qed.

(** The head, read in one piece with a part [d] of what follows. *)
Lemma recv_head_request r c k ks d more : printable r -> 0 < buff_size < 2 ^ 31 -> closed c = false -> ready c = k :: ks ->
  incoming c = bytes_of (text (head_chars (request_head r))) ++ d ++ more -> k = Z.of_nat (head_size r + length d) -> k < buff_size ->
  exists p, recv_head execute HasError IsFinished buff_size (S (length (ready c))) (new_HttpRequestParser (P := http_parser)) [] c =
    (Ok (Some (mkReqParser p 0 (received r), d)), mkConn more ks (outgoing c) false).
Proof using Type.
  intros Hr Hb Hc Hk Hin -> Hlt. destruct c as [inc rd out cl]. cbn [closed ready incoming outgoing] in *. subst rd cl inc.
  set (h := bytes_of (text (head_chars (request_head r)))). pose proof (head_bytes_size r) as Hh. fold h in Hh.
  assert (0 < head_size r)%nat as Hpos by (unfold head_size, head_chars; rewrite length_app; cbn; lia).
  destruct (execute_request r (chars (text_of d)) Hr) as (p & E & He & Hf).
  { unfold text_of, String.string_of_list_byte. rewrite String.list_ascii_of_string_of_list_ascii, length_map. lia. }
  exists p. replace (Z.of_nat (head_size r + length d)) with (Z.of_nat (length (h ++ d))) in * by (rewrite length_app; lia).
  apply recv_head_whole; try done; [by destruct h; [cbn in Hh; lia|]|]. unfold h. by rewrite text_of_rest, head_bytes_size.
Qed.

End Arrives.

(** ** Examples *)

Lemma atoi_go x t : atoi_digits 0 (pretty_N_go x t) = atoi_digits (Z.of_N x) t.
Proof.
  revert t. induction (N.lt_wf_0 x) as [x _ IH]; intros t. destruct (decide (0 < x)%N) as [Hx|Hx].
  - rewrite pretty_N_go_step by done. rewrite IH by by apply N.div_lt. assert (x mod 10 < 10)%N as Hm by by apply N.mod_lt.
    pose proof (N.div_mod x 10 ltac:(done)) as Hd. cbn [atoi_digits].
    assert (Z.of_N (N_of_ascii (pretty_N_char (x mod 10))) = Z.of_N (x mod 10) + 48) as ->.
    { destruct (x mod 10)%N as [|n]; [done|]. do 4 (destruct n as [n|n|]; try done); lia. }
    assert (Z.of_N (x mod 10) < 10) as Hz by (apply N2Z.inj_lt in Hm; exact Hm). assert (Z.of_N x = Z.of_N (x / 10) * 10 + Z.of_N (x mod 10)) as Hx' by lia.
    clear IH Hd. revert Hx' Hz. generalize (x mod 10)%N, (x / 10)%N. intros y z Hx' Hz.
    destruct (Z.leb_spec 48 (Z.of_N y + 48)), (Z.leb_spec (Z.of_N y + 48) 57); cbn [andb]; try lia. f_equal. lia.
  - assert (x = 0%N) as -> by lia. by rewrite pretty_N_go_0.
Qed.

Lemma atoi_pretty n : 0 <= n -> atoi (pretty n) = n.
Proof.
  intros Hn. destruct n as [|n|n]; [done| |lia]. change (pretty (Z.pos n)) with (pretty_N (N.pos n)). unfold pretty_N, atoi.
  rewrite decide_False by done. by rewrite atoi_go.
Qed.

Definition demo_login : HttpRequest :=
  SetHeader "Host" "example.org" (set_body "name=bob" (set_query "next=%2F" (set_path "/a/login" (set_method POST (new_HttpRequest 17 true))))).

Lemma demo_login_printable : @printable demo_uninit demo_login.
Proof.
  split; try (apply accepts_sound; vm_compute; reflexivity).
  - by do 3 right; left.
  - by right.
  - repeat constructor; try done. by apply made_chars; repeat constructor.
Qed.


(** ** Heads in pieces

    [http_parser_execute] sets its marks to the start of the buffer, which by then holds
    other bytes, or does not set them. *)

Definition in_pieces (relaxed : bool) (pieces : list string) : result (option HttpRequest) :=
  (@RecvRequest http_parser (@http_machine {| uri_relaxed := relaxed; old_query_start := 0 |}) demo_cast 16384 4096
     (mkConn (bytes_of (foldr String.append EmptyString pieces)) (map (fun s => Z.of_nat (String.length s)) pieces) [] false)).1.

(** A query cut in two: the length of the text is negative, and the constructor of the
    string throws. *)
Lemma split_query_throws : in_pieces false ["GET /?a=1"; "2 HTTP/1.1" +:+ CRLF +:+ CRLF] = Fail length_error.
Proof. vm_compute. reflexivity. Qed.

(** A path cut in two loses its first part, a header whose value is cut in two is lost, and
    one whose name is cut in two loses the first part of its name. *)
Lemma split_head_lost :
  (exists q, in_pieces false ["GET /ab"; "c HTTP/1.1" +:+ CRLF +:+ CRLF] = Ok (Some q) /\ path_ q = "c") /\
  (exists q, in_pieces false ["GET / HTTP/1.1" +:+ CRLF +:+ "Host: exam"; "ple.org" +:+ CRLF +:+ CRLF] = Ok (Some q) /\ headers_ q = []) /\
  (exists q, in_pieces false ["GET / HTTP/1.1" +:+ CRLF +:+ "Content-Len"; "gth: 5" +:+ CRLF +:+ CRLF] = Ok (Some q) /\ headers_ q = [("gth", "5")]).
Proof. split_and!; eexists; vm_compute; done. Qed.

(** Line ends are token characters: a line without a colon is taken for the beginning of
    the next name. *)
Lemma colonless_line : exists q,
  in_pieces false ["GET / HTTP/1.1" +:+ CRLF +:+ "Nonsense" +:+ CRLF +:+ "Host: a" +:+ CRLF +:+ CRLF] = Ok (Some q) /\
  headers_ q = [("Nonsense" +:+ CRLF +:+ "Host", "a")].
Proof. eexists. vm_compute. done. Qed.

(** Whether braces are allowed depends on memory that is never written. *)
Lemma relaxed_undetermined : in_pieces false ["GET /{} HTTP/1.1" +:+ CRLF +:+ CRLF] = Ok None /\
  exists q, in_pieces true ["GET /{} HTTP/1.1" +:+ CRLF +:+ CRLF] = Ok (Some q) /\ path_ q = "/{}".
Proof. split; [|eexists]; vm_compute; done. Qed.

(** The method with a hyphen is refused, and the path of an absolute URI keeps its host. *)
Lemma other_targets : in_pieces false ["M-SEARCH / HTTP/1.1" +:+ CRLF +:+ CRLF] = Ok None /\
  exists q, in_pieces false ["GET http://example.org/a HTTP/1.1" +:+ CRLF +:+ CRLF] = Ok (Some q) /\ path_ q = "//example.org/a".
Proof. split; [|eexists]; vm_compute; done. Qed.
