(* ===== verification/Servlet.v ===== *)
(** * Routing and serving: [gudov/http/servlet.cpp] and [gudov/http/http_server.cpp]

    Servlets, the table that finds the one for a path, and the loop that serves a
    client.  [fnmatch] is a parameter; the state machine of the request parser is the
    interface [Machine], which the examples take to be the one of [HttpWire]. *)

From S2P Require Import Prelude Http HttpParser Stream HttpSession HttpGrammar HttpRead HttpWire.
From stdpp Require Import base numbers list strings gmap.
From Stdlib Require Import ZArith Lia Strings.Byte.
Open Scope Z_scope.
Open Scope prog_scope.

(** ** Servlets *)

(** What a servlet is given: pointers to the request, the response and the session. *)
Record Handling := mkHandling { request : HttpRequest; response : HttpResponse; session : Conn }.

(** A servlet: its name and its [Handle]. *)
Record Servlet := mkServlet { name_ : string; handle : prog Handling Z }.

Definition set_response (f : HttpResponse -> HttpResponse) : prog Handling unit :=
  modify (fun h => mkHandling (request h) (f (response h)) (session h)).

Definition FunctionServlet (callback : prog Handling Z) : Servlet := mkServlet "FunctionServlet" callback.

Definition RSP_BODY : string :=
  "<html><head><title>404 Not Found" +:+
  "</title></head><body><center><h1>404 Not Found</h1></center>" +:+
  "<hr><center>gudov/1.0.0</center></body></html>".

Definition NotFoundServlet : Servlet := mkServlet "NotFoundServlet" (
  set_response (rset_status 404) ;;
  set_response (rSetHeader "Server" "gudov/1.0.0") ;;
  set_response (rSetHeader "Content-Type" "text/html") ;;
  set_response (rset_body RSP_BODY) ;;
  ret 0).

(** ** The routing table *)

(** A [Servlet::ptr] may be null. *)
Record ServletDispatch := mkDispatch {
  datas_ : gmap string (option Servlet);
  globs_ : list (string * option Servlet);
  default_ : option Servlet }.

Definition new_ServletDispatch : ServletDispatch := mkDispatch ∅ [] (Some NotFoundServlet).

Definition AddServlet (uri : string) (slt : option Servlet) (d : ServletDispatch) : ServletDispatch :=
  mkDispatch (<[uri := slt]> (datas_ d)) (globs_ d) (default_ d).

Definition AddServlet_callback (uri : string) (callback : prog Handling Z) (d : ServletDispatch) : ServletDispatch :=
  mkDispatch (<[uri := Some (FunctionServlet callback)]> (datas_ d)) (globs_ d) (default_ d).

(** The loop that erases the first entry of a pattern. *)
Fixpoint erase_glob (uri : string) (l : list (string * option Servlet)) : list (string * option Servlet) :=
  match l with
  | [] => []
  | it :: l => if String.eqb it.1 uri then l else it :: erase_glob uri l
  end.

Definition AddGlobServlet (uri : string) (slt : option Servlet) (d : ServletDispatch) : ServletDispatch :=
  mkDispatch (datas_ d) (erase_glob uri (globs_ d) ++ [(uri, slt)]) (default_ d).

Definition AddGlobServlet_callback (uri : string) (callback : prog Handling Z) (d : ServletDispatch) : ServletDispatch :=
  AddGlobServlet uri (Some (FunctionServlet callback)) d.

Definition DelServlet (uri : string) (d : ServletDispatch) : ServletDispatch :=
  mkDispatch (delete uri (datas_ d)) (globs_ d) (default_ d).

Definition DelGlobServlet (uri : string) (d : ServletDispatch) : ServletDispatch :=
  mkDispatch (datas_ d) (erase_glob uri (globs_ d)) (default_ d).

Definition SetDefault (v : option Servlet) (d : ServletDispatch) : ServletDispatch :=
  mkDispatch (datas_ d) (globs_ d) v.

Definition GetServlet (uri : string) (d : ServletDispatch) : option Servlet :=
  match datas_ d !! uri with Some slt => slt | None => None end.

Definition GetGlobServlet (uri : string) (d : ServletDispatch) : option Servlet :=
  match List.find (fun it => String.eqb it.1 uri) (globs_ d) with Some it => it.2 | None => None end.

Section Routing.
Context (fnmatch : string -> string -> bool).

(** [fnmatch pattern s] stands for [!fnmatch(pattern, s, 0)]. *)
Definition GetMatchedServlet (uri : string) (d : ServletDispatch) : option Servlet :=
  match datas_ d !! uri with
  | Some slt => slt
  | None =>
      match List.find (fun it => fnmatch (c_str it.1) (c_str uri)) (globs_ d) with
      | Some it => it.2
      | None => default_ d
      end
  end.

(** [ServletDispatch::Handle] *)
Definition Handle (d : ServletDispatch) : prog Handling Z :=
  let* h := gets id in
  match GetMatchedServlet (path_ (request h)) d with
  | Some slt => handle slt ;; ret 0
  | None => ret 0
  end.
End Routing.

(** ** The server *)

Section Server.
Context {P : Type} `{Machine P} (cast : string -> option Z) (max_len buff_size : Z).
Context (fnmatch : string -> string -> bool) (dispatch_ : ServletDispatch) (name : string) (is_keep_alive_ : bool).

Definition first_response (req : HttpRequest) : HttpResponse :=
  rSetHeader "Server" name (new_HttpResponse (version_ req) (close_ req || negb is_keep_alive_)).

(** A request handled: what it and its response have become. *)
Definition dispatch (req : HttpRequest) : prog Conn Handling :=
  fun c => match Handle fnmatch dispatch_ (mkHandling req (first_response req) c) with
           | (Ok _, h) => (Ok h, session h)
           | (Fail e, h) => (Fail e, session h)
           end.

(** The [do] loop of [HandleClient]. *)
Fixpoint client_loop (fuel : nat) : prog Conn unit :=
  match fuel with
  | O => fail out_of_fuel
  | S fuel =>
      let* req := RecvRequest cast max_len buff_size in
      match req with
      | None => ret tt
      | Some req =>
          let* h := dispatch req in
          let* _ := SendResponse max_len (response h) in
          if negb is_keep_alive_ || close_ (request h) then ret tt else client_loop fuel
      end
  end.

(** Every round reads at least once. *)
Definition HandleClient : prog Conn unit :=
  let* c := gets id in
  client_loop (S (length (ready c))) ;;
  Close.
End Server.

(** ** Routing by history *)

Inductive route :=
  | Exact (uri : string) (slt : option Servlet)
  | Glob (uri : string) (slt : option Servlet)
  | NoExact (uri : string)
  | NoGlob (uri : string)
  | Default (slt : option Servlet).

Definition apply_route (d : ServletDispatch) (r : route) : ServletDispatch :=
  match r with
  | Exact uri slt => AddServlet uri slt d
  | Glob uri slt => AddGlobServlet uri slt d
  | NoExact uri => DelServlet uri d
  | NoGlob uri => DelGlobServlet uri d
  | Default slt => SetDefault slt d
  end.

(** What a history says of a path, of the patterns in force, oldest first, and of the
    default; nothing here is kept up to date step by step. *)
Definition touches_exact (uri : string) (r : route) : bool :=
  match r with Exact u _ | NoExact u => String.eqb u uri | _ => false end.
Definition touches_glob (uri : string) (r : route) : bool :=
  match r with Glob u _ | NoGlob u => String.eqb u uri | _ => false end.

Definition exact_now (uri : string) (rs : list route) : option (option Servlet) :=
  match last (filter (fun r => touches_exact uri r = true) rs) with
  | Some (Exact _ slt) => Some slt
  | _ => None
  end.

Fixpoint globs_now (rs : list route) : list (string * option Servlet) :=
  match rs with
  | [] => []
  | Glob uri slt :: rs => if existsb (touches_glob uri) rs then globs_now rs else (uri, slt) :: globs_now rs
  | _ :: rs => globs_now rs
  end.

Definition default_now (rs : list route) : option Servlet :=
  match last (omap (fun r => match r with Default slt => Some slt | _ => None end) rs) with
  | Some slt => slt
  | None => Some NotFoundServlet
  end.

Lemma erase_glob_absent uri l : ~ In uri (map fst l) -> erase_glob uri l = l.
Proof.
  induction l as [|it l IH]; [done|]. cbn. intros Hn. destruct (String.eqb_spec it.1 uri); [tauto|].
  f_equal. tauto.
Qed.

Lemma globs_now_touched uri rs : In uri (map fst (globs_now rs)) -> existsb (touches_glob uri) rs = true.
Proof.
  induction rs as [|r rs IH]; [done|]. cbn. rewrite orb_true_iff.
  destruct r as [| u slt | | |]; try (intros; right; by apply IH).
  destruct (existsb (touches_glob u) rs); [intros; right; by apply IH|].
  cbn. intros [->|Hin]; [left; apply String.eqb_refl|right; by apply IH].
Qed.

Lemma globs_now_snoc rs r :
  globs_now (rs ++ [r]) = match r with
                          | Glob uri slt => erase_glob uri (globs_now rs) ++ [(uri, slt)]
                          | NoGlob uri => erase_glob uri (globs_now rs)
                          | _ => globs_now rs
                          end.
Proof.
  induction rs as [|r0 rs IH]; [by destruct r|].
  destruct r0 as [| u s0 | | |]; try (cbn; exact IH). cbn [globs_now app].
  rewrite existsb_app. cbn [existsb]. rewrite orb_false_r.
  destruct (existsb (touches_glob u) rs) eqn:Et; [exact IH|].
  assert (erase_glob u (globs_now rs) = globs_now rs) as Ha.
  { apply erase_glob_absent. intros Hin%globs_now_touched. congruence. }
  destruct r as [| u' slt | | u' |]; cbn [touches_glob orb]; try (by rewrite IH); rewrite IH; cbn [erase_glob fst];
    rewrite (String.eqb_sym u u'); destruct (String.eqb_spec u' u) as [->|]; by rewrite ?Ha.
Qed.

Lemma exact_now_snoc uri rs r :
  exact_now uri (rs ++ [r]) = if touches_exact uri r then match r with Exact _ slt => Some slt | _ => None end
                              else exact_now uri rs.
Proof.
  unfold exact_now. rewrite filter_app, filter_cons, filter_nil. destruct (touches_exact uri r) eqn:E.
  - rewrite decide_True by done. by rewrite last_snoc.
  - rewrite decide_False by done. by rewrite app_nil_r.
Qed.

Lemma default_now_snoc rs r :
  default_now (rs ++ [r]) = match r with Default slt => slt | _ => default_now rs end.
Proof.
  unfold default_now. rewrite omap_app. destruct r; cbn; rewrite ?app_nil_r; try done. by rewrite last_snoc.
Qed.

(** The table after a history, component by component. *)
Lemma table_after rs :
  let d := fold_left apply_route rs new_ServletDispatch in
  (forall uri, datas_ d !! uri = exact_now uri rs) /\ globs_ d = globs_now rs /\ default_ d = default_now rs.
Proof.
  induction rs as [|r rs IH] using rev_ind; [by split_and!|].
  rewrite fold_left_app. cbn. destruct IH as (Hd & Hg & Hf).
  rewrite globs_now_snoc, default_now_snoc. split_and!.
  - intros uri. rewrite exact_now_snoc. destruct r; cbn; try apply Hd;
      destruct (String.eqb_spec uri0 uri) as [->|Hne]; rewrite ?lookup_insert_eq, ?lookup_delete_eq; try done;
      rewrite ?lookup_insert_ne, ?lookup_delete_ne by done; apply Hd.
  - destruct r; cbn; by rewrite ?Hg.
  - by destruct r.
Qed.

(** C28: a path is routed as the history of registrations says, whatever the order in
    which servlets were added, replaced and removed: to the servlet last registered
    for exactly this path unless it was removed since; otherwise to the first
    matching pattern, in the order in which the patterns in force were last
    registered; otherwise to the default. *)
Theorem routes_by_history fnmatch rs uri :
  GetMatchedServlet fnmatch uri (fold_left apply_route rs new_ServletDispatch) =
  match exact_now uri rs with
  | Some slt => slt
  | None =>
      match List.find (fun it => fnmatch (c_str it.1) (c_str uri)) (globs_now rs) with
      | Some it => it.2
      | None => default_now rs
      end
  end.
Proof. destruct (table_after rs) as (Hd & Hg & Hf). unfold GetMatchedServlet. by rewrite Hd, Hg, Hf. Qed.

(** ** A client served *)

Section Serving.
Context {P : Type} `{Machine P} (cast : string -> option Z) (max_len buff_size : Z) (Hmax : 0 < max_len).
Context (fnmatch : string -> string -> bool) (dispatch_ : ServletDispatch) (name : string) (is_keep_alive_ : bool).

Abbreviation recv := (RecvRequest cast max_len buff_size).
Abbreviation run := (dispatch fnmatch dispatch_ name is_keep_alive_).

(** The servlets do not throw, leave the session to the server, and the text of a
    response fits in memory. *)
Definition well_behaved : Prop :=
  forall req c, exists h, run req c = (Ok h, c) /\ Z.of_nat (String.length (Dump_response (response h))) < 2 ^ 64.

Definition stops (h : Handling) : bool := negb is_keep_alive_ || close_ (request h).

(** The requests of a client, each received after the one before was answered. *)
Inductive conversation : Conn -> list Handling -> Conn -> Prop :=
  | conv_end c c' : recv c = (Ok None, c') -> conversation c [] c'
  | conv_last c req c1 h c2 rt c' :
      recv c = (Ok (Some req), c1) -> run req c1 = (Ok h, c2) -> SendResponse max_len (response h) c2 = (Ok rt, c') ->
      stops h = true -> conversation c [h] c'
  | conv_more c req c1 h c2 rt c3 l c' :
      recv c = (Ok (Some req), c1) -> run req c1 = (Ok h, c2) -> SendResponse max_len (response h) c2 = (Ok rt, c3) ->
      stops h = false -> conversation c3 l c' -> conversation c (h :: l) c'.

(** The bytes sent for a list of responses: each whole, in order; before one, and
    after the last, there may be a [100 Continue]. *)
Inductive spoken : list HttpResponse -> list byte -> Prop :=
  | spoken_nil b : spoken [] (interim_answer b)
  | spoken_cons b r l w : spoken l w -> spoken (r :: l) (interim_answer b ++ bytes_of (Dump_response r) ++ w).

(** Only the last exchange may end the conversation. *)
Definition goes_on (l : list Handling) : Prop :=
  forall l1 h l2, l = l1 ++ h :: l2 -> l2 <> [] -> is_keep_alive_ = true /\ close_ (request h) = false.

Lemma goes_on_cons h l : stops h = false -> goes_on l -> goes_on (h :: l).
Proof using Type.
  intros Hs Hl [|x l1] h' l2; cbn; intros [= -> ->] Hne.
  - apply orb_false_iff in Hs as [Hk Hc]. split; [by destruct is_keep_alive_|done].
  - by apply (Hl l1 h' l2).
Qed.

Lemma client_loop_run fuel c r c' :
  well_behaved -> closed c = false -> lively (ready c) -> (length (ready c) < fuel)%nat ->
  client_loop cast max_len buff_size fnmatch dispatch_ name is_keep_alive_ fuel c = (r, c') ->
  match r with
  | Ok _ => exists l w, conversation c l c' /\ spoken (map response l) w /\ outgoing c' = outgoing c ++ w /\ goes_on l
  | Fail e => e = undefined \/ parser_fails (P := P) e \/ e = out_of_fuel /\ ready c' = []
  end.
Proof using Hmax.
  intros Hw. revert c. induction fuel as [|fuel IH]; intros c Hc Hl Hf; [lia|]. cbn [client_loop]. unfold bind at 1.
  destruct (recv c) as [r1 c1] eqn:E1.
  destruct (RecvRequest_run cast max_len buff_size Hmax c r1 c1 Hc Hl E1)
    as [(req & b & -> & L1 & R1 & O1)|[(b & -> & O1)|[[-> R1]|[->|(e & -> & He)]]]].
  2: { intros [= <- <-]. exists [], (interim_answer b). split_and!; [by constructor|constructor|done|by intros []]. }
  2: { intros [= <- <-]. tauto. } 2: { intros [= <- <-]. by left. } 2: { intros [= <- <-]. tauto. }
  destruct (Hw req c1) as (h & E2 & Hlen). rewrite (bind_ok _ _ _ _ _ E2). unfold bind at 1.
  destruct (SendResponse max_len (response h) c1) as [r3 c3] eqn:E3. unfold SendResponse in E3.
  assert (Z.of_nat (length (bytes_of (Dump_response (response h)))) < 2 ^ 64) as Hlen' by (by rewrite bytes_of_length).
  assert (closed c1 = false) as Hc1 by (by rewrite (proj1 L1)).
  assert (lively (ready c1)) as Hl1 by (by apply (later_lively c)).
  destruct (WriteFixSize_run _ _ _ _ _ Hmax Hc1 Hl1 Hlen' E3) as (L3 & [[Hok O3]|[-> R3]]);
    [|intros [= <- <-]; tauto].
  destruct r3 as [rt|]; [|done]. fold (stops h). destruct (stops h) eqn:Es.
  - intros [= <- <-]. exists [h], (interim_answer b ++ bytes_of (Dump_response (response h)) ++ interim_answer false).
    split_and!; [by eapply conv_last|repeat constructor| |].
    + cbn [interim_answer]. by rewrite O3, O1, app_nil_r, app_assoc.
    + intros [|x l1] h' l2; cbn; intros E; [by injection E as -> <-|]. injection E as _ E. by destruct l1.
  - intros E. pose proof (later_length _ _ L3).
    apply IH in E; [|by rewrite (proj1 L3)|by apply (later_lively c1)|lia]. destruct r as [u|e]; [|done].
    destruct E as (l & w & Hcv & Hsp & Ho & Hg).
    exists (h :: l), (interim_answer b ++ bytes_of (Dump_response (response h)) ++ w).
    split_and!; [by eapply conv_more|by constructor|by rewrite Ho, O3, O1, !app_assoc|by apply goes_on_cons].
Qed.

End Serving.

(** ** Examples *)

(** A pattern with a star at its end matches what begins like it. *)
Definition star_match (pattern s : string) : bool :=
  match String.index 0 "*" pattern with
  | Some n => String.prefix (String.substring 0 n pattern) s
  | None => String.eqb pattern s
  end.

Definition answer_with (status : Z) (body : string) : prog Handling Z :=
  set_response (fun _ => rset_body body (rset_status status (new_HttpResponse 17 false))) ;; ret 0.

Definition demo_routes : list route :=
  [ Glob "/a/*" (Some (FunctionServlet (answer_with 200 "star")));
    Exact "/a/x" (Some (FunctionServlet (answer_with 200 "x")));
    Glob "/*" (Some (FunctionServlet (answer_with 200 "slash")));
    Exact "/a/z" None;
    Default (Some (FunctionServlet (answer_with 500 "other"))) ].

Definition demo_table (rs : list route) : ServletDispatch := fold_left apply_route rs new_ServletDispatch.

Definition routed (rs : list route) (uri : string) : string :=
  match GetMatchedServlet star_match uri (demo_table rs) with
  | Some slt => rbody_ (response (handle slt (mkHandling (new_HttpRequest 17 true) (new_HttpResponse 17 true) (mkConn [] [] [] false))).2)
  | None => "null"
  end.

(** A pattern registered again goes to the end of the order; a null servlet
    registered for a path hides the patterns and the default. *)
Example routing_runs :
  map (routed demo_routes) ["/a/x"; "/a/y"; "/b"; "b"; "/a/z"] = ["x"; "star"; "slash"; "other"; "null"] /\
  routed (demo_routes ++ [Glob "/a/*" (Some (FunctionServlet (answer_with 200 "again")))]) "/a/y" = "slash" /\
  routed (demo_routes ++ [NoExact "/a/x"; NoGlob "/a/*"]) "/a/x" = "slash" /\
  routed [] "/a/x" = RSP_BODY.
Proof. vm_compute. done. Qed.

#[local] Existing Instance demo_uninit.

Definition keep_alive_request : string :=
  "GET /a/y HTTP/1.1" +:+ CRLF +:+ "Connection: keep-alive" +:+ CRLF +:+ CRLF.

(** Two requests on one connection, the second one asking to close it. *)
Definition demo_client : Conn :=
  mkConn (bytes_of (keep_alive_request +:+ "GET /a/x HTTP/1.1" +:+ CRLF +:+ CRLF)) ([45; 21] ++ replicate 200 9) [] false.

Definition constant_table : ServletDispatch := demo_table [Default (Some (FunctionServlet (answer_with 200 "hello")))].

Lemma constant_well_behaved (keep : bool) : well_behaved star_match constant_table "gudov/1.0.0" keep.
Proof. intros req c. eexists. split; [reflexivity|]. by vm_compute. Qed.


(** Both are answered, by the pattern and by the path; without keep-alive only the
    first is. *)
Example two_requests_served :
  let out keep := text_of (outgoing (HandleClient demo_cast 16384 4096 star_match (demo_table demo_routes) "gudov/1.0.0" keep demo_client).2) in
  let answer body := Dump_response (rset_body body (new_HttpResponse 17 false)) in
  out true = answer "star" +:+ answer "x" /\ out false = answer "star".
Proof. vm_compute. done. Qed.

(** A request that arrives together with the one before it is lost: what follows the
    head of a request without a body is not kept. *)
Example pipelined_request_lost :
  let c := mkConn (incoming demo_client) (replicate 200 99) [] false in
  text_of (outgoing (HandleClient demo_cast 16384 4096 star_match (demo_table demo_routes) "gudov/1.0.0" true c).2) =
    Dump_response (rset_body "star" (new_HttpResponse 17 false)).
Proof. vm_compute. done. Qed.
