(* ===== verification/HttpClient.v ===== *)
(** * The HTTP client: [gudov/http/http_connection.cpp]

    Receiving a response, also one in chunks; the request made of a method, a target
    and headers; and the pool of connections, each of which is used by one request
    at a time. *)

From S2P Require Import Prelude OrderedMap Endian Address Uri Http HttpParser Stream HttpSession.
From stdpp Require Import base numbers list strings gmap.
From Stdlib Require Import ZArith Lia Ascii Strings.Byte.
Open Scope Z_scope.
Open Scope prog_scope.

(** ** Receiving a response *)

(** What [RecvResponse] reads of the [httpclient_parser] structure itself. *)
Class ClientMachine (P : Type) `{Machine P} := {
  machine_chunked : P -> bool;
  machine_content_len : P -> Z;
  machine_chunks_done : P -> bool }.

Section Response.
Context {P : Type} `{ClientMachine P} (cast : string -> option Z) (max_len buff_size : Z).

(** [while (left > 0)]: the rest of a chunk, straight from the stream. *)
Fixpoint recv_rest (fuel : nat) (left : Z) (body : list byte) : prog Conn (option (list byte)) :=
  match fuel with
  | O => fail out_of_fuel
  | S fuel =>
      if 0 <? left then
        let* r := recv_sock (if s32 buff_size <? left then s32 buff_size else left) in
        if r.1 <=? 0 then Close ;; ret None
        else recv_rest fuel (left - r.1) (body ++ r.2)
      else ret (Some body)
  end.

(** The bytes of one chunk after its header; [data] is what the buffer holds.  The
    body so far, and the bytes left in the buffer. *)
Definition recv_chunk (content_len : Z) (data body : list byte) : prog Conn (option (list byte * list byte)) :=
  let len := Z.of_nat (length data) - 2 in
  if content_len <=? len then
    require (0 <=? content_len) length_error ;;
    ret (Some (body ++ take (Z.to_nat content_len) data,
               take (Z.to_nat (len - content_len)) (drop (Z.to_nat content_len) data)))
  else
    require (0 <=? len) length_error ;;
    let* c := gets id in
    let* b := recv_rest (S (length (ready c))) (content_len - len) (body ++ take (Z.to_nat len) data) in
    match b with
    | None => ret None
    | Some body => ret (Some (body, []))
    end.

(** The loop over the chunks: the parser starts anew for every header. *)
Fixpoint recv_chunks (fuel : nat) (p : HttpResponseParser P) (data body : list byte)
    : prog Conn (option (HttpResponseParser P * list byte)) :=
  match fuel with
  | O => fail out_of_fuel
  | S fuel =>
      let* c := gets id in
      let* h := recv_head (fun p s => execute_response p s true) HasError_response IsFinished_response buff_size
                  (S (length (ready c))) p data in
      match h with
      | None => ret None
      | Some (p, data) =>
          let* b := recv_chunk (machine_content_len (rparser_ p)) data body in
          match b with
          | None => ret None
          | Some (body, data) =>
              if machine_chunks_done (rparser_ p) then ret (Some (p, body)) else recv_chunks fuel p data body
          end
      end
  end.

Definition RecvResponse : prog Conn (option HttpResponse) :=
  let* c := gets id in
  let* h := recv_head (fun p s => execute_response p s false) HasError_response IsFinished_response buff_size
              (S (length (ready c))) new_HttpResponseParser [] in
  match h with
  | None => ret None
  | Some (p, data) =>
      if machine_chunked (rparser_ p) then
        let* c := gets id in
        let* b := recv_chunks (S (length (ready c))) p data [] in
        match b with
        | None => ret None
        | Some (p, body) => ret (Some (rset_body (text_of body) (rdata_ p)))
        end
      else finish_response cast max_len p data
  end.
End Response.

(** ** Making a request *)

(** The loop over the headers of the caller. *)
Fixpoint copy_headers (headers : MapType) (has_host : bool) (req : HttpRequest) : bool * HttpRequest :=
  match headers with
  | [] => (has_host, req)
  | (k, v) :: headers =>
      if strcasecmp k "connection" =? 0 then
        copy_headers headers has_host (if strcasecmp v "keep-alive" =? 0 then set_close false req else req)
      else
        let has_host := if negb has_host && (strcasecmp k "host" =? 0) then nonempty v else has_host in
        copy_headers headers has_host (SetHeader k v req)
  end.

(** [DoRequest(method, uri, ...)], up to the request it sends. *)
Definition uri_request (method : HttpMethod) (uri : Uri) (headers : MapType) (body : string) : HttpRequest :=
  let req := set_method method (set_fragment (ufragment_ uri) (set_query (uquery_ uri)
               (set_path (GetPath uri) (new_HttpRequest 17 true)))) in
  let '(has_host, req) := copy_headers headers false req in
  let req := if has_host then req else SetHeader "Host" (uhost_ uri) req in
  set_body body req.

(** [HttpConnectionPool::doRequest(method, url, ...)], up to the request it sends. *)
Definition pool_request (host vhost : string) (method : HttpMethod) (url : string) (headers : MapType) (body : string)
    : HttpRequest :=
  let req := set_close false (set_method method (set_path url (new_HttpRequest 17 true))) in
  let '(has_host, req) := copy_headers headers false req in
  let req := if has_host then req else SetHeader "Host" (if nonempty vhost then vhost else host) req in
  set_body body req.

(** The target [doGet(uri, ...)], [doPost(uri, ...)] and [doRequest(method, uri, ...)] make of a [Uri]. *)
Definition target_of (uri : Uri) : string :=
  GetPath uri +:+ (if nonempty (uquery_ uri) then "?" else EmptyString) +:+ uquery_ uri +:+
  (if nonempty (ufragment_ uri) then "#" else EmptyString) +:+ ufragment_ uri.

(** ** The pool *)

Inductive Error :=
  | OK | INVALID_URL | INVALID_HOST | CONNECT_FAIL | SEND_CLOSE_BY_PEER | SEND_SOCKET_ERROR | TIMEOUT
  | CREATE_SOCKET_ERROR | POOL_GET_CONNECTION | POOL_INVALID_CONNECTION.

(** [HttpResult], without the text of its error. *)
Record HttpResult := mkResult { rcode : Error; rresponse : option HttpResponse }.

(** A connection is open while its socket is. *)
Record HttpConnection := mkConnection { sock : Conn; create_time_ : Z; request_ : Z }.
Definition IsConnected (c : HttpConnection) : bool := negb (closed (sock c)).

(** The pool, with the connections that exist, by their addresses. *)
Record HttpConnectionPool := mkPool {
  host_ : string;
  vhost_ : string;
  port_ : Z;
  max_size_ : Z;
  max_alive_time_ : Z;
  max_request_ : Z;
  conns_ : list nat;
  total_ : Z;
  heap : gmap nat HttpConnection }.

Definition new_HttpConnectionPool (host vhost : string) (port max_size max_alive_time max_request : Z) : HttpConnectionPool :=
  mkPool host vhost port max_size max_alive_time max_request [] 0 ∅.

Definition set_conns cs (p : HttpConnectionPool) := mkPool (host_ p) (vhost_ p) (port_ p) (max_size_ p) (max_alive_time_ p) (max_request_ p) cs (total_ p) (heap p).
Definition set_total t (p : HttpConnectionPool) := mkPool (host_ p) (vhost_ p) (port_ p) (max_size_ p) (max_alive_time_ p) (max_request_ p) (conns_ p) t (heap p).
Definition set_heap h (p : HttpConnectionPool) := mkPool (host_ p) (vhost_ p) (port_ p) (max_size_ p) (max_alive_time_ p) (max_request_ p) (conns_ p) (total_ p) h.

(** Following a pointer to a connection; one that was deleted is undefined. *)
Definition deref (id : nat) : prog HttpConnectionPool HttpConnection :=
  fun p => match heap p !! id with Some c => (Ok c, p) | None => (Fail undefined, p) end.

Definition put (id : nat) (c : HttpConnection) : prog HttpConnectionPool unit :=
  modify (fun p => set_heap (<[id := c]> (heap p)) p).

(** [delete ptr] *)
Definition delete_conn (id : nat) : prog HttpConnectionPool unit :=
  deref id ;; modify (fun p => set_heap (delete id (heap p)) p).

(** The [while] loop: the first usable connection, and the ones to be deleted; [conns_]
    keeps the rest. *)
Fixpoint pick_conn (now_ms : Z) (conns invalid_conns : list nat) : prog HttpConnectionPool (option nat * list nat) :=
  match conns with
  | [] => modify (set_conns []) ;; ret (None, invalid_conns)
  | id :: conns =>
      let* conn := deref id in
      let* p := gets Datatypes.id in
      if negb (IsConnected conn) then pick_conn now_ms conns (invalid_conns ++ [id])
      else if now_ms <? u64 (create_time_ conn + max_alive_time_ p) then pick_conn now_ms conns (invalid_conns ++ [id])
      else modify (set_conns conns) ;; ret (Some id, invalid_conns)
  end.

Fixpoint delete_conns (ids : list nat) : prog HttpConnectionPool unit :=
  match ids with
  | [] => ret tt
  | id :: ids => delete_conn id ;; delete_conns ids
  end.

Section Pool.
Context (alloc : gmap nat HttpConnection -> nat).

(** [dial] stands for [LookupAnyIPAddress(host_)], [SetPort], [CreateTCP] and
    [Connect]: the socket, if all of them succeed. *)
Definition GetConnection (now_ms : Z) (dial : option Conn) : prog HttpConnectionPool (option nat) :=
  let* p := gets id in
  let* r := pick_conn now_ms (conns_ p) [] in
  let '(ptr, invalid_conns) := r in
  delete_conns invalid_conns ;;
  modify (fun p => set_total (s32 (total_ p - Z.of_nat (length invalid_conns))) p) ;;
  match ptr with
  | Some id => ret (Some id)
  | None =>
      match dial with
      | None => ret None
      | Some s =>
          let* p := gets id in
          let ptr := alloc (heap p) in
          put ptr (mkConnection s 0 0) ;;
          modify (fun p => set_total (s32 (total_ p + 1)) p) ;;
          ret (Some ptr)
      end
  end.

(** [now_ms] is what [GetCurrentMS()] returns; it is asked only when the socket is
    connected. *)
Definition ReleasePtr (now_ms : Z) (ptr : nat) : prog HttpConnectionPool unit :=
  let* c := deref ptr in
  let c := mkConnection (sock c) (create_time_ c) (u64 (request_ c + 1)) in
  put ptr c ;;
  let* p := gets id in
  if negb (IsConnected c) || (now_ms <=? u64 (create_time_ c + max_alive_time_ p)) || (max_request_ p <=? request_ c) then
    delete_conn ptr ;; modify (fun p => set_total (s32 (total_ p - 1)) p)
  else modify (fun p => set_conns (conns_ p ++ [ptr]) p).

(** A call on the socket of a connection. *)
Definition on_conn {A} (ptr : nat) (m : prog Conn A) : prog HttpConnectionPool A :=
  let* c := deref ptr in
  let '(r, s) := m (sock c) in
  put ptr (mkConnection s (create_time_ c) (request_ c)) ;; lift r.

Section Requests.
Context {P : Type} `{ClientMachine P} (cast : string -> option Z) (max_len buff_size : Z).

(** The exchange over the connection, from [SendRequest] on. *)
Definition exchange (req : HttpRequest) : prog Conn HttpResult :=
  let* rt := SendRequest max_len req in
  if rt =? 0 then ret (mkResult SEND_CLOSE_BY_PEER None)
  else if rt <? 0 then ret (mkResult SEND_SOCKET_ERROR None)
  else
    let* rsp := RecvResponse cast max_len buff_size in
    match rsp with
    | None => ret (mkResult TIMEOUT None)
    | Some rsp => ret (mkResult OK (Some rsp))
    end.

(** The pool's [doRequest(req, timeout_ms)]; the pointer is released at the end of
    the scope, also when an exception leaves it. *)
Definition pool_doRequest (now_ms later_ms : Z) (dial : option Conn) (req : HttpRequest) : prog HttpConnectionPool HttpResult :=
  let* conn := GetConnection now_ms dial in
  match conn with
  | None => ret (mkResult POOL_GET_CONNECTION None)
  | Some ptr =>
      fun p => match on_conn ptr (exchange req) p with
               | (Fail undefined, p) => (Fail undefined, p)
               | (Fail out_of_fuel, p) => (Fail out_of_fuel, p)
               | (r, p) => (ReleasePtr later_ms ptr ;; lift r) p
               end
  end.

(** [HttpConnection::DoRequest(req, uri, timeout_ms)]: [addr] says whether the host has
    an address, [socket] whether there is a socket for it, and [dial] is the
    connected socket. *)
Definition DoRequest (addr socket : bool) (dial : option Conn) (req : HttpRequest) : result HttpResult :=
  if negb addr then Ok (mkResult INVALID_HOST None)
  else if negb socket then Ok (mkResult CREATE_SOCKET_ERROR None)
  else match dial with
       | None => Ok (mkResult CONNECT_FAIL None)
       | Some c => (exchange req c).1
       end.

(** [DoRequest(method, uri, ...)]; [DoGet] and [DoPost] are it with their method. *)
Definition DoRequest_uri `{Host} `{Resolver} (method : HttpMethod) (uri : Uri) (headers : MapType) (body : string)
    (socket : bool) (dial : option Conn) : result HttpResult :=
  match CreateAddress uri with
  | Fail e => Fail e
  | Ok addr => DoRequest (match addr with Some _ => true | None => false end) socket dial (uri_request method uri headers body)
  end.
Definition DoGet_uri `{Host} `{Resolver} := DoRequest_uri GET.
Definition DoPost_uri `{Host} `{Resolver} := DoRequest_uri POST.

(** The calls that take the text of a URL. *)
Definition with_url (url : string) (k : Uri -> result HttpResult) : result HttpResult :=
  match Uri.Create url with
  | Fail e => Fail e
  | Ok None => Ok (mkResult INVALID_URL None)
  | Ok (Some uri) => k uri
  end.
Definition DoRequest_url `{Host} `{Resolver} method url headers body socket dial : result HttpResult :=
  with_url url (fun uri => DoRequest_uri method uri headers body socket dial).
Definition DoGet_url `{Host} `{Resolver} url headers body socket dial : result HttpResult :=
  with_url url (fun uri => DoGet_uri uri headers body socket dial).
Definition DoPost_url `{Host} `{Resolver} url headers body socket dial : result HttpResult :=
  with_url url (fun uri => DoPost_uri uri headers body socket dial).

(** The same calls of the pool. *)
Definition pool_doRequest_url (now_ms later_ms : Z) (dial : option Conn) (method : HttpMethod) (url : string)
    (headers : MapType) (body : string) : prog HttpConnectionPool HttpResult :=
  let* p := gets id in
  pool_doRequest now_ms later_ms dial (pool_request (host_ p) (vhost_ p) method url headers body).
Definition pool_doRequest_uri now_ms later_ms dial method (uri : Uri) headers body : prog HttpConnectionPool HttpResult :=
  pool_doRequest_url now_ms later_ms dial method (target_of uri) headers body.
Definition pool_doGet_url now_ms later_ms dial url headers body := pool_doRequest_url now_ms later_ms dial GET url headers body.
Definition pool_doGet_uri now_ms later_ms dial uri headers body := pool_doGet_url now_ms later_ms dial (target_of uri) headers body.
Definition pool_doPost_url now_ms later_ms dial url headers body := pool_doRequest_url now_ms later_ms dial POST url headers body.
Definition pool_doPost_uri now_ms later_ms dial uri headers body := pool_doPost_url now_ms later_ms dial (target_of uri) headers body.
End Requests.
End Pool.

(** ** The pool keeps its books *)

(** The connections that exist are the ones in the pool and the [lent] ones, none of
    them twice; [total_] counts them; those in the pool have requests to spare. *)
Record pool_ok (lent : list nat) (p : HttpConnectionPool) : Prop := {
  po_nodup : NoDup (conns_ p ++ lent);
  po_heap id : is_Some (heap p !! id) <-> id ∈ conns_ p ++ lent;
  po_total : total_ p = s32 (Z.of_nat (length (conns_ p ++ lent)));
  po_spare id c : id ∈ conns_ p -> heap p !! id = Some c -> request_ c < max_request_ p;
  po_time id c : heap p !! id = Some c -> create_time_ c = 0 }.

#[export] Instance pool_ok_perm : Proper ((≡ₚ) ==> (=) ==> iff) pool_ok.
Proof.
  intros l1 l2 Hl p _ <-.
  assert (forall l1 l2, l1 ≡ₚ l2 -> pool_ok l1 p -> pool_ok l2 p) as Hp; [|by split; apply Hp].
  intros a b Hab [H1 H2 H3 H4 H5]. split; try done.
  - by rewrite <- Hab.
  - intros id. by rewrite <- Hab.
  - by rewrite <- Hab.
Qed.

Lemma s32_add a b : s32 (s32 a + b) = s32 (a + b).
Proof.
  unfold s32, wraps. f_equal.
  replace ((a + 2 ^ (32 - 1)) mod 2 ^ 32 - 2 ^ (32 - 1) + b + 2 ^ (32 - 1)) with ((a + 2 ^ (32 - 1)) mod 2 ^ 32 + b) by lia.
  rewrite Zplus_mod_idemp_l. f_equal. lia.
Qed.

Lemma pool_ok_new host vhost port size alive req : pool_ok [] (new_HttpConnectionPool host vhost port size alive req).
Proof.
  split; cbn; [by constructor| |done|set_solver|intros id c; by rewrite lookup_empty].
  intros id. rewrite lookup_empty. split; [by intros []|set_solver].
Qed.

(** The loop of [GetConnection] cuts the queue in three: what it drops, what it
    returns, what it leaves. *)
Lemma pick_conn_ok now conns invalid p :
  (forall id, id ∈ conns -> is_Some (heap p !! id)) ->
  exists bad ptr rest, pick_conn now conns invalid p = (Ok (ptr, invalid ++ bad), set_conns rest p) /\
    conns = bad ++ option_list ptr ++ rest /\
    (forall id, ptr = Some id -> exists c, heap p !! id = Some c /\ IsConnected c = true).
Proof.
  revert invalid. induction conns as [|id conns IH]; intros invalid Hin.
  - exists [], None, []. rewrite app_nil_r. split_and!; [done|done|by intros].
  - destruct (Hin id ltac:(left)) as [c Hc]. cbn [pick_conn]. unfold deref, gets. unfold bind at 1. rewrite Hc. unfold bind at 1.
    assert (forall id', id' ∈ conns -> is_Some (heap p !! id')) as Hin' by (intros; apply Hin; by right).
    assert (exists bad ptr rest, pick_conn now conns (invalid ++ [id]) p = (Ok (ptr, invalid ++ bad), set_conns rest p) /\
      id :: conns = bad ++ option_list ptr ++ rest /\
      (forall id', ptr = Some id' -> exists c, heap p !! id' = Some c /\ IsConnected c = true)) as Hskip.
    { destruct (IH (invalid ++ [id]) Hin') as (bad & ptr & rest & E & -> & Hp). exists (id :: bad), ptr, rest.
      rewrite E, <- app_assoc. by split_and!. }
    destruct (IsConnected c) eqn:Ec; cbn [negb]; [|exact Hskip]. destruct (now <? _); [exact Hskip|].
    exists [], (Some id), conns. rewrite app_nil_r. split_and!; [done|done|]. intros id' [= <-]. by exists c.
Qed.

Lemma delete_conns_ok ids p :
  NoDup ids -> (forall id, id ∈ ids -> is_Some (heap p !! id)) ->
  exists h, delete_conns ids p = (Ok tt, set_heap h p) /\
    forall j, h !! j = if decide (j ∈ ids) then None else heap p !! j.
Proof.
  revert p. induction ids as [|id ids IH]; intros p Hn Hin.
  - exists (heap p). split; [by destruct p|]. intros j. by rewrite decide_False by set_solver.
  - apply NoDup_cons in Hn as [Hid Hn]. destruct (Hin id ltac:(left)) as [c Hc]. cbn [delete_conns].
    unfold delete_conn, deref, modify. unfold bind at 1 2. rewrite Hc.
    destruct (IH (set_heap (delete id (heap p)) p) Hn) as (h & E & Hh).
    { intros j Hj. cbn. rewrite lookup_delete_ne by (intros ->; done). apply Hin. by right. }
    exists h. rewrite E. split; [done|]. intros j. rewrite Hh. cbn. destruct (decide (j = id)) as [->|Hne].
    + rewrite (decide_False (P := id ∈ ids)), lookup_delete_eq by done. by rewrite decide_True by left.
    + rewrite lookup_delete_ne by done. destruct (decide (j ∈ ids)); [by rewrite decide_True by (by right)|].
      by rewrite decide_False by set_solver.
Qed.

(** Dropping connections from the front of the queue. *)
Lemma pool_ok_prune lent p bad rest h :
  pool_ok lent p -> conns_ p = bad ++ rest -> (forall j, h !! j = if decide (j ∈ bad) then None else heap p !! j) ->
  pool_ok lent (set_total (s32 (total_ p - Z.of_nat (length bad))) (set_heap h (set_conns rest p))).
Proof.
  intros [H1 H2 H3 H4 H5] Hc Hh. rewrite Hc in *. rewrite <- app_assoc in *.
  apply NoDup_app in H1 as (_ & Hd & Hn). split; cbn.
  - done.
  - intros id. rewrite Hh. case_decide as Hb; [|rewrite H2; set_solver].
    split; [by intros []|]. intros Hin. exfalso. by apply (Hd id).
  - rewrite H3. replace (s32 _ - _) with (s32 (Z.of_nat (length (bad ++ rest ++ lent))) + - Z.of_nat (length bad)) by lia.
    rewrite s32_add. f_equal. rewrite (length_app bad). lia.
  - intros id c Hin. rewrite Hh. case_decide; [done|]. apply H4. set_solver.
  - intros id c. rewrite Hh. case_decide; [done|]. apply H5.
Qed.

(** Handing out the connection at the front. *)
Lemma pool_ok_lend lent p id rest : pool_ok lent p -> conns_ p = id :: rest -> pool_ok (id :: lent) (set_conns rest p).
Proof.
  intros [H1 H2 H3 H4 H5] Hc. rewrite Hc in *.
  assert (rest ++ id :: lent ≡ₚ (id :: rest) ++ lent) as Hp by (symmetry; apply Permutation_middle).
  split; cbn; try done.
  - by rewrite Hp.
  - intros j. by rewrite Hp.
  - by rewrite Hp.
  - intros j c Hj. apply H4. by right.
Qed.

(** A new connection, lent at once. *)
Lemma pool_ok_add lent p id s :
  pool_ok lent p -> heap p !! id = None ->
  pool_ok (id :: lent) (set_total (s32 (total_ p + 1)) (set_heap (<[id := mkConnection s 0 0]> (heap p)) p)).
Proof.
  intros [H1 H2 H3 H4 H5] Hf.
  assert (id ∉ conns_ p ++ lent) as Hn by (rewrite <- H2, Hf; by intros []).
  assert (conns_ p ++ id :: lent ≡ₚ id :: conns_ p ++ lent) as Hp by (symmetry; apply Permutation_middle).
  split; cbn.
  - rewrite Hp. by constructor.
  - intros j. rewrite Hp, elem_of_cons. destruct (decide (j = id)) as [->|Hne].
    + rewrite lookup_insert_eq. split; [by left|by eexists].
    + rewrite lookup_insert_ne, H2 by done. split; [by right|by intros [|]].
  - rewrite Hp, H3, s32_add. f_equal. cbn [length]. lia.
  - intros j c Hj. rewrite lookup_insert_ne by (intros <-; apply Hn; set_solver). by apply H4.
  - intros j c. destruct (decide (j = id)) as [->|Hne]; [rewrite lookup_insert_eq; by intros [= <-]|].
    rewrite lookup_insert_ne by done. apply H5.
Qed.

Lemma overwrite_is_Some (h : gmap nat HttpConnection) id c c' j :
  h !! id = Some c -> is_Some (<[id := c']> h !! j) <-> is_Some (h !! j).
Proof.
  intros Hc. destruct (decide (j = id)) as [->|]; [|by rewrite lookup_insert_ne].
  rewrite lookup_insert_eq, Hc. split; intros _; by eexists.
Qed.

(** The socket of a connection changes: its holder uses it, or the peer closes it. *)
Definition set_sock (id : nat) (s : Conn) (p : HttpConnectionPool) : HttpConnectionPool :=
  match heap p !! id with
  | Some c => set_heap (<[id := mkConnection s (create_time_ c) (request_ c)]> (heap p)) p
  | None => p
  end.

Lemma pool_ok_set_sock lent id s p : pool_ok lent p -> pool_ok lent (set_sock id s p).
Proof.
  intros Hok. unfold set_sock. destruct (heap p !! id) as [c|] eqn:Hc; [|done]. destruct Hok as [H1 H2 H3 H4 H5].
  split; cbn; try done.
  - intros j. by rewrite <- H2, (overwrite_is_Some _ _ c).
  - intros j c' Hj. destruct (decide (j = id)) as [->|]; [|rewrite lookup_insert_ne by done; by apply H4].
    rewrite lookup_insert_eq. intros [= <-]. by apply (H4 id c).
  - intros j c'. destruct (decide (j = id)) as [->|]; [|rewrite lookup_insert_ne by done; by apply H5].
    rewrite lookup_insert_eq. intros [= <-]. by apply (H5 id c).
Qed.

(** Deleting a lent connection, and taking one back. *)
Lemma pool_ok_drop lent p id h :
  pool_ok (id :: lent) p -> (forall j, h !! j = if decide (j = id) then None else heap p !! j) ->
  pool_ok lent (set_total (s32 (total_ p - 1)) (set_heap h p)).
Proof.
  intros [H1 H2 H3 H4 H5] Hh.
  assert (conns_ p ++ id :: lent ≡ₚ id :: conns_ p ++ lent) as Hp by (symmetry; apply Permutation_middle).
  rewrite Hp in H1, H3. apply NoDup_cons in H1 as [Hn H1]. split; cbn; try done.
  - intros j. rewrite Hh. case_decide as Hj; [subst; split; [by intros []|done]|].
    rewrite H2, Hp, elem_of_cons. split; [by intros [|]|by right].
  - rewrite H3. replace (s32 _ - 1) with (s32 (Z.of_nat (length (id :: conns_ p ++ lent))) + -1) by lia.
    rewrite s32_add. f_equal. cbn [length]. lia.
  - intros j c Hj. rewrite Hh. case_decide; [done|]. by apply H4.
  - intros j c. rewrite Hh. case_decide; [done|]. apply H5.
Qed.

Lemma pool_ok_take_back lent p id c :
  pool_ok (id :: lent) p -> heap p !! id = Some c -> request_ c < max_request_ p ->
  pool_ok lent (set_conns (conns_ p ++ [id]) p).
Proof.
  intros [H1 H2 H3 H4 H5] Hc Hr.
  assert ((conns_ p ++ [id]) ++ lent = conns_ p ++ id :: lent) as E by (by rewrite <- app_assoc).
  split; cbn; rewrite ?E; try done.
  intros j c' [Hj|Hj%list_elem_of_singleton]%elem_of_app; [by apply H4|]. subst. rewrite Hc. by intros [= <-].
Qed.

Lemma ReleasePtr_ok now lent p id :
  pool_ok (id :: lent) p ->
  exists p', ReleasePtr now id p = (Ok tt, p') /\ pool_ok lent p' /\ (forall j, j ∈ lent -> heap p' !! j = heap p !! j) /\
    (forall c, id ∈ conns_ p' -> heap p' !! id = Some c -> IsConnected c = true).
Proof.
  intros Hok. destruct (proj2 (po_heap _ _ Hok id)) as [c Hc]; [set_solver|].
  pose proof (po_nodup _ _ Hok) as Hn. apply NoDup_app in Hn as (_ & Hd & [Hni _]%NoDup_cons).
  set (c1 := mkConnection (sock c) (create_time_ c) (u64 (request_ c + 1))).
  unfold ReleasePtr, put, modify, gets, Datatypes.id. unfold bind at 1, deref. rewrite Hc. unfold bind at 1 2. fold c1.
  destruct (negb (IsConnected c1) || _ || _) eqn:Ed.
  - unfold delete_conn, deref, modify. unfold bind. cbn [heap set_heap]. rewrite lookup_insert_eq. eexists. split; [reflexivity|].
    split_and!.
    + apply (pool_ok_drop lent p id (delete id (<[id := c1]> (heap p))) Hok). intros j. case_decide as Hj; [subst; apply lookup_delete_eq|].
      by rewrite lookup_delete_ne, lookup_insert_ne by done.
    + intros j Hj. cbn. by rewrite lookup_delete_ne, lookup_insert_ne by (by intros <-).
    + intros c' Hi. exfalso. apply (Hd id Hi). left.
  - apply orb_false_iff in Ed as [[Ec%negb_false_iff _]%orb_false_iff Er%Z.leb_gt]. eexists. split; [reflexivity|].
    split_and!.
    + apply (pool_ok_take_back lent (set_heap (<[id := c1]> (heap p)) p) id c1); [|apply lookup_insert_eq|done].
      destruct Hok as [H1 H2 H3 H4 H5]. split; cbn; try done.
      * intros j. by rewrite <- H2, (overwrite_is_Some _ _ c).
      * intros j c' Hj. rewrite lookup_insert_ne; [by apply H4|]. intros <-. apply (Hd id Hj). left.
      * intros j c'. destruct (decide (j = id)) as [->|]; [|rewrite lookup_insert_ne by done; by apply H5].
        rewrite lookup_insert_eq. intros [= <-]. by apply (H5 id c).
    + intros j Hj. cbn. by rewrite lookup_insert_ne by (by intros <-).
    + intros c' _. cbn. rewrite lookup_insert_eq. by intros [= <-].
Qed.

Section PoolLaws.
Context (alloc : gmap nat HttpConnection -> nat) (alloc_fresh : forall h, h !! alloc h = None).

Lemma GetConnection_ok now dial lent p :
  pool_ok lent p ->
  exists r p', GetConnection alloc now dial p = (Ok r, p') /\
    match r with
    | Some id => id ∉ lent /\ pool_ok (id :: lent) p' /\
        exists c, heap p' !! id = Some c /\ (IsConnected c = true \/ dial = Some (sock c))
    | None => dial = None /\ pool_ok lent p'
    end /\ (forall j, j ∈ lent -> heap p' !! j = heap p !! j).
Proof using alloc_fresh.
  intros Hok. unfold GetConnection. unfold bind at 1, gets, id.
  destruct (pick_conn_ok now (conns_ p) [] p) as (bad & ptr & rest & E1 & Hc & Hp).
  { intros i Hi. apply (po_heap _ _ Hok). set_solver. }
  rewrite (bind_ok _ _ _ _ _ E1). cbn [app].
  destruct (NoDup_app (conns_ p) lent) as [Hnd _]. destruct (Hnd (po_nodup _ _ Hok)) as (Hn1 & Hdis & _).
  rewrite Hc in Hn1. apply NoDup_app in Hn1 as (Hnb & Hdb & _).
  destruct (delete_conns_ok bad (set_conns rest p) Hnb) as (h & E2 & Hh).
  { intros i Hi. cbn. apply (po_heap _ _ Hok). rewrite Hc. set_solver. }
  cbn [heap set_conns] in Hh. rewrite (bind_ok _ _ _ _ _ E2). unfold bind at 1, modify.
  pose proof (pool_ok_prune lent p bad (option_list ptr ++ rest) h Hok Hc Hh) as Hpr.
  assert (forall j, j ∈ lent -> h !! j = heap p !! j) as Hkeep.
  { intros j Hj. rewrite Hh, decide_False; [done|]. intros Hb. apply (Hdis j); [rewrite Hc; set_solver|done]. }
  destruct ptr as [i|].
  - pose proof (pool_ok_lend _ _ i rest Hpr eq_refl) as Hl. eexists (Some i), _. split; [reflexivity|]. split; [|done].
    split_and!.
    + intros Hi. apply (Hdis i); [rewrite Hc; set_solver|done].
    + exact Hl.
    + destruct (Hp i eq_refl) as (c & Hci & Hcc). exists c. split; [|by left]. cbn. rewrite Hh, decide_False; [done|].
      intros Hb. apply (Hdb i Hb). set_solver.
  - destruct dial as [s|]; [|by eexists None, _; split_and!].
    pose proof (pool_ok_add _ _ (alloc h) s Hpr (alloc_fresh h)) as Ha. eexists (Some (alloc h)), _.
    assert (alloc h ∉ lent) as Hnew.
    { intros Hi. assert (is_Some (h !! alloc h)) as []; [|by rewrite alloc_fresh in *].
      rewrite Hkeep by done. apply (po_heap _ _ Hok). set_solver. }
    split; [reflexivity|]. split.
    + split_and!; [done|exact Ha|]. exists (mkConnection s 0 0). split; [apply lookup_insert_eq|by right].
    + intros j Hj. cbn. rewrite lookup_insert_ne; [by apply Hkeep|]. by intros <-.
Qed.


(** ** Any number of users *)

(** The pool between calls, with the connections its users hold. *)
Inductive pool_step : HttpConnectionPool * list nat -> HttpConnectionPool * list nat -> Prop :=
  | step_get now dial p id p' lent :
      GetConnection alloc now dial p = (Ok (Some id), p') -> pool_step (p, lent) (p', id :: lent)
  | step_get_none now dial p p' lent :
      GetConnection alloc now dial p = (Ok None, p') -> pool_step (p, lent) (p', lent)
  | step_release now p id p' lent lent' :
      lent ≡ₚ id :: lent' -> ReleasePtr now id p = (Ok tt, p') -> pool_step (p, lent) (p', lent')
  | step_sock id s p lent : pool_step (p, lent) (set_sock id s p, lent).

Lemma pool_step_ok x y : pool_step x y -> pool_ok x.2 x.1 -> pool_ok y.2 y.1.
Proof using alloc_fresh.
  intros Hs Hok. destruct Hs as [now dial p i p' lent E|now dial p p' lent E|now p i p' lent lent' Hl E|]; cbn [fst snd] in *.
  - destruct (GetConnection_ok now dial lent p Hok) as (r & q & E' & Hr & _). rewrite E in E'. injection E' as <- <-. apply Hr.
  - destruct (GetConnection_ok now dial lent p Hok) as (r & q & E' & Hr & _). rewrite E in E'. injection E' as <- <-. apply Hr.
  - rewrite Hl in Hok. destruct (ReleasePtr_ok now lent' p i Hok) as (q & E' & Hr & _). rewrite E in E'. by injection E' as <-.
  - by apply pool_ok_set_sock.
Qed.

Lemma pool_steps_ok host vhost port size alive req p lent :
  rtc pool_step (new_HttpConnectionPool host vhost port size alive req, []) (p, lent) -> pool_ok lent p.
Proof using alloc_fresh.
  change (pool_ok lent p) with (pool_ok (p, lent).2 (p, lent).1). generalize (p, lent). intros y.
  apply (rtc_ind_r (fun y => pool_ok y.2 y.1)); [apply pool_ok_new|]. intros x z _ Hs. by apply pool_step_ok.
Qed.

(** C23: the pool lends each connection to one user at a time.  After any calls of any
    users, with sockets closing at any moment: the connections that exist are those
    in the queue and those lent, none twice; [total_] counts them; taking a
    connection never touches one that was deleted and never returns one that is in
    use, and what it returns is connected or was opened by this call; giving one back
    works and puts it into the queue only while it is connected and has
    requests to spare. *)
Theorem pool_lends_once host vhost port size alive req p lent :
  rtc pool_step (new_HttpConnectionPool host vhost port size alive req, []) (p, lent) ->
  NoDup (conns_ p ++ lent) /\ (forall id, is_Some (heap p !! id) <-> id ∈ conns_ p ++ lent) /\
  total_ p = s32 (Z.of_nat (length (conns_ p) + length lent)) /\
  (forall now dial, exists r p', GetConnection alloc now dial p = (Ok r, p') /\
     match r with
     | Some id => id ∉ lent /\ exists c, heap p' !! id = Some c /\ (IsConnected c = true \/ dial = Some (sock c))
     | None => dial = None
     end) /\
  (forall now id, id ∈ lent -> exists p', ReleasePtr now id p = (Ok tt, p') /\
     forall c, id ∈ conns_ p' -> heap p' !! id = Some c -> IsConnected c = true /\ request_ c < max_request_ p').
Proof using alloc_fresh.
  intros Hok%pool_steps_ok. split_and!.
  - apply Hok.
  - apply Hok.
  - rewrite (po_total _ _ Hok), length_app. done.
  - intros now dial. destruct (GetConnection_ok now dial lent p Hok) as (r & p' & E & Hr & _). exists r, p'. split; [done|].
    destruct r; [|apply Hr]. split; apply Hr.
  - intros now id Hid. apply elem_of_Permutation in Hid as [lent' Hl]. rewrite Hl in Hok.
    destruct (ReleasePtr_ok now lent' p id Hok) as (p' & E & Hr & _ & Hc). exists p'. split; [done|].
    intros c Hi Hh. split; [by apply Hc|]. by apply (po_spare _ _ Hr id).
Qed.

Lemma on_conn_run {A} ptr (m : prog Conn A) c p :
  heap p !! ptr = Some c -> on_conn ptr m p = ((m (sock c)).1, set_sock ptr (m (sock c)).2 p).
Proof using Type.
  intros Hc. unfold on_conn, bind at 1, deref, set_sock. rewrite Hc. by destruct (m (sock c)) as [r s].
Qed.

Section PoolRequests.
Context {P : Type} `{ClientMachine P} (cast : string -> option Z) (max_len buff_size : Z).

Abbreviation do_request := (pool_doRequest alloc cast max_len buff_size).
Abbreviation talk := (exchange cast max_len buff_size).

(** A request through the pool gives its connection back, whatever the answer:
    the result is an error of the pool only when no connection could be
    opened, and otherwise what the exchange over the connection made of it; the
    connections of the other users are not touched.  Also when the exchange throws
    the connection is given back; only an exchange that never ends, or
    leaves what is defined, keeps it. *)
Theorem pool_request_settles lent p now later_ms dial req :
  pool_ok lent p ->
  match do_request now later_ms dial req p with
  | (Ok r, p') => pool_ok lent p' /\ (forall j, j ∈ lent -> heap p' !! j = heap p !! j) /\
      (dial = None /\ r = mkResult POOL_GET_CONNECTION None \/ exists c, (talk req c).1 = Ok r)
  | (Fail e, p') => exists c, (talk req c).1 = Fail e /\
      (e <> undefined -> e <> out_of_fuel -> pool_ok lent p' /\ forall j, j ∈ lent -> heap p' !! j = heap p !! j)
  end.
Proof using alloc_fresh.
  intros Hok. unfold pool_doRequest. destruct (GetConnection_ok now dial lent p Hok) as (o & p1 & E1 & Ho & Hk1).
  rewrite (bind_ok _ _ _ _ _ E1). destruct o as [ptr|].
  2: { unfold ret. destruct Ho as [-> Ho]. split_and!; [done|done|by left]. }
  destruct Ho as (Hnew & Hok1 & c & Hc & _). rewrite (on_conn_run ptr _ c p1 Hc).
  set (s := (talk req (sock c)).2). pose proof (pool_ok_set_sock _ ptr s _ Hok1) as Hok2.
  destruct (ReleasePtr_ok later_ms lent _ ptr Hok2) as (p3 & E3 & Hok3 & Hk3 & _).
  assert (forall j, j ∈ lent -> heap p3 !! j = heap p !! j) as Hk.
  { intros j Hj. rewrite Hk3, <- Hk1 by done. unfold set_sock. rewrite Hc. apply lookup_insert_ne. by intros <-. }
  destruct (talk req (sock c)).1 as [r|e] eqn:Er.
  - rewrite (bind_ok _ _ _ _ _ E3). unfold lift. split_and!; [done|done|]. right. by exists (sock c).
  - destruct e; rewrite ?(bind_ok _ _ _ _ _ E3); unfold lift; exists (sock c); (split; [done|]); by intros.
Qed.
End PoolRequests.
End PoolLaws.

Section Codes.
Context {P : Type} `{ClientMachine P} (cast : string -> option Z) (max_len buff_size : Z).

(** A response comes with the code OK, and only with it. *)
Lemma exchange_codes req c r : (exchange cast max_len buff_size req c).1 = Ok r -> rcode r = OK <-> is_Some (rresponse r).
Proof.
  unfold exchange, bind. destruct (SendRequest max_len req c) as [[rt|e] c1]; [|done].
  destruct (rt =? 0); [|destruct (rt <? 0)].
  1,2: intros [= <-]; cbn; split; [done|by intros []].
  destruct (RecvResponse cast max_len buff_size c1) as [[[rsp|]|e] c2]; intros [= <-]; cbn.
  - split; [by eexists|done].
  - split; [done|by intros []].
Qed.

(** A call that ended before the exchange. *)
Ltac refused := intros [= <-]; cbn; split_and!; done || (split; [done|by intros []]).

(** Every call that makes its own connection, from the text of a URL on. *)
Theorem DoRequest_url_codes `{Host} `{Resolver} method url headers body socket dial r :
  DoRequest_url cast max_len buff_size method url headers body socket dial = Ok r ->
  (rcode r = OK <-> is_Some (rresponse r)) /\
  (rcode r = INVALID_URL <-> Uri.Create url = Ok None) /\
  (rcode r = INVALID_HOST -> exists uri, Uri.Create url = Ok (Some uri) /\ CreateAddress uri = Ok None) /\
  (rcode r = CONNECT_FAIL -> dial = None).
Proof.
  unfold DoRequest_url, with_url, DoRequest_uri, DoRequest. destruct (Uri.Create url) as [[uri|]|]; [| |done].
  2: { refused. }
  destruct (CreateAddress uri) as [[a|]|] eqn:Ea; [|intros [= <-]; cbn; split_and!; [split; [done|by intros []]|done|by exists uri|done]|done]. cbn [negb].
  destruct socket; cbn [negb]; [|refused].
  destruct dial as [c|]; [|refused].
  intros E. split; [by apply (exchange_codes (uri_request method uri headers body) c)|].
  assert (rcode r ∈ [SEND_CLOSE_BY_PEER; SEND_SOCKET_ERROR; TIMEOUT; OK]) as Hr.
  { revert E. unfold exchange, bind. destruct (SendRequest _ _ c) as [[rt|e] c1]; [|done].
    destruct (rt =? 0); [|destruct (rt <? 0)]; [intros [= <-]; set_solver..|].
    destruct (RecvResponse _ _ _ c1) as [[[rsp|]|e] c2]; intros [= <-]; set_solver. }
  split_and!; [split; [|done]|..]; intros E'; rewrite E' in Hr; set_solver.
Qed.
End Codes.

(** ** The headers of a request *)

Definition is_connection (f : string * string) : bool := strcasecmp f.1 "connection" =? 0.
Definition is_host (f : string * string) : bool := strcasecmp f.1 "host" =? 0.

(** What the caller's headers ask for. *)
Definition copied (headers : MapType) : list hop :=
  map (fun f => OpSet f.1 f.2) (List.filter (fun f => negb (is_connection f)) headers).
Definition keeps_alive (headers : MapType) : bool :=
  existsb (fun f => is_connection f && (strcasecmp f.2 "keep-alive" =? 0)) headers.
Definition names_host (headers : MapType) : bool :=
  existsb (fun f => negb (is_connection f) && is_host f && nonempty f.2) headers.

Lemma set_close_hops b ops r : fold_left apply_hop ops (set_close b r) = set_close b (fold_left apply_hop ops r).
Proof. revert r. induction ops as [|[k v|k] ops IH]; intros r; [done| |]; cbn [fold_left apply_hop]; by rewrite <- IH. Qed.

Lemma copy_headers_ok headers has r :
  copy_headers headers has r =
    (has || names_host headers,
     set_close (if keeps_alive headers then false else close_ r) (fold_left apply_hop (copied headers) r)).
Proof.
  revert has r. induction headers as [|[k v] headers IH]; intros has r; [by destruct r, has|].
  cbn [copy_headers]. unfold names_host, keeps_alive, copied in *. cbn [existsb List.filter].
  change (strcasecmp k "connection" =? 0) with (is_connection (k, v)). destruct (is_connection (k, v)); cbn [negb andb orb snd].
  - rewrite IH. destruct (strcasecmp v "keep-alive" =? 0); cbn [orb]; [|done].
    rewrite set_close_hops. cbn [close_ set_close]. by destruct (existsb (fun f => is_connection f && _) headers).
  - rewrite IH. cbn [map fold_left apply_hop fst snd SetHeader close_ set_headers]. f_equal.
    change (strcasecmp k "host" =? 0) with (is_host (k, v)). destruct has, (is_host (k, v)), (nonempty v); done.
Qed.

(** The request [r0] with the caller's headers and, if they name no host, the given one. *)
Definition with_headers (headers : MapType) (host : string) (r0 r : HttpRequest) : Prop :=
  close_ r = (if keeps_alive headers then false else close_ r0) /\
  (forall key def, GetHeader key def r =
     default def (if negb (names_host headers) && (strcasecmp key "Host" =? 0) then Some host
                  else fold_left (last_value key) (copied headers) None)) /\
  (forall def, GetHeader "connection" def r = def) /\
  method_ r = method_ r0 /\ path_ r = path_ r0 /\ query_ r = query_ r0 /\ fragment_ r = fragment_ r0.

Lemma connection_not_copied headers : fold_left (last_value "connection") (copied headers) None = None.
Proof.
  unfold copied. induction headers as [|[k v] headers IH]; [done|]. cbn [List.filter].
  destruct (is_connection (k, v)) eqn:E; cbn [negb]; [exact IH|]. cbn [map fold_left last_value fst snd].
  assert (strcasecmp "connection" k =? 0 = false) as ->; [|exact IH].
  unfold is_connection in E. rewrite <- equiv_header in *. unfold equiv_key in *. by rewrite orb_comm.
Qed.

Lemma copied_with_headers headers host r0 :
  headers_ r0 = [] ->
  let '(has, r) := copy_headers headers false r0 in
  with_headers headers host r0 (if has then r else SetHeader "Host" host r).
Proof.
  intros H0. rewrite copy_headers_ok. cbn [orb].
  set (r1 := fold_left apply_hop (copied headers) r0).
  destruct (apply_hops_frame (copied headers) r0) as (M & _ & Pp & Q & F & _ & _).
  assert (map_ok CaseInsensitiveLess (headers_ r0)) as Hm by (rewrite H0; constructor).
  assert (forall key, find_header key (headers_ r1) = fold_left (last_value key) (copied headers) None) as Hf.
  { intros key. etransitivity; [apply (apply_hops (copied headers) r0 key Hm)|]. by rewrite H0. }
  assert (forall key, find_header key (headers_ (SetHeader "Host" host r1)) =
    if strcasecmp key "Host" =? 0 then Some host else fold_left (last_value key) (copied headers) None) as Hs.
  { intros key. rewrite <- Hf. apply (apply_hops [OpSet "Host" host] r1 key). apply (apply_hops (copied headers) r0 key Hm). }
  unfold with_headers, GetHeader. destruct (names_host headers); cbn [negb andb]; (split; [done|]); (split; [|split; [|done]]).
  - intros key def. change (headers_ (set_close _ r1)) with (headers_ r1). by rewrite Hf.
  - intros def. change (headers_ (set_close _ r1)) with (headers_ r1). by rewrite Hf, connection_not_copied.
  - intros key def. change (headers_ (SetHeader _ _ _)) with (headers_ (SetHeader "Host" host r1)). by rewrite Hs.
  - intros def. change (headers_ (SetHeader _ _ _)) with (headers_ (SetHeader "Host" host r1)).
    by rewrite Hs, connection_not_copied.
Qed.

(** The request made for a call has its method and target, and for every name the
    value the caller last gave to it, in whatever spelling; unless the caller names a
    host, the [Host] is that of the address (for a pool its virtual host, if it has
    one).  The [Connection] header is not copied: it only decides whether the
    connection is kept, and in a pool it always is. *)
Theorem requests_made method uri host vhost url headers body :
  let r := uri_request method uri headers body in
  let q := pool_request host vhost method url headers body in
  with_headers headers (uhost_ uri)
    (set_method method (set_fragment (ufragment_ uri) (set_query (uquery_ uri) (set_path (GetPath uri) (new_HttpRequest 17 true))))) r /\
  with_headers headers (if nonempty vhost then vhost else host)
    (set_close false (set_method method (set_path url (new_HttpRequest 17 true)))) q /\
  body_ r = body /\ body_ q = body /\ close_ q = false /\ nonempty (path_ r) = true.
Proof.
  cbn zeta. unfold uri_request, pool_request.
  set (r0 := set_method method (set_fragment _ _)). set (q0 := set_close false _).
  pose proof (copied_with_headers headers (uhost_ uri) r0 eq_refl) as Hr.
  pose proof (copied_with_headers headers (if nonempty vhost then vhost else host) q0 eq_refl) as Hq.
  destruct (copy_headers headers false r0) as [hr r]. destruct (copy_headers headers false q0) as [hq q].
  assert (nonempty (path_ r0) = true) as Hp by (cbn; unfold GetPath; by destruct (upath_ uri)).
  split_and!; [exact Hr|exact Hq|done|done| |].
  - destruct Hq as [Hq _]. cbn [close_ set_body]. etransitivity; [exact Hq|]. by destruct (keeps_alive headers).
  - destruct Hr as (_ & _ & _ & _ & Hpath & _). cbn [path_ set_body]. etransitivity; [|exact Hp]. by f_equal.
Qed.

(** ** Chunks *)

Section Chunks.
Context {P : Type} `{ClientMachine P} (buff_size : Z) (Hbuff : 0 < buff_size < 2 ^ 31).
Context (chunk_head : nat -> string).

(** The callbacks that say nothing about the response. *)
Definition silent (e : callback) : Prop := e = chunk_size \/ e = last_chunk \/ e = header_done.

(** The machine reads the header line of a chunk: it consumes exactly the line,
    whatever follows in the buffer, and knows the size it announces; size 0 is the
    last. *)
Definition reads_heads : Prop := forall n rest, Z.of_nat n < 2 ^ 31 -> Z.of_nat (String.length (chunk_head n +:+ rest)) < 2 ^ 31 ->
  exists q es, machine_execute machine_init (chunk_head n +:+ rest) = Ok (q, String.length (chunk_head n), es) /\
    Forall silent es /\ machine_finish q = true /\ machine_has_error q = false /\
    machine_content_len q = Z.of_nat n /\ machine_chunks_done q = (n =? 0)%nat.

(** A chunk on the wire. *)
Definition piece (d : list byte) : list byte := bytes_of (chunk_head (length d)) ++ d ++ bytes_of CRLF.

Definition fits (d : list byte) : Prop := Z.of_nat (length (piece d)) < buff_size.

Lemma silent_response es s : Forall silent es -> fold_left (fun s e => on_response e s) es s = s.
Proof using Type.
  destruct s as [err r]. induction 1 as [|e es He _ IH]; [done|]. cbn [fold_left]. by destruct He as [->|[->| ->]].
Qed.

(** The header of a chunk that arrives in one piece. *)
Lemma recv_head_piece fuel p d rest k ks out :
  reads_heads -> fits d -> rerror_ p = 0 -> k = Z.of_nat (length (piece d)) ->
  exists p', recv_head (fun p s => execute_response p s true) HasError_response IsFinished_response buff_size (S fuel) p []
      (mkConn (piece d ++ rest) (k :: ks) out false) =
    (Ok (Some (p', d ++ bytes_of CRLF)), mkConn rest ks out false) /\
    rerror_ p' = 0 /\ rdata_ p' = rdata_ p /\
    machine_content_len (rparser_ p') = Z.of_nat (length d) /\ machine_chunks_done (rparser_ p') = (length d =? 0)%nat.
Proof using Hbuff.
  intros Hm Hf He ->. unfold fits in Hf.
  assert (0 < Z.of_nat (length (piece d))) as Hpos.
  { unfold piece. rewrite !length_app. cbn. lia. }
  assert (Z.of_nat (length d) < 2 ^ 31) as Hd by (unfold piece in Hf; rewrite !length_app in Hf; lia).
  destruct (Hm (length d) (text_of (d ++ bytes_of CRLF)) Hd) as (q & es & E & Hs & Hfin & Herr & Hl & Hdone).
  { rewrite <- text_of_app, <- text_of_length. unfold piece in Hf. lia. }
  exists (mkRspParser q 0 (rdata_ p)). split; [|done].
  unfold piece. rewrite <- (app_assoc _ (d ++ bytes_of CRLF) rest). apply recv_head_whole; try done.
  - intros E0. unfold piece in Hpos. rewrite E0 in Hpos. cbn in Hpos. lia.
  - unfold execute_response. rewrite text_of_app, E, silent_response, He, bytes_of_length by done. done.
Qed.

(** The chunk itself, when the buffer holds it and the line end after it. *)
Lemma recv_chunk_piece d body c :
  recv_chunk buff_size (Z.of_nat (length d)) (d ++ bytes_of CRLF) body c = (Ok (Some (body ++ d, [])), c).
Proof using Type.
  unfold recv_chunk. rewrite length_app. replace (Z.of_nat (length d + length (bytes_of CRLF)) - 2) with (Z.of_nat (length d)) by (cbn; lia).
  rewrite Z.leb_refl, (proj2 (Z.leb_le 0 _)) by lia. unfold require, bind, ret.
  by rewrite Nat2Z.id, take_app_length, Z.sub_diag.
Qed.

Lemma recv_chunks_pieces fuel ds p rest body ks out :
  reads_heads -> Forall (fun d => d <> [] /\ fits d) ds -> fits [] -> rerror_ p = 0 -> (length ds < fuel)%nat ->
  exists p', recv_chunks buff_size fuel p [] body
      (mkConn (concat (map piece ds) ++ piece [] ++ rest)
         (map (fun d => Z.of_nat (length (piece d))) (ds ++ [[]]) ++ ks) out false) =
    (Ok (Some (p', body ++ concat ds)), mkConn rest ks out false) /\ rdata_ p' = rdata_ p.
Proof using Hbuff.
  intros Hm. revert ds p body. induction fuel as [|fuel IH]; intros ds p body Hds Hz Hp Hf; [lia|].
  cbn [recv_chunks]. unfold bind at 1, gets, id. destruct ds as [|d ds].
  - cbn [map concat app]. destruct (recv_head_piece (length (ready (mkConn (piece [] ++ rest)
      (Z.of_nat (length (piece [])) :: ks) out false))) p [] rest _ ks out Hm Hz Hp eq_refl) as (p' & E & _ & Hr & Hl & Hd).
    exists p'. rewrite (bind_ok _ _ _ _ _ E), Hl, (bind_ok _ _ _ _ _ (recv_chunk_piece [] body _)), Hd. done.
  - apply Forall_cons in Hds as [[Hne Hfd] Hds]. cbn [map concat app]. rewrite <- app_assoc.
    destruct (recv_head_piece (length (ready (mkConn (piece d ++ concat (map piece ds) ++ piece [] ++ rest)
      (Z.of_nat (length (piece d)) :: map (fun d => Z.of_nat (length (piece d))) (ds ++ [[]]) ++ ks) out false))) p d
      (concat (map piece ds) ++ piece [] ++ rest) _ (map (fun d => Z.of_nat (length (piece d))) (ds ++ [[]]) ++ ks)
      out Hm Hfd Hp eq_refl) as (p' & E & Hp' & Hr & Hl & Hd).
    rewrite (bind_ok _ _ _ _ _ E), Hl, (bind_ok _ _ _ _ _ (recv_chunk_piece d body _)), Hd.
    rewrite (proj2 (Nat.eqb_neq (length d) 0)) by (by destruct d). cbn in Hf.
    destruct (IH ds p' (body ++ d) Hds Hz Hp' ltac:(lia)) as (p2 & E2 & Hr2).
    exists p2. rewrite E2, app_assoc. split; [done|congruence].
Qed.

End Chunks.

(** ** Sizes in hexadecimal digits, and the theorems at work *)

Definition hex_char (d : Z) : ascii := default zero (String.get (Z.to_nat d) "0123456789abcdef").

Definition hex_digit (c : ascii) : option Z :=
  let n := Z.of_N (N_of_ascii c) in
  if (48 <=? n) && (n <=? 57) then Some (n - 48)
  else if (97 <=? n) && (n <=? 102) then Some (n - 87)
  else if (65 <=? n) && (n <=? 70) then Some (n - 55) else None.

(** The digits of [n] before [s]; eight of them are enough for an [int]. *)
Fixpoint hex_text (fuel : nat) (n : Z) (s : string) : string :=
  match fuel with
  | O => s
  | S fuel => let s := String (hex_char (n mod 16)) s in if n <? 16 then s else hex_text fuel (n / 16) s
  end.

Fixpoint hex_number (acc : Z) (s : string) : option Z :=
  match s with
  | EmptyString => Some acc
  | String c s => match hex_digit c with Some d => hex_number (acc * 16 + d) s | None => None end
  end.

Lemma hex_char_ok d : 0 <= d < 16 -> hex_digit (hex_char d) = Some d /\ Ascii.eqb (hex_char d) CR = false.
Proof.
  intros Hd. assert (Z.to_nat d < 16)%nat as Hn by lia. replace d with (Z.of_nat (Z.to_nat d)) by lia.
  revert Hn. generalize (Z.to_nat d) as n. intros n Hn. do 16 (destruct n as [|n]; [done|]). lia.
Qed.

Lemma hex_text_ok fuel n s :
  0 <= n < 16 ^ Z.of_nat fuel -> (0 < fuel)%nat ->
  hex_number 0 (hex_text fuel n s) = hex_number n s /\ lacks CR (hex_text fuel n s) = lacks CR s.
Proof.
  revert n s. induction fuel as [|fuel IH]; intros n s Hn Hf; [lia|]. cbn [hex_text].
  destruct (hex_char_ok (n mod 16)) as [Hd Hc]; [apply Z.mod_pos_bound; lia|].
  destruct (Z.ltb_spec n 16) as [Hs|Hs].
  - cbn [hex_number lacks]. rewrite Hd, Hc. by rewrite Z.mod_small, Z.mul_0_l, Z.add_0_l by lia.
  - rewrite Nat2Z.inj_succ, Z.pow_succ_r in Hn by lia.
    assert (0 <= n / 16 < 16 ^ Z.of_nat fuel) as Hq.
    { split; [apply Z.div_pos; lia|apply Z.div_lt_upper_bound; lia]. }
    destruct fuel as [|fuel]; [change (16 ^ Z.of_nat 0) with 1 in Hn; lia|].
    destruct (IH (n / 16) (String (hex_char (n mod 16)) s) Hq ltac:(lia)) as [-> ->].
    cbn [hex_number lacks]. rewrite Hd, Hc. split; [f_equal; pose proof (Z.div_mod n 16); lia|done].
Qed.

Lemma hex_text_nonempty fuel n c s : exists c' s', hex_text fuel n (String c s) = String c' s'.
Proof.
  revert n c s. induction fuel as [|fuel IH]; intros n c s; cbn [hex_text]; [by eexists _, _|].
  destruct (n <? 16); [by eexists _, _|apply IH].
Qed.

Definition hex_head (n : nat) : string := hex_text 8 (Z.of_nat n) EmptyString +:+ CRLF.

Definition demo_chunks : list (list byte) := map bytes_of ["hello "; "chunked"; " world"].

Lemma demo_fits : Forall (fun d => d <> [] /\ fits 4096 hex_head d) demo_chunks.
Proof. do 3 (apply Forall_cons; split; [split; by vm_compute|]). by apply Forall_nil. Qed.

(** A pool of at most one connection, kept for a second, for three requests each. *)
Definition demo_pool : HttpConnectionPool := new_HttpConnectionPool "localhost" EmptyString 80 1 1000 3.

Definition bump_conn (h : gmap nat HttpConnection) : nat := fresh (dom h).

Lemma bump_conn_fresh h : h !! bump_conn h = None.
Proof. exact (proj1 (not_elem_of_dom h _) (is_fresh (dom h))). Qed.

Definition demo_sock (text : string) : Conn := mkConn (bytes_of text) (replicate 300 1000) [] false.

Definition after_get (now : Z) (p : HttpConnectionPool) : HttpConnectionPool :=
  (GetConnection bump_conn now (Some (demo_sock "HTTP/1.1 200 OK")) p).2.

(** Two connections are taken, the first is given back. *)
Definition demo_pool2 : HttpConnectionPool := (ReleasePtr (10 ^ 12 + 5) 0 (after_get (10 ^ 12 + 1) (after_get (10 ^ 12) demo_pool))).2.

Lemma demo_lending : rtc (pool_step bump_conn) (demo_pool, []) (demo_pool2, [1%nat]).
Proof.
  eapply rtc_l; [apply (step_get _ (10 ^ 12) (Some (demo_sock "HTTP/1.1 200 OK"))); vm_compute; reflexivity|].
  eapply rtc_l; [apply (step_get _ (10 ^ 12 + 1) (Some (demo_sock "HTTP/1.1 200 OK"))); vm_compute; reflexivity|].
  apply rtc_once. apply (step_release _ (10 ^ 12 + 5) _ 0%nat); [constructor|vm_compute; reflexivity].
Qed.

Lemma pool_lends_once_witness :
  total_ demo_pool2 = 2 /\ conns_ demo_pool2 = [0%nat] /\ NoDup (conns_ demo_pool2 ++ [1%nat]) /\
  forall now id, id ∈ [1%nat] -> exists p', ReleasePtr now id demo_pool2 = (Ok tt, p').
Proof.
  split; [vm_compute; reflexivity|]. split; [vm_compute; reflexivity|].
  destruct (pool_lends_once bump_conn bump_conn_fresh "localhost" EmptyString 80 1 1000 3 demo_pool2 [1%nat] demo_lending)
    as (Hn & _ & _ & _ & Hr). split; [exact Hn|]. intros now id Hi. destruct (Hr now id Hi) as (p' & E & _). by exists p'.
Defined.

Lemma demo_pool2_ok : pool_ok [1%nat] demo_pool2.
Proof. exact (pool_steps_ok bump_conn bump_conn_fresh "localhost" EmptyString 80 1 1000 3 demo_pool2 [1%nat] demo_lending). Qed.

(** The limits of the pool do not hold.  [max_size_] is never read: the pool of one
    connection has opened two.  [create_time_] is never set, so that its time to live
    is compared with the time since 1970: a connection is handed out a year later,
    though it was to be kept for a second. *)
Theorem pool_limits_ignored :
  max_size_ demo_pool2 = 1 /\ total_ demo_pool2 = 2 /\
  (GetConnection bump_conn (10 ^ 12 + 365 * 86400 * 1000) None demo_pool2).1 = Ok (Some 0%nat).
Proof. vm_compute. done. Qed.
