(* ===== verification/ClientGrammar.v ===== *)
(** * The response machine: [gudov/http/httpclient_parser.rl], [gudov/http/httpclient_parser.h]

    The grammar of responses and of the headers of chunks, its actions, and
    [httpclient_parser_execute]. *)

From S2P Require Import Prelude Ragel Http HttpParser HttpGrammar.
From stdpp Require Import base numbers list strings.
From Stdlib Require Import NArith ZArith Lia Ascii.
Open Scope Z_scope.

(** ** The grammar *)

Inductive client_action :=
  | c_mark | c_start_field | c_write_field | c_start_value | write_content_len | write_connection_close | c_write_value
  | do_reason_phrase | do_status_code | c_http_version | do_chunk_size | trans_chunked | c_done.

#[global] Instance client_action_eq_dec : EqDecision client_action.
Proof. solve_decision. Defined.

#[global] Instance client_defs : Defs client_action := {| defs := []; defs_closed := Forall_nil_2 _ |}.

Module ClientGrammar.
Local Open Scope ragel_scope.
Abbreviation rl := (rx client_action).

Definition CR_LF : rl := lit (String (ascii_of_nat 13) (String (ascii_of_nat 10) EmptyString)) |. Chr (code 10).

Definition CTL : cls := cntrl ++ code 127.
Definition tspecials : cls := one_of "()<>@,;:\/[]?={} " ++ code 34 ++ code 9.
Definition token_c : cls := cls_minus ascii_ (CTL ++ tspecials).

(** Of the words of one character only the line feed has a line end in it. *)
Definition Reason_Phrase : rl := many1 (Chr (cls_minus any (code 10))) >. c_mark %. do_reason_phrase.
Definition Status_Code : rl := many1 (Chr digit) >. c_mark %. do_status_code.
Definition http_number : rl := many1 (Chr digit) ~. lit "." ~. many1 (Chr digit).
Definition HTTP_Version : rl := (lit "HTTP/" ~. http_number) >. c_mark %. c_http_version.
Definition Status_Line : rl := (HTTP_Version ~. lit " " ~. Status_Code ~. lit " " ~. Reason_Phrase) :>. CR_LF.

Definition field_name : rl := many1 (Chr token_c) >. c_start_field %. c_write_field.
Definition field_value : rl := star (Chr any) >. c_start_value %. c_write_value.
Definition fields : rl := (field_name ~. lit ":" ~. star (Chr space) ~. field_value) :>. CR_LF.

Definition content_length : rl :=
  (lit_i "Content-Length" >. c_start_field %. c_write_field ~. lit ":" ~. star (Chr space) ~.
   many1 (Chr digit) >. c_start_value %. write_content_len %. c_write_value) ~. CR_LF.
Definition conn_close : rl :=
  (lit_i "Connection" ~. lit ":" ~. star (Chr space) ~. lit_i "close") ~. CR_LF %. write_connection_close.
Definition transfer_encoding_chunked : rl :=
  (lit_i "Transfer-Encoding" >. c_start_field %. c_write_field ~. lit ":" ~. star (Chr space) ~.
   lit_i "chunked" >. c_start_value %. c_write_value) ~. CR_LF @. trans_chunked.

Definition message_header : rl := transfer_encoding_chunked |. conn_close |. content_length |. fields.
Definition Response : rl := Status_Line ~. star message_header ~. CR_LF.

Definition chunk_ext_val : rl := many1 (Chr token_c).
Definition chunk_ext_name : rl := many1 (Chr token_c).
Definition chunk_extension : rl :=
  star (lit ";" ~. chunk_ext_name >. c_start_field %. c_write_field %. c_start_value ~.
        opt (lit "=" ~. chunk_ext_val >. c_start_value) %. c_write_value).
Definition chunk_size : rl := many1 (Chr xdigit).
Definition Chunked_Header : rl := (chunk_size >. c_mark %. do_chunk_size ~. chunk_extension) :>. CR_LF.

Definition main : rl := numbered ((Response |. Chunked_Header) @. c_done).
End ClientGrammar.

(** ** The parser

    [status] is left out: it is written and never read. *)

Record httpclient_parser := mkClientParser {
  ccs : option (state client_action);
  cbody_start : Z;
  ccontent_len : Z;
  chunked : bool;
  chunks_done : bool;
  close : bool;
  cnread : Z;
  cmark : Z;
  cfield_start : Z;
  cfield_len : Z }.

Definition cset_mark v p := mkClientParser (ccs p) (cbody_start p) (ccontent_len p) (chunked p) (chunks_done p) (close p) (cnread p) v (cfield_start p) (cfield_len p).
Definition cset_field_start v p := mkClientParser (ccs p) (cbody_start p) (ccontent_len p) (chunked p) (chunks_done p) (close p) (cnread p) (cmark p) v (cfield_len p).
Definition cset_field_len v p := mkClientParser (ccs p) (cbody_start p) (ccontent_len p) (chunked p) (chunks_done p) (close p) (cnread p) (cmark p) (cfield_start p) v.
Definition cset_content_len v p := mkClientParser (ccs p) (cbody_start p) v (chunked p) (chunks_done p) (close p) (cnread p) (cmark p) (cfield_start p) (cfield_len p).
Definition cset_chunked v p := mkClientParser (ccs p) (cbody_start p) (ccontent_len p) v (chunks_done p) (close p) (cnread p) (cmark p) (cfield_start p) (cfield_len p).
Definition cset_chunks_done v p := mkClientParser (ccs p) (cbody_start p) (ccontent_len p) (chunked p) v (close p) (cnread p) (cmark p) (cfield_start p) (cfield_len p).
Definition cset_close v p := mkClientParser (ccs p) (cbody_start p) (ccontent_len p) (chunked p) (chunks_done p) v (cnread p) (cmark p) (cfield_start p) (cfield_len p).
Definition cset_body_start v p := mkClientParser (ccs p) v (ccontent_len p) (chunked p) (chunks_done p) (close p) (cnread p) (cmark p) (cfield_start p) (cfield_len p).
Definition cset_cs v p := mkClientParser v (cbody_start p) (ccontent_len p) (chunked p) (chunks_done p) (close p) (cnread p) (cmark p) (cfield_start p) (cfield_len p).
Definition cset_nread v p := mkClientParser (ccs p) (cbody_start p) (ccontent_len p) (chunked p) (chunks_done p) (close p) v (cmark p) (cfield_start p) (cfield_len p).

(** *** [strtol(s, NULL, base)] *)

Definition digit_value (base : Z) (x : ascii) : option Z :=
  let n := Z.of_N (N_of_ascii x) in
  let d := if (48 <=? n) && (n <=? 57) then n - 48
           else if (65 <=? n) && (n <=? 90) then n - 55
           else if (97 <=? n) && (n <=? 122) then n - 87 else base in
  if d <? base then Some d else None.

Fixpoint strtol_digits (base acc : Z) (s : list ascii) : Z :=
  match s with
  | x :: s' => match digit_value base x with Some d => strtol_digits base (acc * base + d) s' | None => acc end
  | [] => acc
  end.

Fixpoint skip_space (s : list ascii) : list ascii :=
  match s with x :: s' => if mem space x then skip_space s' else s | [] => [] end.

(** [0x] in front of a hexadecimal digit. *)
Definition skip_prefix (base : Z) (s : list ascii) : list ascii :=
  match s with
  | a :: b :: c :: s' =>
      if (base =? 16) && mem (chr "0") a && mem (one_of "xX") b && match digit_value 16 c with Some _ => true | None => false end
      then c :: s' else s
  | _ => s
  end.

Definition strtol (base : Z) (s : list ascii) : Z :=
  let s := skip_space s in
  let '(sign, s) := match s with x :: s' => if mem (chr "-") x then (-1, s') else if mem (chr "+") x then (1, s') else (1, s) | [] => (1, s) end in
  Z.max (- 2 ^ 63) (Z.min (2 ^ 63 - 1) (sign * strtol_digits base 0 (skip_prefix base s))).

(** *** Actions *)

Section Actions.
Context (buffer : list ascii).

Definition client_parsing := (httpclient_parser * list callback)%type.
Definition cemit (c : callback) (e : client_parsing) : client_parsing := (e.1, e.2 ++ [c]).
Definition cemit_text (c : string -> callback) (at_ length_ : Z) (e : client_parsing) : result (client_parsing * bool) :=
  match text_at buffer at_ length_ with Ok t => Ok (cemit (c t) e, false) | Fail x => Fail x end.
Definition on_client (f : httpclient_parser -> httpclient_parser) (e : client_parsing) : result (client_parsing * bool) := Ok ((f e.1, e.2), false).
Definition from_mark (p : httpclient_parser) : list ascii := drop (Z.to_nat (cmark p)) buffer.

Definition client_act (a : client_action) (fpc : nat) (e : client_parsing) : result (client_parsing * bool) :=
  let parser := e.1 in
  match a with
  | c_mark | c_start_value => on_client (cset_mark (Z.of_nat fpc)) e
  | c_start_field => on_client (cset_field_start (Z.of_nat fpc)) e
  | c_write_field => on_client (cset_field_len (LEN (cfield_start parser) fpc)) e
  | write_content_len => on_client (cset_content_len (s32 (strtol 10 (from_mark parser)))) e
  | write_connection_close => on_client (cset_close true) e
  | c_write_value =>
      if cfield_len parser =? 0 then Ok (cemit (http_field EmptyString EmptyString) e, false)
      else match text_at buffer (cfield_start parser) (cfield_len parser) with
           | Ok f => cemit_text (http_field f) (cmark parser) (LEN (cmark parser) fpc) e
           | Fail x => Fail x
           end
  | do_reason_phrase => cemit_text reason_phrase (cmark parser) (LEN (cmark parser) fpc) e
  | do_status_code => Ok (cemit (status_code (PTR_TO buffer (cmark parser))) e, false)
  | c_http_version => Ok (cemit (http_version (PTR_TO buffer (cmark parser)) (Z.to_nat (LEN (cmark parser) fpc))) e, false)
  | do_chunk_size =>
      let n := s32 (strtol 16 (from_mark parser)) in
      Ok (cemit (if n <=? 0 then last_chunk else chunk_size) (cset_chunks_done (n <=? 0) (cset_content_len n (cset_chunked true parser)), e.2), false)
  | trans_chunked => on_client (cset_chunked true) e
  | c_done => Ok (cemit header_done (cset_body_start (Z.of_nat fpc + 1) parser, e.2), true)
  end.
End Actions.

(** *** Operations *)

Definition httpclient_parser_init : httpclient_parser := mkClientParser (Some [ClientGrammar.main]) 0 (-1) false false false 0 0 0 0.

Definition httpclient_parser_has_error (p : httpclient_parser) : bool := match ccs p with None => true | Some _ => false end.
(** The machine has one final state. *)
Definition httpclient_parser_is_finished (p : httpclient_parser) : bool := match ccs p with Some s => accepting s | None => false end.
Definition httpclient_parser_finish (p : httpclient_parser) : Z :=
  if httpclient_parser_has_error p then -1 else if httpclient_parser_is_finished p then 1 else 0.

(** [httpclient_parser_execute(parser, buffer, len, 0)]; the callers have put a NUL behind
    the text.  The result -1 becomes an offset far outside the buffer, from which
    [HttpResponseParser::execute] copies. *)
Definition httpclient_parser_execute (p : httpclient_parser) (data : string) : result (httpclient_parser * nat * list callback) :=
  let buffer := String.list_ascii_of_string data in
  let len := Z.of_nat (length buffer) in
  let p := cset_field_start 0 (cset_field_len 0 (cset_mark 0 (cset_nread 0 p))) in
  if negb (len =? s32 len) then Fail assert_failed else
  match match ccs p with None => Ok (None, 0%nat, (p, [])) | Some s => run (client_act buffer) s 0 buffer (p, []) end with
  | Fail x => Fail x
  | Ok (c, i, (p, es)) =>
      let p := cset_nread (Z.of_nat i) (cset_cs c p) in
      if (cnread p <=? len) && (cbody_start p <=? len) then
        if (cmark p <? len) && (cfield_len p <=? len) && (cfield_start p <? len) then Ok (p, i, es) else Fail undefined
      else Fail assert_failed
  end.
