(* ===== verification/ClientRead.v ===== *)
(** * What the response machine reads

    The header of a chunk and the head of a response, followed through the machine of
    [httpclient_parser.rl]. *)

From S2P Require Import Prelude OrderedMap Ragel Http HttpParser HttpGrammar ClientGrammar Stream HttpSession HttpClient.
From stdpp Require Import base numbers list strings pretty.
From Stdlib Require Import NArith ZArith Lia Ascii Strings.Byte.
Open Scope Z_scope.
#[local] Abbreviation chars := String.list_ascii_of_string.
#[local] Abbreviation text := String.string_of_list_ascii.

(** ** The machine *)

#[global] Program Instance client_machine : Machine httpclient_parser :=
  {| machine_init := httpclient_parser_init; machine_execute := httpclient_parser_execute;
     machine_finish p := negb (httpclient_parser_finish p =? 0); machine_has_error := httpclient_parser_has_error |}.
Next Obligation.
  intros p s q n es. unfold httpclient_parser_execute. assert (length (chars s) = String.length s) as <- by (by induction s as [|c s IH]; cbn; [|rewrite IH]).
  destruct (negb _); [done|]. match goal with |- match ?x with Ok _ => _ | Fail _ => _ end = _ -> _ => destruct x as [[[o i] [p' es']]|]; [|done] end.
  destruct ((cnread _ <=? _) && _) eqn:E; [|done]. destruct (_ && _ && _); [|done]. intros [= _ <- _]. rewrite !andb_true_iff, !Z.leb_le in E. cbn [cnread cset_nread] in E. lia.
Qed.

#[global] Instance client_parts : ClientMachine httpclient_parser :=
  {| machine_chunked := chunked; machine_content_len := ccontent_len; machine_chunks_done := chunks_done |}.

(** ** The checks behind the machine *)

Definition cwithin (n : Z) (p : httpclient_parser) : Prop :=
  0 <= cmark p < n /\ 0 <= cfield_start p < n /\ 0 <= cfield_len p <= n /\ 0 <= cbody_start p <= n.
Definition cbehind (i : nat) (p : httpclient_parser) : Prop := cmark p <= Z.of_nat i /\ cfield_start p <= Z.of_nat i.

Section Within.
Context (buffer : list ascii) (Hn : Z.of_nat (length buffer) < 2 ^ 31).

Lemma client_act_within a i e e' b : (i < length buffer)%nat ->
  cwithin (Z.of_nat (length buffer)) e.1 -> cbehind i e.1 -> client_act buffer a i e = Ok (e', b) ->
  cwithin (Z.of_nat (length buffer)) e'.1 /\ cbehind i e'.1.
Proof using Hn.
  intros Hi (H1 & H2 & H3 & H4) (H5 & H6). destruct e as [p es]. cbn [fst snd] in *. pose proof (LEN_small (cfield_start p) i ltac:(lia) ltac:(lia)) as Hl.
  unfold client_act, on_client, cemit_text, cemit. cbn [fst snd]. unfold cwithin, cbehind.
  destruct a; repeat case_match; intros [= <- <-];
    cbn [fst snd cmark cfield_start cfield_len cbody_start cset_mark cset_field_start cset_field_len cset_content_len cset_chunked cset_chunks_done cset_close cset_body_start];
    rewrite ?Hl; lia.
Qed.

Lemma client_run_within s i w e o j e' : (i + length w <= length buffer)%nat ->
  cwithin (Z.of_nat (length buffer)) e.1 -> cbehind i e.1 -> run (client_act buffer) s i w e = Ok (o, j, e') ->
  (j <= i + length w)%nat /\ cwithin (Z.of_nat (length buffer)) e'.1.
Proof using Hn.
  assert (forall l k d d' b, (k < length buffer)%nat -> cwithin (Z.of_nat (length buffer)) d.1 -> cbehind k d.1 ->
    do_actions (client_act buffer) l k d = Ok (d', b) -> cwithin (Z.of_nat (length buffer)) d'.1 /\ cbehind k d'.1) as Hl.
  { induction l as [|a l IH]; intros k d d' b Hk Hw Hb; cbn [do_actions]; [by intros [= <- <-]|].
    destruct (client_act buffer a k d) as [[e1 []]|] eqn:Ea; [|intros E|done];
      destruct (client_act_within _ _ _ _ _ Hk Hw Hb Ea) as [Hw' Hb']; [by intros [= <- <-]|by apply (IH k e1 d' b)]. }
  revert s i e. induction w as [|x w IH]; intros s i e Hi Hw Hb; cbn [run length] in Hi |- *; [intros [= <- <- <-]; split; [lia|done]|].
  destruct (step s x) as [[l s']|]; [|intros [= <- <- <-]; split; [lia|done]].
  destruct (do_actions (client_act buffer) l i e) as [[e1 []]|] eqn:Ed; [| |done];
    destruct (Hl l i e e1 _ ltac:(lia) Hw Hb Ed) as [Hw' Hb'].
  - intros [= <- <- <-]. split; [lia|done].
  - intros E. apply IH in E; [destruct E; split; [lia|done]|lia|done|unfold cbehind in *; lia].
Qed.
End Within.

(** A run that ends in a final state is what [httpclient_parser_execute] returns. *)
Lemma client_execute_run buffer s n p es : Z.of_nat (length buffer) < 2 ^ 31 -> buffer <> [] ->
  run (client_act buffer) [ClientGrammar.main] 0 buffer (httpclient_parser_init, []) = Ok (Some s, n, (p, es)) -> accepting s = true ->
  exists q, httpclient_parser_execute httpclient_parser_init (text buffer) = Ok (q, n, es) /\ httpclient_parser_finish q = 1 /\
    httpclient_parser_has_error q = false /\ ccontent_len q = ccontent_len p /\ chunks_done q = chunks_done p /\ chunked q = chunked p.
Proof.
  intros Hlen Hne E Ha. assert (0 < length buffer)%nat as Hpos by (by destruct buffer; [|cbn; lia]).
  pose proof (client_run_within buffer Hlen [ClientGrammar.main] 0 buffer (httpclient_parser_init, []) _ _ _ (Nat.le_refl _) ltac:(unfold cwithin; cbn; lia) ltac:(unfold cbehind; cbn; lia) E) as [Hi (H1 & H2 & H3 & H4)].
  cbn [fst Nat.add] in *.
  exists (cset_nread (Z.of_nat n) (cset_cs (Some s) p)). split.
  - unfold httpclient_parser_execute. rewrite String.list_ascii_of_string_of_list_ascii. unfold s32. rewrite wraps_small, Z.eqb_refl by lia. cbn [negb].
    change (cset_field_start 0 _) with httpclient_parser_init. change (ccs httpclient_parser_init) with (Some [ClientGrammar.main]). cbv iota. rewrite E.
    cbn [cnread cbody_start cmark cfield_len cfield_start cset_nread cset_cs].
    rewrite (proj2 (Z.leb_le (Z.of_nat n) _)), (proj2 (Z.leb_le (cbody_start p) _)), (proj2 (Z.ltb_lt (cmark p) _)), (proj2 (Z.leb_le (cfield_len p) _)),
      (proj2 (Z.ltb_lt (cfield_start p) _)) by lia. done.
  - unfold httpclient_parser_finish, httpclient_parser_has_error, httpclient_parser_is_finished. cbn [ccs cset_nread cset_cs]. by rewrite Ha.
Qed.

(** ** The header of a chunk *)

Module ClientStates.
Definition c_start : list (state client_action) := [[ClientGrammar.main]].
Definition c_size := closure 10 (singles [xdigit]) (follow c_start xdigit) [].
Definition chunk_script : list (cls * list client_action) := [(code 13, [do_chunk_size])].
Definition c_chunk := follow_play c_size chunk_script.
Definition c_final := follow c_chunk (code 10).
End ClientStates.
Import ClientStates.

Lemma chunk_edges :
  edge c_start xdigit [c_mark] c_size && loops c_size (singles [xdigit]) && plays c_size chunk_script c_chunk &&
  edge c_chunk (code 10) [c_done] c_final && forallb accepting c_final = true.
Proof. vm_compute. reflexivity. Qed.

Ltac chunk_fact :=
  let H := fresh in pose proof chunk_edges as H;
  repeat match goal with H : _ && _ = true |- _ => apply andb_prop in H as [? ?] end;
  match goal with H : ?P |- ?Q => constr_eq P Q; exact H end.

(** A hexadecimal digit is one for the grammar and for [strtol]. *)
Lemma hex_digit_char c d : hex_digit c = Some d -> mem xdigit c = true /\ digit_value 16 c = Some d.
Proof. destruct c as [[] [] [] [] [] [] [] []]; vm_compute; intros [= <-]; done. Qed.

Lemma hex_number_strtol line n acc tl : hex_number acc line = Some n ->
  Forall (fun x => mem xdigit x = true) (chars line) /\ strtol_digits 16 acc (chars line ++ ascii_of_N 13 :: tl) = n.
Proof.
  revert acc. induction line as [|c line IH]; intros acc; cbn [hex_number chars app strtol_digits].
  - intros [= <-]. by split; [constructor|].
  - destruct (hex_digit c) as [d|] eqn:E; [|done]. apply hex_digit_char in E as [Hc Hd]. rewrite Hd. intros [H1 H2]%IH. by split; [constructor|].
Qed.

Lemma xdigit_plain x : mem xdigit x = true -> mem space x = false /\ mem (chr "-") x = false /\ mem (chr "+") x = false /\ mem (one_of "xX") x = false.
Proof. destruct x as [[] [] [] [] [] [] [] []]; vm_compute; done. Qed.

Lemma strtol_hex line n tl : line <> EmptyString -> 0 <= n < 2 ^ 31 -> hex_number 0 line = Some n -> strtol 16 (chars line ++ ascii_of_N 13 :: tl) = n.
Proof.
  intros Hne Hn Hh. destruct (hex_number_strtol line n 0 tl Hh) as [Hall Hv]. destruct line as [|c line]; [done|].
  cbn [String.list_ascii_of_string app] in *. inversion Hall as [|? ? Hc Hl]; subst. destruct (xdigit_plain c Hc) as (H1 & H2 & H3 & _).
  unfold strtol. cbn [skip_space]. rewrite H1, H2, H3.
  assert (skip_prefix 16 (c :: chars line ++ ascii_of_N 13 :: tl) = c :: chars line ++ ascii_of_N 13 :: tl) as ->.
  { unfold skip_prefix. destruct line as [|d line]; cbn [String.list_ascii_of_string app].
    - destruct tl as [|e tl]; [done|]. by rewrite !andb_false_r.
    - inversion Hl as [|? ? Hd _]; subst. destruct (xdigit_plain d Hd) as (_ & _ & _ & H4).
      destruct (chars line ++ ascii_of_N 13 :: tl); [done|]. by rewrite H4, !andb_false_r. }
  rewrite Z.mul_1_l. lia.
Qed.


(** The machine on the line that announces a chunk of [n] bytes. *)
Section ChunkLine.
Context (buffer : list ascii).

Lemma run_chunk c w n rest : buffer = c :: w ++ ascii_of_N 13 :: ascii_of_N 10 :: rest -> Forall (fun x => mem xdigit x = true) (c :: w) ->
  strtol 16 buffer = n -> 0 <= n < 2 ^ 31 -> exists s p, accepting s = true /\ ccontent_len p = n /\ chunks_done p = (n <=? 0) /\
    run (client_act buffer) [ClientGrammar.main] 0 (c :: w ++ ascii_of_N 13 :: ascii_of_N 10 :: rest) (httpclient_parser_init, []) =
      Ok (Some s, (length w + 3)%nat, (p, [if n <=? 0 then last_chunk else chunk_size; header_done])).
Proof using Type.
  intros Hb Hall Hs Hn. inversion Hall as [|? ? Hc Hw]; subst x l.
  destruct (run_edge (client_act buffer) c_start xdigit [c_mark] c_size [ClientGrammar.main] c) as (s1 & Hs1 & ->); [chunk_fact|unfold c_start; by left|exact Hc|].
  cbn [do_actions client_act on_client fst snd].
  destruct (run_loops (client_act buffer) c_size (singles [xdigit]) s1 w) as (s2 & Hs2 & ->); [chunk_fact|exact Hs1| |].
  { apply made_chars. eapply Forall_impl; [exact Hw|]. intros y Hy. cbn [existsb]. by rewrite Hy. }
  set (q := cset_chunks_done (n <=? 0) (cset_content_len n (cset_chunked true (cset_mark (Z.of_nat 0) httpclient_parser_init)))).
  destruct (run_plays (client_act buffer) c_size chunk_script c_chunk s2 [ascii_of_N 13]) as (s3 & Hs3 & Hr); [chunk_fact|exact Hs2|by repeat constructor|].
  change (ascii_of_N 13 :: ascii_of_N 10 :: rest) with ([ascii_of_N 13] ++ ascii_of_N 10 :: rest).
  rewrite (Hr _ _ _ (q, [if n <=? 0 then last_chunk else chunk_size])).
  - destruct (run_edge (client_act buffer) c_chunk (code 10) [c_done] c_final s3 (ascii_of_N 10)) as (s4 & Hs4 & ->); [chunk_fact|exact Hs3|reflexivity|].
    cbn [do_actions client_act fst snd]. eexists s4, _. split; [|split; [|split; [|do 3 f_equal; cbn [length]; lia]]]; try reflexivity.
    assert (forallb accepting c_final = true) as Ha by chunk_fact. rewrite forallb_forall in Ha. exact (Ha _ (proj1 (list_elem_of_In _ _) Hs4)).
  - cbn [map snd chunk_script do_script do_actions client_act from_mark fst cmark cset_mark]. unfold from_mark. cbn [cmark cset_mark Z.of_nat Z.to_nat]. rewrite drop_0, Hs.
    unfold s32. rewrite wraps_small by lia. done.
Qed.
End ChunkLine.

Lemma hex_head_ready n rest : Z.of_nat n < 2 ^ 31 -> Z.of_nat (String.length (hex_head n +:+ rest)) < 2 ^ 31 ->
  exists q es, httpclient_parser_execute httpclient_parser_init (hex_head n +:+ rest) = Ok (q, String.length (hex_head n), es) /\
    Forall silent es /\ httpclient_parser_finish q = 1 /\ httpclient_parser_has_error q = false /\
    ccontent_len q = Z.of_nat n /\ chunks_done q = (n =? 0)%nat.
Proof.
  intros Hn Hlen. unfold hex_head in *. set (line := hex_text 8 (Z.of_nat n) EmptyString) in *.
  destruct (hex_text_ok 8 (Z.of_nat n) EmptyString) as [Hv _]; [change (16 ^ Z.of_nat 8) with (2 ^ 32); lia|lia|]. fold line in Hv. cbn [hex_number] in Hv.
  assert (exists c s, line = String c s) as (c & s & El).
  { unfold line. cbn [hex_text]. destruct (Z.of_nat n <? 16); [by eexists _, _|apply (hex_text_nonempty 7)]. }
  clearbody line. subst line. set (buffer := chars ((String c s +:+ CRLF) +:+ rest)).
  assert (buffer = c :: chars s ++ ascii_of_N 13 :: ascii_of_N 10 :: chars rest) as Hb.
  { unfold buffer. rewrite !chars_app. cbn. by rewrite <- app_assoc. }
  assert (forall t, length (chars t) = String.length t) as Hl by (clear; induction t as [|x t IH]; cbn; [|rewrite IH]; done).
  destruct (hex_number_strtol _ _ 0 [] Hv) as [Hall _].
  destruct (run_chunk buffer c (chars s) (Z.of_nat n) (chars rest) Hb Hall) as (st & p & Ha & Hc & Hd & E); [|lia|].
  { rewrite Hb. apply (strtol_hex (String c s)); [done|lia|done]. }
  rewrite <- Hb in E. destruct (client_execute_run buffer st _ p _ ltac:(unfold buffer; by rewrite Hl) ltac:(by rewrite Hb) E Ha) as (q & Eq & Hf & He & H1 & H2 & _).
  unfold buffer in Eq. rewrite String.string_of_list_ascii_of_string in Eq. exists q, [if Z.of_nat n <=? 0 then last_chunk else chunk_size; header_done]. rewrite Eq.
  split; [|split; [|by rewrite H1, H2, Hc, Hd; destruct n]].
  - do 3 f_equal. rewrite str_length_app. cbn. rewrite Hl. lia.
  - apply Forall_cons; split; [|apply Forall_singleton]; unfold silent; destruct (Z.of_nat n <=? 0); tauto.
Qed.

(** The machine reads the line that announces a chunk, whatever follows it. *)
Lemma client_reads_heads : reads_heads (P := httpclient_parser) hex_head.
Proof.
  intros n rest Hn Hlen. destruct (hex_head_ready n rest Hn Hlen) as (q & es & E & Hs & Hf & He & H1 & H2).
  exists q, es. split_and!; try done. cbn [machine_finish client_machine]. by rewrite Hf.
Qed.

(** C25: When every chunk of a response arrives in one piece, with the line that announces
    its size in hexadecimal digits and with its line end, and nothing of the next one,
    the body is the chunks one after the other, up to the empty one; the response is
    otherwise what its head said, and what follows stays in the stream. *)
Theorem chunks_received buff_size ds (p : HttpResponseParser httpclient_parser) rest body ks out : 0 < buff_size < 2 ^ 31 ->
  Forall (fun d => d <> [] /\ fits buff_size hex_head d) ds -> fits buff_size hex_head [] -> rerror_ p = 0 ->
  let c := mkConn (concat (map (piece hex_head) ds) ++ piece hex_head [] ++ rest)
             (map (fun d => Z.of_nat (length (piece hex_head d))) (ds ++ [[]]) ++ ks) out false in
  exists p', recv_chunks buff_size (S (length (ready c))) p [] body c =
    (Ok (Some (p', body ++ concat ds)), mkConn rest ks out false) /\ rdata_ p' = rdata_ p.
Proof.
  intros Hb Hds Hz Hp. cbn zeta. apply recv_chunks_pieces; [exact Hb|exact client_reads_heads|exact Hds|exact Hz|exact Hp|].
  cbn [ready]. rewrite length_app, length_map, length_app. lia.
Qed.

Lemma chunks_received_witness :
  exists p', recv_chunks 4096 5 (new_HttpResponseParser (P := httpclient_parser)) [] []
      (mkConn (concat (map (piece hex_head) demo_chunks) ++ piece hex_head [] ++ bytes_of "HTTP")
         (map (fun d => Z.of_nat (length (piece hex_head d))) (demo_chunks ++ [[]]) ++ []) [] false) =
    (Ok (Some (p', [] ++ concat demo_chunks)), mkConn (bytes_of "HTTP") [] [] false) /\
    rdata_ p' = rdata_ (new_HttpResponseParser (P := httpclient_parser)).
Proof.
  apply (chunks_received 4096 demo_chunks new_HttpResponseParser (bytes_of "HTTP") [] [] []).
  - lia.
  - apply demo_fits.
  - by vm_compute.
  - reflexivity.
Defined.
