(* ===== verification/ClientWire.v ===== *)
(** * A response over the wire

    The response a server prints, read by the machine of [httpclient_parser.rl] and
    received by [HttpConnection::RecvResponse]. *)

From S2P Require Import Prelude OrderedMap Ragel Http HttpParser HttpGrammar HttpRead ClientGrammar Stream HttpSession HttpWire HttpClient ClientRead.
From stdpp Require Import base numbers list strings pretty.
From Stdlib Require Import NArith ZArith Lia Ascii Strings.Byte.
Open Scope Z_scope.
Open Scope prog_scope.
#[local] Abbreviation chars := String.list_ascii_of_string.
#[local] Abbreviation text := String.string_of_list_ascii.

(** ** The states of a name

    While a name is read the machine follows the three names it knows beside those it
    does not.  Its state is a function of the part that was read, in small letters. *)

Module NameStates.
Import ClientGrammar.

Definition lower (x : ascii) : ascii := if mem upper x then ascii_of_N (N_of_ascii x + 32) else x.
Definition known : list (list ascii) := map chars ["content-length"; "connection"; "transfer-encoding"].

Fixpoint prefixb (q s : list ascii) : bool :=
  match q, s with
  | [], _ => true
  | x :: q, y :: s => Ascii.eqb x y && prefixb q s
  | _, _ => false
  end.
Fixpoint inits (s : list ascii) : list (list ascii) := match s with [] => [[]] | x :: s => [] :: map (cons x) (inits s) end.
Definition prefixes : list (list ascii) := mjoin (map inits known).
Definition is_prefix (q : list ascii) : bool := existsb (prefixb q) known.

(** The characters that lead from one prefix to another. *)
Definition nexts (q : list ascii) : list ascii := omap (fun s => if prefixb q s then s !! length q else None) known.
Definition others (q : list ascii) : cls := cls_minus token_c (mjoin (map chr_i (nexts q))).

Definition after (s : state client_action) (w : string) : state client_action := default [] (steps s (chars w)).
Definition s_line : state client_action := after [main] ("HTTP/1.1 200 OK" +:+ CRLF).
Definition s_other : state client_action := after s_line "!".
Definition table (q : list ascii) : state client_action := default [] (steps s_line q).
Definition name_state (q : list ascii) : state client_action := if is_prefix q then table q else s_other.
Definition first_actions (q : list ascii) : list client_action := match q with [] => [c_start_field] | _ => [] end.

Definition leads (s : state client_action) (c : cls) (l : list client_action) (s' : state client_action) : bool :=
  match step_cls s c with Some (l', t) => acts_eqb l' l && state_eqb t s' | None => false end.

Definition row (q : list ascii) : bool :=
  let s := table q in
  forallb (fun y => leads s (chr_i y) (first_actions q) (table (q ++ [y]))) (nexts q) && leads s (others q) (first_actions q) s_other.
End NameStates.
Import NameStates.

Lemma name_table : forallb row prefixes && leads s_other ClientGrammar.token_c [] s_other = true.
Proof. vm_compute. reflexivity. Qed.

Lemma leads_step s c l s' x : leads s c l s' = true -> mem c x = true -> step s x = Some (l, s').
Proof.
  unfold leads. destruct (step_cls s c) as [[l' t]|] eqn:E; [|done]. intros [El%bool_decide_eq_true ->%state_eqb_eq]%andb_true_iff Hx. subst l'.
  by apply (step_cls_ok _ _ _ _ E).
Qed.

Definition all_chars : list ascii := map ascii_of_nat (seq 0 256).

Lemma all_chars_in x : In x all_chars.
Proof.
  unfold all_chars. rewrite <- (ascii_nat_embedding x). apply in_map, in_seq. pose proof (nat_ascii_bounded x). lia.
Qed.

Lemma chr_i_lower y x : y ∈ mjoin known -> mem (chr_i y) x = Ascii.eqb (lower x) y.
Proof.
  intros Hy. assert (forallb (fun y => forallb (fun x => Bool.eqb (mem (chr_i y) x) (Ascii.eqb (lower x) y)) all_chars) (mjoin known) = true) as Hall
    by (vm_compute; reflexivity).
  rewrite forallb_forall in Hall. specialize (Hall y (proj1 (list_elem_of_In _ _) Hy)). rewrite forallb_forall in Hall.
  by apply Bool.eqb_prop, Hall, all_chars_in.
Qed.

Lemma prefixb_spec q s : prefixb q s = true <-> exists r, s = q ++ r.
Proof.
  revert s. induction q as [|x q IH]; intros s; cbn.
  - split; [by exists s|done].
  - destruct s as [|y s]; [split; [done|by intros (r & ?)]|]. rewrite andb_true_iff, Ascii.eqb_eq, IH. split.
    + intros [-> (r & ->)]. by exists r.
    + intros (r & [= -> ->]). split; [done|by exists r].
Qed.

Lemma inits_elem q r : q ∈ inits (q ++ r).
Proof. induction q as [|x q IH]; cbn; [destruct r; by left|]. right. by apply list_elem_of_fmap_2. Qed.

Lemma is_prefix_elem q : is_prefix q = true -> q ∈ prefixes.
Proof.
  intros (s & Hs & (r & ->)%prefixb_spec)%existsb_exists. apply list_elem_of_join. exists (inits (q ++ r)). split; [apply inits_elem|].
  apply list_elem_of_fmap_2. by apply list_elem_of_In.
Qed.

Lemma nexts_spec q y : y ∈ nexts q <-> is_prefix (q ++ [y]) = true.
Proof.
  unfold nexts, is_prefix. rewrite list_elem_of_omap, existsb_exists. split.
  - intros (s & Hs%list_elem_of_In & E). exists s. split; [done|]. destruct (prefixb q s) eqn:Ep; [|done]. apply prefixb_spec in Ep as (r & ->).
    rewrite lookup_app_r, Nat.sub_diag in E by done. destruct r as [|z r]; [done|]. injection E as ->. apply prefixb_spec. exists r. by rewrite <- app_assoc.
  - intros (s & Hs & (r & ->)%prefixb_spec). exists ((q ++ [y]) ++ r). split; [by apply list_elem_of_In|]. rewrite <- app_assoc.
    rewrite (proj2 (prefixb_spec q (q ++ [y] ++ r))) by by eexists. rewrite lookup_app_r, Nat.sub_diag by done. done.
Qed.

Lemma nexts_known q y : y ∈ nexts q -> y ∈ mjoin known.
Proof.
  unfold nexts. rewrite list_elem_of_omap. intros (s & Hs & E). destruct (prefixb q s); [|done]. apply list_elem_of_join. exists s. split; [|done].
  by eapply list_elem_of_lookup_2.
Qed.

Lemma prefix_shorter q x : is_prefix q = false -> is_prefix (q ++ [x]) = false.
Proof.
  intros Hq. apply not_true_is_false. intros (s & Hs & (r & ->)%prefixb_spec)%existsb_exists. apply not_true_iff_false in Hq. apply Hq.
  apply existsb_exists. exists ((q ++ [x]) ++ r). split; [done|]. apply prefixb_spec. exists (x :: r). by rewrite <- app_assoc.
Qed.

(** One more character of a name. *)
Lemma name_step q x : mem ClientGrammar.token_c x = true -> step (name_state q) x = Some (first_actions q, name_state (q ++ [lower x])).
Proof.
  intros Hx. pose proof name_table as [Ht Ho]%andb_prop. unfold name_state. destruct (is_prefix q) eqn:Eq.
  - rewrite forallb_forall in Ht. specialize (Ht q (proj1 (list_elem_of_In _ _) (is_prefix_elem q Eq))). unfold row in Ht.
    apply andb_prop in Ht as [Hn Hr]. rewrite forallb_forall in Hn. destruct (is_prefix (q ++ [lower x])) eqn:Ex.
    + apply nexts_spec in Ex. apply (leads_step _ (chr_i (lower x))); [by apply Hn, list_elem_of_In|].
      rewrite chr_i_lower by by eapply nexts_known. apply Ascii.eqb_refl.
    + apply (leads_step _ (others q) _ _ _ Hr). unfold others. rewrite cls_minus_mem, Hx. cbn [andb]. apply negb_true_iff, not_true_is_false.
      unfold mem. rewrite existsb_exists. intros (rg & (c & Hc & (y & -> & Hy)%list_elem_of_fmap)%list_elem_of_In%list_elem_of_join & Hrg).
      assert (mem (chr_i y) x = true) as Hm by (apply existsb_exists; exists rg; split; [by apply list_elem_of_In|done]).
      rewrite chr_i_lower in Hm by by eapply nexts_known. apply Ascii.eqb_eq in Hm. subst y. apply nexts_spec in Hy. congruence.
  - rewrite prefix_shorter by done. rewrite (leads_step _ _ _ _ _ Ho Hx). destruct q; [done|]. done.
Qed.

(** The whole name. *)
Lemma run_name buffer k z i e : k <> [] -> Forall (fun x => mem ClientGrammar.token_c x = true) k ->
  run (client_act buffer) s_line i (k ++ z) e = run (client_act buffer) (name_state (map lower k)) (i + length k) z (cset_field_start (Z.of_nat i) e.1, e.2).
Proof.
  intros Hk Hall. assert (forall w q j d, q <> [] -> Forall (fun x => mem ClientGrammar.token_c x = true) w ->
    run (client_act buffer) (name_state q) j (w ++ z) d = run (client_act buffer) (name_state (q ++ map lower w)) (j + length w) z d) as Hrest.
  { induction w as [|x w IH]; intros q j d Hq Hw; cbn [app map length]; [by rewrite app_nil_r, Nat.add_0_r|]. inversion Hw as [|? ? Hx Hw']; subst.
    cbn [run]. rewrite name_step by done. destruct q as [|y q]; [done|]. cbn [first_actions do_actions]. rewrite IH by (done || by destruct q).
    rewrite <- app_assoc, Nat.add_succ_r. done. }
  destruct k as [|x k]; [done|]. inversion Hall as [|? ? Hx Hw]; subst. change s_line with (name_state []). cbn [app run]. rewrite name_step by done.
  cbn [first_actions do_actions client_act on_client]. rewrite Hrest by done. cbn [length map]. by rewrite Nat.add_succ_r.
Qed.

(** ** The other states of a response *)

Module ResponseStates.
Import ClientGrammar.

(** Text without line ends, and its first character in a value. *)
Definition text_c : cls := [(0, 9); (11, 12); (14, 255)]%N.
Definition value_c : cls := [(0, 8); (14, 31); (33, 255)]%N.

(** A line [name: ], what its first character runs and what is in front of the value. *)
Definition name_script (l : list client_action) (s : string) : list (cls * list client_action) :=
  match quiet_script s with (c, _) :: w => (c, l) :: w ++ [(chr ":", [c_write_field]); (chr " ", [c_start_value])] | [] => [] end.
Definition word_script (s : string) : list (cls * list client_action) :=
  match quiet_script s with (c, _) :: w => (c, [c_start_value]) :: w ++ [(code 13, [c_write_value]); (code 10, [])] | [] => [] end.
Definition connection_script (close : bool) : list (cls * list client_action) :=
  name_script [c_start_field] "connection" ++ word_script (connection_text close).
Definition pending (close : bool) : list client_action := if close then [write_connection_close] else [].

Definition status_script : list (cls * list client_action) :=
  (chr "H", [c_mark]) :: quiet_script "TTP/1." ++ [(one_of "01", []); (chr " ", [c_http_version])].
Definition reason_script : list (cls * list client_action) := [(code 13, [do_reason_phrase]); (code 10, [])].
Definition value_script : list (cls * list client_action) := [(code 13, [c_write_value]); (code 10, [])].
Definition empty_script : list (cls * list client_action) := [(code 13, [c_start_value; c_write_value]); (code 10, [])].
Definition length_script : list (cls * list client_action) := [(code 13, [write_content_len; c_write_value]); (code 10, [])].

Definition v_line : list (state client_action) := [s_line].
Definition v_status := follow_play [[main]] status_script.
Definition v_code := closure 5 (singles [digit]) (follow v_status digit) [].
Definition v_reason0 := follow v_code (chr " ").
Definition v_reason := closure 5 (singles [text_c]) (follow v_reason0 text_c) [].
Definition s_colon : state client_action := after s_other ":".
Definition v_space := follow [s_colon] (chr " ").
Definition v_value := closure 5 (singles [text_c]) (follow v_space value_c) [].
Definition v_connection (close : bool) := follow_play v_line (connection_script close).
Definition v_length0 (close : bool) := follow_play (v_connection close) (name_script (pending close ++ [c_start_field]) "content-length").
Definition v_length (close : bool) := closure 5 (singles [digit]) (follow (v_length0 close) digit) [].
Definition v_after (close : bool) := follow_play (v_length close) length_script.
Definition v_end (close : bool) := follow (v_connection close) (code 13) ++ follow (v_after close) (code 13).
Definition v_done (close : bool) := follow (v_end close) (code 10).

(** A name that is not one of the three, at its colon. *)
Definition colons : bool :=
  forallb (fun q => match q with [] => true | _ => existsb (fun k => bool_decide (k = q)) known || leads (table q) (chr ":") [c_write_field] s_colon end) prefixes &&
  leads s_other (chr ":") [c_write_field] s_colon.
End ResponseStates.
Import ResponseStates.

Lemma colons_ok : colons = true.
Proof. vm_compute. reflexivity. Qed.

Lemma response_edges :
  plays [[ClientGrammar.main]] status_script v_status && edge v_status digit [c_mark] v_code && loops v_code (singles [digit]) &&
  edge v_code (chr " ") [do_status_code] v_reason0 && edge v_reason0 text_c [c_mark] v_reason && loops v_reason (singles [text_c]) &&
  plays v_reason reason_script v_line && edge [s_colon] (chr " ") [c_start_value] v_space &&
  edge v_space value_c [c_start_value] v_value && loops v_value (singles [text_c]) && plays v_value value_script v_line && plays v_space empty_script v_line = true.
Proof. vm_compute. reflexivity. Qed.

Lemma ending_edges close :
  plays v_line (connection_script close) (v_connection close) &&
  plays (v_connection close) (name_script (pending close ++ [c_start_field]) "content-length") (v_length0 close) &&
  edge (v_length0 close) digit [c_start_value] (v_length close) && loops (v_length close) (singles [digit]) &&
  plays (v_length close) length_script (v_after close) &&
  edge (v_connection close) (code 13) (pending close) (v_end close) && edge (v_after close) (code 13) [] (v_end close) &&
  edge (v_end close) (code 10) [c_done] (v_done close) && forallb accepting (v_done close) = true.
Proof. destruct close; vm_compute; reflexivity. Qed.

Ltac response_fact :=
  let H := fresh in pose proof response_edges as H;
  repeat match goal with H : _ && _ = true |- _ => apply andb_prop in H as [? ?] end;
  match goal with H : ?P |- ?Q => constr_eq P Q; exact H end.
Ltac ending_fact close :=
  let H := fresh in pose proof (ending_edges close) as H;
  repeat match goal with H : _ && _ = true |- _ => apply andb_prop in H as [? ?] end;
  match goal with H : ?P |- ?Q => constr_eq P Q; exact H end.

(** Every name but the three leads to the same state behind its colon. *)
Lemma colon_table q : q <> [] -> q ∉ known -> leads (name_state q) (chr ":") [c_write_field] s_colon = true.
Proof.
  intros Hq Hn. pose proof colons_ok as [Ht Ho]%andb_prop. unfold name_state. destruct (is_prefix q) eqn:Eq; [|exact Ho].
  rewrite forallb_forall in Ht. specialize (Ht q (proj1 (list_elem_of_In _ _) (is_prefix_elem q Eq))).
  destruct q as [|x q]; [exfalso; by apply Hq|]. apply orb_true_iff in Ht as [Hk|Ht]; [|exact Ht]. exfalso.
  apply existsb_exists in Hk as (w & Hw & Ew%bool_decide_eq_true). apply Hn. rewrite <- Ew. by apply list_elem_of_In.
Qed.

Lemma colon_step k : k <> [] -> map lower k ∉ known -> step (name_state (map lower k)) ":"%char = Some ([c_write_field], s_colon).
Proof.
  intros Hk Hn. refine (leads_step _ (chr ":") _ _ ":"%char (colon_table (map lower k) _ Hn) eq_refl). intros E. apply Hk. by destruct k.
Qed.

(** Lengths of appended lists. *)
Ltac lengths := repeat progress (rewrite ?length_app; cbn [length app]); lia.

Lemma pretty_digit_chars n : 0 <= n -> chars (pretty n) <> [] /\ Forall (fun x => mem digit x = true) (chars (pretty n)).
Proof.
  intros Hn. split.
  - intros E. pose proof (atoi_pretty n Hn) as Ha. destruct n as [|n|n]; [done| |lia].
    destruct (pretty (Z.pos n)) as [|c s]; [|done]. cbn in Ha. lia.
  - pose proof (pretty_digits n Hn) as Hd. assert (forall t, digits t = true -> Forall (fun x => mem digit x = true) (chars t)) as Hall; [|by apply Hall].
    induction t as [|x t IH]; intros Ht; [constructor|]. cbn in Ht |- *. apply andb_true_iff in Ht as [Hx Ht]. constructor; [|by apply IH].
    unfold is_digit in Hx. apply andb_true_iff in Hx as [H1 H2]. rewrite Nat.leb_le in H1, H2. unfold nat_of_ascii in H1, H2.
    unfold mem, digit. cbn [existsb fst snd]. apply orb_true_iff. left. apply andb_true_iff. rewrite !N.leb_le. lia.
Qed.

Section ReadingResponse.
Context (buffer : list ascii) (Hlen : Z.of_nat (length buffer) < 2 ^ 31).
#[local] Abbreviation go := (run (client_act buffer)).
#[local] Abbreviation off pre := (Z.of_nat (length pre)).

(** What the action that reports a header says. *)
Lemma write_value_mid pre k mid v post q es : buffer = pre ++ k ++ mid ++ v ++ post -> k <> [] ->
  cfield_start q = off pre -> cfield_len q = off k -> cmark q = off (pre ++ k ++ mid) ->
  client_act buffer c_write_value (length (pre ++ k ++ mid) + length v) (q, es) = Ok ((q, es ++ [http_field (text k) (text v)]), false).
Proof using Hlen.
  intros Hb Hk H1 H2 H3. cbn [client_act fst]. rewrite H2, (proj2 (Z.eqb_neq _ _)) by (by destruct k). rewrite H1, (text_mid buffer Hlen _ _ _ Hb).
  assert (buffer = (pre ++ k ++ mid) ++ v ++ post) as Hb' by by rewrite Hb, <- !app_assoc.
  unfold cemit_text. rewrite H3, (LEN_mid buffer Hlen _ _ _ Hb'), (text_mid buffer Hlen _ _ _ Hb'). done.
Qed.

(** A value that does not begin with white space. *)
Definition rvalue_text (v : list ascii) : Prop :=
  match v with [] => True | x :: w => mem value_c x = true /\ Forall (fun y => mem text_c y = true) w end.

Definition header_line (f : string * string) : list ascii := chars f.1 ++ [":"; " "]%char ++ chars f.2 ++ newline.

(** A header of none of the three names. *)
Definition ordinary (f : string * string) : Prop :=
  f.1 <> EmptyString /\ Forall (fun x => mem ClientGrammar.token_c x = true) (chars f.1) /\ map lower (chars f.1) ∉ known /\ rvalue_text (chars f.2).

Lemma go_header pre f post p es : buffer = pre ++ header_line f ++ post -> ordinary f ->
  exists p', chunked p' = chunked p /\
    go s_line (length pre) (header_line f ++ post) (p, es) = go s_line (length (pre ++ header_line f)) post (p', es ++ [http_field f.1 f.2]).
Proof using Hlen.
  destruct f as [ks vs]. unfold header_line, ordinary. cbn [fst snd]. intros Hb (Hk & Htok & Hn & Hv).
  set (k := chars ks) in *. set (v := chars vs) in *. assert (k <> []) as Hk' by by destruct ks.
  assert (http_field ks vs = http_field (text k) (text v)) as -> by (unfold k, v; by rewrite !String.string_of_list_ascii_of_string).
  assert (buffer = pre ++ k ++ [":"; " "]%char ++ v ++ newline ++ post) as Hb' by (rewrite Hb; by flat).
  rewrite <- app_assoc, run_name by done. cbn [fst snd]. cbn [app]. rewrite (run_cons _ _ _ _ _ (colon_step k Hk' Hn)).
  cbn [do_actions client_act on_client fst snd]. set (q := cset_field_len _ _).
  destruct (run_edge (client_act buffer) [s_colon] (chr " ") [c_start_value] v_space s_colon " "%char) as (s1 & Hs1 & Hr1); [response_fact|exact (proj2 (list_elem_of_singleton _ _) eq_refl)|reflexivity|].
  rewrite <- app_assoc. cbn [app] in Hr1 |- *. rewrite Hr1. cbn [do_actions client_act on_client fst snd].
  set (pre' := pre ++ k ++ [":"; " "]%char). assert (S (S (length pre + length k)) = length pre') as Ei by (unfold pre'; rewrite !length_app; cbn; lia). rewrite Ei.
  assert (cfield_start q = off pre /\ cfield_len q = off k) as [Hq1 Hq2].
  { unfold q. cbn [cfield_start cfield_len cset_field_len cset_field_start]. split; [done|]. by apply (LEN_mid buffer Hlen _ _ _ Hb'). }
  assert (forall m d, client_act buffer c_write_value (length pre' + length v) (cset_mark (off pre') (cset_mark m q), d) =
    Ok ((cset_mark (off pre') (cset_mark m q), d ++ [http_field (text k) (text v)]), false)) as Hw.
  { intros m d. unfold pre'. by apply (write_value_mid pre k [":"; " "]%char v (newline ++ post)). }
  destruct v as [|x w] eqn:Ev.
  - destruct (run_plays (client_act buffer) v_space empty_script v_line s1 newline) as (s2 & Hs2 & Hr); [response_fact|exact Hs1|by repeat constructor|].
    apply list_elem_of_singleton in Hs2 as ->.
    exists (cset_mark (off pre') (cset_mark (Z.of_nat (S (length pre + length k))) q)). split; [reflexivity|]. cbn [app]. rewrite (Hr _ _ _ (cset_mark (off pre') (cset_mark (Z.of_nat (S (length pre + length k))) q), es ++ [http_field (text k) (text [])])).
    + f_equal. unfold pre'. rewrite !length_app. cbn. lia.
    + cbn [map snd empty_script do_script do_actions]. change (client_act buffer c_start_value ?i (?d, es)) with (Ok ((cset_mark (Z.of_nat i) d, es), false)). specialize (Hw (Z.of_nat (S (length pre + length k))) es).
      cbv iota beta. cbn [length] in Hw. rewrite Nat.add_0_r in Hw. by rewrite Hw.
  - destruct Hv as [Hx Hall]. cbn [app].
    destruct (run_edge (client_act buffer) v_space value_c [c_start_value] v_value s1 x) as (s2 & Hs2 & ->); [response_fact|exact Hs1|exact Hx|].
    cbn [do_actions client_act on_client fst snd].
    destruct (run_loops (client_act buffer) v_value (singles [text_c]) s2 w) as (s3 & Hs3 & ->); [response_fact|exact Hs2| |].
    { apply made_chars. eapply Forall_impl; [exact Hall|]. intros y Hy. cbn [existsb]. by rewrite Hy. }
    destruct (run_plays (client_act buffer) v_value value_script v_line s3 newline) as (s4 & Hs4 & Hr); [response_fact|exact Hs3|by repeat constructor|].
    apply list_elem_of_singleton in Hs4 as ->.
    exists (cset_mark (off pre') (cset_mark (Z.of_nat (S (length pre + length k))) q)). split; [reflexivity|]. rewrite (Hr _ _ _ (cset_mark (off pre') (cset_mark (Z.of_nat (S (length pre + length k))) q), es ++ [http_field (text k) (text (x :: w))])).
    + f_equal. unfold pre'. rewrite !length_app. cbn. rewrite !length_app. cbn. lia.
    + cbn [map snd value_script do_script do_actions]. specialize (Hw (Z.of_nat (S (length pre + length k))) es). cbn [length] in Hw.
      rewrite Nat.add_succ_r in Hw. cbn [Nat.add]. by rewrite Hw.
Qed.

Lemma go_headers pre fs post p es : buffer = pre ++ concat (map header_line fs) ++ post -> Forall ordinary fs ->
  exists p', chunked p' = chunked p /\
    go s_line (length pre) (concat (map header_line fs) ++ post) (p, es) =
    go s_line (length (pre ++ concat (map header_line fs))) post (p', es ++ map (fun f => http_field f.1 f.2) fs).
Proof using Hlen.
  intros Hb Hfs. revert pre p es Hb. induction Hfs as [|f fs Hf Hfs IH]; intros pre p es Hb.
  - exists p. split; [done|]. cbn [map concat app]. by rewrite !app_nil_r.
  - cbn [map concat] in *. rewrite <- app_assoc in Hb |- *. destruct (go_header pre f _ p es Hb Hf) as (p1 & Hp1 & ->).
    destruct (IH (pre ++ header_line f) p1 (es ++ [http_field f.1 f.2])) as (p2 & Hp2 & ->); [by rewrite <- app_assoc|].
    exists p2. split; [by rewrite Hp2|]. by rewrite <- !app_assoc.
Qed.

(** The status line, which is the beginning of the buffer. *)
Lemma go_status d code reason post : mem (one_of "01") d = true -> code <> [] -> Forall (fun x => mem digit x = true) code ->
  reason <> [] -> Forall (fun x => mem text_c x = true) reason ->
  buffer = version_chars d ++ " "%char :: code ++ " "%char :: reason ++ newline ++ post ->
  exists p', chunked p' = false /\
    go [ClientGrammar.main] 0 (version_chars d ++ " "%char :: code ++ " "%char :: reason ++ newline ++ post) (httpclient_parser_init, []) =
    go s_line (length (version_chars d ++ " "%char :: code ++ " "%char :: reason ++ newline)) post
      (p', [http_version (text (version_chars d) +:+ text (" "%char :: code ++ " "%char :: reason ++ newline ++ post)) 8;
            status_code (text code +:+ text (" "%char :: reason ++ newline ++ post)); reason_phrase (text reason)]).
Proof using Hlen.
  intros Hd Hc Hcode Hr Hreason Hb. set (v1 := version_chars d ++ [" "%char]).
  replace (version_chars d ++ " "%char :: code ++ " "%char :: reason ++ newline ++ post) with (v1 ++ code ++ " "%char :: reason ++ newline ++ post)
    by (unfold v1; by flat).
  destruct (run_plays (client_act buffer) [[ClientGrammar.main]] status_script v_status [ClientGrammar.main] v1) as (s1 & Hs1 & Hr1);
    [response_fact|exact (proj2 (list_elem_of_singleton _ _) eq_refl)|by repeat constructor|].
  set (cb1 := http_version (text (version_chars d) +:+ text (" "%char :: code ++ " "%char :: reason ++ newline ++ post)) 8).
  rewrite (Hr1 _ _ _ (cset_mark 0 httpclient_parser_init, [cb1])).
  2: { unfold status_script, quiet_script. cbn [map snd app String.list_ascii_of_string do_script do_actions]. cbn [client_act on_client fst snd cmark cset_mark].
    change (Z.of_nat 0) with (off (@nil ascii)). rewrite (PTR_TO_mid buffer [] _ Hb). change 8%nat with (length (@nil ascii) + length (version_chars d))%nat.
    rewrite (LEN_mid buffer Hlen [] _ _ Hb), Nat2Z.id. unfold cemit. cbn [fst snd app]. unfold cb1. by rewrite <- text_app. }
  destruct code as [|x code]; [done|]. apply Forall_cons in Hcode as [Hx Hcode']. cbn [app Nat.add].
  destruct (run_edge (client_act buffer) v_status digit [c_mark] v_code s1 x) as (s2 & Hs2 & ->); [response_fact|exact Hs1|exact Hx|]. cbn [do_actions client_act on_client fst snd].
  destruct (run_loops (client_act buffer) v_code (singles [digit]) s2 code) as (s3 & Hs3 & ->); [response_fact|exact Hs2| |].
  { apply made_chars. eapply Forall_impl; [exact Hcode'|]. intros y Hy. cbn [existsb]. by rewrite Hy. }
  destruct (run_edge (client_act buffer) v_code (chr " ") [do_status_code] v_reason0 s3 " "%char) as (s4 & Hs4 & ->); [response_fact|exact Hs3|reflexivity|].
  cbn [do_actions client_act fst snd cmark cset_mark].
  assert (buffer = v1 ++ (x :: code) ++ " "%char :: reason ++ newline ++ post) as Hb1 by (unfold v1; rewrite Hb; by flat).
  rewrite (PTR_TO_mid buffer v1 _ Hb1). unfold cemit. cbn [fst snd app].
  destruct reason as [|y reason]; [done|]. apply Forall_cons in Hreason as [Hy Hreason']. cbn [app].
  destruct (run_edge (client_act buffer) v_reason0 text_c [c_mark] v_reason s4 y) as (s5 & Hs5 & ->); [response_fact|exact Hs4|exact Hy|]. cbn [do_actions client_act on_client fst snd].
  destruct (run_loops (client_act buffer) v_reason (singles [text_c]) s5 reason) as (s6 & Hs6 & ->); [response_fact|exact Hs5| |].
  { apply made_chars. eapply Forall_impl; [exact Hreason'|]. intros z Hz. cbn [existsb]. by rewrite Hz. }
  destruct (run_plays (client_act buffer) v_reason reason_script v_line s6 newline) as (s7 & Hs7 & Hr7); [response_fact|exact Hs6|by repeat constructor|].
  apply list_elem_of_singleton in Hs7 as ->.
  set (v2 := v1 ++ (x :: code) ++ [" "%char]). assert (buffer = v2 ++ (y :: reason) ++ newline ++ post) as Hb2 by (unfold v2; rewrite Hb1; by flat).
  replace (S (S (length v1) + length code)) with (length v2) by (unfold v2; lengths).
  match goal with |- context [go s6 ?i _ (?q, ?l)] => exists q; split; [reflexivity|];
    rewrite (Hr7 i post (q, l) (q, l ++ [reason_phrase (text (y :: reason))])) end.
  - cbn [app]. f_equal; [unfold v2, v1; lengths|].
    f_equal. by rewrite <- text_app.
  - cbn [map snd reason_script do_script do_actions client_act fst snd cmark cset_mark]. unfold cemit_text.
    replace (S (length v2) + length reason)%nat with (length v2 + length (y :: reason))%nat by (cbn; lia).
    rewrite (LEN_mid buffer Hlen _ _ _ Hb2), (text_mid buffer Hlen _ _ _ Hb2). done.
Qed.

(** The name of a line that the machine knows, written as [Dump] does; [l] is what its
    first character runs. *)
Lemma name_script_do l k i q es q1 : k <> EmptyString -> do_actions (client_act buffer) l i (q, es) = Ok ((q1, es), false) ->
  do_script (client_act buffer) (map snd (name_script l k)) i (q, es) =
    Ok (cset_mark (Z.of_nat (i + String.length k + 1)) (cset_field_len (LEN (cfield_start q1) (i + String.length k)) q1), es).
Proof using Type.
  intros Hk Hl. assert (forall t, length (chars t) = String.length t) as Hlen' by (clear; induction t as [|x t IH]; cbn; [|rewrite IH]; done).
  destruct k as [|c k]; [done|]. unfold name_script. cbn [quiet_script String.list_ascii_of_string map]. fold (quiet_script (A := client_action) k).
  cbn [map snd do_script]. rewrite Hl, map_app, do_script_app, quiet_do, length_map. unfold quiet_script at 1. rewrite length_map, Hlen'.
  cbn [map snd do_script do_actions client_act on_client fst String.length]. do 3 f_equal; [lia|]. do 2 f_equal. lia.
Qed.

Lemma name_script_spelt l k : k <> EmptyString -> spelt (map fst (name_script l k)) (chars k ++ [":"; " "]%char).
Proof using Type.
  intros Hk. destruct k as [|c k]; [done|]. unfold name_script. cbn [quiet_script String.list_ascii_of_string map]. fold (quiet_script (A := client_action) k).
  cbn [map fst app]. constructor; [unfold mem, chr; cbn; by rewrite !N.leb_refl|]. rewrite map_app. apply spelt_app; [apply quiet_spelt|by repeat constructor].
Qed.

Lemma word_script_spelt v : v <> EmptyString -> spelt (map fst (word_script v)) (chars v ++ newline).
Proof using Type.
  intros Hk. destruct v as [|c k]; [done|]. unfold word_script. cbn [quiet_script String.list_ascii_of_string map]. fold (quiet_script (A := client_action) k).
  cbn [map fst app]. constructor; [unfold mem, chr; cbn; by rewrite !N.leb_refl|]. rewrite map_app. apply spelt_app; [apply quiet_spelt|by repeat constructor].
Qed.

Lemma word_script_do v i q es q' : v <> EmptyString ->
  client_act buffer c_write_value (i + String.length v) (cset_mark (Z.of_nat i) q, es) = Ok (q', false) ->
  do_script (client_act buffer) (map snd (word_script v)) i (q, es) = Ok q'.
Proof using Type.
  intros Hk Hl. assert (forall t, length (chars t) = String.length t) as Hlen' by (clear; induction t as [|x t IH]; cbn; [|rewrite IH]; done).
  destruct v as [|c k]; [done|]. unfold word_script. cbn [quiet_script String.list_ascii_of_string map]. fold (quiet_script (A := client_action) k).
  cbn [map snd do_script do_actions]. change (client_act buffer c_start_value ?j (?d, es)) with (Ok ((cset_mark (Z.of_nat j) d, es), false)). cbv iota beta.
  rewrite map_app, do_script_app, quiet_do, length_map. unfold quiet_script at 1. rewrite length_map, Hlen'.
  cbn [map snd do_script do_actions]. cbn [String.length] in Hl. replace (S i + String.length k)%nat with (i + S (String.length k))%nat by lia. by rewrite Hl.
Qed.

Definition connection_field (close : bool) : string * string := ("connection", connection_text close).

Lemma go_connection close pre post p es : buffer = pre ++ header_line (connection_field close) ++ post ->
  exists s' p', s' ∈ v_connection close /\ chunked p' = chunked p /\
    go s_line (length pre) (header_line (connection_field close) ++ post) (p, es) =
    go s' (length (pre ++ header_line (connection_field close))) post (p', es ++ [http_field "connection" (connection_text close)]).
Proof using Hlen.
  intros Hb. set (k := chars "connection"). set (v := chars (connection_text close)).
  assert (buffer = pre ++ k ++ [":"; " "]%char ++ v ++ newline ++ post) as Hb' by (rewrite Hb; unfold header_line, k, v; cbn [fst snd connection_field]; by flat).
  assert (connection_text close <> EmptyString) as Hne by by destruct close.
  assert (length v = String.length (connection_text close)) as Ev by by destruct close.
  destruct (run_plays (client_act buffer) v_line (connection_script close) (v_connection close) s_line (header_line (connection_field close)))
    as (s' & Hs' & Hr); [ending_fact close|exact (proj2 (list_elem_of_singleton _ _) eq_refl)| |].
  { unfold connection_script. rewrite map_app. unfold header_line. cbn [fst snd connection_field]. rewrite app_assoc.
    apply spelt_app; [by apply name_script_spelt|by apply word_script_spelt]. }
  set (q := cset_field_len (off k) (cset_field_start (off pre) p)).
  exists s', (cset_mark (off (pre ++ k ++ [":"; " "]%char)) (cset_mark (Z.of_nat (length pre + 10 + 1)) q)). split; [exact Hs'|]. split; [reflexivity|].
  rewrite length_app. apply Hr. unfold connection_script. rewrite map_app, do_script_app.
  rewrite (name_script_do [c_start_field] "connection" _ p es (cset_field_start (off pre) p)) by done.
  change (cfield_start (cset_field_start (off pre) p)) with (off pre). change (String.length "connection") with (length k).
  rewrite (LEN_mid buffer Hlen _ _ _ Hb'). fold q. apply word_script_do; [done|]. rewrite length_map.
  replace (length pre + length (name_script [c_start_field] "connection"))%nat with (length (pre ++ k ++ [":"; " "]%char)) by (rewrite !length_app; reflexivity).
  rewrite <- Ev. rewrite (write_value_mid pre k [":"; " "]%char v (newline ++ post)) by done. unfold k, v. by rewrite !String.string_of_list_ascii_of_string.
Qed.

Definition closed_by (close : bool) (p : httpclient_parser) : httpclient_parser := if close then cset_close true p else p.

(** The line with the length of the body, which follows the connection. *)
Lemma go_length close s pre w post p es : s ∈ v_connection close -> buffer = pre ++ header_line ("content-length", text w) ++ post ->
  w <> [] -> Forall (fun x => mem digit x = true) w ->
  exists s' p', s' ∈ v_after close /\ chunked p' = chunked p /\
    go s (length pre) (header_line ("content-length", text w) ++ post) (p, es) =
    go s' (length (pre ++ header_line ("content-length", text w))) post (p', es ++ [http_field "content-length" (text w)]).
Proof using Hlen.
  intros Hs Hb Hw Hall. set (k := chars "content-length").
  unfold header_line in *. cbn [fst snd] in *. rewrite String.list_ascii_of_string_of_list_ascii in *. fold k in Hb |- *.
  assert (buffer = pre ++ k ++ [":"; " "]%char ++ w ++ newline ++ post) as Hb' by (rewrite Hb; by flat).
  destruct (run_plays (client_act buffer) (v_connection close) (name_script (pending close ++ [c_start_field]) "content-length") (v_length0 close) s (k ++ [":"; " "]%char))
    as (s1 & Hs1 & Hr1); [ending_fact close|exact Hs|by apply name_script_spelt|].
  set (q := cset_field_len (off k) (cset_field_start (off pre) (closed_by close p))). set (pre' := pre ++ k ++ [":"; " "]%char).
  replace ((k ++ [":"; " "]%char ++ w ++ newline) ++ post) with ((k ++ [":"; " "]%char) ++ w ++ newline ++ post) by (by flat).
  rewrite (Hr1 _ _ _ (cset_mark (Z.of_nat (length pre + 14 + 1)) q, es)).
  2: { rewrite (name_script_do _ "content-length" _ p es (cset_field_start (off pre) (closed_by close p))) by (by destruct close).
    change (cfield_start (cset_field_start (off pre) (closed_by close p))) with (off pre). change (String.length "content-length") with (length k).
    by rewrite (LEN_mid buffer Hlen _ _ _ Hb'). }
  rewrite <- length_app. fold pre'. destruct w as [|x w]; [done|]. apply Forall_cons in Hall as [Hx Hall']. cbn [app].
  destruct (run_edge (client_act buffer) (v_length0 close) digit [c_start_value] (v_length close) s1 x) as (s2 & Hs2 & ->); [ending_fact close|exact Hs1|exact Hx|].
  cbn [do_actions client_act on_client fst snd].
  destruct (run_loops (client_act buffer) (v_length close) (singles [digit]) s2 w) as (s3 & Hs3 & ->); [ending_fact close|exact Hs2| |].
  { apply made_chars. eapply Forall_impl; [exact Hall'|]. intros y Hy. cbn [existsb]. by rewrite Hy. }
  destruct (run_plays (client_act buffer) (v_length close) length_script (v_after close) s3 newline) as (s4 & Hs4 & Hr4); [ending_fact close|exact Hs3|by repeat constructor|].
  match goal with |- context [go s3 _ _ (?d, es)] => set (d1 := d); set (d2 := cset_content_len (s32 (strtol 10 (from_mark buffer d1))) d1) end.
  exists s4, d2. split; [exact Hs4|]. split; [by unfold d2, d1, q; destruct close|].
  rewrite (Hr4 _ _ _ (d2, es ++ [http_field "content-length" (text (x :: w))])).
  - f_equal. unfold pre'. lengths.
  - cbn [map snd length_script do_script do_actions]. change (client_act buffer write_content_len ?j (d1, es)) with (Ok ((d2, es), false)). cbv iota beta.
    replace (S (length pre') + length w)%nat with (length (pre ++ k ++ [":"; " "]%char) + length (x :: w))%nat by (unfold pre'; cbn; lia).
    rewrite (write_value_mid pre k [":"; " "]%char (x :: w) (newline ++ post)); try done; unfold d2, d1, q; by destruct close.
Qed.

(** The lines that [Dump_response] prints for the body: one, or none. *)
Lemma go_length_lines close s pre body post p es : s ∈ v_connection close ->
  buffer = pre ++ concat (map header_line (length_header body)) ++ post ->
  exists s' p', s' ∈ v_connection close ++ v_after close /\ chunked p' = chunked p /\
    go s (length pre) (concat (map header_line (length_header body)) ++ post) (p, es) =
    go s' (length (pre ++ concat (map header_line (length_header body)))) post (p', es ++ map (fun f => http_field f.1 f.2) (length_header body)).
Proof using Hlen.
  intros Hs Hb. unfold length_header in *. destruct (nonempty body); cbn [map concat fst snd] in Hb |- *.
  - destruct (pretty_digit_chars (Z.of_nat (String.length body)) ltac:(lia)) as [Hn1 Hn2]. rewrite app_nil_r in Hb |- *.
    destruct (go_length close s pre (chars (pretty (Z.of_nat (String.length body)))) post p es Hs) as (s' & p' & Hs' & Hp' & E);
      rewrite ?String.string_of_list_ascii_of_string; [exact Hb|exact Hn1|exact Hn2|].
    exists s', p'. split; [apply elem_of_app; right; exact Hs'|]. split; [exact Hp'|].
    rewrite String.string_of_list_ascii_of_string in E. exact E.
  - exists s, p. split; [apply elem_of_app; left; exact Hs|]. split; [reflexivity|]. rewrite !app_nil_r. reflexivity.
Qed.

(** The empty line. *)
Lemma go_response_end close s pre post p es : s ∈ v_connection close ++ v_after close ->
  exists s' p', accepting s' = true /\ chunked p' = chunked p /\
    go s (length pre) (newline ++ post) (p, es) = Ok (Some s', length (pre ++ newline), (p', es ++ [header_done])).
Proof using Type.
  intros Hs. assert (exists s1 q, s1 ∈ v_end close /\ chunked q = chunked p /\
    go s (length pre) (newline ++ post) (p, es) = go s1 (S (length pre)) (ascii_of_N 10 :: post) (q, es)) as (s1 & q & Hs1 & Hq & ->).
  { apply elem_of_app in Hs as [Hs|Hs]; cbn [newline app].
    - destruct (run_edge (client_act buffer) (v_connection close) (code 13) (pending close) (v_end close) s (ascii_of_N 13)) as (s1 & Hs1 & ->); [ending_fact close|exact Hs|reflexivity|].
      exists s1, (closed_by close p). split; [exact Hs1|]. by destruct close.
    - destruct (run_edge (client_act buffer) (v_after close) (code 13) [] (v_end close) s (ascii_of_N 13)) as (s1 & Hs1 & ->); [ending_fact close|exact Hs|reflexivity|].
      exists s1, p. split; [exact Hs1|]. done. }
  destruct (run_edge (client_act buffer) (v_end close) (code 10) [c_done] (v_done close) s1 (ascii_of_N 10)) as (s2 & Hs2 & ->); [ending_fact close|exact Hs1|reflexivity|].
  cbn [do_actions client_act fst snd]. eexists s2, _. split; [|split; [|rewrite length_app; do 3 f_equal; cbn [length newline]; lia]].
  - assert (forallb accepting (v_done close) = true) as Ha by ending_fact close. rewrite forallb_forall in Ha. exact (Ha _ (proj1 (list_elem_of_In _ _) Hs2)).
  - exact Hq.
Qed.
End ReadingResponse.

(** ** What a server prints *)

Definition reason_of (r : HttpResponse) : string := if nonempty (rreason_ r) then rreason_ r else HttpStatusToString (rstatus_ r).

Record rprintable (r : HttpResponse) : Prop := {
  rp_version : rversion_ r = 16 \/ rversion_ r = 17;
  rp_status : 0 <= rstatus_ r;
  rp_reason : reason_of r <> EmptyString /\ Forall (fun x => mem text_c x = true) (chars (reason_of r));
  rp_headers : Forall ordinary (printed (rheaders_ r)) }.

Definition rsent_headers (r : HttpResponse) : MapType :=
  printed (rheaders_ r) ++ connection_field (rclose_ r) :: length_header (rbody_ r).

Definition response_head (r : HttpResponse) : list ascii :=
  version_chars (if rversion_ r =? 17 then "1"%char else "0"%char) ++ " "%char :: chars (pretty (rstatus_ r)) ++ " "%char :: chars (reason_of r) ++ newline ++
  concat (map header_line (printed (rheaders_ r))) ++ header_line (connection_field (rclose_ r)) ++ concat (map header_line (length_header (rbody_ r))) ++ newline.

Lemma header_line_chars fs : chars (lines (map (fun f => (f.1, " " +:+ f.2)) fs)) = concat (map header_line fs).
Proof.
  induction fs as [|[k v] fs IH]; [done|]. cbn [map lines fst snd concat]. rewrite !chars_app, IH. unfold header_line. cbn [fst snd]. by flat.
Qed.

Lemma dump_response_head r : rprintable r -> chars (Dump_response r) = response_head r ++ chars (rbody_ r).
Proof.
  intros [Hv _ _ _]. unfold Dump_response, status_line. fold (reason_of r). rewrite body_part_eq. change ": " with (":" +:+ " "). rewrite header_lines_eq.
  rewrite !chars_app, !header_line_chars, (version_chars_text _ Hv). unfold response_head, header_line, connection_field. cbn [fst snd]. by flat.
Qed.

(** The callbacks of the head of [r]. *)
Definition response_callbacks (r : HttpResponse) (u v : string) : list callback :=
  http_version (text (version_chars (if rversion_ r =? 17 then "1"%char else "0"%char)) +:+ u) 8 ::
  status_code (pretty (rstatus_ r) +:+ String " " v) :: reason_phrase (reason_of r) ::
  map (fun f => http_field f.1 f.2) (rsent_headers r) ++ [header_done].

Lemma go_response buffer r rest : Z.of_nat (length buffer) < 2 ^ 31 -> rprintable r -> buffer = response_head r ++ rest ->
  exists s p u v, accepting s = true /\ chunked p = false /\
    run (client_act buffer) [ClientGrammar.main] 0 buffer (httpclient_parser_init, []) = Ok (Some s, length (response_head r), (p, response_callbacks r u v)).
Proof.
  intros Hlen [Hv Hst [Hr1 Hr2] Hh] Hb. destruct (pretty_digit_chars (rstatus_ r) Hst) as [Hc1 Hc2].
  set (d := if rversion_ r =? 17 then "1"%char else "0"%char) in *. set (code := chars (pretty (rstatus_ r))) in *. set (reason := chars (reason_of r)) in *.
  set (close := rclose_ r) in *.
  set (tail3 := newline ++ rest). set (tail2 := concat (map header_line (length_header (rbody_ r))) ++ tail3).
  set (tail1 := concat (map header_line (printed (rheaders_ r))) ++ header_line (connection_field close) ++ tail2).
  assert (buffer = version_chars d ++ " "%char :: code ++ " "%char :: reason ++ newline ++ tail1) as Hb1.
  { rewrite Hb. unfold response_head, tail1, tail2, tail3. fold d code reason close. by flat. }
  destruct (go_status buffer Hlen d code reason tail1) as (p1 & Hp1 & E1);
    [unfold d; by destruct (rversion_ r =? 17)|done|done|unfold reason; by destruct (reason_of r)|done|exact Hb1|].
  set (pre1 := version_chars d ++ " "%char :: code ++ " "%char :: reason ++ newline) in *.
  match type of E1 with _ = run _ _ _ _ (_, ?l) => destruct (go_headers buffer Hlen pre1 (printed (rheaders_ r)) (header_line (connection_field close) ++ tail2) p1 l) as (p2 & Hp2 & E2) end;
    [rewrite Hb1; unfold pre1, tail1; by flat|done|].
  set (pre2 := pre1 ++ concat (map header_line (printed (rheaders_ r)))) in *.
  match type of E2 with _ = run _ _ _ _ (_, ?l) => destruct (go_connection buffer Hlen close pre2 tail2 p2 l) as (s3 & p3 & Hs3 & Hp3 & E3) end;
    [rewrite Hb1; unfold pre2, pre1, tail1; by flat|].
  set (pre3 := pre2 ++ header_line (connection_field close)) in *.
  match type of E3 with _ = run _ _ _ _ (_, ?l) => destruct (go_length_lines buffer Hlen close s3 pre3 (rbody_ r) tail3 p3 l Hs3) as (s4 & p4 & Hs4 & Hp4 & E4) end;
    [rewrite Hb1; unfold pre3, pre2, pre1, tail1, tail2; by flat|].
  set (pre4 := pre3 ++ concat (map header_line (length_header (rbody_ r)))) in *.
  match type of E4 with _ = run _ _ _ _ (_, ?l) => destruct (go_response_end buffer close s4 pre4 rest p4 l Hs4) as (s5 & p5 & Ha & Hp5 & E5) end.
  exists s5, p5, (text (" "%char :: code ++ " "%char :: reason ++ newline ++ tail1)), (text (reason ++ newline ++ tail1)).
  split; [exact Ha|]. split; [congruence|].
  match type of E1 with ?l = _ => transitivity l; [f_equal; exact Hb1|] end.
  do 4 (etransitivity; [first [exact E1 | exact E2 | exact E3 | exact E4]|]). etransitivity; [exact E5|]. f_equal. f_equal; [f_equal|].
  - unfold pre4, pre3, pre2, pre1, response_head. fold d code reason close. lengths.
  - f_equal. unfold response_callbacks, rsent_headers. fold d close. rewrite map_app. cbn [map fst snd connection_field].
    rewrite <- (String.string_of_list_ascii_of_string (pretty (rstatus_ r))), <- (String.string_of_list_ascii_of_string (reason_of r)). fold code reason. by flat.
Qed.

(** ** What the client receives *)

(** Two names that [strcasecmp] does not tell apart are the same in small letters. *)
Lemma lower_tolower x : Z.of_N (N_of_ascii (lower x)) = tolower x.
Proof. destruct x as [[] [] [] [] [] [] [] []]; reflexivity. Qed.

Lemma tolower_lower x y : tolower x = tolower y -> lower x = lower y.
Proof.
  rewrite <- !lower_tolower. intros E%N2Z.inj. rewrite <- (ascii_N_embedding (lower x)), <- (ascii_N_embedding (lower y)). by f_equal.
Qed.

Definition no_nul (w : list ascii) : Prop := Forall (fun x => tolower x <> 0) w.

Lemma same_lower k t : no_nul (chars k) -> no_nul (chars t) -> strcasecmp k t = 0 -> map lower (chars k) = map lower (chars t).
Proof.
  revert t. induction k as [|c k IH]; intros [|d t] Hk Ht; cbn [strcasecmp Http.head Http.tail String.list_ascii_of_string map] in *; try done.
  - inversion Ht as [|? ? Hd Ht']; subst. intros ?. lia.
  - inversion Hk as [|? ? Hc Hk']; subst. rewrite (proj2 (Z.eqb_neq _ _) Hc). cbn [orb negb]. intros ?. lia.
  - inversion Hk as [|? ? Hc Hk']; subst. inversion Ht as [|? ? Hd Ht']; subst. rewrite (proj2 (Z.eqb_neq _ _) Hc). cbn [orb].
    destruct (Z.eqb_spec (tolower c) (tolower d)) as [E|E]; cbn [negb]; [|lia]. intros Hs. f_equal; [by apply tolower_lower|by apply IH].
Qed.

Lemma token_no_nul x : mem ClientGrammar.token_c x = true -> tolower x <> 0.
Proof. destruct x as [[] [] [] [] [] [] [] []]; vm_compute; done. Qed.

Lemma ordinary_length fs : Forall ordinary fs -> fold_left (last_value "content-length") (map (fun f => OpSet f.1 f.2) fs) None = None.
Proof.
  induction 1 as [|[k v] fs (_ & Htok & Hn & _) _ IH]; [done|]. cbn [map fold_left last_value fst snd] in *.
  destruct (Z.eqb_spec (strcasecmp "content-length" k) 0) as [E|]; [|exact IH]. destruct Hn.
  rewrite <- (same_lower "content-length" k); [by left|by repeat constructor| |done]. eapply Forall_impl; [exact Htok|]. apply token_no_nul.
Qed.

Lemma pretty_go_app x t w : pretty_N_go x t +:+ w = pretty_N_go x (t +:+ w).
Proof.
  revert t. induction (N.lt_wf_0 x) as [x _ IH]; intros t. destruct (decide (0 < x)%N) as [Hx|Hx].
  - rewrite (pretty_N_go_step x t), (pretty_N_go_step x (t +:+ w)) by done. rewrite IH by (by apply N.div_lt). done.
  - assert (x = 0%N) as -> by lia. rewrite (pretty_N_go_0 t), (pretty_N_go_0 (t +:+ w)). done.
Qed.

(** [atoi] stops at the blank. *)
Lemma atoi_pretty_blank n w : 0 <= n -> atoi (pretty n +:+ String " " w) = n.
Proof.
  intros Hn. destruct n as [|n|n]; [done| |lia]. change (pretty (Z.pos n)) with (pretty_N (N.pos n)). unfold pretty_N, atoi.
  rewrite decide_False by done. by rewrite pretty_go_app, atoi_go.
Qed.

Definition rreceived (r : HttpResponse) : HttpResponse :=
  rset_headers (headers_ (fold_left apply_hop (map (fun f => OpSet f.1 f.2) (rsent_headers r)) (new_HttpRequest 17 true)))
    (rset_reason (reason_of r) (rset_status (rstatus_ r) (rset_version (rversion_ r) (new_HttpResponse 17 true)))).

Lemma on_response_fields fs err r q : Forall (fun f => f.1 <> EmptyString) fs -> headers_ q = rheaders_ r ->
  fold_left (fun s e => on_response e s) (map (fun f => http_field f.1 f.2) fs) (err, r) =
    (err, rset_headers (headers_ (fold_left apply_hop (map (fun f => OpSet f.1 f.2) fs) q)) r).
Proof.
  revert r q. induction fs as [|[f v] fs IH]; intros r q Hf Hq; cbn [map fold_left fst snd]; [rewrite Hq; by destruct r|].
  apply Forall_cons in Hf as [Hn Hf]. cbn [on_response apply_hop fst] in *. rewrite (proj2 (String.eqb_neq f EmptyString)) by done.
  rewrite (IH _ (SetHeader f v q)); [done|done|]. cbn. by rewrite Hq.
Qed.

Lemma rsent_names r : rprintable r -> Forall (fun f => f.1 <> EmptyString) (rsent_headers r).
Proof.
  intros [_ _ _ Hh]. apply Forall_app. split; [eapply Forall_impl; [exact Hh|]; by intros f [? _]|].
  apply Forall_cons. split; [done|]. unfold length_header. destruct (nonempty _); [by apply Forall_singleton|constructor].
Qed.

Lemma callbacks_rreceived r u v : rprintable r ->
  fold_left (fun s e => on_response e s) (response_callbacks r u v) (0, new_HttpResponse 17 true) = (0, rreceived r).
Proof.
  intros Hr. pose proof (rsent_names r Hr) as Hn. destruct Hr as [Hv Hs _ _]. unfold response_callbacks. cbn [fold_left on_response].
  assert (version_of (text (version_chars (if rversion_ r =? 17 then "1"%char else "0"%char)) +:+ u) 8 = Some (rversion_ r)) as -> by by destruct Hv as [-> | ->].
  cbn [fold_left on_response]. rewrite atoi_pretty_blank, fold_left_app by done. rewrite (on_response_fields _ _ _ (new_HttpRequest 17 true)) by done. done.
Qed.

Lemma rreceived_headers key r : map_ok CaseInsensitiveLess (rheaders_ r) ->
  find_header key (rheaders_ (rreceived r)) =
    if (strcasecmp key "content-length" =? 0) && nonempty (rbody_ r) then Some (pretty (Z.of_nat (String.length (rbody_ r))))
    else if strcasecmp key "connection" =? 0 then Some (connection_text (rclose_ r)) else find_header key (rheaders_ r).
Proof.
  intros Hm. unfold rreceived. cbn [rheaders_ rset_headers].
  destruct (apply_hops (map (fun f => OpSet f.1 f.2) (rsent_headers r)) (new_HttpRequest 17 true) key) as [_ ->]; [constructor|].
  unfold rsent_headers. rewrite map_app, fold_left_app. cbn [map fold_left last_value fst snd connection_field].
  set (acc := if strcasecmp key "connection" =? 0 then _ else _).
  assert (acc = if strcasecmp key "connection" =? 0 then Some (connection_text (rclose_ r)) else find_header key (rheaders_ r)) as ->.
  { unfold acc. destruct (Z.eqb_spec (strcasecmp key "connection") 0) as [E|E]; [done|]. rewrite last_printed, last_of_map by done.
    by destruct (find_header key (rheaders_ r)). }
  unfold length_header. destruct (nonempty (rbody_ r)); [|by rewrite andb_false_r]. cbn [map fold_left last_value fst snd]. by rewrite andb_true_r.
Qed.

(** The parser on the head of [r], whatever follows. *)
Lemma execute_response_head r rest : rprintable r -> Z.of_nat (length (response_head r ++ rest)) < 2 ^ 31 ->
  exists p, execute_response (new_HttpResponseParser (P := httpclient_parser)) (text (response_head r ++ rest)) false =
      Ok (mkRspParser p 0 (rreceived r), length (response_head r)) /\
    HasError_response (mkRspParser p 0 (rreceived r)) = false /\ IsFinished_response (mkRspParser p 0 (rreceived r)) = true /\ machine_chunked p = false.
Proof.
  intros Hr Hlen. destruct (go_response _ r rest Hlen Hr eq_refl) as (s & p & u & v & Ha & Hc & E).
  destruct (client_execute_run _ s _ p _ Hlen ltac:(by destruct (rversion_ r =? 17)) E Ha) as (q & Eq & Hf & He & _ & _ & Hq).
  exists q. unfold execute_response, new_HttpResponseParser. cbn [rparser_ rerror_ rdata_ machine_execute machine_init client_machine].
  rewrite Eq, callbacks_rreceived by exact Hr. split; [reflexivity|].
  unfold HasError_response, IsFinished_response. cbn [rparser_ rerror_ machine_has_error machine_finish client_machine machine_chunked client_parts].
  rewrite He, Hf, Hq, Hc. split; [reflexivity|split; reflexivity].
Qed.

Section Arrives.
Context (cast : string -> option Z) (max_len buff_size : Z).
Context (Hcast : forall n, 0 <= n < 2 ^ 64 -> cast (pretty n) = Some n).

Lemma rreceived_length r : rprintable r -> map_ok CaseInsensitiveLess (rheaders_ r) -> Z.of_nat (String.length (rbody_ r)) < 2 ^ 31 ->
  forall p : httpclient_parser, GetContentLength_response cast (mkRspParser p 0 (rreceived r)) = Z.of_nat (String.length (rbody_ r)).
Proof using Hcast.
  intros Hr Hm Hlen p. unfold GetContentLength_response, GetAs. cbn [rdata_]. rewrite rreceived_headers by done.
  change (strcasecmp "content-length" "content-length" =? 0) with true. change (strcasecmp "content-length" "connection" =? 0) with false. cbn [andb].
  destruct (nonempty (rbody_ r)) eqn:En; [by rewrite Hcast by lia|].
  assert (find_header "content-length" (rheaders_ r) = None) as ->.
  { pose proof (ordinary_length _ (rp_headers r Hr)) as Ho. rewrite last_printed, last_of_map in Ho by done. by destruct (find_header _ _). }
  unfold nonempty in En. apply negb_false_iff, String.eqb_eq in En as ->. done.
Qed.

(** The response [q] received for [r]: everything but the headers [Dump_response] writes
    itself is as it was sent, and the phrase is the one that was printed. *)
Definition same_response (r q : HttpResponse) : Prop :=
  rstatus_ q = rstatus_ r /\ rversion_ q = rversion_ r /\ rreason_ q = reason_of r /\ rbody_ q = rbody_ r /\
  rGetHeader "connection" EmptyString q = connection_text (rclose_ r) /\
  forall key def, own_name key = false -> rGetHeader key def q = rGetHeader key def r.

Lemma rreceived_same r b : map_ok CaseInsensitiveLess (rheaders_ r) -> b = rbody_ r -> same_response r (rset_body b (rreceived r)).
Proof using Type.
  intros Hm ->. split_and!; try done.
  - unfold rGetHeader. cbn [rheaders_ rset_body]. by rewrite rreceived_headers.
  - intros key def [E1 E2]%orb_false_iff. unfold rGetHeader. cbn [rheaders_ rset_body]. by rewrite rreceived_headers, E1, E2.
Qed.

Lemma dump_response_bytes r : rprintable r -> bytes_of (Dump_response r) = bytes_of (text (response_head r)) ++ bytes_of (rbody_ r).
Proof using Type.
  intros Hr. unfold bytes_of, String.list_byte_of_string. rewrite <- map_app. f_equal.
  rewrite String.list_ascii_of_string_of_list_ascii. by apply dump_response_head.
Qed.

Definition rhead_size (r : HttpResponse) : nat := length (response_head r).

Lemma rhead_bytes_size r : length (bytes_of (text (response_head r))) = rhead_size r.
Proof using Type. unfold bytes_of, String.list_byte_of_string. rewrite length_map, String.list_ascii_of_string_of_list_ascii. done. Qed.

Lemma recv_head_response r k ks d more out : rprintable r -> 0 < buff_size < 2 ^ 31 ->
  k = Z.of_nat (rhead_size r + length d) -> k < buff_size ->
  exists p, recv_head (fun p s => execute_response p s false) HasError_response IsFinished_response buff_size (S (S (length ks)))
      (new_HttpResponseParser (P := httpclient_parser)) [] (mkConn (bytes_of (text (response_head r)) ++ d ++ more) (k :: ks) out false) =
    (Ok (Some (mkRspParser p 0 (rreceived r), d)), mkConn more ks out false) /\ machine_chunked p = false.
Proof using Type.
  intros Hr Hb -> Hlt. set (h := bytes_of (text (response_head r))). pose proof (rhead_bytes_size r) as Hh. fold h in Hh.
  destruct (execute_response_head r (chars (text_of d)) Hr) as (p & E & He & Hf & Hc).
  { rewrite length_app. fold (rhead_size r). unfold text_of, String.string_of_list_byte. rewrite String.list_ascii_of_string_of_list_ascii, length_map. lia. }
  exists p. split; [|exact Hc]. replace (Z.of_nat (rhead_size r + length d)) with (Z.of_nat (length (h ++ d))) in * by (rewrite length_app; lia).
  apply recv_head_whole; try done.
  - unfold h. rewrite text_of_rest, rhead_bytes_size. exact E.
Qed.

End Arrives.

(** ** Examples *)

Definition demo_answer : HttpResponse :=
  rset_body "no such page" (rset_status 404 (rSetHeader "Server" "gudov/1.0.0" (rSetHeader "X-Empty" EmptyString (new_HttpResponse 17 true)))).

Lemma demo_answer_printable : rprintable demo_answer.
Proof.
  split.
  - by right.
  - done.
  - split; [done|]. by repeat constructor.
  - apply Forall_cons. split; [|apply Forall_singleton]; (split; [done|]); (split; [by repeat constructor|]); split;
      try (apply (bool_decide_unpack _); vm_compute; exact I); try (by repeat constructor); exact I.
Qed.


(** ** Responses that are read differently

    As [http_parser_execute], [httpclient_parser_execute] sets its marks to the start of a
    buffer that by then holds other bytes. *)

Definition response_in (pieces : list string) : result (option HttpResponse) :=
  (RecvResponse (P := httpclient_parser) demo_cast 16384 4096
     (mkConn (bytes_of (foldr String.append EmptyString pieces)) (map (fun s => Z.of_nat (String.length s)) pieces) [] false)).1.

(** A status cut in two is the number in what is left of it, and a header whose value is
    cut in two is lost. *)
Lemma split_status : exists q, response_in ["HTTP/1.1 40"; "4 Not Found" +:+ CRLF +:+ "Server: gud"; "ov" +:+ CRLF +:+ CRLF] = Ok (Some q) /\
  rstatus_ q = 4 /\ rheaders_ q = [].
Proof. eexists. vm_compute. done. Qed.

(** Without a phrase, the line end is the phrase. *)
Lemma empty_phrase : exists q, response_in ["HTTP/1.1 200 " +:+ CRLF +:+ CRLF] = Ok (Some q) /\ rreason_ q = String CR EmptyString.
Proof. eexists. vm_compute. done. Qed.

(** The extensions of a chunk become headers of the response. *)
Lemma chunk_extension : exists q,
  response_in ["HTTP/1.1 200 OK" +:+ CRLF +:+ "Transfer-Encoding: chunked" +:+ CRLF +:+ CRLF; "3;a=b" +:+ CRLF +:+ "abc" +:+ CRLF; "0" +:+ CRLF +:+ CRLF] = Ok (Some q) /\
  rbody_ q = "abc" /\ rheaders_ q = [("a", "b"); ("Transfer-Encoding", "chunked")].
Proof. eexists. vm_compute. done. Qed.

(** ** Chunks and pools at work *)

(** A response whose chunks arrive as [pieces] of the wire. *)
Definition chunked_response (pieces : list Z) : Conn :=
  let head := "HTTP/1.1 200 OK" +:+ CRLF +:+ "Transfer-Encoding: chunked" +:+ CRLF +:+ CRLF in
  mkConn (bytes_of head ++ concat (map (piece hex_head) demo_chunks) ++ piece hex_head [])
    (Z.of_nat (String.length head) :: pieces) [] false.

Definition body_received (pieces : list Z) : result (option string) :=
  match (RecvResponse (P := httpclient_parser) demo_cast 16384 4096 (chunked_response pieces)).1 with
  | Ok (Some r) => Ok (Some (rbody_ r))
  | Ok None => Ok None
  | Fail e => Fail e
  end.

(** The wire is "6 CRLF hello CRLF", "7 CRLF chunked CRLF", "6 CRLF world CRLF",
    "0 CRLF CRLF".  In step the body arrives.  When only a part of a chunk is in the
    buffer, two bytes of it are lost and its line end becomes part of the body; when
    only the header is, [append] is called with the length -2 and throws; when the
    next chunk is there too, its bytes are read as a header and the response is
    dropped. *)
Theorem chunk_boundaries_matter :
  body_received [11; 12; 11; 5] = Ok (Some "hello chunked world") /\
  body_received [8; 8; 12; 11; 5] = Ok (Some ("hel" +:+ " " +:+ CRLF +:+ "chunked world")) /\
  body_received [3; 8; 12; 11; 5] = Fail length_error /\
  body_received [14; 9; 11; 5] = Ok None.
Proof. vm_compute. done. Qed.

Lemma pool_request_settles_witness :
  match pool_doRequest (P := httpclient_parser) bump_conn demo_cast 16384 4096 (10 ^ 12) (10 ^ 12) None (new_HttpRequest 17 false) demo_pool2 with
  | (Ok r, p') => pool_ok [1%nat] p' /\ (forall j, j ∈ [1%nat] -> heap p' !! j = heap demo_pool2 !! j) /\
      (None (A := Conn) = None /\ r = mkResult POOL_GET_CONNECTION None \/
       exists c, (exchange demo_cast 16384 4096 (new_HttpRequest 17 false) c).1 = Ok r)
  | (Fail e, p') => exists c, (exchange demo_cast 16384 4096 (new_HttpRequest 17 false) c).1 = Fail e /\
      (e <> undefined -> e <> out_of_fuel -> pool_ok [1%nat] p' /\ forall j, j ∈ [1%nat] -> heap p' !! j = heap demo_pool2 !! j)
  end.
Proof.
  apply (pool_request_settles bump_conn bump_conn_fresh demo_cast 16384 4096 [1%nat] demo_pool2 (10 ^ 12) (10 ^ 12) None
           (new_HttpRequest 17 false)). apply demo_pool2_ok.
Defined.

(** A request through the pool, and what is left of the connection. *)
Example pool_request_runs :
  let hello := "HTTP/1.1 200 OK" +:+ CRLF +:+ "Content-Length: 5" +:+ CRLF +:+ CRLF +:+ "hello" in
  let '(r, p) := pool_doRequest bump_conn demo_cast 16384 4096 (10 ^ 12) (10 ^ 12) (Some (demo_sock hello))
                   (pool_request "localhost" EmptyString GET "/a" [("Accept", "*"); ("Connection", "close")] EmptyString) demo_pool in
  match r with
  | Ok res => rcode res = OK /\ rbody_ <$> rresponse res = Some "hello"
  | Fail _ => False
  end /\ conns_ p = [0%nat] /\ total_ p = 1 /\
  (text_of ∘ outgoing ∘ sock <$> heap p !! 0%nat) =
    Some ("GET /a HTTP/1.1" +:+ CRLF +:+ "connection: keep-alive" +:+ CRLF +:+ "Accept:*" +:+ CRLF +:+ "Host:localhost" +:+ CRLF +:+ CRLF).
Proof. vm_compute. done. Qed.
