(* ===== verification/Yaml.v ===== *)
(** * YAML documents

    The nodes of yaml-cpp that [gudov/config.h], [gudov/config.cpp] and [gudov/log.cpp]
    read and build, and the interface of the library: [Load] and the stream operator,
    with the law that what is written loads back.  The flow style of YAML, restricted to
    the delimiters that are needed, is an instance of it. *)

From S2P Require Import Prelude.
From stdpp Require Import base numbers list strings pretty.
From Stdlib Require Import ZArith Lia Ascii.
Open Scope Z_scope.

Abbreviation chars := (list ascii).
Abbreviation text := String.string_of_list_ascii.
Abbreviation chars_of := String.list_ascii_of_string.

(** ** Nodes *)

Inductive Node :=
  | Undefined
  | Null
  | Scalar (s : string)
  | Sequence (l : list Node)
  | Map (l : list (Node * Node)).

Section NodeInduction.
Variable P : Node -> Prop.
Hypothesis P_undefined : P Undefined.
Hypothesis P_null : P Null.
Hypothesis P_scalar : forall s, P (Scalar s).
Hypothesis P_sequence : forall l, Forall P l -> P (Sequence l).
Hypothesis P_map : forall l, Forall (fun kv => P kv.1 /\ P kv.2) l -> P (Map l).

Lemma node_induction n : P n.
Proof.
  revert n. fix go 1. intros [| |s|l|l]; [done|done|done| |].
  - apply P_sequence. induction l as [|x l IH]; constructor; [apply go|exact IH].
  - apply P_map. induction l as [|[k v] l IH]; constructor; [split; apply go|exact IH].
Qed.
End NodeInduction.

(** [node.size()] *)
Definition node_size (n : Node) : nat :=
  match n with Sequence l => length l | Map l => length l | _ => 0%nat end.

(** [node.Scalar()]: the text of a scalar, and of any other node the empty string. *)
Definition scalar_text (n : Node) : string := match n with Scalar s => s | _ => EmptyString end.

Definition IsMap (n : Node) : bool := match n with Map _ => true | _ => false end.
Definition IsScalar (n : Node) : bool := match n with Scalar _ => true | _ => false end.
Definition IsDefined (n : Node) : bool := match n with Undefined => false | _ => true end.

(** Whether the key of an entry is the text [k]. *)
Definition key_is (k : string) (key : Node) : bool :=
  match key with Scalar s => String.eqb s k | _ => false end.

Fixpoint lookup_key (k : string) (l : list (Node * Node)) : Node :=
  match l with [] => Undefined | (key, v) :: l => if key_is k key then v else lookup_key k l end.

(** [node[k]] with a string: the entry of a map; a scalar has no entries to ask for. *)
Definition node_get (k : string) (n : Node) : result Node :=
  match n with
  | Map l => Ok (lookup_key k l)
  | Scalar _ => Fail runtime_error
  | _ => Ok Undefined
  end.

(** [node[i]] with an index: the element of a sequence, and in a map the entry whose
    key reads as the number. *)
Definition node_at (n : Node) (i : nat) : Node :=
  match n with
  | Sequence l => default Undefined (l !! i)
  | Map l => lookup_key (pretty (Z.of_nat i)) l
  | _ => Undefined
  end.

(** [node.push_back(x)]: a null node becomes a sequence. *)
Definition push_back (n x : Node) : result Node :=
  match n with
  | Undefined | Null => Ok (Sequence [x])
  | Sequence l => Ok (Sequence (l ++ [x]))
  | _ => Fail runtime_error
  end.

Fixpoint assign_key (k : string) (x : Node) (l : list (Node * Node)) : list (Node * Node) :=
  match l with
  | [] => [(Scalar k, x)]
  | (key, v) :: l => if key_is k key then (key, x) :: l else (key, v) :: assign_key k x l
  end.

(** [node[k] = x]: a null node becomes a map. *)
Definition node_set (n : Node) (k : string) (x : Node) : result Node :=
  match n with
  | Undefined | Null => Ok (Map [(Scalar k, x)])
  | Map l => Ok (Map (assign_key k x l))
  | _ => Fail runtime_error
  end.

(** ** The library *)

(** [Load] reads a document, [dump] is what [ss << node] writes, and [as_null] what
    [as<std::string>()] makes of a null node, which differs between versions.  [emits] are the
    nodes that are written in full: every loaded node, and every sequence or map built
    of such nodes. *)
Class Yaml := {
  Load : string -> result Node;
  dump : Node -> string;
  as_null : result string;
  emits : Node -> Prop;
  emits_null : emits Null;
  emits_scalar s : emits (Scalar s);
  emits_loaded s n : Load s = Ok n -> emits n;
  emits_sequence l : Forall emits l -> emits (Sequence l);
  emits_map l : Forall (fun kv => emits kv.1 /\ emits kv.2) l -> emits (Map l);
  load_dump n : emits n -> Load (dump n) = Ok n }.

Create HintDb yaml.
(** [node.as<std::string>()] *)
Definition as_string `{Yaml} (n : Node) : result string :=
  match n with Scalar s => Ok s | Null => as_null | _ => Fail runtime_error end.

#[export] Hint Resolve emits_null emits_scalar emits_loaded emits_sequence emits_map : yaml.

(** ** Flow style *)

Module Flow.
Definition is_plain (c : ascii) : bool :=
  let n := nat_of_ascii c in
  ((48 <=? n) && (n <=? 57) || (65 <=? n) && (n <=? 90) || (97 <=? n) && (n <=? 122))%nat.

Definition plain (cs : chars) : bool := match cs with [] => false | _ => forallb is_plain cs end.

Definition quote_char : ascii := "'".

Fixpoint quoted (cs : chars) : chars :=
  match cs with
  | [] => [quote_char]
  | c :: cs => if Ascii.eqb c quote_char then c :: c :: quoted cs else c :: quoted cs
  end.

Definition write_scalar (cs : chars) : chars := if plain cs then cs else quote_char :: quoted cs.

Fixpoint write (n : Node) : chars :=
  match n with
  | Undefined => []
  | Null => ["~"%char]
  | Scalar s => write_scalar (chars_of s)
  | Sequence l => "["%char :: flat_map (fun x => write x ++ [","%char]) l ++ ["]"%char]
  | Map l => "{"%char :: flat_map (fun '(k, v) => write k ++ ":"%char :: " "%char :: write v ++ [","%char]) l ++ ["}"%char]
  end.

Fixpoint span (cs : chars) : chars * chars :=
  match cs with
  | c :: r => if is_plain c then let '(a, b) := span r in (c :: a, b) else ([], cs)
  | [] => ([], [])
  end.

Fixpoint unquote (cs : chars) : option (chars * chars) :=
  match cs with
  | [] => None
  | c :: r =>
      if Ascii.eqb c quote_char then
        match r with
        | c' :: r' => if Ascii.eqb c' quote_char then '(a, b) ← unquote r'; Some (c :: a, b) else Some ([], r)
        | [] => Some ([], [])
        end
      else '(a, b) ← unquote r; Some (c :: a, b)
  end.

Definition eat (c : ascii) (cs : chars) : option chars :=
  match cs with x :: r => if Ascii.eqb x c then Some r else None | [] => None end.

Fixpoint read (f : nat) (cs : chars) : option (Node * chars) :=
  match f, cs with
  | S f, c :: r =>
      if Ascii.eqb c "~" then Some (Null, r)
      else if Ascii.eqb c quote_char then '(a, r) ← unquote r; Some (Scalar (text a), r)
      else if Ascii.eqb c "[" then '(l, r) ← read_seq f r; Some (Sequence l, r)
      else if Ascii.eqb c "{" then '(l, r) ← read_map f r; Some (Map l, r)
      else if is_plain c then let '(a, r) := span cs in Some (Scalar (text a), r)
      else None
  | _, _ => None
  end
with read_seq (f : nat) (cs : chars) : option (list Node * chars) :=
  match f with
  | O => None
  | S f =>
      match eat "]" cs with
      | Some r => Some ([], r)
      | None => '(x, r) ← read f cs; r ← eat "," r; '(l, r) ← read_seq f r; Some (x :: l, r)
      end
  end
with read_map (f : nat) (cs : chars) : option (list (Node * Node) * chars) :=
  match f with
  | O => None
  | S f =>
      match eat "}" cs with
      | Some r => Some ([], r)
      | None =>
          '(k, r) ← read f cs; r ← eat ":" r; r ← eat " " r;
          '(v, r) ← read f r; r ← eat "," r; '(l, r) ← read_map f r; Some ((k, v) :: l, r)
      end
  end.

Definition load (s : string) : result Node :=
  match chars_of s with
  | [] => Ok Null
  | cs => match read (length cs) cs with Some (n, []) => Ok n | _ => Fail runtime_error end
  end.

Fixpoint complete (n : Node) : bool :=
  match n with
  | Undefined => false
  | Null | Scalar _ => true
  | Sequence l => forallb complete l
  | Map l => forallb (fun '(k, v) => complete k && complete v) l
  end.

(** What may follow a plain scalar. *)
Definition stops (rest : chars) : Prop := match rest with [] => True | c :: _ => is_plain c = false end.

Lemma span_plain cs rest : forallb is_plain cs = true -> stops rest -> span (cs ++ rest) = (cs, rest).
Proof.
  intros Hp Hs. induction cs as [|c cs IH].
  - destruct rest as [|c rest]; [done|]. cbn in *. by rewrite Hs.
  - cbn in *. apply andb_true_iff in Hp as [Hc Hp]. rewrite Hc. by rewrite (IH Hp).
Qed.

Lemma unquote_quoted cs rest : hd_error rest <> Some quote_char -> unquote (quoted cs ++ rest) = Some (cs, rest).
Proof.
  intros Hr. induction cs as [|c cs IH]; cbn [quoted app unquote].
  - rewrite Ascii.eqb_refl. destruct rest as [|c rest]; [done|].
    destruct (Ascii.eqb_spec c quote_char) as [->|]; [done|done].
  - destruct (Ascii.eqb_spec c quote_char) as [->|Hc]; cbn [app].
    + cbn [unquote]. rewrite Ascii.eqb_refl. by rewrite IH.
    + cbn [unquote]. destruct (Ascii.eqb_spec c quote_char); [done|]. by rewrite IH.
Qed.

Lemma eat_app c cs : eat c (c :: cs) = Some cs.
Proof. cbn. by rewrite Ascii.eqb_refl. Qed.

(** The first character of a written node opens it. *)
Lemma write_opens n : complete n = true ->
  exists c cs, write n = c :: cs /\ c <> "]"%char /\ c <> "}"%char.
Proof.
  destruct n as [| |s|l|l]; cbn; try done; try by eauto 10. intros _. unfold write_scalar.
  destruct (chars_of s) as [|c cs]; [by eauto 10|]. destruct (plain (c :: cs)) eqn:E; [|by eauto 10].
  exists c, cs. cbn in E. apply andb_true_iff in E as [E _]. split_and!; [done|by intros ->..].
Qed.

Lemma eat_other n c rest : complete n = true -> c = "]"%char \/ c = "}"%char -> eat c (write n ++ rest) = None.
Proof.
  intros Hn Hc. destruct (write_opens n Hn) as (x & cs & -> & H1 & H2). cbn.
  destruct (Ascii.eqb_spec x c); [|done]. destruct Hc; congruence.
Qed.

Definition reads_back (n : Node) : Prop :=
  forall f rest, complete n = true -> (length (write n) <= f)%nat -> stops rest -> hd_error rest <> Some quote_char ->
  read f (write n ++ rest) = Some (n, rest).

Lemma read_scalar_back s : reads_back (Scalar s).
Proof.
  intros f rest _ Hf Hs Hq. cbn [write] in *. unfold write_scalar in *.
  destruct (plain (chars_of s)) eqn:E.
  - destruct (chars_of s) as [|c cs] eqn:Es; [done|]. destruct f as [|f]; [cbn in Hf; lia|].
    pose proof (span_plain (c :: cs) rest E Hs) as Hsp. cbn [app] in *. cbn [read].
    assert (is_plain c = true) as Hc by (cbn in E; by apply andb_true_iff in E as [E _]).
    rewrite Hsp, Hc, <- Es, String.string_of_list_ascii_of_string.
    repeat match goal with |- context [Ascii.eqb c ?x] => destruct (Ascii.eqb_spec c x) as [->|_]; [done|] end. done.
  - destruct f as [|f]; [cbn in Hf; lia|]. cbn [app read]. cbn.
    rewrite (unquote_quoted _ _ Hq). cbn. by rewrite String.string_of_list_ascii_of_string.
Qed.

Lemma read_seq_back l : Forall reads_back l -> forall f rest, forallb complete l = true ->
  (length (flat_map (fun x => write x ++ [","%char]) l) < f)%nat ->
  read_seq f (flat_map (fun x => write x ++ [","%char]) l ++ "]"%char :: rest) = Some (l, rest).
Proof.
  induction 1 as [|x l Hx _ IH]; intros f rest Hc Hf; (destruct f as [|f]; [lia|]).
  - done.
  - cbn in Hc, Hf. apply andb_true_iff in Hc as [Hcx Hc]. rewrite !length_app in Hf. cbn in Hf.
    cbn [flat_map read_seq]. rewrite <- ?app_assoc, eat_other by (done || by left).
    rewrite Hx by (done || lia). cbn. rewrite IH by (done || lia). done.
Qed.

Lemma read_map_back l : Forall (fun kv => reads_back kv.1 /\ reads_back kv.2) l -> forall f rest,
  forallb (fun '(k, v) => complete k && complete v) l = true ->
  (length (flat_map (fun '(k, v) => write k ++ ":"%char :: " "%char :: write v ++ [","%char]) l) < f)%nat ->
  read_map f (flat_map (fun '(k, v) => write k ++ ":"%char :: " "%char :: write v ++ [","%char]) l ++ "}"%char :: rest) = Some (l, rest).
Proof.
  induction 1 as [|[k v] l [Hk Hv] _ IH]; intros f rest Hc Hf; (destruct f as [|f]; [lia|]).
  - done.
  - cbn in Hc, Hf, Hk, Hv. apply andb_true_iff in Hc as [[Hck Hcv]%andb_true_iff Hc].
    rewrite !length_app in Hf. cbn in Hf. rewrite !length_app in Hf. cbn in Hf.
    cbn [flat_map read_map]. rewrite <- ?app_assoc, eat_other by (done || by right).
    rewrite Hk by (done || lia). cbn. rewrite <- ?app_assoc, Hv by (done || lia). cbn.
    rewrite IH by (done || lia). done.
Qed.

Lemma node_read_back n : reads_back n.
Proof.
  induction n as [| |s|l IH|l IH] using node_induction.
  - by intros f rest.
  - intros f rest _ Hf. cbn in *. destruct f; [lia|]. done.
  - apply read_scalar_back.
  - intros f rest Hc Hf _ _. cbn in Hf. rewrite length_app in Hf. cbn in Hf. destruct f as [|f]; [lia|].
    cbn [write app read]. cbn. rewrite <- ?app_assoc. cbn. rewrite read_seq_back by (done || lia). done.
  - intros f rest Hc Hf _ _. cbn in Hf. rewrite length_app in Hf. cbn in Hf. destruct f as [|f]; [lia|].
    cbn [write app read]. cbn. rewrite <- ?app_assoc. cbn. rewrite read_map_back by (done || lia). done.
Qed.

(** What is read is complete. *)
Lemma read_complete f :
  (forall cs n r, read f cs = Some (n, r) -> complete n = true) /\
  (forall cs l r, read_seq f cs = Some (l, r) -> forallb complete l = true) /\
  (forall cs l r, read_map f cs = Some (l, r) -> forallb (fun '(k, v) => complete k && complete v) l = true).
Proof.
  induction f as [|f (IH1 & IH2 & IH3)]; [done|]. split_and!.
  - intros [|c cs] n r H; [done|]. cbn [read] in H. repeat case_match; simplify_option_eq; try done.
    all: try (destruct (unquote cs) as [[? ?]|]; by simplify_eq/=).
    + destruct (read_seq f cs) as [[? ?]|] eqn:E; simplify_eq/=. by eapply IH2.
    + destruct (read_map f cs) as [[? ?]|] eqn:E; simplify_eq/=. by eapply IH3.
  - intros cs l r H. cbn [read_seq] in H. destruct (eat "]" cs); [by simplify_eq|].
    destruct (read f cs) as [[x r1]|] eqn:E1; [|done]. cbn in H. destruct (eat "," r1) as [r2|]; [|done]. cbn in H.
    destruct (read_seq f r2) as [[l2 r3]|] eqn:E2; [|done]. simplify_eq/=.
    by rewrite (IH1 _ _ _ E1), (IH2 _ _ _ E2).
  - intros cs l r H. cbn [read_map] in H. destruct (eat "}" cs); [by simplify_eq|].
    destruct (read f cs) as [[x r1]|] eqn:E1; [|done]. cbn in H. destruct (eat ":" r1) as [r2|]; [|done]. cbn in H.
    destruct (eat " " r2) as [r2'|]; [|done]. cbn in H.
    destruct (read f r2') as [[v r3]|] eqn:E2; [|done]. cbn in H. destruct (eat "," r3) as [r4|]; [|done]. cbn in H.
    destruct (read_map f r4) as [[l2 r5]|] eqn:E3; [|done]. simplify_eq/=.
    by rewrite (IH1 _ _ _ E1), (IH1 _ _ _ E2), (IH3 _ _ _ E3).
Qed.

Lemma load_complete s n : load s = Ok n -> complete n = true.
Proof.
  unfold load. destruct (chars_of s) as [|c cs]; [by intros [= <-]|].
  destruct (read _ _) as [[n' [|]]|] eqn:E; try done. intros [= <-]. by apply read_complete in E.
Qed.

Lemma load_write n : complete n = true -> load (text (write n)) = Ok n.
Proof.
  intros Hn. unfold load. rewrite String.list_ascii_of_string_of_list_ascii.
  pose proof (node_read_back n (length (write n)) [] Hn (le_n _) I ltac:(done)) as Hr. rewrite (app_nil_r (write n)) in Hr.
  destruct (write_opens n Hn) as (c & cs & E & _). rewrite E in *. by rewrite Hr.
Qed.
End Flow.

(** The flow style as an instance of the library. *)
#[export] Instance flow_yaml : Yaml.
Proof.
  refine {| Load := Flow.load; dump n := text (Flow.write n); as_null := Ok "null"%string; emits n := Flow.complete n = true |}; try done.
  - apply Flow.load_complete.
  - intros l Hl. cbn. induction Hl as [|x l Hx Hl IH]; [done|]. cbn. by rewrite Hx.
  - intros l Hl. cbn. induction Hl as [|[k v] l [Hk Hv] Hl IH]; [done|]. cbn in *. by rewrite Hk, Hv.
  - apply Flow.load_write.
Defined.
