(* ===== verification/LexicalCast.v ===== *)
(** * Conversions between values and text: [LexicalCast] of [gudov/config.h]

    The template and its partial specialisations for the standard containers.  A type
    of the program is a code [Ty]; the types that convert by themselves (those of
    [boost::lexical_cast], and the ones with a specialisation of their own) are a
    parameter, and so are YAML (class [Yaml]) and the order in which the unordered
    containers hold their elements (class [Hashing]). *)

From S2P Require Import Prelude OrderedMap Yaml.
From stdpp Require Import base numbers list sets sorting strings pretty.
From Stdlib Require Import ZArith Lia Ascii.
Open Scope Z_scope.

(** ** Types *)

Class Scalars (B : Type) := {
  base_type : B -> Type;
  base_eq b : base_type b -> base_type b -> bool;
  base_less b : base_type b -> base_type b -> bool;
  base_from b : string -> result (base_type b);
  base_to b : base_type b -> result string;
  base_eq_sym b x y : base_eq b x y = base_eq b y x;
  base_order b :: WeakOrder (base_less b) }.

(** Where a hash table puts a new element; the others keep their order. *)
Class Hashing := {
  place {A : Type} : A -> list A -> list A;
  place_perm {A} (x : A) l : place x l ≡ₚ x :: l }.

(** [std::hash] is there for the scalar types only. *)
Inductive Ty (B : Type) :=
  | TBase (b : B)
  | TVector (t : Ty B)
  | TList (t : Ty B)
  | TSet (t : Ty B)
  | TUnorderedSet (b : B)
  | TMap (t : Ty B)
  | TUnorderedMap (t : Ty B).
Arguments TBase {B} b.
Arguments TVector {B} t.
Arguments TList {B} t.
Arguments TSet {B} t.
Arguments TUnorderedSet {B} b.
Arguments TMap {B} t.
Arguments TUnorderedMap {B} t.

#[global] Instance Ty_eq_dec {B} `{EqDecision B} : EqDecision (Ty B).
Proof. solve_decision. Defined.

Section Values.
Context {B : Type} `{SB : Scalars B}.

Fixpoint den (t : Ty B) : Type :=
  match t with
  | TBase b => base_type b
  | TVector t | TList t | TSet t => list (den t)
  | TUnorderedSet b => list (base_type b)
  | TMap t | TUnorderedMap t => list (string * den t)
  end.

(** [operator<]; the unordered containers have none. *)
Fixpoint less (t : Ty B) : den t -> den t -> bool :=
  match t with
  | TBase b => base_less b
  | TVector t | TList t | TSet t => lex_less (less t)
  | TMap t => lex_less (pair_less string_less (less t))
  | TUnorderedSet _ | TUnorderedMap _ => fun _ _ => false
  end.

Fixpoint orderable (t : Ty B) : bool :=
  match t with
  | TBase _ => true
  | TVector t | TList t | TSet t | TMap t => orderable t
  | TUnorderedSet _ | TUnorderedMap _ => false
  end.

Fixpoint lists_eq {A} (eq : A -> A -> bool) (l k : list A) : bool :=
  match l, k with
  | [], [] => true
  | x :: l, y :: k => eq x y && lists_eq eq l k
  | _, _ => false
  end.

(** The entry of a key of an unordered map. *)
Fixpoint find_entry {A} (k : string) (m : list (string * A)) : option A :=
  match m with [] => None | (k', v) :: m => if String.eqb k' k then Some v else find_entry k m end.

(** [operator==] *)
Fixpoint value_eq (t : Ty B) : den t -> den t -> bool :=
  match t with
  | TBase b => base_eq b
  | TVector t | TList t | TSet t => lists_eq (value_eq t)
  | TUnorderedSet b => fun l k =>
      (length l =? length k)%nat && forallb (fun x => existsb (base_eq b x) k) l
  | TMap t => lists_eq (fun p q => String.eqb p.1 q.1 && value_eq t p.2 q.2)
  | TUnorderedMap t => fun l k =>
      (length l =? length k)%nat &&
      forallb (fun p => match find_entry p.1 k with Some v => value_eq t p.2 v | None => false end) l
  end.

(** A value of the type: sets and maps are sorted and hold a key once; the elements of
    a set can be compared. *)
Fixpoint valid (t : Ty B) : den t -> Prop :=
  match t with
  | TBase b => fun _ => True
  | TVector t | TList t => Forall (valid t)
  | TSet t => fun v => set_ok (less t) v /\ Forall (valid t) v
  | TUnorderedSet b => fun v => ForallOrdPairs (fun x y => base_eq b x y = false /\ base_eq b y x = false) v
  | TMap t => fun v => map_ok string_less v /\ Forall (fun p => valid t p.2) v
  | TUnorderedMap t => fun v => NoDup v.*1 /\ Forall (fun p => valid t p.2) v
  end.

Fixpoint well_formed (t : Ty B) : bool :=
  match t with
  | TBase _ | TUnorderedSet _ => true
  | TVector t | TList t | TMap t | TUnorderedMap t => well_formed t
  | TSet t => well_formed t && orderable t
  end.
End Values.
Arguments less {B _} t : simpl never.

(** ** The casts *)

Section Casts.
Context {B : Type} `{SB : Scalars B} `{YB : Yaml} `{HB : Hashing}.

(** The node of a container: each element is printed and its text is read again. *)
Definition push_elem {A} (f : A -> result string) (acc : result Node) (x : A) : result Node :=
  node ← acc; s ← f x; n ← Load s; push_back node n.

Definition seq_node {A} (f : A -> result string) (v : list A) : result Node := foldl (push_elem f) (Ok Null) v.

Definition set_entry {A} (f : A -> result string) (acc : result Node) (p : string * A) : result Node :=
  node ← acc; s ← f p.2; n ← Load s; node_set node p.1 n.

Definition map_node {A} (f : A -> result string) (v : list (string * A)) : result Node := foldl (set_entry f) (Ok Null) v.

(** [LexicalCast<T, std::string>] *)
Fixpoint to_string (t : Ty B) : den t -> result string :=
  match t with
  | TBase b => base_to b
  | TVector t | TList t | TSet t => fun v => node ← seq_node (to_string t) v; Ok (dump node)
  | TUnorderedSet b => fun v => node ← seq_node (base_to b) v; Ok (dump node)
  | TMap t | TUnorderedMap t => fun v => node ← map_node (to_string t) v; Ok (dump node)
  end.

(** The loop of [std::vector]: [ss.str()] reads the stream and does not empty it. *)
Fixpoint vector_loop {A} (f : string -> result A) (node : Node) (js : list nat) (ss : string) (vec : list A) : result (list A) :=
  match js with
  | [] => Ok vec
  | i :: js => let ss := ss +:+ dump (node_at node i) in x ← f ss; vector_loop f node js ss (vec ++ [x])
  end.

(** The loop of the other sequences, [ins] being [push_back] or [insert]. *)
Fixpoint elem_loop {A} (f : string -> result A) (ins : A -> list A -> list A) (node : Node) (js : list nat) (vec : list A) : result (list A) :=
  match js with
  | [] => Ok vec
  | i :: js => x ← f (dump (node_at node i)); elem_loop f ins node js (ins x vec)
  end.

(** The loop of the maps.  The iterator of a sequence has no key, whose text is an
    [InvalidNode]. *)
Fixpoint entry_loop {A} (f : string -> result A) (ins : string -> A -> list (string * A) -> list (string * A))
    (l : list (Node * Node)) (vec : list (string * A)) : result (list (string * A)) :=
  match l with
  | [] => Ok vec
  | (k, v) :: l => x ← f (dump v); entry_loop f ins l (ins (scalar_text k) x vec)
  end.

Definition entries {A} (f : string -> result A) (ins : string -> A -> list (string * A) -> list (string * A)) (node : Node) : result (list (string * A)) :=
  match node with
  | Map l => entry_loop f ins l []
  | Sequence (_ :: _) => Fail runtime_error
  | _ => Ok []
  end.

Definition indices (node : Node) : list nat := seq 0 (node_size node).

Definition list_push {A} (x : A) (l : list A) : list A := l ++ [x].

Definition unordered_insert {A} (eq : A -> A -> bool) (x : A) (l : list A) : list A :=
  if existsb (eq x) l then l else place x l.

Definition unordered_map_insert {A} (k : string) (x : A) (m : list (string * A)) : list (string * A) :=
  match find_entry k m with Some _ => m | None => place (k, x) m end.

(** [LexicalCast<std::string, T>] *)
Fixpoint from_string (t : Ty B) : string -> result (den t) :=
  match t with
  | TBase b => base_from b
  | TVector t => fun v => node ← Load v; vector_loop (from_string t) node (indices node) EmptyString []
  | TList t => fun v => node ← Load v; elem_loop (from_string t) list_push node (indices node) []
  | TSet t => fun v => node ← Load v; elem_loop (from_string t) (set_insert (less t)) node (indices node) []
  | TUnorderedSet b => fun v => node ← Load v; elem_loop (base_from b) (unordered_insert (base_eq b)) node (indices node) []
  | TMap t => fun v => node ← Load v; entries (from_string t) (map_insert string_less) node
  | TUnorderedMap t => fun v => node ← Load v; entries (from_string t) unordered_map_insert node
  end.
End Casts.

(** ** What a cast returns is a value of its type *)

Section Types.
Context {B : Type} `{SB : Scalars B} `{YB : Yaml} `{HB : Hashing}.

Lemma less_order (t : Ty B) : orderable t = true -> WeakOrder (less t).
Proof.
  induction t as [b|t IH|t IH|t IH|b|t IH|t IH]; intros Ho; cbn in Ho; try done.
  - apply base_order.
  - by apply lex_order, IH.
  - by apply lex_order, IH.
  - by apply lex_order, IH.
  - by apply lex_order, pair_order, IH; [apply string_order|].
Qed.

Lemma elem_loop_inv {A} (f : string -> result A) ins node js (P : list A -> Prop) (Q : A -> Prop) vec v :
  (forall s x, f s = Ok x -> Q x) -> (forall x l, Q x -> P l -> P (ins x l)) ->
  P vec -> elem_loop f ins node js vec = Ok v -> P v.
Proof.
  intros Hf Hins. revert vec. induction js as [|j js IH]; cbn; intros vec HP; [by intros [= <-]|].
  destruct (f (dump (node_at node j))) as [x|] eqn:E; [|done]. apply IH. eauto.
Qed.

Lemma vector_loop_inv {A} (f : string -> result A) node js (Q : A -> Prop) ss vec v :
  (forall s x, f s = Ok x -> Q x) -> Forall Q vec -> vector_loop f node js ss vec = Ok v -> Forall Q v.
Proof.
  intros Hf. revert ss vec. induction js as [|j js IH]; cbn; intros ss vec HP; [by intros [= <-]|].
  destruct (f _) as [x|] eqn:E; [|done]. apply IH. apply Forall_app. eauto.
Qed.

Lemma entries_inv {A} (f : string -> result A) ins node (P : list (string * A) -> Prop) (Q : A -> Prop) v :
  (forall s x, f s = Ok x -> Q x) -> (forall k x l, Q x -> P l -> P (ins k x l)) ->
  P [] -> entries f ins node = Ok v -> P v.
Proof.
  intros Hf Hins HP0. destruct node as [| |s|[|n l]|l]; cbn; try by intros [= <-].
  revert HP0. generalize (@nil (string * A)) as vec.
  induction l as [|[k n] l IH]; cbn; intros vec HP; [by intros [= <-]|].
  destruct (f (dump n)) as [x|] eqn:E; [|done]. apply IH. eauto.
Qed.

Lemma find_entry_None {A} k (m : list (string * A)) : find_entry k m = None <-> k ∉ m.*1.
Proof.
  induction m as [|[k' v] m IH]; cbn; [set_solver|].
  destruct (String.eqb_spec k' k) as [->|Hk]; set_solver.
Qed.

Lemma unordered_insert_valid {A} (eq : A -> A -> bool) x l :
  (forall y, eq x y = eq y x) ->
  ForallOrdPairs (fun x y => eq x y = false /\ eq y x = false) l ->
  ForallOrdPairs (fun x y => eq x y = false /\ eq y x = false) (unordered_insert eq x l).
Proof.
  intros Hsym Hl. unfold unordered_insert. destruct (existsb (eq x) l) eqn:E; [done|].
  assert (ForallOrdPairs (fun x y => eq x y = false /\ eq y x = false) (x :: l)) as Hx.
  { constructor; [|done]. apply Forall_forall. intros y Hy.
    destruct (eq x y) eqn:Exy; [|by rewrite <- Hsym].
    rewrite <- not_true_iff_false, existsb_exists in E. exfalso. apply E. exists y. by rewrite <- list_elem_of_In. }
  revert Hx. generalize (place_perm x l). generalize (x :: l). intros k Hp Hx.
  symmetry in Hp. clear E Hl. induction Hp as [|z l1 l2 Hp IH|z y l1|l1 l2 l3 Hp1 IH1 Hp2 IH2]; [done| | |by auto].
  - inversion Hx; subst. constructor; [|by auto]. by rewrite <- Hp.
  - inversion Hx as [|? ? H1 H2]; subst. inversion H2 as [|? ? H3 H4]; subst. inversion H1; subst.
    constructor; [constructor; [tauto|done]|by constructor].
Qed.

Lemma place_forall {A} (P : A -> Prop) x l : P x -> Forall P l -> Forall P (place x l).
Proof. intros Hx Hl. rewrite place_perm. by constructor. Qed.

End Types.

(** ** Round trips *)

Section RoundTrip.
Context {B : Type} `{SB : Scalars B} `{YB : Yaml} `{HB : Hashing}.

(** The text of [x] reads as [y], and so does the text written for the node it loads as,
    which is what a container asks of its elements. *)
Definition recasts {A} (f : A -> result string) (g : string -> result A) (x y : A) : Prop :=
  exists s n, f x = Ok s /\ g s = Ok y /\ Load s = Ok n /\ g (dump n) = Ok y.

Definition seq_of (ns : list Node) : Node := match ns with [] => Null | _ => Sequence ns end.
Definition map_of (l : list (Node * Node)) : Node := match l with [] => Null | _ => Map l end.

Lemma push_all ns n : push_back (seq_of ns) n = Ok (seq_of (ns ++ [n])).
Proof. destruct ns as [|m ns]; [done|]. cbn. done. Qed.

Lemma seq_node_ok {A} (f : A -> result string) v ns :
  Forall2 (fun x n => exists s, f x = Ok s /\ Load s = Ok n) v ns -> seq_node f v = Ok (seq_of ns).
Proof.
  intros Hv. unfold seq_node. change (Ok Null) with (Ok (seq_of [])). change ns with ([] ++ ns) at 1.
  generalize (@nil Node) as acc. induction Hv as [|x n v ns (s & Hs & Hn) Hv IH]; intros acc; cbn [foldl].
  - by rewrite app_nil_r.
  - rewrite cons_middle, app_assoc, <- IH. f_equal. unfold push_elem. cbn. rewrite Hs. cbn. rewrite Hn. cbn. apply push_all.
Qed.

Lemma assign_key_new k x l : Scalar k ∉ l.*1 -> assign_key k x l = l ++ [(Scalar k, x)].
Proof.
  induction l as [|[key v] l IH]; cbn; [done|]. intros [H1 H2]%not_elem_of_cons.
  destruct (key_is k key) eqn:E; [|by rewrite IH].
  destruct key; try done. cbn in E. by apply String.eqb_eq in E as ->.
Qed.

Definition entry_of (kn : string * Node) : Node * Node := (Scalar kn.1, kn.2).

Lemma entry_keys ns : ((entry_of <$> ns) : list (Node * Node)).*1 = Scalar <$> ns.*1.
Proof. induction ns as [|n ns IH]; cbn; [done|]. by rewrite <- IH. Qed.

Lemma map_node_ok {A} (f : A -> result string) v (ns : list (string * Node)) :
  NoDup v.*1 ->
  Forall2 (fun p n => p.1 = n.1 /\ exists s, f p.2 = Ok s /\ Load s = Ok n.2) v ns -> map_node f v = Ok (map_of (entry_of <$> ns)).
Proof.
  intros Hd Hv. unfold map_node. change (Ok Null) with (Ok (map_of (entry_of <$> []))). change ns with ([] ++ ns) at 1.
  assert (forall k, k ∈ v.*1 -> k ∉ (@nil (string * Node)).*1) as Hnew by set_solver. revert Hnew.
  generalize (@nil (string * Node)) as acc. induction Hv as [|[k x] [k' n] v ns (Hk & s & Hs & Hn) Hv IH]; intros acc Hnew; cbn [foldl].
  - by rewrite app_nil_r.
  - cbn in Hk, Hs, Hn, Hd, Hnew. subst k'. apply NoDup_cons in Hd as [Hkv Hd].
    rewrite (cons_middle (k, n) acc ns), app_assoc, <- IH.
    + f_equal. unfold set_entry. cbn. rewrite Hs. cbn. rewrite Hn. cbn.
      assert (Scalar k ∉ ((entry_of <$> acc) : list (Node * Node)).*1) as Hk.
      { rewrite entry_keys. intros (k0 & [= <-] & Hk0)%list_elem_of_fmap. by eapply (Hnew k); [left|]. }
      rewrite fmap_app. destruct (entry_of <$> acc) as [|e l] eqn:E; [done|].
      cbn [map_of node_set]. by rewrite (assign_key_new k n _ Hk).
    + done.
    + intros k1 Hk1. rewrite fmap_app. intros [Hk2|Hk2]%elem_of_app; [by eapply (Hnew k1); [right|]|].
      cbn in Hk2. apply list_elem_of_singleton in Hk2. congruence.
Qed.

Lemma elem_loop_ok {A} (g : string -> result A) ins pre ns v acc :
  Forall2 (fun n x => g (dump n) = Ok x) ns v ->
  elem_loop g ins (Sequence (pre ++ ns)) (seq (length pre) (length ns)) acc = Ok (foldl (flip ins) acc v).
Proof.
  intros Hv. revert pre acc. induction Hv as [|n x ns v Hx Hv IH]; intros pre acc; [done|].
  cbn [length seq elem_loop node_at]. rewrite list_lookup_middle by done. cbn. rewrite Hx. cbn.
  rewrite cons_middle, app_assoc. replace (S (length pre)) with (length (pre ++ [n])) by (rewrite length_app; cbn; lia). apply IH.
Qed.

Lemma cast_seq_of {A} (g : string -> result A) ins ns v :
  Forall2 (fun n x => g (dump n) = Ok x) ns v ->
  elem_loop g ins (seq_of ns) (indices (seq_of ns)) [] = Ok (foldl (flip ins) [] v).
Proof.
  intros Hv. destruct ns as [|n ns]; [by apply Forall2_nil_inv_l in Hv as ->|].
  apply (elem_loop_ok g ins [] (n :: ns) v [] Hv).
Qed.

Lemma seq_of_emits ns : Forall emits ns -> emits (seq_of ns).
Proof. destruct ns; eauto with yaml. Qed.

(** Elements that survive make a container whose text reads as its elements inserted
    one after the other. *)
Lemma seq_recasts {A} (f : A -> result string) (g : string -> result A) ins v v' :
  Forall2 (recasts f g) v v' ->
  recasts (fun v => node ← seq_node f v; Ok (dump node))
          (fun s => node ← Load s; elem_loop g ins node (indices node) []) v (foldl (flip ins) [] v').
Proof.
  intros Hv.
  assert (exists ns, Forall2 (fun x n => exists s, f x = Ok s /\ Load s = Ok n) v ns
                     /\ Forall2 (fun n y => g (dump n) = Ok y) ns v' /\ Forall emits ns) as (ns & H1 & H2 & H3).
  { induction Hv as [|x y v v' (s & n & ? & ? & ? & ?) _ (ns & ? & ? & ?)]; [by exists []|].
    exists (n :: ns). split_and!; constructor; eauto with yaml. }
  pose proof (load_dump _ (seq_of_emits _ H3)) as Hl.
  exists (dump (seq_of ns)), (seq_of ns). rewrite (seq_node_ok _ _ _ H1). cbn. rewrite Hl. cbn.
  by rewrite (cast_seq_of g ins ns v' H2).
Qed.

Lemma entry_loop_ok {A} (g : string -> result A) ins (ns : list (string * Node)) v acc :
  Forall2 (fun n p => n.1 = p.1 /\ g (dump n.2) = Ok p.2) ns v ->
  entry_loop g ins (entry_of <$> ns) acc = Ok (foldl (fun m p => ins p.1 p.2 m) acc v).
Proof.
  intros Hv. revert acc. induction Hv as [|[k n] [k' x] ns v [Hk Hx] Hv IH]; intros acc; cbn in *; [done|].
  subst k'. rewrite Hx. cbn. apply IH.
Qed.

Lemma map_recasts {A} (f : A -> result string) (g : string -> result A) ins (v v' : list (string * A)) :
  NoDup v.*1 -> Forall2 (fun p q => p.1 = q.1 /\ recasts f g p.2 q.2) v v' ->
  recasts (fun v => node ← map_node f v; Ok (dump node))
          (fun s => node ← Load s; entries g ins node) v (foldl (fun m p => ins p.1 p.2 m) [] v').
Proof.
  intros Hd Hv.
  assert (exists ns : list (string * Node),
    Forall2 (fun p n => p.1 = n.1 /\ exists s, f p.2 = Ok s /\ Load s = Ok n.2) v ns
    /\ Forall2 (fun n p => n.1 = p.1 /\ g (dump n.2) = Ok p.2) ns v' /\ Forall (fun n => emits n.2) ns) as (ns & H1 & H2 & H3).
  { clear Hd. induction Hv as [|[k x] [k' y] v v' (? & s & n & ? & ? & ? & ?) _ (ns & ? & ? & ?)]; [by exists []|]. cbn in *. subst k'.
    exists ((k, n) :: ns). split_and!; constructor; eauto with yaml. }
  assert (emits (map_of (entry_of <$> ns))) as He.
  { destruct ns as [|n ns]; [by apply emits_null|]. apply emits_map. apply (proj2 (Forall_fmap entry_of _ (n :: ns))).
    eapply Forall_impl; [exact H3|]. intros. split; cbn; eauto with yaml. }
  exists (dump (map_of (entry_of <$> ns))), (map_of (entry_of <$> ns)).
  rewrite (map_node_ok _ _ _ Hd H1). cbn. rewrite (load_dump _ He). cbn.
  assert (entries g ins (map_of (entry_of <$> ns)) = Ok (foldl (fun m p => ins p.1 p.2 m) [] v')) as Hr.
  { destruct ns as [|n ns]; [by apply Forall2_nil_inv_l in H2 as ->|]. apply (entry_loop_ok g ins (n :: ns) v' [] H2). }
  by rewrite Hr.
Qed.

(** The insertions rebuild the container. *)
Lemma push_all_back {A} (v acc : list A) : foldl (flip list_push) acc v = acc ++ v.
Proof. revert acc. induction v as [|x v IH]; intros acc; cbn; [by rewrite app_nil_r|]. rewrite IH. unfold list_push. by rewrite <- app_assoc. Qed.

Lemma set_rebuilt {A} (less : A -> A -> bool) v : set_ok less v -> foldl (flip (set_insert less)) [] v = v.
Proof.
  intros Hv. change v with ([] ++ v) at 2. assert (Forall (fun x => Forall (fun y => less y x = true) []) v) as Ha by (by apply Forall_true).
  revert Ha. generalize (@nil A) as acc. induction Hv as [|x v Hv IH Hx]; intros acc Ha; cbn; [by rewrite app_nil_r|].
  apply Forall_cons in Ha as [Hax Ha]. rewrite set_insert_last by done. rewrite (cons_middle x acc v), app_assoc. apply IH.
  rewrite Forall_forall in *. intros y Hy. apply Forall_app. split; [by apply Ha|]. constructor; [by apply Hx|done].
Qed.

Lemma map_rebuilt {A} (v : list (string * A)) : map_ok string_less v -> foldl (fun m p => map_insert string_less p.1 p.2 m) [] v = v.
Proof.
  intros Hv. change v with ([] ++ v) at 2.
  assert (Forall (fun x : string * A => Forall (fun y : string * A => string_less y.1 x.1 = true) []) v) as Ha by (by apply Forall_true).
  revert Ha. generalize (@nil (string * A)) as acc. induction Hv as [|[k x] v Hv IH Hx]; intros acc Ha; cbn; [by rewrite app_nil_r|].
  apply Forall_cons in Ha as [Hax Ha]. rewrite map_insert_last by done. rewrite (cons_middle (k, x) acc v), app_assoc. apply IH.
  rewrite Forall_forall in *. intros y Hy. apply Forall_app. split; [by apply Ha|]. constructor; [by apply Hx|done].
Qed.

Lemma unordered_rebuilt {A} (eq : A -> A -> bool) v :
  ForallOrdPairs (fun x y => eq x y = false /\ eq y x = false) v -> foldl (flip (unordered_insert eq)) [] v ≡ₚ v.
Proof.
  intros Hv. change v with ([] ++ v) at 2. assert (Forall (fun x => Forall (fun y => eq x y = false) []) v) as Ha by (by apply Forall_true).
  revert Ha. generalize (@nil A) as acc. induction Hv as [|x v Hx Hv IH]; intros acc Ha; cbn; [by rewrite app_nil_r|].
  apply Forall_cons in Ha as [Hax Ha].
  assert (unordered_insert eq x acc = place x acc) as Hi.
  { unfold unordered_insert. destruct (existsb (eq x) acc) eqn:E; [|done].
    apply existsb_exists in E as (y & Hy%list_elem_of_In & E). rewrite Forall_forall in Hax. by rewrite (Hax y Hy) in E. }
  rewrite Hi, IH; [by rewrite place_perm, <- Permutation_middle|].
  rewrite Forall_forall in *. intros y Hy. rewrite place_perm. constructor; [by apply Hx|by apply Ha].
Qed.

Lemma unordered_map_rebuilt {A} (v : list (string * A)) :
  NoDup v.*1 -> foldl (fun m p => unordered_map_insert p.1 p.2 m) [] v ≡ₚ v.
Proof.
  intros Hv. change v with ([] ++ v) at 2. assert (forall k, k ∈ v.*1 -> k ∉ (@nil (string * A)).*1) as Ha by set_solver.
  revert Ha. generalize (@nil (string * A)) as acc. induction v as [|[k x] v IH]; intros acc Ha; cbn; [by rewrite app_nil_r|].
  cbn in Hv, Ha. apply NoDup_cons in Hv as [Hk Hv].
  assert (unordered_map_insert k x acc = place (k, x) acc) as Hi.
  { unfold unordered_map_insert. rewrite (proj2 (find_entry_None k acc)); [done|]. apply Ha. by left. }
  rewrite Hi, (IH Hv); [by rewrite place_perm, <- Permutation_middle|].
  intros k' Hk'. rewrite place_perm. cbn. apply not_elem_of_cons. split; [congruence|]. apply Ha. by right.
Qed.

(** Equal up to the order of the unordered containers. *)
Fixpoint same (t : Ty B) : den t -> den t -> Prop :=
  match t with
  | TBase b => eq
  | TVector t | TList t | TSet t => Forall2 (same t)
  | TUnorderedSet b => fun v w => w ≡ₚ v
  | TMap t => Forall2 (fun p q => p.1 = q.1 /\ same t p.2 q.2)
  | TUnorderedMap t => fun v w => exists m, Forall2 (fun p q => p.1 = q.1 /\ same t p.2 q.2) v m /\ w ≡ₚ m
  end.

(** The scalars in a value survive. *)
Fixpoint storable (t : Ty B) : den t -> Prop :=
  match t with
  | TBase b => fun x => recasts (base_to b) (base_from b) x x
  | TVector t | TList t | TSet t => Forall (storable t)
  | TUnorderedSet b => Forall (fun x => recasts (base_to b) (base_from b) x x)
  | TMap t | TUnorderedMap t => Forall (fun p => storable t p.2)
  end.

Fixpoint no_vector (t : Ty B) : bool :=
  match t with
  | TBase _ | TUnorderedSet _ => true
  | TVector _ => false
  | TList t | TSet t | TMap t | TUnorderedMap t => no_vector t
  end.

Lemma same_eq (t : Ty B) x y : orderable t = true -> same t x y -> x = y.
Proof.
  revert x y. induction t as [b|t IH|t IH|t IH|b|t IH|t IH]; intros x y Ho; cbn in *; try done.
  1-3: induction 1 as [|a b l k Hab Hl IHl]; [done|]; by rewrite (IH a b Ho Hab), IHl.
  induction 1 as [|[k a] [k' b] l m [Hk Hab] Hl IHl]; [done|]. cbn in *. by rewrite Hk, (IH a b Ho Hab), IHl.
Qed.

Lemma Forall_pick {A} (R : A -> A -> Prop) l : Forall (fun x => exists y, R x y) l -> exists k, Forall2 R l k.
Proof. induction 1 as [|x l [y Hy] _ [k Hk]]; [by exists []|]. exists (y :: k). by constructor. Qed.

Lemma Forall_pick_snd {A} (R : A -> A -> Prop) (l : list (string * A)) :
  Forall (fun p => exists y, R p.2 y) l -> exists k, Forall2 (fun p q => p.1 = q.1 /\ R p.2 q.2) l k.
Proof. induction 1 as [|[n x] l [y Hy] _ [k Hk]]; [by exists []|]. exists ((n, y) :: k). by constructor. Qed.

Lemma Forall2_and {A} (P Q : A -> A -> Prop) l k : Forall2 (fun x y => P x y /\ Q x y) l k -> Forall2 P l k /\ Forall2 Q l k.
Proof. induction 1 as [|x y l k [HP HQ] _ [IHP IHQ]]; split; by constructor. Qed.

Lemma entries_and {A} (P Q : A -> A -> Prop) (l k : list (string * A)) :
  Forall2 (fun p q => p.1 = q.1 /\ P p.2 q.2 /\ Q p.2 q.2) l k ->
  Forall2 (fun p q => p.1 = q.1 /\ P p.2 q.2) l k /\ Forall2 (fun p q => p.1 = q.1 /\ Q p.2 q.2) l k /\ l.*1 = k.*1.
Proof.
  induction 1 as [|[n x] [n' y] l k (Hn & HP & HQ) _ (IHP & IHQ & IHk)]; cbn in *; [by repeat constructor|].
  split_and!; [by constructor|by constructor|by rewrite Hn, IHk].
Qed.

Lemma map_keys_nodup {A} (v : list (string * A)) : map_ok string_less v -> NoDup v.*1.
Proof.
  induction 1 as [|[k x] v Hv IH Hx]; cbn; constructor; [|done].
  intros ([k' y] & Hk & Hy)%list_elem_of_fmap. rewrite Forall_forall in Hx. pose proof (Hx _ Hy) as Hl. unfold before in Hl.
  cbn in *. subst k'. by rewrite less_irrefl in Hl.
Qed.

Lemma map_same_keys {A} (v w : list (string * A)) : v.*1 = w.*1 -> map_ok string_less v -> map_ok string_less w.
Proof.
  intros Hk Hv. revert w Hk. induction Hv as [|[k x] v Hv IH Hx]; intros [|[k' y] w] Hk; cbn in Hk; try done; [constructor|].
  injection Hk as -> Hk. constructor; [by apply IH|]. apply Forall_forall. intros [k2 z] Hz. unfold before. cbn.
  assert (k2 ∈ v.*1) as ([k3 u] & -> & Hu)%list_elem_of_fmap by (rewrite Hk; by apply list_elem_of_fmap; exists (k2, z)).
  rewrite Forall_forall in Hx. apply (Hx _ Hu).
Qed.

Lemma cast_recasts (t : Ty B) v :
  well_formed t = true -> no_vector t = true -> valid t v -> storable t v ->
  exists v', recasts (to_string t) (from_string t) v v' /\ same t v v'.
Proof.
  revert v. induction t as [b|t IH|t IH|t IH|b|t IH|t IH]; intros v Hw Hn Hv Hs; cbn in Hw, Hn, Hv, Hs; try done.
  - by exists v.
  - destruct (Forall_pick (fun x y => recasts (to_string t) (from_string t) x y /\ same t x y) v) as (k & [H1 H2]%Forall2_and).
    { rewrite Forall_forall in *. intros. apply IH; auto. }
    exists k. split; [|done]. pose proof (seq_recasts _ _ list_push _ _ H1) as Hr. by rewrite push_all_back in Hr.
  - apply andb_true_iff in Hw as [Hw Ho]. destruct Hv as [Hv1 Hv2].
    assert (Forall2 (recasts (to_string t) (from_string t)) v v) as H1.
    { apply Forall_Forall2_diag. rewrite Forall_forall in *. intros x Hx.
      destruct (IH x) as (y & Hr & ->%same_eq); auto. }
    exists v. split; [pose proof (seq_recasts _ _ (set_insert (less t)) _ _ H1) as Hr; by rewrite set_rebuilt in Hr|].
    apply Forall_Forall2_diag. rewrite Forall_forall in *. intros x Hx.
    destruct (IH x) as (y & Hr & Hxy); auto. by pose proof (same_eq _ _ _ Ho Hxy) as <-.
  - apply Forall_Forall2_diag in Hs. eexists. split; [apply (seq_recasts _ _ (unordered_insert (base_eq b)) _ _ Hs)|].
    by apply unordered_rebuilt.
  - destruct Hv as [Hv1 Hv2].
    destruct (Forall_pick_snd (fun x y => recasts (to_string t) (from_string t) x y /\ same t x y) v) as (k & (H1 & H2 & H3)%entries_and).
    { rewrite Forall_forall in *. intros. apply IH; auto. }
    exists k. split; [|done].
    pose proof (map_recasts _ _ (map_insert string_less) _ _ (map_keys_nodup _ Hv1) H1) as Hr.
    rewrite map_rebuilt in Hr; [done|]. by apply (map_same_keys v).
  - destruct Hv as [Hv1 Hv2].
    destruct (Forall_pick_snd (fun x y => recasts (to_string t) (from_string t) x y /\ same t x y) v) as (k & (H1 & H2 & H3)%entries_and).
    { rewrite Forall_forall in *. intros. apply IH; auto. }
    eexists. split; [apply (map_recasts _ _ unordered_map_insert _ _ Hv1 H1)|].
    exists k. split; [done|]. apply unordered_map_rebuilt. exact (eq_ind _ (fun l => NoDup l) Hv1 _ H3).
Qed.

(** Printing a value and reading the text again gives the value back, up to the
    order of the unordered containers, for lists, sets and maps nested in any way over
    scalars that survive one by one; vectors are excluded, because they do not. *)
Theorem cast_roundtrip (t : Ty B) v :
  well_formed t = true -> no_vector t = true -> valid t v -> storable t v ->
  exists s v', to_string t v = Ok s /\ from_string t s = Ok v' /\ same t v v'.
Proof. intros Hw Hn Hv Hs. destruct (cast_recasts t v Hw Hn Hv Hs) as (v' & (s & n & H1 & H2 & _) & H3). eauto. Qed.
End RoundTrip.

(** ** Vectors *)

Section Vectors.
Context {B : Type} `{SB : Scalars B} `{YB : Yaml} `{HB : Hashing}.

(** The texts a vector's elements are read from: each one behind all those before it. *)
Fixpoint running (ss : string) (l : list string) : list string :=
  match l with [] => [] | s :: l => (ss +:+ s) :: running (ss +:+ s) l end.

Lemma vector_loop_running {A} (f : string -> result A) pre ns ss vec :
  vector_loop f (Sequence (pre ++ ns)) (seq (length pre) (length ns)) ss vec =
  l ← mapM f (running ss (dump <$> ns)); Ok (vec ++ l).
Proof.
  revert pre ss vec. induction ns as [|n ns IH]; intros pre ss vec; cbn [length seq vector_loop fmap list_fmap running].
  - cbn. by rewrite app_nil_r.
  - cbn [node_at]. rewrite list_lookup_middle by done. cbn. destruct (f (ss +:+ dump n)) as [x|e]; cbn; [|done].
    rewrite (cons_middle n pre ns), app_assoc.
    replace (S (length pre)) with (length (pre ++ [n])) by (rewrite length_app; cbn; lia). rewrite IH.
    destruct (mapM f _) as [l|e]; cbn; [|done]. by rewrite <- app_assoc.
Qed.

(** A vector reads its [i]-th element from the texts of the elements up to the [i]-th,
    one behind the other: with one element or none it is read as it was written, with
    more the elements run together. *)
Theorem vector_cast_accumulates (t : Ty B) s ns :
  Load s = Ok (Sequence ns) -> from_string (TVector t) s = mapM (from_string t) (running EmptyString (dump <$> ns)).
Proof.
  intros Hs. cbn. rewrite Hs. cbn. unfold indices. cbn. rewrite (vector_loop_running (from_string t) [] ns).
  by destruct (mapM _ _).
Qed.
End Vectors.

(** ** Numbers and words *)

Module CastDemo.
(** Decimal numbers and words over the letters and digits, as [boost::lexical_cast]
    converts them. *)
Inductive scalar := TInt | TString.

#[export] Instance scalar_eq_dec : EqDecision scalar.
Proof. solve_decision. Defined.

Definition scalar_type (b : scalar) : Type := match b with TInt => nat | TString => string end.

Fixpoint digits (cs : chars) (acc : nat) : option nat :=
  match cs with
  | [] => Some acc
  | c :: cs => let n := nat_of_ascii c in if ((48 <=? n) && (n <=? 57))%nat then digits cs (10 * acc + (n - 48)) else None
  end.

Definition scalar_from (b : scalar) : string -> result (scalar_type b) :=
  match b with
  | TInt => fun s => match s with
                     | EmptyString => Fail bad_cast
                     | _ => match digits (chars_of s) 0 with Some n => Ok n | None => Fail bad_cast end
                     end
  | TString => Ok
  end.

Definition scalar_to (b : scalar) : scalar_type b -> result string :=
  match b with TInt => fun n => Ok (pretty (Z.of_nat n)) | TString => Ok end.

Definition scalar_eq (b : scalar) : scalar_type b -> scalar_type b -> bool :=
  match b with TInt => Nat.eqb | TString => String.eqb end.

Definition scalar_less (b : scalar) : scalar_type b -> scalar_type b -> bool :=
  match b with TInt => Nat.ltb | TString => string_less end.

#[export] Instance demo_scalars : Scalars scalar.
Proof.
  refine {| base_type := scalar_type; base_eq := scalar_eq; base_less := scalar_less; base_from := scalar_from; base_to := scalar_to |}.
  - intros [] x y; cbn; [apply Nat.eqb_sym|apply String.eqb_sym].
  - intros []; cbn; [|apply string_order].
    split; [apply Nat.ltb_irrefl|intros x y z; rewrite !Nat.ltb_lt; lia|intros x y z; rewrite !Nat.ltb_lt; lia].
Defined.

(** A table that puts new elements in front. *)
#[export] Instance demo_hashing : Hashing.
Proof. refine {| place A x l := x :: l |}. done. Defined.

Definition demo_type : Ty scalar := TMap (TList (TSet (TBase TInt))).
Definition demo_value : den demo_type := [("a"%string, [[1; 20; 300]; []]%nat); ("b"%string, [])].

End CastDemo.
Import CastDemo.

Lemma demo_storable : storable demo_type demo_value.
Proof.
  cbn. repeat constructor; cbn;
    lazymatch goal with |- recasts _ _ ?x _ => exists (pretty (Z.of_nat x)), (Scalar (pretty (Z.of_nat x))) end; vm_compute; auto.
Qed.


Lemma cast_roundtrip_witness : exists s v', to_string demo_type demo_value = Ok s /\ from_string demo_type s = Ok v' /\ same demo_type demo_value v'.
Proof.
  apply (cast_roundtrip demo_type demo_value); [reflexivity|reflexivity| |exact demo_storable].
  cbn. repeat first [split|constructor].
Defined.

Example list_survives : (s ← to_string (TList (TBase TInt)) [1; 2; 3]%nat; from_string (TList (TBase TInt)) s) = Ok [1; 2; 3]%nat.
Proof. vm_compute. reflexivity. Qed.

(** The same three numbers, as a vector. *)
Example vector_does_not : (s ← to_string (TVector (TBase TInt)) [1; 2; 3]%nat; from_string (TVector (TBase TInt)) s) = Ok [1; 12; 123]%nat.
Proof. vm_compute. reflexivity. Qed.
