(* ===== verification/Config.v ===== *)
(** * Configuration: [gudov/config.h] and [gudov/config.cpp]

    Variables with their listeners, the registry that names them, and loading a YAML
    document into it.  A variable is an object of a heap, since the registry and the
    callers share it; its dynamic type is a code [Ty].  What a listener does happens in
    a state [W] of its own. *)

From S2P Require Import Prelude OrderedMap Yaml LexicalCast.
From stdpp Require Import base numbers list sets sorting strings pretty.
From Stdlib Require Import ZArith Lia Ascii.
Open Scope Z_scope.
Open Scope prog_scope.

Section Config.
Context {B : Type} `{EqDecision B} `{SB : Scalars B} `{YB : Yaml} `{HB : Hashing} {W : Type}.

(** ** A variable *)

Abbreviation callback t := (den (B := B) t -> den t -> prog W unit).

Record ConfigVar (t : Ty B) := mkVar {
  value_ : den t;
  callbacks_ : list (Z * callback t) }.
Arguments mkVar {t} value_ callbacks_.
Arguments value_ {t} c.
Arguments callbacks_ {t} c.

Definition new_ConfigVar {t} (default_value : den t) : ConfigVar t := mkVar default_value [].

(** [ConfigVar::ToString]: an exception is logged. *)
Definition ToString {t} (c : ConfigVar t) : result string :=
  match to_string t (value_ c) with
  | Ok s => Ok s
  | Fail e => if is_exception e then Ok EmptyString else Fail e
  end.

Definition GetValue {t} (c : ConfigVar t) : den t := value_ c.

Fixpoint run_callbacks {t} (old new : den t) (cbs : list (Z * callback t)) : prog W unit :=
  match cbs with
  | [] => ret tt
  | (_, cb) :: cbs => cb old new ;; run_callbacks old new cbs
  end.

(** [ConfigVar::SetValue]: the listeners run before the value is assigned. *)
Definition SetValue {t} (v : den t) : prog (ConfigVar t * W) unit :=
  fun '(c, w) =>
    if value_eq t v (value_ c) then (Ok tt, (c, w))
    else match run_callbacks (value_ c) v (callbacks_ c) w with
         | (Ok _, w') => (Ok tt, (mkVar v (callbacks_ c), w'))
         | (Fail e, w') => (Fail e, (c, w'))
         end.

(** [ConfigVar::fromString]: an exception of the conversion or of a listener is
    logged; the result is [false] in any case. *)
Definition fromString {t} (val : string) : prog (ConfigVar t * W) bool :=
  fun '(c, w) =>
    match from_string t val with
    | Ok v =>
        match SetValue v (c, w) with
        | (Ok _, s) => (Ok false, s)
        | (Fail e, s) => (if is_exception e then Ok false else Fail e, s)
        end
    | Fail e => (if is_exception e then Ok false else Fail e, (c, w))
    end.

(** The listeners; [s_fun_id] is shared by the variables of one type. *)
Definition AddListener {t} (cb : callback t) : prog (ConfigVar t * Z) Z :=
  fun '(c, s_fun_id) =>
    let s_fun_id := u64 (s_fun_id + 1) in
    (Ok s_fun_id, (mkVar (value_ c) (map_assign Z.ltb s_fun_id cb (callbacks_ c)), s_fun_id)).

Definition DelListener {t} (key : Z) (c : ConfigVar t) : ConfigVar t :=
  mkVar (value_ c) (map_erase Z.ltb key (callbacks_ c)).

Definition GetListener {t} (key : Z) (c : ConfigVar t) : option (callback t) := map_find Z.ltb key (callbacks_ c).

Definition clearListener {t} (c : ConfigVar t) : ConfigVar t := mkVar (value_ c) [].

(** ** The registry *)

Definition lower_char (c : ascii) : ascii :=
  let n := nat_of_ascii c in if ((65 <=? n) && (n <=? 90))%nat then ascii_of_nat (n + 32) else c.

Definition tolower (s : string) : string := text (lower_char <$> chars_of s).

(** An object behind a [ConfigVarBase::ptr]. *)
Record Entry := mkEntry {
  name_ : string;
  description_ : string;
  type_ : Ty B;
  var_ : ConfigVar type_ }.

(** The constructor of [ConfigVarBase] lowers the name. *)
Definition new_Entry (t : Ty B) (name : string) (default_value : den t) (description : string) : Entry :=
  mkEntry (tolower name) description t (new_ConfigVar default_value).

Record Config := mkConfig {
  heap : list Entry;
  datas : list (string * nat);
  fun_ids : Ty B -> Z;
  world : W }.

Definition valid_char (c : ascii) : bool :=
  let n := nat_of_ascii c in
  ((97 <=? n) && (n <=? 122) || (48 <=? n) && (n <=? 57) || (n =? 46) || (n =? 95))%nat.

(** [name.find_first_not_of("abcdefghijklmnopqrstuvwxyz._0123456789") == npos] *)
Definition valid_name (name : string) : bool := forallb valid_char (chars_of name).

(** [std::dynamic_pointer_cast<ConfigVar<T>>] *)
Definition dynamic_cast (t : Ty B) (a : nat) : prog Config (option nat) :=
  fun s => match heap s !! a with
           | Some e => (Ok (if decide (type_ e = t) then Some a else None), s)
           | None => (Fail null_deref, s)
           end.

Definition add_entry (name : string) (e : Entry) : prog Config nat :=
  fun s => let a := length (heap s) in
           (Ok a, mkConfig (heap s ++ [e]) (unordered_map_insert name a (datas s)) (fun_ids s) (world s)).

(** [Config::Lookup(name, default_value, description)] *)
Definition Lookup (t : Ty B) (name : string) (default_value : den t) (description : string) : prog Config (option nat) :=
  let* it := gets (fun s => find_entry name (datas s)) in
  match it with
  | Some a => dynamic_cast t a
  | None =>
      if negb (valid_name name) then fail invalid_argument
      else let* a := add_entry name (new_Entry t name default_value description) in ret (Some a)
  end.

(** [Config::Lookup(name)] *)
Definition Lookup_name (t : Ty B) (name : string) : prog Config (option nat) :=
  let* it := gets (fun s => find_entry name (datas s)) in
  match it with Some a => dynamic_cast t a | None => ret None end.

Definition LookupBase (name : string) : prog Config (option nat) := gets (fun s => find_entry name (datas s)).

Definition Clear : prog Config unit := modify (fun s => mkConfig (heap s) [] (fun_ids s) (world s)).

(** [Config::Visit] *)
Fixpoint visit_all (cb : nat -> prog Config unit) (l : list (string * nat)) : prog Config unit :=
  match l with [] => ret tt | (_, a) :: l => cb a ;; visit_all cb l end.

Definition Visit (cb : nat -> prog Config unit) : prog Config unit := fun s => visit_all cb (datas s) s.

(** ** Calls through a pointer *)

Definition put_var (a : nat) (e : Entry) (c : ConfigVar (type_ e)) (s : Config) : Config :=
  mkConfig (<[a := mkEntry (name_ e) (description_ e) (type_ e) c]> (heap s)) (datas s) (fun_ids s) (world s).

Definition put_world (w : W) (s : Config) : Config := mkConfig (heap s) (datas s) (fun_ids s) w.

(** A virtual call on the object at [a]. *)
Definition call_var {A} (a : nat) (k : forall t, prog (ConfigVar t * W) A) : prog Config A :=
  fun s => match heap s !! a with
           | None => (Fail null_deref, s)
           | Some e => let '(r, (c, w)) := k (type_ e) (var_ e, world s) in (r, put_var a e c (put_world w s))
           end.

(** A call on a [ConfigVar<T>::ptr]; the static type of a pointer is the type of its
    object. *)
Definition as_type {A} (t : Ty B) (k : prog (ConfigVar t * W) A) (t' : Ty B) : prog (ConfigVar t' * W) A :=
  match decide (t = t') with
  | left E => match E in _ = t' return prog (ConfigVar t' * W) A with eq_refl => k end
  | right _ => fail undefined
  end.

Definition fromString_at (a : nat) (val : string) : prog Config bool := call_var a (fun t => fromString val).

Definition SetValue_at (t : Ty B) (a : nat) (v : den t) : prog Config unit := call_var a (as_type t (SetValue v)).

Definition AddListener_at (t : Ty B) (a : nat) (cb : callback t) : prog Config Z :=
  fun s =>
    match heap s !! a with
    | None => (Fail null_deref, s)
    | Some e =>
        match decide (t = type_ e) with
        | left E =>
            let cb' := match E in _ = t' return callback t' with eq_refl => cb end in
            match AddListener cb' (var_ e, fun_ids s t) with
            | (r, (c, i)) =>
                let s' := put_var a e c s in
                (r, mkConfig (heap s') (datas s') (fun t' => if decide (t' = t) then i else fun_ids s t') (world s'))
            end
        | right _ => (Fail undefined, s)
        end
    end.

Definition DelListener_at (a : nat) (key : Z) : prog Config unit :=
  call_var a (fun t '(c, w) => (Ok tt, (DelListener key c, w))).

Definition clearListener_at (a : nat) : prog Config unit :=
  call_var a (fun t '(c, w) => (Ok tt, (clearListener c, w))).

(** ** Loading a document *)

(** The name of a member below [prefix]. *)
Definition member_name (prefix key : string) : string :=
  match prefix with EmptyString => key | _ => prefix +:+ "." +:+ key end.

Fixpoint ListAllMember (prefix : string) (node : Node) : list (string * Node) :=
  if negb (valid_name prefix) then []
  else (prefix, node) ::
       match node with
       | Map l => flat_map (fun '(k, v) => ListAllMember (member_name prefix (scalar_text k)) v) l
       | _ => []
       end.

(** The text a variable is given for a node. *)
Definition node_text (n : Node) : string := if IsScalar n then scalar_text n else dump n.

Definition load_member (m : string * Node) : prog Config unit :=
  let '(key, n) := m in
  if String.eqb key EmptyString then ret tt
  else
    let key := tolower key in
    let* var := LookupBase key in
    match var with
    | Some a => let* _ := fromString_at a (node_text n) in ret tt
    | None => ret tt
    end.

Fixpoint load_members (l : list (string * Node)) : prog Config unit :=
  match l with [] => ret tt | m :: l => load_member m ;; load_members l end.

Definition LoadFromYaml (root : Node) : prog Config unit := load_members (ListAllMember EmptyString root).
End Config.
Arguments ConfigVar {B SB} W t.
Arguments Entry {B SB} W.
Arguments Config {B SB} W.
Arguments mkVar {B SB W t} value_ callbacks_.
Arguments value_ {B SB W t} c.
Arguments callbacks_ {B SB W t} c.

(** ** The members of a document *)

Section Members.

(** [n] is found below [root] by following the keys of [path]. *)
Inductive reaches : Node -> list string -> Node -> Prop :=
  | reach_here n : reaches n [] n
  | reach_below l k v path n : (k, v) ∈ l -> reaches v path n -> reaches (Map l) (scalar_text k :: path) n.

(** The whole document, whatever its keys are. *)
Fixpoint walk (prefix : string) (node : Node) : list (string * Node) :=
  (prefix, node) ::
  match node with
  | Map l => flat_map (fun '(k, v) => walk (member_name prefix (scalar_text k)) v) l
  | _ => []
  end.

Lemma valid_name_app a b : valid_name (a +:+ b) = valid_name a && valid_name b.
Proof.
  unfold valid_name. induction a as [|c a IH]; [done|].
  change (String c a +:+ b) with (String c (a +:+ b)). cbn [String.list_ascii_of_string forallb]. by rewrite IH, andb_assoc.
Qed.

Lemma member_name_valid p k : valid_name (member_name p k) = true -> valid_name p = true.
Proof. destruct p as [|c p]; [done|]. unfold member_name. rewrite valid_name_app. by intros [? _]%andb_true_iff. Qed.

Lemma walk_below p n m : m ∈ walk p n -> valid_name m.1 = true -> valid_name p = true.
Proof.
  revert p m. induction n as [| |s|l IH|l IH] using node_induction; intros p m; cbn.
  1-4: by intros ->%list_elem_of_singleton.
  intros [->|Hm]%elem_of_cons; [done|]. apply list_elem_of_In, in_flat_map in Hm as ([k v] & Hkv & Hm).
  apply list_elem_of_In in Hkv, Hm. cbn in Hm. rewrite Forall_forall in IH. destruct (IH _ Hkv) as [_ IHv].
  intros Hv. by apply (member_name_valid _ (scalar_text k)), (IHv _ m).
Qed.

Lemma filter_none {A} (P : A -> Prop) `{forall x, Decision (P x)} l : (forall x, x ∈ l -> ~ P x) -> filter P l = [].
Proof.
  induction l as [|x l IH]; intros Hl; [done|]. rewrite filter_cons_False by (apply Hl; by left). apply IH. intros y Hy. apply Hl. by right.
Qed.

(** Members with an invalid name are left out, one by one. *)
Lemma members_filter p n : ListAllMember p n = filter (fun m => valid_name m.1 = true) (walk p n).
Proof.
  revert p. induction n as [| |s|l IH|l IH] using node_induction; intros p.
  1-4: cbn [ListAllMember walk]; destruct (valid_name p) eqn:E;
    [by rewrite filter_cons_True|by rewrite filter_cons_False by (unfold fst; congruence)].
  destruct (valid_name p) eqn:E.
  - cbn [ListAllMember walk]. rewrite E, filter_cons_True by done. cbn [negb]. f_equal.
    induction IH as [|[k v] l [_ Hv] _ IHl]; [done|]. cbn [flat_map]. rewrite filter_app, IHl. cbn in Hv. by rewrite Hv.
  - cbn [ListAllMember]. rewrite E. symmetry. apply filter_none. intros m Hm Hv. rewrite (walk_below _ _ _ Hm Hv) in E. done.
Qed.

Lemma walk_reaches p n key m : (key, m) ∈ walk p n <-> exists path, reaches n path m /\ key = foldl member_name p path.
Proof.
  revert p. induction n as [| |s|l IH|l IH] using node_induction; intros p.
  1-4: cbn; rewrite list_elem_of_singleton; split; [intros [= -> ->]; exists []; split; [constructor|done]|];
    intros (path & Hr & ->); by inversion Hr; subst.
  cbn. rewrite elem_of_cons, list_elem_of_In, in_flat_map. rewrite Forall_forall in IH. split.
  - intros [[= -> ->]|([k v] & Hkv & Hm)]; [by exists []; split; [constructor|]|].
    apply list_elem_of_In in Hkv, Hm. cbn in Hm. apply (IH _ Hkv) in Hm as (path & Hr & ->).
    exists (scalar_text k :: path). split; [by econstructor|done].
  - intros (path & Hr & ->). inversion Hr as [|? k v path' ? Hkv Hr']; subst; [by left|right].
    exists (k, v). rewrite <- !list_elem_of_In. split; [done|]. apply (IH _ Hkv). by exists path'.
Qed.

(** [ListAllMember] lists exactly the nodes of the document that can be reached by
    keys, in the order of the document, under the names made of those keys and joined
    by dots, and leaves out exactly those whose whole name has a character that is not
    allowed. *)
Theorem members_exact root key n :
  ListAllMember EmptyString root = filter (fun m => valid_name m.1 = true) (walk EmptyString root) /\
  ((key, n) ∈ ListAllMember EmptyString root <->
   valid_name key = true /\ exists path, reaches root path n /\ key = foldl member_name EmptyString path).
Proof. split; [apply members_filter|]. by rewrite members_filter, list_elem_of_filter, walk_reaches. Qed.
End Members.

(** ** Loading *)

Section Loading.
Context {B : Type} `{EqDecision B} `{SB : Scalars B} `{YB : Yaml} `{HB : Hashing} {W : Type}.
Implicit Types (s : Config (B := B) W) (e : Entry (B := B) W).

(** The registry holds each variable under its name. *)
Definition registry_ok s : Prop :=
  NoDup (datas s).*1 /\
  Forall (fun p => valid_name p.1 = true /\ exists e, heap s !! p.2 = Some e /\ name_ e = p.1) (datas s).

(** Conversions fail by throwing. *)
Definition casts_throw : Prop :=
  (forall b x err, base_from (B := B) b x = Fail err -> is_exception err = true) /\
  (forall x err, Load x = Fail err -> is_exception err = true).

(** The listeners of a variable return. *)
Definition quiet e : Prop := Forall (fun p => forall old new w, exists w', p.2 old new w = (Ok tt, w')) (callbacks_ (var_ e)).

(** What a text does to a value. *)
Definition updated {t : Ty B} (v : den t) (val : string) : den t :=
  match from_string t val with Ok x => if value_eq t x v then v else x | Fail _ => v end.

Definition with_value e (v : den (type_ e)) : Entry W := mkEntry (name_ e) (description_ e) (type_ e) (mkVar v (callbacks_ (var_ e))).

(** The texts a document has for the variable called [name]. *)
Definition texts_for (name : string) (l : list (string * Node)) : list string :=
  node_text <$> (filter (fun m => m.1 = name /\ name <> EmptyString) l).*2.

Lemma elem_loop_throws {A} (f : string -> result A) ins node js vec err :
  (forall x err, f x = Fail err -> is_exception err = true) -> elem_loop f ins node js vec = Fail err -> is_exception err = true.
Proof.
  intros Hf. revert vec. induction js as [|j js IH]; cbn; intros vec; [done|].
  destruct (f _) eqn:E; cbn; [apply IH|]. intros [= <-]. by eapply Hf.
Qed.

Lemma vector_loop_throws {A} (f : string -> result A) node js ss vec err :
  (forall x err, f x = Fail err -> is_exception err = true) -> vector_loop f node js ss vec = Fail err -> is_exception err = true.
Proof.
  intros Hf. revert ss vec. induction js as [|j js IH]; cbn; intros ss vec; [done|].
  destruct (f _) eqn:E; cbn; [apply IH|]. intros [= <-]. by eapply Hf.
Qed.

Lemma entries_throws {A} (f : string -> result A) ins node err :
  (forall x err, f x = Fail err -> is_exception err = true) -> entries f ins node = Fail err -> is_exception err = true.
Proof.
  intros Hf. destruct node as [| |x|[|n l]|l]; cbn; try done; [by intros [= <-]|].
  generalize (@nil (string * A)). induction l as [|[k v] l IH]; cbn; intros vec; [done|].
  destruct (f _) eqn:E; cbn; [apply IH|]. intros [= <-]. by eapply Hf.
Qed.

Lemma from_string_throws (t : Ty B) x err : casts_throw -> from_string t x = Fail err -> is_exception err = true.
Proof.
  intros [Hb Hl]. revert x err. induction t as [b|t IH|t IH|t IH|b|t IH|t IH]; intros x err; cbn; [apply Hb|..].
  all: destruct (Load x) eqn:E; cbn; [|intros [= <-]; by eapply Hl].
  all: by (apply vector_loop_throws || apply elem_loop_throws || apply entries_throws); try apply Hb.
Qed.

Lemma run_callbacks_quiet {t : Ty B} old new (cbs : list (Z * (den t -> den t -> prog W unit))) w :
  Forall (fun p => forall old new w, exists w', p.2 old new w = (Ok tt, w')) cbs -> exists w', run_callbacks old new cbs w = (Ok tt, w').
Proof.
  intros Hq. revert w. induction Hq as [|[i cb] cbs Hc _ IH]; intros w; [by eexists|]. cbn in *.
  destruct (Hc old new w) as [w' Hw]. unfold bind. rewrite Hw. apply IH.
Qed.

Lemma fromString_updates e val w : casts_throw -> quiet e ->
  exists w', fromString val (var_ e, w) = (Ok false, (mkVar (updated (value_ (var_ e)) val) (callbacks_ (var_ e)), w')).
Proof.
  intros Ht Hq. unfold fromString, updated. destruct (from_string (type_ e) val) as [v|err] eqn:E.
  - unfold SetValue. destruct (value_eq _ v _); [destruct (var_ e); by eexists|].
    destruct (run_callbacks_quiet (value_ (var_ e)) v _ w Hq) as [w' Hw]. rewrite Hw. by eexists.
  - rewrite (from_string_throws _ _ _ Ht E). destruct (var_ e). by eexists.
Qed.

Lemma lower_valid c : valid_char c = true -> lower_char c = c.
Proof. destruct c as [[] [] [] [] [] [] [] []]; vm_compute; done. Qed.

Lemma tolower_valid name : valid_name name = true -> tolower name = name.
Proof.
  unfold tolower, valid_name. intros Hv. rewrite <- (String.string_of_list_ascii_of_string name) at 2. f_equal.
  induction (chars_of name) as [|c cs IH]; [done|]. cbn in *. apply andb_true_iff in Hv as [Hc Hv].
  by rewrite (lower_valid c Hc), (IH Hv).
Qed.

Lemma find_entry_In {A} k (m : list (string * A)) v : find_entry k m = Some v -> (k, v) ∈ m.
Proof.
  induction m as [|[k' v'] m IH]; cbn; [done|]. destruct (String.eqb_spec k' k) as [->|]; [intros [= ->]; by left|].
  intros Hf. right. by apply IH.
Qed.

Lemma find_entry_nodup {A} k (m : list (string * A)) v : NoDup m.*1 -> (k, v) ∈ m -> find_entry k m = Some v.
Proof.
  induction m as [|[k' v'] m IH]; cbn; intros Hd; [by intros ?%elem_of_nil|]. apply NoDup_cons in Hd as [Hk Hd].
  intros [[= -> ->]|Hm]%elem_of_cons; [by rewrite String.eqb_refl|].
  destruct (String.eqb_spec k' k) as [->|]; [|by apply IH]. destruct Hk. apply list_elem_of_fmap. by exists (k, v).
Qed.

Lemma registry_unique s name name' a : registry_ok s ->
  find_entry name (datas s) = Some a -> find_entry name' (datas s) = Some a -> name = name'.
Proof.
  intros [Hd Hf] H1%find_entry_In H2%find_entry_In. rewrite Forall_forall in Hf.
  destruct (Hf _ H1) as (_ & e1 & He1 & Hn1), (Hf _ H2) as (_ & e2 & He2 & Hn2). cbn in *. congruence.
Qed.

Lemma load_member_ok m s : casts_throw -> valid_name m.1 = true -> registry_ok s -> Forall quiet (heap s) ->
  exists s', load_member m s = (Ok tt, s') /\ datas s' = datas s /\ length (heap s') = length (heap s) /\
  forall a e, heap s !! a = Some e ->
    heap s' !! a = Some (with_value e (if decide (m.1 <> EmptyString /\ find_entry m.1 (datas s) = Some a)
                                       then updated (value_ (var_ e)) (node_text m.2) else value_ (var_ e))).
Proof.
  intros Ht Hv [Hd Hr] Hq. destruct m as [key n]. cbn in Hv. unfold load_member. cbn [fst snd].
  assert (forall e, with_value e (value_ (var_ e)) = e) as Hwv by (by intros [? ? ? []]).
  destruct (String.eqb_spec key EmptyString) as [->|Hk].
  { exists s. split_and!; [done..|]. intros a e He. rewrite He. rewrite decide_False by tauto. by rewrite Hwv. }
  rewrite (tolower_valid key Hv). cbn. unfold bind, LookupBase, gets. cbn.
  destruct (find_entry key (datas s)) as [a0|] eqn:Ef.
  - pose proof (find_entry_In _ _ _ Ef) as Hin. rewrite Forall_forall in Hr. destruct (Hr _ Hin) as (_ & e0 & He0 & Hn0). cbn in *.
    unfold fromString_at, call_var. rewrite He0.
    destruct (fromString_updates e0 (node_text n) (world s) Ht) as [w' Hw].
    { rewrite Forall_forall in Hq. apply Hq. by eapply list_elem_of_lookup_2. }
    rewrite Hw. eexists. split_and!; [done|done|by cbn; rewrite length_insert|].
    intros a e He. cbn. destruct (decide (a = a0)) as [->|Ha].
    + rewrite list_lookup_insert_eq by (by eapply lookup_lt_Some). simplify_eq. by rewrite decide_True.
    + rewrite list_lookup_insert_ne by done. rewrite decide_False by (intros [_ ?]; congruence). by rewrite Hwv.
  - exists s. split_and!; [done..|]. intros a e He. rewrite He, decide_False by (intros [_ ?]; congruence). by rewrite Hwv.
Qed.

Lemma registry_kept s s' : datas s' = datas s ->
  (forall a e, heap s !! a = Some e -> exists v, heap s' !! a = Some (with_value e v)) -> registry_ok s -> registry_ok s'.
Proof.
  intros Hd Hh [H1 H2]. unfold registry_ok. rewrite Hd. split; [done|]. eapply Forall_impl; [exact H2|].
  intros p (Hv & e & He & Hn). split; [done|]. destruct (Hh _ _ He) as [v Hv']. by exists (with_value e v).
Qed.

Lemma quiet_kept s s' : length (heap s') = length (heap s) ->
  (forall a e, heap s !! a = Some e -> exists v, heap s' !! a = Some (with_value e v)) -> Forall quiet (heap s) -> Forall quiet (heap s').
Proof.
  intros Hl Hh Hq. rewrite Forall_lookup in *. intros a e' He'.
  destruct (heap s !! a) as [e|] eqn:He; [|apply lookup_lt_Some in He'; apply lookup_ge_None in He; lia].
  destruct (Hh _ _ He) as [v Hv]. rewrite Hv in He'. injection He' as <-. apply (Hq _ _ He).
Qed.

Lemma load_members_ok l s : casts_throw -> Forall (fun m => valid_name m.1 = true) l -> registry_ok s -> Forall quiet (heap s) ->
  exists s', load_members l s = (Ok tt, s') /\ datas s' = datas s /\
  forall a e, heap s !! a = Some e ->
    heap s' !! a = Some (with_value e (foldl updated (value_ (var_ e))
      (if decide (find_entry (name_ e) (datas s) = Some a) then texts_for (name_ e) l else []))).
Proof.
  intros Ht Hl. revert s. induction Hl as [|m l Hm _ IH]; intros s Hr Hq.
  - exists s. split_and!; [done..|]. intros a e He. unfold texts_for. cbn. destruct (decide _); rewrite He; by destruct e as [? ? ? []].
  - destruct (load_member_ok m s Ht Hm Hr Hq) as (s1 & E1 & Hd1 & Hl1 & Hh1).
    assert (forall a e, heap s !! a = Some e -> exists v, heap s1 !! a = Some (with_value e v)) as Hk by eauto.
    destruct (IH s1) as (s2 & E2 & Hd2 & Hh2); [by eapply registry_kept|by eapply quiet_kept|].
    exists s2. split_and!; [cbn [load_members]; unfold bind; by rewrite E1|congruence|].
    intros a e He. rewrite (Hh2 _ _ (Hh1 _ _ He)). unfold with_value. cbn. rewrite Hd1. do 2 f_equal.
    destruct (decide (find_entry (name_ e) (datas s) = Some a)) as [Hf|Hf].
    + unfold texts_for. cbn. destruct (decide (m.1 <> EmptyString /\ find_entry m.1 (datas s) = Some a)) as [[Hn Hfm]|Hfm].
      * rewrite <- (registry_unique s _ _ a Hr Hf Hfm). rewrite decide_True by (split; [|rewrite (registry_unique s _ _ a Hr Hf Hfm)]; done). done.
      * rewrite decide_False; [done|]. intros [H1 H2]. apply Hfm. rewrite H1. done.
    + rewrite decide_False; [done|]. intros [Hn Hfm]. apply Hf.
      destruct Hr as [_ Hr]. rewrite Forall_forall in Hr. destruct (Hr _ (find_entry_In _ _ _ Hfm)) as (_ & e' & He' & Hn'). cbn in *. congruence.
Qed.

End Loading.

(** ** Listeners *)

Section Listeners.
Context {B : Type} `{EqDecision B} `{SB : Scalars B} `{YB : Yaml} `{HB : Hashing} {W : Type} {t : Ty B}.
Abbreviation listener := (den t -> den t -> prog W unit).

(** What happens to the listeners of a variable; another variable of the same type
    takes numbers from the same counter. *)
Inductive lop := LAdd (cb : listener) | LDel (key : Z) | LClear | LOther.

Definition run_lop (o : lop) (s : ConfigVar W t * Z) : ConfigVar W t * Z :=
  match o with
  | LAdd cb => (AddListener cb s).2
  | LDel key => (DelListener key s.1, s.2)
  | LClear => (clearListener s.1, s.2)
  | LOther => (s.1, u64 (s.2 + 1))
  end.

(** The listeners added and not removed since, in the order they were added, with the
    numbers they were given. *)
Definition live_step (o : lop) (s : list (Z * listener) * Z) : list (Z * listener) * Z :=
  let '(l, i) := s in
  match o with
  | LAdd cb => (l ++ [(i + 1, cb)], i + 1)
  | LDel key => (filter (fun p => p.1 <> key) l, i)
  | LClear => ([], i)
  | LOther => (l, i + 1)
  end.

Definition live (ops : list lop) (i : Z) : list (Z * listener) * Z := foldl (flip live_step) ([], i) ops.

Lemma map_assign_last k (v : listener) m : Forall (fun p => p.1 < k) m -> map_assign Z.ltb k v m = m ++ [(k, v)].
Proof.
  induction 1 as [|[k' v'] m Hk _ IH]; cbn in *; [done|]. destruct (Z.ltb_spec k' k); [by rewrite IH|lia].
Qed.

Lemma filter_later k (m : list (Z * listener)) : Forall (fun p => k < p.1) m -> filter (fun p => p.1 <> k) m = m.
Proof. induction 1 as [|p m Hp _ IH]; [done|]. rewrite filter_cons_True by lia. by rewrite IH. Qed.

Lemma map_erase_filter k (m : list (Z * listener)) : map_ok Z.ltb m -> map_erase Z.ltb k m = filter (fun p => p.1 <> k) m.
Proof.
  induction 1 as [|[k' v'] m Hm IH Hf]; [done|].
  assert (k <= k' -> Forall (fun p => k < p.1) m) as Hl.
  { intros Hk. eapply Forall_impl; [exact Hf|]. intros p Hp%Z.ltb_lt. cbn in Hp. lia. }
  cbn [map_erase]. destruct (Z.ltb_spec k' k); [rewrite filter_cons_True by (cbn; lia); by rewrite IH|].
  destruct (Z.ltb_spec k k').
  - rewrite filter_cons_True by (cbn; lia). by rewrite (filter_later k m) by (apply Hl; lia).
  - rewrite filter_cons_False by (cbn; lia). by rewrite (filter_later k m) by (apply Hl; lia).
Qed.

Lemma live_ids ops i l j : live ops i = (l, j) -> map_ok Z.ltb l /\ Forall (fun p => i < p.1 <= j) l /\ i <= j <= i + Z.of_nat (length ops).
Proof.
  revert l j. induction ops as [|o ops IH] using rev_ind; intros l j.
  { intros [= <- <-]. split_and!; [constructor|done|cbn; lia..]. }
  unfold live. rewrite foldl_app, length_app. fold (live ops i). destruct (live ops i) as [l0 j0]. cbn.
  destruct (IH l0 j0 eq_refl) as (Hs & Hf & Hj). clear IH.
  destruct o as [cb|key| |]; cbn; intros [= <- <-]; split_and!; try (cbn; lia); try done.
  - induction Hs as [|p l0 Hs IHs Hp]; cbn; [repeat constructor|]. apply Forall_cons in Hf as [Hp0 Hf].
    constructor; [by apply IHs|]. apply Forall_app. split; [done|]. repeat constructor. unfold before. cbn. apply Z.ltb_lt. lia.
  - apply Forall_app. split; [eapply Forall_impl; [exact Hf|]; cbn; lia|]. repeat constructor; cbn; lia.
  - induction Hs as [|p l0 Hs IHs Hp]; [constructor|]. apply Forall_cons in Hf as [Hp0 Hf]. cbn. destruct (decide _); [|by apply IHs].
    constructor; [by apply IHs|]. rewrite Forall_forall in *. intros q [_ Hq]%list_elem_of_filter. by apply Hp.
  - rewrite Forall_forall in *. intros q [_ Hq]%list_elem_of_filter. by apply Hf.
  - constructor.
  - eapply Forall_impl; [exact Hf|]; cbn; lia.
Qed.

Lemma run_live ops (v : den t) i : 0 <= i -> i + Z.of_nat (length ops) < 2 ^ 64 ->
  foldl (flip run_lop) (new_ConfigVar v, i) ops = (mkVar v (live ops i).1, (live ops i).2).
Proof.
  intros Hi. induction ops as [|o ops IH] using rev_ind; [done|]. rewrite length_app. cbn [length]. intros Hb.
  unfold live. rewrite !foldl_app. fold (live ops i). rewrite IH by lia. destruct (live ops i) as [l j] eqn:El.
  destruct (live_ids ops i l j El) as (Hs & Hf & Hj). cbn [fst snd foldl flip run_lop live_step].
  assert (u64 (j + 1) = j + 1) as Hu by (apply u64_small; lia).
  destruct o as [cb|key| |]; cbn; rewrite ?Hu; [|..|done|done].
  - rewrite map_assign_last; [done|]. eapply Forall_impl; [exact Hf|]. cbn. lia.
  - unfold DelListener. cbn. by rewrite map_erase_filter.
Qed.

(** C17: After any sequence of additions and removals, changing the value calls exactly
    the listeners that were added and not removed since, each once, in the order in which
    they were added, with the old and the new value, and stores the new value only when
    they have all returned; writing an equal value calls none. *)
Theorem listeners_by_history ops (v x : den t) i w : 0 <= i -> i + Z.of_nat (length ops) < 2 ^ 64 ->
  let c := (foldl (flip run_lop) (new_ConfigVar v, i) ops).1 in
  SetValue x (c, w) =
    if value_eq t x v then (Ok tt, (c, w))
    else match run_callbacks v x (live ops i).1 w with
         | (Ok _, w') => (Ok tt, (mkVar x (live ops i).1, w'))
         | (Fail e, w') => (Fail e, (c, w'))
         end.
Proof. intros Hi Hb. rewrite (run_live ops v i Hi Hb). done. Qed.
End Listeners.

(** ** Looking up *)

Section Lookups.
Context {B : Type} `{EqDecision B} `{SB : Scalars B} `{YB : Yaml} `{HB : Hashing} {W : Type}.
Implicit Types (s : Config (B := B) W) (e : Entry (B := B) W).

Inductive cop :=
  | CLookup (t : Ty B) (name : string) (default_value : den t) (description : string)
  | CLookupName (t : Ty B) (name : string)
  | CClear
  | CLoad (root : Node)
  | CFromString (a : nat) (val : string)
  | CSetValue (t : Ty B) (a : nat) (v : den t)
  | CAddListener (t : Ty B) (a : nat) (cb : den t -> den t -> prog W unit)
  | CDelListener (a : nat) (key : Z)
  | CClearListener (a : nat).

(** The state after a call, whether it returned or threw. *)
Definition run_cop (o : cop) s : Config W :=
  match o with
  | CLookup t name d desc => (Lookup t name d desc s).2
  | CLookupName t name => (Lookup_name t name s).2
  | CClear => (Clear s).2
  | CLoad root => (LoadFromYaml root s).2
  | CFromString a val => (fromString_at a val s).2
  | CSetValue t a v => (SetValue_at t a v s).2
  | CAddListener t a cb => (AddListener_at t a cb s).2
  | CDelListener a key => (DelListener_at a key s).2
  | CClearListener a => (clearListener_at a s).2
  end.

Definition run_cops (ops : list cop) s : Config W := foldl (flip run_cop) s ops.

Definition no_config (w : W) : Config (B := B) W := mkConfig [] [] (fun _ => 0) w.

(** Objects stay where they are, with their names and types. *)
Definition grows s s' : Prop :=
  forall a e, heap s !! a = Some e -> exists e', heap s' !! a = Some e' /\ name_ e' = name_ e /\ type_ e' = type_ e.

Lemma grows_refl s : grows s s.
Proof. intros a e He. eauto. Qed.

Lemma grows_trans s1 s2 s3 : grows s1 s2 -> grows s2 s3 -> grows s1 s3.
Proof. intros H1 H2 a e (e1 & He1 & Hn1 & Ht1)%H1. destruct (H2 _ _ He1) as (e2 & ? & ? & ?). exists e2. split_and!; congruence. Qed.

Lemma grows_registry s s' : datas s' = datas s -> grows s s' -> registry_ok s -> registry_ok s'.
Proof.
  intros Hd Hg [H1 H2]. unfold registry_ok. rewrite Hd. split; [done|]. eapply Forall_impl; [exact H2|].
  intros p (Hv & e & (e' & He' & Hn & _)%Hg & Hne). split; [done|]. exists e'. split; congruence.
Qed.

(** Calls on a variable. *)
Definition local_call {A} (m : prog (Config (B := B) W) A) : Prop := forall s, datas (m s).2 = datas s /\ grows s (m s).2.

Lemma put_var_grows a e c s : heap s !! a = Some e -> grows s (put_var a e c s).
Proof.
  intros He b f Hf. cbn. destruct (decide (b = a)) as [->|Hb].
  - rewrite list_lookup_insert_eq by (by eapply lookup_lt_Some). eexists. split; [done|]. by simplify_eq.
  - rewrite list_lookup_insert_ne by done. eauto.
Qed.

Lemma call_var_local {A} a (k : forall t, prog (ConfigVar W t * W) A) : local_call (call_var a k).
Proof.
  intros s. unfold call_var. destruct (heap s !! a) as [e|] eqn:He; [|by split; [|apply grows_refl]].
  destruct (k _ _) as [r [c w]]. split; [done|]. by apply (put_var_grows a e c (put_world w s)).
Qed.

Lemma bind_local {A A'} (m : prog (Config W) A) (k : A -> prog (Config W) A') :
  local_call m -> (forall x, local_call (k x)) -> local_call (bind m k).
Proof.
  intros Hm Hk s. unfold bind. destruct (Hm s) as [H1 H2]. destruct (m s) as [[x|err] s1]; cbn in *; [|done].
  destruct (Hk x s1) as [H3 H4]. split; [congruence|by eapply grows_trans].
Qed.

Lemma ret_local {A} (x : A) : local_call (ret x).
Proof. intros s. by split; [|apply grows_refl]. Qed.

Lemma load_local root : local_call (LoadFromYaml root).
Proof.
  unfold LoadFromYaml. induction (ListAllMember _ _) as [|[key n] l IH]; [apply ret_local|]. cbn. apply bind_local; [|done].
  destruct (String.eqb key EmptyString); [apply ret_local|]. apply bind_local; [intros s; by split; [|apply grows_refl]|].
  intros [a|]; [|apply ret_local]. apply bind_local; [apply call_var_local|]. intros _. apply ret_local.
Qed.

Lemma add_listener_local t a cb : local_call (AddListener_at (W := W) t a cb).
Proof.
  intros s. unfold AddListener_at. destruct (heap s !! a) as [e|] eqn:He; [|by split; [|apply grows_refl]].
  destruct (decide _) as [E|]; [|by split; [|apply grows_refl]]. cbn. split; [done|].
  apply (put_var_grows a e _ s He).
Qed.

Lemma find_entry_insert name name' a b (m : list (string * nat)) : NoDup m.*1 -> find_entry name m = Some a ->
  find_entry name (unordered_map_insert name' b m) = Some a.
Proof.
  intros Hd Hf. unfold unordered_map_insert. destruct (find_entry name' m) eqn:E; [done|].
  apply find_entry_nodup; rewrite place_perm; [cbn; constructor; [by apply find_entry_None|done]|].
  right. by apply find_entry_In.
Qed.

Definition stays name s s' : Prop := forall a, find_entry name (datas s) = Some a -> find_entry name (datas s') = Some a.

Lemma lookup_step t name d desc s : registry_ok s ->
  let s' := (Lookup t name d desc s).2 in registry_ok s' /\ grows s s' /\ forall n, stays n s s'.
Proof.
  intros Hr. unfold Lookup, bind, gets. cbn. destruct (find_entry name (datas s)) as [a|] eqn:Ef.
  { unfold dynamic_cast. destruct (heap s !! a); (split_and!; [done|apply grows_refl|by intros n b]). }
  destruct (valid_name name) eqn:Ev; cbn; [|by split_and!; [done|apply grows_refl|intros n b]].
  destruct Hr as [Hd Hr]. assert (grows s (mkConfig (heap s ++ [new_Entry t name d desc])
    (unordered_map_insert name (length (heap s)) (datas s)) (fun_ids s) (world s))) as Hg.
  { intros a e He. exists e. cbn. by rewrite lookup_app_l by (by eapply lookup_lt_Some). }
  split_and!; [|done|intros n b; cbn; by apply find_entry_insert].
  unfold registry_ok, unordered_map_insert. cbn. rewrite Ef, place_perm. cbn.
  split; [constructor; [by apply find_entry_None|done]|]. constructor.
  - split; [done|]. exists (new_Entry t name d desc). cbn. rewrite lookup_app_r, Nat.sub_diag by done. by rewrite tolower_valid.
  - eapply Forall_impl; [exact Hr|]. intros p (Hv & e & (e' & He' & Hn & _)%Hg & Hne). split; [done|]. exists e'. split; [done|congruence].
Qed.

Lemma local_step {A} (m : prog (Config W) A) s : local_call m -> registry_ok s ->
  registry_ok (m s).2 /\ grows s (m s).2 /\ forall n, stays n s (m s).2.
Proof. intros Hm Hr. destruct (Hm s) as [Hd Hg]. split_and!; [by eapply grows_registry|done|]. intros n a. by rewrite Hd. Qed.

Lemma run_cop_step o s : registry_ok s ->
  registry_ok (run_cop o s) /\ grows s (run_cop o s) /\ (o <> CClear -> forall n, stays n s (run_cop o s)).
Proof.
  intros Hr. destruct o; cbn [run_cop].
  1: destruct (lookup_step t name default_value description s Hr) as (? & ? & ?); by split_and!.
  2: by split_and!; [split; [constructor|done]|intros a e He; eauto|].
  2: destruct (local_step _ s (load_local root) Hr) as (? & ? & ?); by split_and!.
  2,3,5,6: match goal with |- registry_ok (?m ?x).2 /\ _ => destruct (local_step m x (call_var_local a _) Hr) as (? & ? & ?); by split_and! end.
  2: destruct (local_step _ s (add_listener_local t a cb) Hr) as (? & ? & ?); by split_and!.
  unfold Lookup_name, bind, gets. cbn. destruct (find_entry name (datas s)) as [a|]; [|by split_and!; [|apply grows_refl|intros _ n b]].
  unfold dynamic_cast. destruct (heap s !! a); (split_and!; [done|apply grows_refl|by intros _ n b]).
Qed.

Lemma run_cops_steps ops s : registry_ok s ->
  registry_ok (run_cops ops s) /\ grows s (run_cops ops s) /\ (CClear ∉ ops -> forall n, stays n s (run_cops ops s)).
Proof.
  revert s. induction ops as [|o ops IH]; intros s Hr; [by split_and!; [|apply grows_refl|intros _ n a]|].
  destruct (run_cop_step o s Hr) as (H1 & H2 & H3). destruct (IH _ H1) as (H4 & H5 & H6). split_and!; [done|by eapply grows_trans|].
  intros [Ho Hops]%not_elem_of_cons n a Ha. apply H6; [done|]. apply H3; congruence || done.
Qed.

Lemma lookup_found t name d desc s a : registry_ok s -> find_entry name (datas s) = Some a ->
  exists e, heap s !! a = Some e /\ name_ e = name /\ Lookup t name d desc s = (Ok (if decide (type_ e = t) then Some a else None), s).
Proof.
  intros [Hd Hr] Hf. rewrite Forall_forall in Hr. destruct (Hr _ (find_entry_In _ _ _ Hf)) as (_ & e & He & Hn). cbn in *.
  exists e. split_and!; [done..|]. unfold Lookup, bind, gets, dynamic_cast. cbn. by rewrite Hf, He.
Qed.

Lemma lookup_result t name d desc s a s' : registry_ok s -> Lookup t name d desc s = (Ok (Some a), s') ->
  find_entry name (datas s') = Some a /\ exists e, heap s' !! a = Some e /\ name_ e = name /\ type_ e = t.
Proof.
  intros Hr HL. destruct (find_entry name (datas s)) as [b|] eqn:Ef.
  - destruct (lookup_found t name d desc s b Hr Ef) as (e & He & Hn & Hl). rewrite Hl in HL.
    destruct (decide (type_ e = t)); [|done]. simplify_eq. eauto 10.
  - pose proof (lookup_step t name d desc s Hr) as (Hr' & _ & _).
    unfold Lookup, bind, gets in HL, Hr'. cbn in HL, Hr'. rewrite Ef in HL, Hr'. destruct (valid_name name) eqn:Ev; [|done]. cbn in HL, Hr'.
    injection HL as <- <-. cbn. split.
    + apply find_entry_nodup; [apply Hr'|]. unfold unordered_map_insert. rewrite Ef, place_perm. by left.
    + eexists. rewrite lookup_app_r, Nat.sub_diag by done. split_and!; [done| |done]. cbn. by apply tolower_valid.
Qed.

(** The pointer that [Config::Lookup] returns is to a variable of the type asked for
    and of that name, and stays so for ever, whatever is called afterwards and whatever
    those calls throw; until the registry is cleared, looking the name up again gives the
    same variable for the same type and nothing for another type. *)
Theorem lookup_stable before_ops w t name d desc a s' :
  Lookup t name d desc (run_cops before_ops (no_config w)) = (Ok (Some a), s') ->
  forall ops, (exists e, heap (run_cops ops s') !! a = Some e /\ name_ e = name /\ type_ e = t) /\
  (CClear ∉ ops -> forall t' d' desc',
    Lookup t' name d' desc' (run_cops ops s') = (Ok (if decide (t = t') then Some a else None), run_cops ops s')).
Proof.
  intros HL ops. assert (registry_ok (run_cops before_ops (no_config w))) as Hr0 by (apply run_cops_steps; by split; [constructor|]).
  pose proof (lookup_step t name d desc _ Hr0) as (Hr & _ & _). rewrite HL in Hr. cbn in Hr.
  destruct (lookup_result _ _ _ _ _ _ _ Hr0 HL) as (Hf & e & He & Hn & Ht).
  destruct (run_cops_steps ops s' Hr) as (H1 & H2 & H3). destruct (H2 _ _ He) as (e' & He' & Hn' & Ht').
  split; [exists e'; split_and!; congruence|]. intros Hc t' d' desc'.
  destruct (lookup_found t' name d' desc' _ a H1 (H3 Hc _ _ Hf)) as (e2 & He2 & _ & ->).
  rewrite He' in He2. injection He2 as <-. by rewrite Ht', Ht.
Qed.
End Lookups.

(** ** Two writers

    [SetValue] holds the lock for reading, which others may hold as well: once while it
    compares and notifies, and once more while it assigns. *)

Section Writers.
Context {V : Type} (eq : V -> V -> bool).

Inductive writer := Wants (v : V) | Notified (v : V) | Returned.

(** The value, what the listeners were told, and the threads. *)
Record shared := mkShared { held : V; told : list (V * V); writers : list writer }.

Definition write_step (i : nat) (s : shared) : shared :=
  match writers s !! i with
  | Some (Wants v) =>
      if eq v (held s) then mkShared (held s) (told s) (<[i := Returned]> (writers s))
      else mkShared (held s) (told s ++ [(held s, v)]) (<[i := Notified v]> (writers s))
  | Some (Notified v) => mkShared v (told s) (<[i := Returned]> (writers s))
  | _ => s
  end.

Definition write_steps (l : list nat) (s : shared) : shared := foldl (flip write_step) s l.
End Writers.

(** With two writers the listeners may be told of two changes of the same old value, and
    the last value they are told of need not be the one that stays. *)
Theorem writers_race :
  exists l, write_steps Z.eqb l (mkShared 0 [] [Wants 1; Wants 2]) = mkShared 1 [(0, 1); (0, 2)] [Returned; Returned].
Proof. exists [0; 1; 1; 0]%nat. reflexivity. Qed.

(** ** An example *)

Module ConfigDemo.
Import CastDemo.

(** Listeners write down what they are told. *)
Definition note {t : Ty scalar} (who : nat) : den t -> den t -> prog (list nat) unit := fun _ _ w => (Ok tt, w ++ [who]).

Definition port : Ty scalar := TBase TInt.
Definition hosts : Ty scalar := TList (TBase TString).

Definition demo_ops : list (cop (B := scalar) (W := list nat)) :=
  [ CLookup port "tcp.port" 80%nat "the port"; CLookup hosts "hosts" ["a"%string] "the hosts";
    CAddListener port 0 (note 1); CAddListener port 0 (note 2); CDelListener 0 1; CAddListener hosts 1 (note 3) ].

Definition demo_config : Config (B := scalar) (list nat) := run_cops demo_ops (no_config []).

Definition demo_root : Node :=
  Map [ (Scalar "tcp", Map [(Scalar "port", Scalar "8080"); (Scalar "Port", Scalar "1")]);
        (Scalar "hosts", Sequence [Scalar "x"; Scalar "y"]) ].

Lemma demo_throws : casts_throw (B := scalar).
Proof.
  split.
  - intros [] x err; cbn; [|done]. destruct x; [by intros [= <-]|]. destruct (digits _ _); [done|by intros [= <-]].
  - intros x err. cbn. unfold Flow.load. destruct (chars_of x); [done|]. destruct (Flow.read _ _) as [[? []]|]; by intros [= <-].
Qed.

Lemma demo_heap : heap demo_config =
  [ mkEntry "tcp.port" "the port" port (mkVar (t := port) 80%nat [(2, note 2)]);
    mkEntry "hosts" "the hosts" hosts (mkVar (t := hosts) ["a"%string] [(1, note 3)]) ].
Proof. reflexivity. Qed.

Lemma demo_quiet : Forall quiet (heap demo_config).
Proof. rewrite demo_heap. repeat constructor; intros; eexists; reflexivity. Qed.

Lemma demo_registry : registry_ok demo_config.
Proof. apply run_cops_steps. split; [constructor|done]. Qed.

Lemma demo_found : Lookup port "tcp.port" 0%nat "again" (run_cops demo_ops (no_config [])) = (Ok (Some 0%nat), demo_config).
Proof.
  destruct (lookup_found (SB := demo_scalars) port "tcp.port" 0%nat "again" demo_config 0%nat demo_registry) as (e & He & _ & Hl); [reflexivity|].
  rewrite demo_heap in He. injection He as <-. exact Hl.
Qed.
End ConfigDemo.
Import CastDemo ConfigDemo.


Lemma listeners_by_history_witness :
  let c := (foldl (flip run_lop) (new_ConfigVar (t := port) 80%nat, 0) [LAdd (note 1); LOther; LAdd (note 2); LDel 1]).1 in
  SetValue (t := port) 81%nat (c, []) = (Ok tt, (mkVar (t := port) 81%nat [(3, note 2)], [2%nat])).
Proof. apply (listeners_by_history (t := port) [LAdd (note 1); LOther; LAdd (note 2); LDel 1] 80%nat 81%nat 0 []); cbn; lia. Defined.

Lemma lookup_stable_witness : Lookup hosts "tcp.port" [] "other" (run_cops [CLoad demo_root] demo_config) = (Ok None, run_cops [CLoad demo_root] demo_config).
Proof.
  apply (proj2 (lookup_stable demo_ops [] port "tcp.port" 0%nat "again" 0%nat demo_config demo_found [CLoad demo_root])).
  by intros [[=]|[]%elem_of_nil]%elem_of_cons.
Defined.

(** What the document of the example does: the port is set and its remaining listener
    told, the member with an upper-case letter is passed over, and the list is set. *)
Example demo_loaded :
  let '(r, s) := LoadFromYaml demo_root demo_config in
  r = Ok tt /\ world s = [2; 3]%nat /\
  ((fun e : Entry (list nat) => ToString (var_ e)) <$> heap s) = [Ok "8080"%string; Ok "[x,y,]"%string].
Proof. vm_compute. auto. Qed.
