(* ===== verification/Settings.v ===== *)
(** * Settings that are kept beside their variable

    [http/http_parser.cpp] and [hook.cpp] keep the values of some configuration
    variables in plain integers, which an object made before [main] fills and which
    listeners of the variables keep up to date. *)

From S2P Require Import Prelude OrderedMap Yaml LexicalCast Config.
From stdpp Require Import base numbers list strings pretty.
From Stdlib Require Import ZArith Lia.
Open Scope Z_scope.
Open Scope prog_scope.

Section Mirrors.
Context {B : Type} `{EqDecision B} `{SB : Scalars B} `{YB : Yaml} `{HB : Hashing} {W : Type} {t : Ty B}.
(** The integers, by their names; [conv] converts a value to the type of the integer. *)
Context {I : Type} {EqI : EqDecision I} (get : I -> W -> Z) (put : I -> Z -> W -> W) (conv : den t -> Z).
Context (get_put : forall k v w, get k (put k v w) = v) (get_other : forall k k' v w, k <> k' -> get k (put k' v w) = get k w).

Abbreviation listener := (den t -> den t -> prog W unit).

(** A listener that returns and leaves the integers alone. *)
Definition modest (cb : listener) : Prop := forall old new w, exists w', cb old new w = (Ok tt, w') /\ forall k, get k w' = get k w.

(** What a listener does before it stores: the one of [hook.cpp] writes to the log. *)
Context (report : I -> listener) (report_modest : forall k, modest (report k)).

(** The listener that stores the new value. *)
Definition mirror (k : I) : listener := fun old new => report k old new;; modify (put k (conv new)).

(** The variables, the counter of the listeners of their type, and the integers. *)
Record state := mkState { vars : I -> ConfigVar W t; ids : Z; world : W }.

Definition set_var (k : I) (c : ConfigVar W t) (f : I -> ConfigVar W t) : I -> ConfigVar W t := fun j => if decide (j = k) then c else f j.

Definition read_value (s : state) (k : I) : state := mkState (vars s) (ids s) (put k (conv (GetValue (vars s k))) (world s)).
Definition add_mirror (s : state) (k : I) : state :=
  let '(c, i) := (AddListener (mirror k) (vars s k, ids s)).2 in mkState (set_var k c (vars s)) i (world s).

(** The constructor of the object: the values of all, then the listeners of all. *)
Definition initer (ks : list I) (s : state) : state := foldl add_mirror (foldl read_value s ks) ks.

(** What the program does with the variables; another variable of the type takes numbers
    from the same counter. *)
Inductive vop := VSet (v : den t) | VText (s : string) | VAdd (cb : listener) | VDel (key : Z) | VOther.

Definition vexec (s : state) (o : I * vop) : state :=
  let '(k, o) := o in
  let c := vars s k in
  match o with
  | VSet v => let '(c, w) := (SetValue v (c, world s)).2 in mkState (set_var k c (vars s)) (ids s) w
  | VText x => let '(c, w) := (fromString x (c, world s)).2 in mkState (set_var k c (vars s)) (ids s) w
  | VAdd cb => let '(c, i) := (AddListener cb (c, ids s)).2 in mkState (set_var k c (vars s)) i (world s)
  | VDel key => mkState (set_var k (DelListener key c) (vars s)) (ids s) (world s)
  | VOther => mkState (vars s) (u64 (ids s + 1)) (world s)
  end.

(** The listeners of the variable [k]: sorted by number, none beyond the counter, and
    modest but for the mirror, which has the number [n]. *)
Record follows (i n : Z) (k : I) (c : ConfigVar W t) : Prop := {
  fo_sorted : map_ok Z.ltb (callbacks_ c);
  fo_ids : Forall (fun p => p.1 <= i) (callbacks_ c);
  fo_mirror : (n, mirror k) ∈ callbacks_ c;
  fo_others p : p ∈ callbacks_ c -> p.1 <> n -> modest p.2 }.

Lemma keys_apart (l : list (Z * listener)) p q : map_ok Z.ltb l -> p ∈ l -> q ∈ l -> p.1 = q.1 -> p = q.
Proof using Type.
  induction 1 as [|a l Hl IH Ha]; intros Hp Hq E; [by apply not_elem_of_nil in Hp|]. rewrite Forall_forall in Ha. unfold before in Ha.
  apply elem_of_cons in Hp as [->|Hp], Hq as [->|Hq]; [done| | |by apply IH]; [specialize (Ha _ Hq)|specialize (Ha _ Hp)]; apply Z.ltb_lt in Ha; lia.
Qed.

(** Changing the value tells the integer, and only that one. *)
Lemma run_mirrors k old new l w : (forall p, p ∈ l -> p.2 = mirror k \/ modest p.2) ->
  exists w', run_callbacks old new l w = (Ok tt, w') /\ ((exists n, (n, mirror k) ∈ l) \/ get k w = conv new -> get k w' = conv new) /\
    forall k', k' <> k -> get k' w' = get k' w.
Proof using get_put get_other report_modest.
  revert w. induction l as [|[n cb] l IH]; intros w Hl.
  { exists w. split; [done|]. split; [|done]. intros [[n Hn]|E]; [by apply not_elem_of_nil in Hn|done]. }
  assert (forall p, p ∈ l -> p.2 = mirror k \/ modest p.2) as Hl' by (intros p Hp; apply Hl; by right). cbn [run_callbacks].
  destruct (Hl (n, cb)) as [E|Hm]; [by left| |]; cbn [snd] in *.
  - subst cb. destruct (report_modest k old new w) as (w1 & E1 & Hw1). destruct (IH (put k (conv new) w1) Hl') as (w' & E & H1 & H2).
    exists w'. unfold mirror, bind at 1 2. rewrite E1. split; [exact E|]. split; [intros _; apply H1; right; apply get_put|].
    intros k' Hk. rewrite H2 by done. rewrite get_other by done. apply Hw1.
  - destruct (Hm old new w) as (w1 & E1 & Hw1). destruct (IH w1 Hl') as (w' & E & H1 & H2). exists w'. unfold bind. rewrite E1. split; [exact E|]. split.
    + intros [[n' Hn]|Hw]; apply H1; [|right; by rewrite Hw1]. apply elem_of_cons in Hn as [[= -> <-]|Hn]; [|left; by exists n'].
      right. unfold mirror, bind in E1. destruct (report k old new w) as [[] w2]; [|done]. injection E1 as <-. apply get_put.
    + intros k' Hk. by rewrite H2, Hw1.
Qed.

Lemma set_follows i n k c v w : follows i n k c -> get k w = conv (value_ c) ->
  exists c' w', (SetValue v (c, w)).2 = (c', w') /\ follows i n k c' /\ get k w' = conv (value_ c') /\ forall k', k' <> k -> get k' w' = get k' w.
Proof using get_put get_other report_modest.
  intros Hf Hw. unfold SetValue. destruct (value_eq t v (value_ c)); [by exists c, w|].
  destruct (run_mirrors k (value_ c) v (callbacks_ c) w) as (w' & E & H1 & H2).
  { intros p Hp. destruct (decide (p.1 = n)) as [En|En]; [left|right; by apply (fo_others _ _ _ _ Hf)].
    by rewrite (keys_apart _ p (n, mirror k) (fo_sorted _ _ _ _ Hf) Hp (fo_mirror _ _ _ _ Hf) En). }
  rewrite E. exists (mkVar v (callbacks_ c)), w'. split; [done|]. split; [by destruct Hf; split|]. split; [|done].
  apply H1. left. exists n. apply (fo_mirror _ _ _ _ Hf).
Qed.

Lemma text_follows i n k c x w : follows i n k c -> get k w = conv (value_ c) ->
  exists c' w', (fromString x (c, w)).2 = (c', w') /\ follows i n k c' /\ get k w' = conv (value_ c') /\ forall k', k' <> k -> get k' w' = get k' w.
Proof using get_put get_other report_modest.
  intros Hf Hw. unfold fromString. destruct (from_string t x) as [v|e]; [|by exists c, w].
  destruct (set_follows i n k c v w Hf Hw) as (c' & w' & E & H). exists c', w'. split; [|done]. destruct (SetValue v (c, w)) as [[] ?]; exact E.
Qed.
(** Adding and removing other listeners. *)
Lemma follows_later i j n k c : i <= j -> follows i n k c -> follows j n k c.
Proof using Type. intros Hij [H1 H2 H3 H4]. split; try done. eapply Forall_impl; [exact H2|]. cbn. lia. Qed.

Lemma add_last i (c : ConfigVar W t) (cb : listener) : 0 <= i -> i + 1 < 2 ^ 64 -> Forall (fun p => p.1 <= i) (callbacks_ c) ->
  (AddListener cb (c, i)).2 = (mkVar (value_ c) (callbacks_ c ++ [(i + 1, cb)]), i + 1).
Proof using Type.
  intros Hi Hb Hf. unfold AddListener. rewrite u64_small by lia. cbn [snd]. do 2 f_equal. apply map_assign_last.
  eapply Forall_impl; [exact Hf|]. cbn. lia.
Qed.

Lemma sorted_last i (l : list (Z * listener)) cb : map_ok Z.ltb l -> Forall (fun p => p.1 <= i) l -> map_ok Z.ltb (l ++ [(i + 1, cb)]).
Proof using Type.
  intros Hs Hf. rewrite <- map_assign_last; [by apply (map_assign_ok Z.ltb)|]. eapply Forall_impl; [exact Hf|]. cbn. lia.
Qed.

Lemma add_follows i n k c cb : 0 <= i -> i + 1 < 2 ^ 64 -> n <= i -> modest cb -> follows i n k c ->
  follows (i + 1) n k (mkVar (value_ c) (callbacks_ c ++ [(i + 1, cb)])).
Proof using Type.
  intros Hi Hb Hn Hm [H1 H2 H3 H4]. split; cbn [callbacks_].
  - by apply sorted_last.
  - apply Forall_app. split; [eapply Forall_impl; [exact H2|]; cbn; lia|]. repeat constructor. cbn. lia.
  - apply elem_of_app. by left.
  - intros p [Hp|Hp]%elem_of_app Hne; [by apply H4|]. by apply list_elem_of_singleton in Hp as ->.
Qed.

Lemma del_follows i n k c key : key <> n -> follows i n k c -> follows i n k (DelListener key c).
Proof using Type.
  intros Hk [H1 H2 H3 H4]. unfold DelListener. split; cbn [callbacks_].
  - by apply (map_erase_ok Z.ltb).
  - apply Forall_forall. intros p Hp%map_erase_sub. by apply (proj1 (Forall_forall _ _) H2).
  - rewrite map_erase_filter by done. apply list_elem_of_filter. split; [cbn; lia|done].
  - intros p Hp%map_erase_sub. by apply H4.
Qed.

(** ** Before the object is made *)

Record unfollowed (i : Z) (c : ConfigVar W t) : Prop := {
  un_sorted : map_ok Z.ltb (callbacks_ c);
  un_ids : Forall (fun p => p.1 <= i) (callbacks_ c);
  un_modest p : p ∈ callbacks_ c -> modest p.2 }.

Lemma mirror_added i k c : unfollowed i c -> follows (i + 1) (i + 1) k (mkVar (value_ c) (callbacks_ c ++ [(i + 1, mirror k)])).
Proof using Type.
  intros [H1 H2 H3]. split; cbn [callbacks_].
  - by apply sorted_last.
  - apply Forall_app. split; [eapply Forall_impl; [exact H2|]; cbn; lia|]. repeat constructor. cbn. lia.
  - apply elem_of_app. right. by left.
  - intros p [Hp|Hp]%elem_of_app Hne; [by apply H3|]. apply list_elem_of_singleton in Hp as ->. done.
Qed.

Lemma unfollowed_later i j c : i <= j -> unfollowed i c -> unfollowed j c.
Proof using Type. intros Hij [H1 H2 H3]. split; try done. eapply Forall_impl; [exact H2|]. cbn. lia. Qed.

(** In step: the mirrors have numbers from [i0 + 1] to [i1]. *)
Definition in_step (i0 i1 : Z) (ks : list I) (s : state) : Prop :=
  i1 <= ids s /\ forall k, k ∈ ks -> (exists n, i0 < n <= i1 /\ follows (ids s) n k (vars s k)) /\ get k (world s) = conv (value_ (vars s k)).

Lemma read_all ks s : vars (foldl read_value s ks) = vars s /\ ids (foldl read_value s ks) = ids s /\
  forall k, k ∈ ks \/ get k (world s) = conv (value_ (vars s k)) -> get k (world (foldl read_value s ks)) = conv (value_ (vars s k)).
Proof using EqI get_put get_other report_modest.
  revert s. induction ks as [|j ks IH]; intros s; cbn [foldl].
  { split_and!; try done. intros k [Hk|Hk]; [by apply not_elem_of_nil in Hk|done]. }
  destruct (IH (read_value s j)) as (H1 & H2 & H3). split; [done|]. split; [done|]. intros k Hk. apply H3.
  destruct (decide (k = j)) as [->|Hne]; [right; apply get_put|]. destruct Hk as [[->|Hk]%elem_of_cons|Hk]; [done|by left|right].
  cbn. by rewrite get_other.
Qed.

Lemma add_all i0 ks done s : NoDup (done ++ ks) -> 0 <= i0 <= ids s -> ids s + Z.of_nat (length ks) < 2 ^ 64 -> in_step i0 (ids s) done s ->
  (forall k, k ∈ ks -> unfollowed (ids s) (vars s k) /\ get k (world s) = conv (value_ (vars s k))) ->
  let s' := foldl add_mirror s ks in ids s' = ids s + Z.of_nat (length ks) /\ in_step i0 (ids s') (done ++ ks) s'.
Proof using EqI.
  revert done s. induction ks as [|k ks IH]; intros done s Hnd Hi Hb [_ Hd] Hks; cbn [foldl length] in *.
  { rewrite Z.add_0_r, app_nil_r. done. }
  destruct (Hks k) as [Hu Hw]; [by left|].
  set (c' := mkVar (value_ (vars s k)) (callbacks_ (vars s k) ++ [(ids s + 1, mirror k)])). set (s1 := mkState (set_var k c' (vars s)) (ids s + 1) (world s)).
  assert (add_mirror s k = s1) as -> by (unfold add_mirror; by rewrite (add_last (ids s)) by (try apply Hu; lia)).
  assert (forall j, j <> k -> vars s1 j = vars s j) as Hj by (intros j Hj; cbn; unfold set_var; by rewrite decide_False).
  assert (vars s1 k = c') as Hk by (cbn; unfold set_var; by rewrite decide_True).
  assert (k ∉ done /\ k ∉ ks /\ NoDup ((done ++ [k]) ++ ks)) as (Hk1 & Hk2 & Hnd').
  { rewrite <- app_assoc. cbn. apply NoDup_app in Hnd as Hnd2. destruct Hnd2 as (_ & Hx & [Hy _]%NoDup_cons). split; [|done].
    intros Hz. apply (Hx k Hz). by left. }
  destruct (IH (done ++ [k]) s1 Hnd') as [H1 H2]; cbn [ids s1] in *; try lia.
  - split; [cbn; lia|]. intros j [Hjd|Hjd%list_elem_of_singleton]%elem_of_app.
    + assert (j <> k) as Hne by (intros ->; done). destruct (Hd j Hjd) as [(n & Hn & Hf) Hg]. rewrite !Hj by done.
      split; [exists n; split; [lia|]; apply (follows_later (ids s)); [cbn; lia|done]|done].
    + subst j. rewrite !Hk. split; [|done]. exists (ids s + 1). split; [lia|]. by apply mirror_added.
  - intros j Hjk. assert (j <> k) as Hne by (intros ->; done). rewrite !Hj by done. destruct (Hks j) as [Hu' Hw']; [by right|].
    split; [|done]. apply (unfollowed_later (ids s)); [lia|done].
  - cbn zeta in *. split; [lia|]. by rewrite <- app_assoc in H2.
Qed.

Definition gentle (i0 i1 : Z) (ks : list I) (o : I * vop) : Prop :=
  o.1 ∈ ks /\ match o.2 with VAdd cb => modest cb | VDel key => ~ (i0 < key <= i1) | _ => True end.

Lemma gentle_step i0 i1 ks s o : 0 <= i0 -> ids s + 1 < 2 ^ 64 -> in_step i0 i1 ks s -> gentle i0 i1 ks o ->
  in_step i0 i1 ks (vexec s o) /\ ids (vexec s o) <= ids s + 1.
Proof using EqI get_put get_other report_modest.
  intros Hi0 Hb [Hi1 Hs] [Hk Ho]. destruct o as [k o]. cbn [fst snd] in *. destruct (Hs k Hk) as [(n & Hn & Hf) Hw].
  assert (forall c' i' w', ids s <= i' -> (exists n, i0 < n <= i1 /\ follows i' n k c') -> get k w' = conv (value_ c') -> (forall k', k' <> k -> get k' w' = get k' (world s)) ->
    in_step i0 i1 ks (mkState (set_var k c' (vars s)) i' w')) as Hin.
  { intros c' i' w' Hi' Hf' Hw' Hother. split; [cbn; lia|]. intros j Hj. cbn [vars ids world]. unfold set_var. destruct (decide (j = k)) as [->|Hne]; [done|].
    destruct (Hs j Hj) as [(n' & Hn' & Hf2) Hw2]. split; [|by rewrite Hother]. exists n'. split; [done|]. by apply (follows_later (ids s)). }
  destruct o as [v|x|cb|key|]; cbn [vexec].
  - destruct (set_follows (ids s) n k (vars s k) v (world s) Hf Hw) as (c' & w' & -> & Hf' & Hw' & Hother). split; [|cbn; lia].
    apply Hin; [lia|by exists n|done|done].
  - destruct (text_follows (ids s) n k (vars s k) x (world s) Hf Hw) as (c' & w' & -> & Hf' & Hw' & Hother). split; [|cbn; lia].
    apply Hin; [lia|by exists n|done|done].
  - rewrite (add_last (ids s)) by (try apply Hf; lia). split; [|cbn; lia]. apply Hin; [lia|exists n; split; [done|]|done|done].
    apply add_follows; [lia|lia|lia|done|done].
  - split; [|cbn; lia]. apply Hin; [lia|exists n; split; [done|]|done|done]. apply del_follows; [lia|done].
  - rewrite u64_small by lia. split; [|cbn; lia]. split; [cbn; lia|]. intros j Hj. destruct (Hs j Hj) as [(n' & Hn' & Hf2) Hw2]. split; [|done].
    exists n'. split; [done|]. apply (follows_later (ids s)); [cbn; lia|done].
Qed.

(** C35: The integers that are kept beside the configuration variables are in step with them:
    once the object that registers the listeners exists, then after any sequence of
    changes, loaded texts (good ones and bad ones) and additions and removals of
    listeners, as long as the other listeners return and leave the integers alone
    and nobody removes the mirrors, every integer is the value of its variable. *)
Theorem settings_follow ks s ops k : NoDup ks -> 0 <= ids s -> ids s + Z.of_nat (length ks) + Z.of_nat (length ops) < 2 ^ 64 ->
  (forall j, j ∈ ks -> unfollowed (ids s) (vars s j)) -> Forall (gentle (ids s) (ids s + Z.of_nat (length ks)) ks) ops -> k ∈ ks ->
  let s' := foldl vexec (initer ks s) ops in get k (world s') = conv (GetValue (vars s' k)).
Proof using EqI get_put get_other report_modest.
  intros Hnd Hi Hb Hu Hops Hk. cbn zeta. unfold initer. destruct (read_all ks s) as (Hv & Hids & Hg). set (s1 := foldl read_value s ks) in *.
  destruct (add_all (ids s) ks [] s1) as [H1 H2]; try (rewrite ?Hids; lia || done).
  - split; [lia|]. intros j Hj. by apply not_elem_of_nil in Hj.
  - intros j Hj. rewrite Hv, Hids. split; [by apply Hu|]. apply Hg. by left.
  - cbn [app] in H2. cbn zeta in H1. rewrite H1, Hids in H2. set (s2 := foldl add_mirror s1 ks) in *. rewrite Hids in H1.
    enough (in_step (ids s) (ids s + Z.of_nat (length ks)) ks (foldl vexec s2 ops)) as [_ Hs] by apply (Hs k Hk).
    assert (ids s2 + Z.of_nat (length ops) < 2 ^ 64) as Hb2 by lia. clear H1. revert Hb2 H2. generalize s2 as s3. clear -Hops Hi get_put get_other report_modest.
    induction Hops as [|o ops Ho _ IH]; intros s3 Hb2 H2; cbn [foldl length] in *; [done|].
    destruct (gentle_step _ _ ks s3 o Hi ltac:(lia) H2 Ho) as [H3 H4]. apply IH; [lia|done].
Qed.

(** A listener that runs later and throws: the integer has the new value already and the
    variable keeps the old one. *)
Lemma mirror_ahead k c v w n n' cb e : callbacks_ c = [(n, mirror k); (n', cb)] -> value_eq t v (value_ c) = false ->
  (forall old new w, cb old new w = (Fail e, w)) ->
  exists w', SetValue v (c, w) = (Fail e, (c, w')) /\ get k w' = conv v.
Proof using get_put report_modest.
  intros Hc Hv Hcb. unfold SetValue. rewrite Hv, Hc. destruct (report_modest k (value_ c) v w) as (w1 & E & _). exists (put k (conv v) w1).
  split; [|apply get_put]. cbn. unfold mirror, bind. rewrite E. cbn. by rewrite Hcb.
Qed.
End Mirrors.

(** ** The sizes of the HTTP parsers *)

Module HttpSizes.
Inductive size := request_buffer_size | request_max_body_size | response_buffer_size | response_max_body_size.

#[export] Instance size_eq_dec : EqDecision size.
Proof. solve_decision. Defined.

Record sizes := mkSizes {
  s_http_request_buffer_size : Z;
  s_http_request_max_body_size : Z;
  s_http_response_buffer_size : Z;
  s_http_response_max_body_size : Z }.

Definition load (k : size) (w : sizes) : Z :=
  match k with
  | request_buffer_size => s_http_request_buffer_size w
  | request_max_body_size => s_http_request_max_body_size w
  | response_buffer_size => s_http_response_buffer_size w
  | response_max_body_size => s_http_response_max_body_size w
  end.

Definition store (k : size) (v : Z) (w : sizes) : sizes :=
  let '(mkSizes a b c d) := w in
  match k with
  | request_buffer_size => mkSizes v b c d
  | request_max_body_size => mkSizes a v c d
  | response_buffer_size => mkSizes a b v d
  | response_max_body_size => mkSizes a b c v
  end.

Lemma size_stored k v w : load k (store k v w) = v.
Proof. by destruct w, k. Qed.

Lemma size_kept k k' v w : k <> k' -> load k (store k' v w) = load k w.
Proof. by destruct w, k, k'. Qed.

Definition GetHttpRequestBufferSize (w : sizes) : Z := s_http_request_buffer_size w.
Definition GetHttpRequestMaxBodySize (w : sizes) : Z := s_http_request_max_body_size w.
Definition GetHttpResponseBufferSize (w : sizes) : Z := s_http_response_buffer_size w.
Definition GetHttpResponseMaxBodySize (w : sizes) : Z := s_http_response_max_body_size w.

Section Init.
(** [u64_t] is the type of the variables, [of_num] and [num] turn a number below
    [2^64] into a value and back. *)
Context {B : Type} `{EqDecision B} `{SB : Scalars B} `{YB : Yaml} `{HB : Hashing} (u64_t : Ty B) (of_num : Z -> den u64_t) (num : den u64_t -> Z).
Context (num_of : forall z, 0 <= z < 2 ^ 64 -> num (of_num z) = z).

Definition initial_value (k : size) : Z :=
  match k with
  | request_buffer_size | response_buffer_size => 4 * 1024
  | request_max_body_size | response_max_body_size => 64 * 1024 * 1024
  end.

(** The variables as [Lookup] makes them and the integers before the object exists; [i] is
    the counter of the listeners. *)
Definition statics (i : Z) : state (W := sizes) (t := u64_t) (I := size) :=
  mkState (fun k => new_ConfigVar (of_num (initial_value k))) i (mkSizes 0 0 0 0).

Definition all_sizes : list size := [request_buffer_size; request_max_body_size; response_buffer_size; response_max_body_size].

Definition silent (k : size) : den u64_t -> den u64_t -> prog sizes unit := fun _ _ => ret tt.

Lemma silent_modest k : modest (t := u64_t) load (silent k).
Proof using Type. intros old new w. by exists w. Qed.

Definition RequestSizeIniter (i : Z) : state := initer (EqI := size_eq_dec) store num silent all_sizes (statics i).

(** When the object exists the integers are the defaults. *)
Lemma sizes_at_start i : world (RequestSizeIniter i) = mkSizes (4 * 1024) (64 * 1024 * 1024) (4 * 1024) (64 * 1024 * 1024).
Proof using num_of. unfold RequestSizeIniter, initer, all_sizes. cbn. by rewrite !num_of by lia. Qed.
End Init.
End HttpSizes.

(** ** The limit of [connect] *)

Module ConnectTimeout.
Section Init.
(** [L] is the state of the logger, [int_t] the type of the variable. *)
Context {B : Type} `{EqDecision B} `{SB : Scalars B} `{YB : Yaml} `{HB : Hashing} {L : Type} (log_info : string -> L -> L).
Context (int_t : Ty B) (of_num : Z -> den int_t) (num : den int_t -> Z).

Record world := mkWorld { logged : L; s_connectTimeout : Z }.

Definition report (_ : unit) (old new : den int_t) : prog world unit :=
  modify (fun w => mkWorld (log_info ("tcp connect timeout changed from " +:+ pretty (num old) +:+ " to " +:+ pretty (num new)) (logged w)) (s_connectTimeout w)).

(** An [int] is converted to [uint64_t]. *)
Definition HookIniter (l : L) (i : Z) : state (I := unit) :=
  initer (fun _ v w => mkWorld (logged w) v) (fun v => u64 (num v)) report [tt] (mkState (fun _ => new_ConfigVar (of_num 5000)) i (mkWorld l (2 ^ 64 - 1))).

Lemma report_modest k : modest (fun _ : unit => s_connectTimeout) (report k).
Proof using Type. intros old new w. by eexists. Qed.
End Init.
End ConnectTimeout.

(** ** An example *)

Module SettingsDemo.
Import CastDemo HttpSizes.

(** Numbers, converted as [boost::lexical_cast] converts them. *)
#[export] Instance number_scalars : Scalars unit.
Proof.
  refine {| base_type _ := Z; base_eq _ := Z.eqb; base_less _ := Z.ltb; base_to _ n := Ok (pretty n);
            base_from _ s := match scalar_from TInt s with Ok n => Ok (Z.of_nat n) | Fail e => Fail e end |}.
  intros _ x y. apply Z.eqb_sym.
Defined.

Definition number : Ty unit := TBase tt.
Definition as_number (z : Z) : den number := z.
Definition of_number (v : den number) : Z := v.

(** A new buffer size as text, one that is no number, and a listener that is added. *)
Definition demo_changes : list (size * vop (W := sizes) (t := number)) :=
  [ (request_buffer_size, VText "8192"); (request_buffer_size, VText "many"); (response_buffer_size, VAdd (silent number response_buffer_size));
    (response_buffer_size, VSet (as_number 512)); (response_buffer_size, VDel 5); (request_buffer_size, VOther) ].

Definition demo_start : state (t := number) (I := size) := statics number as_number 0.

Lemma demo_gentle : Forall (gentle load 0 4 all_sizes) demo_changes.
Proof.
  repeat apply Forall_cons_2; try apply Forall_nil_2; (split; [unfold all_sizes; cbn; rewrite !elem_of_cons; tauto|]); cbn; try exact I; [|lia].
  apply silent_modest.
Qed.
End SettingsDemo.
Import CastDemo HttpSizes SettingsDemo.

Lemma settings_follow_witness :
  let s' := foldl vexec (initer store of_number (silent number) all_sizes demo_start) demo_changes in
  load response_buffer_size (world s') = of_number (GetValue (vars s' response_buffer_size)).
Proof.
  refine (settings_follow load store of_number size_stored size_kept (silent number) (silent_modest number) all_sizes demo_start demo_changes response_buffer_size _ _ _ _ demo_gentle _).
  - unfold all_sizes. repeat constructor; rewrite ?elem_of_cons, ?elem_of_nil; naive_solver.
  - cbn. lia.
  - cbn. lia.
  - intros j _. split; cbn; [constructor|constructor|]. by intros p Hp%not_elem_of_nil.
  - unfold all_sizes. rewrite !elem_of_cons. tauto.
Defined.

(** What the sizes are after the changes. *)
Example sizes_changed :
  world (foldl vexec (initer store of_number (silent number) all_sizes demo_start) demo_changes) = mkSizes 8192 (64 * 1024 * 1024) 512 (64 * 1024 * 1024).
Proof. vm_compute. reflexivity. Qed.

(** A limit of [-1] means none; one of [-2] becomes [2^64 - 2], and a timer made with it is
    due two milliseconds before it was made. *)
Example negative_limit (now : Z) : 2 <= now < 2 ^ 64 ->
  (let s := ConnectTimeout.HookIniter (L := list string) (fun x l => l ++ [x]) number as_number of_number [] 0 in
   let limit v := ConnectTimeout.s_connectTimeout (L := list string) (world (vexec s (tt, VSet (as_number v)))) in
   limit (-1) = 2 ^ 64 - 1 /\ limit (-2) = 2 ^ 64 - 2 /\ u64 (now + limit (-2)) = now - 2).
Proof.
  intros Hn. split; [by vm_compute|]. split; [by vm_compute|].
  replace (ConnectTimeout.s_connectTimeout _) with (2 ^ 64 - 2) by (by vm_compute). unfold u64, wrapu.
  symmetry. apply (Z.mod_unique_pos _ _ 1); lia.
Qed.
