(* ===== verification/LogFormat.v ===== *)
(** * Log lines: the formatter of [gudov/log.h] and [gudov/log.cpp]

    Levels, events, and [LogFormatter]: the loop that cuts a pattern into pieces, the
    items made of them, and the line they print.  A pattern is read as the list of
    its characters.  [strftime] over the local time is a parameter. *)

From S2P Require Import Prelude.
From stdpp Require Import base numbers list strings pretty.
From Stdlib Require Import ZArith Lia Ascii.
From Equations Require Import Equations.
Open Scope Z_scope.
Open Scope prog_scope.

(** ** Levels *)

Inductive Level := UNKNOWN | DEBUG | INFO | WARN | ERROR | FATAL.

#[global] Instance Level_eq_dec : EqDecision Level.
Proof. solve_decision. Defined.

Definition level_value (l : Level) : Z :=
  match l with UNKNOWN => 0 | DEBUG => 1 | INFO => 2 | WARN => 3 | ERROR => 4 | FATAL => 5 end.

Definition ToString (l : Level) : string :=
  match l with
  | DEBUG => "DEBUG" | INFO => "INFO" | WARN => "WARN" | ERROR => "ERROR" | FATAL => "FATAL" | UNKNOWN => "UNKNOWN"
  end.

Definition FromString (str : string) : Level :=
  if String.eqb str "debug" then DEBUG else if String.eqb str "info" then INFO
  else if String.eqb str "warn" then WARN else if String.eqb str "error" then ERROR
  else if String.eqb str "fatal" then FATAL
  else if String.eqb str "DEBUG" then DEBUG else if String.eqb str "INFO" then INFO
  else if String.eqb str "WARN" then WARN else if String.eqb str "ERROR" then ERROR
  else if String.eqb str "FATAL" then FATAL else UNKNOWN.

(** ** Events *)

(** [logger_] is the address of the logger; [ss_] the text written so far. *)
Record LogEvent := mkEvent {
  file_ : string;
  line_ : Z;
  elapse_ : Z;
  thread_id_ : Z;
  fiber_id_ : Z;
  time_ : Z;
  ss_ : string;
  logger_ : nat;
  level_ : Level }.

Definition new_LogEvent (logger : nat) (level : Level) (filename : string) (line elapse threadId fiberId time : Z) : LogEvent :=
  mkEvent filename line elapse threadId fiberId time EmptyString logger level.

(** [event->GetSS() << s] *)
Definition write_event (s : string) (e : LogEvent) : LogEvent :=
  mkEvent (file_ e) (line_ e) (elapse_ e) (thread_id_ e) (fiber_id_ e) (time_ e) (ss_ e +:+ s) (logger_ e) (level_ e).

(** [LogEvent::format]: what [vasprintf] makes of the arguments, if it can. *)
Definition format_event (formatted : option string) (e : LogEvent) : LogEvent :=
  match formatted with Some s => write_event s e | None => e end.

(** ** Items *)

Inductive FormatItem :=
  | MessageFormatItem
  | LevelFormatItem
  | ElapseFormatItem
  | NameFormatItem
  | ThreadIdFormatItem
  | FiberIdFormatItem
  | DateTimeFormatItem (format : string)
  | FilenameFormatItem
  | LineFormatItem
  | NewLineFormatItem
  | StringFormatItem (s : string)
  | TabFormatItem.

(** The constructor of [DateTimeFormatItem]. *)
Definition new_DateTimeFormatItem (format : string) : FormatItem :=
  DateTimeFormatItem (if String.eqb format EmptyString then "%Y-%m-%d %H:%M:%S" else format).

Definition newline : string := String "010" EmptyString.
Definition tab : string := String "009" EmptyString.

Section Printing.
Context (strftime : string -> Z -> option string) (name_of : nat -> string).

(** [strftime format time] is the text of a local time, if it fits into 64 bytes; the
    buffer is not initialised. *)
Definition format_item (e : LogEvent) (i : FormatItem) : result string :=
  match i with
  | MessageFormatItem => Ok (ss_ e)
  | LevelFormatItem => Ok (ToString (level_ e))
  | ElapseFormatItem => Ok (pretty (elapse_ e))
  | NameFormatItem => Ok (name_of (logger_ e))
  | ThreadIdFormatItem => Ok (pretty (thread_id_ e))
  | FiberIdFormatItem => Ok (pretty (fiber_id_ e))
  | DateTimeFormatItem format => match strftime format (time_ e) with Some s => Ok s | None => Fail undefined end
  | FilenameFormatItem => Ok (file_ e)
  | LineFormatItem => Ok (pretty (line_ e))
  | NewLineFormatItem => Ok newline
  | StringFormatItem s => Ok s
  | TabFormatItem => Ok tab
  end.

(** [LogFormatter::format] *)
Fixpoint format_items (e : LogEvent) (items : list FormatItem) : result string :=
  match items with
  | [] => Ok EmptyString
  | i :: items =>
      match format_item e i with
      | Fail err => Fail err
      | Ok s => match format_items e items with Ok t => Ok (s +:+ t) | Fail err => Fail err end
      end
  end.
End Printing.

(** ** Compiling a pattern *)

Abbreviation chars := (list ascii).
Abbreviation text := String.string_of_list_ascii.

Definition isalpha (c : ascii) : bool :=
  let n := nat_of_ascii c in ((65 <=? n) && (n <=? 90) || (97 <=? n) && (n <=? 122))%nat.

Abbreviation eqc := Ascii.eqb.

(** The variables of the inner loop. *)
Record scan := mkScan { n_ : nat; fmt_status : bool; fmt_begin : nat; str_ : chars; fmt_ : chars }.

(** [while (n < pattern_.size())]: where the item that begins at [i] ends. *)
Fixpoint scan_loop (fuel : nat) (p : chars) (i : nat) (s : scan) : result scan :=
  match fuel with
  | O => Fail out_of_fuel
  | S fuel =>
      match p !! n_ s with
      | None => Ok s
      | Some c =>
          if negb (fmt_status s) && (negb (isalpha c) && negb (eqc c "{") && negb (eqc c "}")) then
            Ok (mkScan (n_ s) (fmt_status s) (fmt_begin s) (slice (i + 1) (n_ s - i - 1) p) (fmt_ s))
          else if negb (fmt_status s) && eqc c "{" then
            scan_loop fuel p i (mkScan (n_ s + 1) true (n_ s) (slice (i + 1) (n_ s - i - 1) p) (fmt_ s))
          else if fmt_status s && eqc c "}" then
            Ok (mkScan (n_ s + 1) false (fmt_begin s) (str_ s) (slice (fmt_begin s + 1) (n_ s - fmt_begin s - 1) p))
          else
            let n' := (n_ s + 1)%nat in
            let str' := if ((n' =? length p)%nat && bool_decide (str_ s = []))%bool then drop (i + 1) p else str_ s in
            scan_loop fuel p i (mkScan n' (fmt_status s) (fmt_begin s) str' (fmt_ s))
      end
  end.

(** An entry of [vec]: text, format and kind. *)
Abbreviation entry := (chars * chars * Z)%type.

Definition literal (nstr : chars) : list entry := match nstr with [] => [] | _ => [(nstr, [], 0)] end.

Definition pattern_error : chars := String.list_ascii_of_string "<<pattern_error>>".

(** The [for] loop of [Init], and the flush after it: [vec] and [error_]. *)
Fixpoint init_loop (fuel : nat) (p : chars) (i : nat) (nstr : chars) (vec : list entry) (error : bool)
    : result (list entry * bool) :=
  match fuel with
  | O => Fail out_of_fuel
  | S fuel =>
      match p !! i with
      | None => Ok (vec ++ literal nstr, error)
      | Some c =>
          if negb (eqc c "%") then init_loop fuel p (i + 1) (nstr ++ [c]) vec error
          else if bool_decide (p !! (i + 1)%nat = Some "%"%char) then init_loop fuel p (i + 1) (nstr ++ ["%"%char]) vec error
          else
            match scan_loop (S (length p)) p i (mkScan (i + 1) false 0 [] []) with
            | Fail e => Fail e
            | Ok s =>
                if negb (fmt_status s) then init_loop fuel p (n_ s) [] (vec ++ literal nstr ++ [(str_ s, fmt_ s, 1)]) error
                else init_loop fuel p (i + 1) nstr (vec ++ [(pattern_error, fmt_ s, 0)]) true
            end
      end
  end.

(** [s_format_items] *)
Definition format_items_map : list (string * (string -> FormatItem)) :=
  [ ("m", fun _ => MessageFormatItem); ("p", fun _ => LevelFormatItem); ("r", fun _ => ElapseFormatItem);
    ("c", fun _ => NameFormatItem); ("t", fun _ => ThreadIdFormatItem); ("n", fun _ => NewLineFormatItem);
    ("d", new_DateTimeFormatItem); ("f", fun _ => FilenameFormatItem); ("l", fun _ => LineFormatItem);
    ("T", fun _ => TabFormatItem); ("F", fun _ => FiberIdFormatItem) ].

(** The item of an entry, and whether it is an error. *)
Definition item_of (e : entry) : FormatItem * bool :=
  let '(str, fmt, kind) := e in
  if kind =? 0 then (StringFormatItem (text str), false)
  else match List.find (fun x => String.eqb x.1 (text str)) format_items_map with
       | None => (StringFormatItem ("<<error_format %" +:+ text str +:+ ">>"), true)
       | Some x => (x.2 (text fmt), false)
       end.

Record LogFormatter := mkFormatter { pattern_ : string; items_ : list FormatItem; error_ : bool }.

(** The constructor and [Init]. *)
Definition new_LogFormatter (pattern : string) : result LogFormatter :=
  let p := String.list_ascii_of_string pattern in
  match init_loop (S (length p)) p 0 [] [] false with
  | Fail e => Fail e
  | Ok (vec, error) =>
      Ok (mkFormatter pattern (map (fun e => (item_of e).1) vec) (error || existsb (fun e => (item_of e).2) vec))
  end.

Example default_pattern :
  new_LogFormatter "%d{%Y-%m-%d}%T%t [%p] %f:%l%m%n" =
    Ok (mkFormatter "%d{%Y-%m-%d}%T%t [%p] %f:%l%m%n"
      [DateTimeFormatItem "%Y-%m-%d"; TabFormatItem; ThreadIdFormatItem; StringFormatItem " ["; LevelFormatItem;
       StringFormatItem "] "; FilenameFormatItem; StringFormatItem ":"; LineFormatItem; MessageFormatItem; NewLineFormatItem] false).
Proof. vm_compute. done. Qed.

(** ** A reference reading of patterns *)

Definition name_char (c : ascii) : bool := isalpha c || eqc c "}".

(** The name of an item: letters, and closing braces. *)
Fixpoint span_name (s : chars) : chars * chars :=
  match s with
  | [] => ([], [])
  | c :: s' => if name_char c then let '(a, b) := span_name s' in (c :: a, b) else ([], s)
  end.

(** The text before a closing brace, and what follows it. *)
Fixpoint until_brace (s : chars) : option (chars * chars) :=
  match s with
  | [] => None
  | c :: s => if eqc c "}" then Some ([], s) else (fun x => (c :: x.1, x.2)) <$> until_brace s
  end.

(** What follows a percent sign: name, format, rest; none if a brace is left open. *)
Definition read_item (s : chars) : option (chars * chars * chars) :=
  let '(name, r) := span_name s in
  match r with
  | c :: r' => if eqc c "{" then (fun x => (name, x.1, x.2)) <$> until_brace r' else Some (name, [], r)
  | [] => Some (name, [], [])
  end.

Lemma span_name_app s : (span_name s).1 ++ (span_name s).2 = s.
Proof. induction s as [|c s IH]; [done|]. cbn. destruct (name_char c); [|done]. destruct (span_name s). cbn in *. by f_equal. Qed.

Lemma until_brace_app s f r : until_brace s = Some (f, r) -> s = f ++ "}"%char :: r.
Proof.
  revert f r. induction s as [|c s IH]; intros f r; [done|]. cbn. destruct (Ascii.eqb_spec c "}") as [->|]; [by intros [= <- <-]|].
  destruct (until_brace s) as [[f' r']|] eqn:E; [|done]. intros [= <- <-]. cbn. f_equal. by apply IH.
Qed.

(** The three ways an item can end. *)
Lemma read_item_shape s name f r :
  read_item s = Some (name, f, r) -> s = name ++ r /\ f = [] \/ s = name ++ "{"%char :: f ++ "}"%char :: r.
Proof.
  unfold read_item. pose proof (span_name_app s) as Hs. destruct (span_name s) as [nm q]. cbn in Hs. subst s.
  destruct q as [|c q]; [intros [= <- <- <-]; by left|].
  destruct (Ascii.eqb_spec c "{") as [->|]; [|intros [= <- <- <-]; by left].
  destruct (until_brace q) as [[f' r']|] eqn:E; [|done]. intros [= <- <- <-]. right. by rewrite (until_brace_app _ _ _ E).
Qed.

Lemma read_item_length s name f r : read_item s = Some (name, f, r) -> (length r <= length s)%nat.
Proof. intros [[-> _]| ->]%read_item_shape; rewrite ?length_app; cbn; rewrite ?length_app; cbn; lia. Qed.

Definition inspect {A} (x : A) : {y | x = y} := exist _ x eq_refl.

(** The entries of what is left of a pattern, [nstr] being the text before it. *)
Equations? tokens (nstr s : chars) : list entry * bool by wf (length s) lt :=
  tokens nstr [] := (literal nstr, false);
  tokens nstr (c :: s) with eqc c "%" => {
    | false := tokens (nstr ++ [c]) s
    | true with bool_decide (head s = Some "%"%char) => {
      | true := tokens (nstr ++ ["%"%char]) s
      | false with inspect (read_item s) => {
        | exist _ (Some (name, f, r)) E :=
            let t := tokens [] r in (literal nstr ++ (name, f, 1) :: t.1, t.2)
        | exist _ None E := let t := tokens nstr s in ((pattern_error, [], 0) :: t.1, true) } } }.
Proof. all: try lia. apply read_item_length in E. cbn. lia. Qed.

(** ** The loops read what the reference reads *)

Lemma lookup_drop_head (p : chars) i : p !! i = head (drop i p).
Proof. revert i. induction p as [|c p IH]; intros [|i]; cbn; try done. Qed.

Lemma drop_cons_next (p : chars) i c r : drop i p = c :: r -> drop (i + 1) p = r /\ (i < length p)%nat.
Proof.
  intros E. assert (i < length p)%nat as Hi.
  { destruct (decide (i < length p)%nat); [done|]. by rewrite drop_ge in E by lia. }
  split; [|done]. replace (i + 1)%nat with (i + 1)%nat by lia. rewrite <- drop_drop, E. done.
Qed.

(** Inside the braces. *)
Lemma scan_fmt fuel p i k b st :
  (b < k)%nat -> (length (drop k p) < fuel)%nat ->
  exists s, scan_loop fuel p i (mkScan k true b st []) = Ok s /\
    match until_brace (drop k p) with
    | Some (f, r) => s = mkScan (k + length f + 1) false b st (slice (b + 1) (k + length f - b - 1) p) /\ drop (n_ s) p = r
    | None => fmt_status s = true /\ fmt_ s = []
    end.
Proof.
  revert k st. induction fuel as [|fuel IH]; intros k st Hb Hf; [lia|]. cbn [scan_loop n_ fmt_status fmt_begin str_ fmt_].
  rewrite lookup_drop_head. destruct (drop k p) as [|c r] eqn:Ed; [by eexists|]. destruct (drop_cons_next p k c r Ed) as [Ed' Hk].
  cbn [head negb andb until_brace]. destruct (Ascii.eqb_spec c "}") as [->|Hc].
  - eexists. split; [done|]. cbn. by rewrite !Nat.add_0_r.
  - match goal with |- context [mkScan _ true b ?x []] => set (st' := x) end. destruct (IH (k + 1)%nat st') as (s & E & Hs); [lia|rewrite Ed'; cbn in Hf; lia|].
    exists s. split; [done|]. rewrite Ed' in Hs. destruct (until_brace r) as [[f q]|] eqn:Eu; [|done]. cbn.
    destruct Hs as [-> Hr]. split; [|done].
    assert (st' = st) as ->.
    { unfold st'. apply until_brace_app in Eu. rewrite (proj2 (Nat.eqb_neq _ _)); [done|]. intros Hl.
      apply (f_equal length) in Ed'. rewrite length_drop, Eu, length_app in Ed'. cbn in Ed'. lia. }
    f_equal; [lia|]. f_equal. lia.
Qed.

(** The whole item: [w] is the part of its name read so far. *)
Lemma scan_name fuel p i w r :
  drop (i + 1) p = w ++ r -> (S (length r) < fuel)%nat -> Forall (fun c => name_char c = true) w ->
  let '(a, q) := span_name r in
  exists s, scan_loop fuel p i (mkScan (i + 1 + length w) false 0 (if r then w else []) []) = Ok s /\
    match q with
    | c :: q' => if eqc c "{" then match until_brace q' with
                                   | Some (f, t) => fmt_status s = false /\ str_ s = w ++ a /\ fmt_ s = f /\ drop (n_ s) p = t
                                   | None => fmt_status s = true /\ fmt_ s = []
                                   end
                 else fmt_status s = false /\ str_ s = w ++ a /\ fmt_ s = [] /\ drop (n_ s) p = q
    | [] => fmt_status s = false /\ str_ s = w ++ a /\ fmt_ s = [] /\ drop (n_ s) p = []
    end.
Proof.
  revert w r. induction fuel as [|fuel IH]; intros w r Hd Hf Hw; [lia|].
  assert (drop (i + 1 + length w) p = r) as Hr by (by rewrite <- drop_drop, Hd, drop_app_length).
  assert (slice (i + 1) (i + 1 + length w - i - 1) p = w) as Hsl.
  { unfold slice. rewrite Hd. replace (i + 1 + length w - i - 1)%nat with (length w) by lia. apply take_app_length. }
  destruct r as [|c r]; cbn [span_name].
  { eexists. cbn [scan_loop n_]. rewrite lookup_drop_head, Hr. split; [done|]. cbn. by rewrite app_nil_r. }
  destruct (drop_cons_next _ _ _ _ Hr) as [Hr' Hlt]. cbn [scan_loop n_ fmt_status fmt_begin str_ fmt_ negb andb].
  rewrite lookup_drop_head, Hr. cbn [head]. unfold name_char.
  destruct (isalpha c || eqc c "}") eqn:Ec.
  - assert (negb (isalpha c) && negb (eqc c "{") && negb (eqc c "}") = false) as -> by (by destruct (isalpha c), (eqc c "{"), (eqc c "}")).
    assert (eqc c "{" = false) as ->.
    { destruct (Ascii.eqb_spec c "{") as [->|]; done. }
    specialize (IH (w ++ [c]) r). rewrite <- app_assoc in IH. cbn [app] in IH.
    destruct (span_name r) as [a q]. destruct IH as (s & E & Hs).
    { done. } { cbn in Hf. lia. } { apply Forall_app. split; [done|]. by apply Forall_singleton. }
    exists s. rewrite <- app_assoc in Hs. cbn [app] in Hs. split; [|done]. rewrite <- E. f_equal. f_equal.
    + rewrite length_app. cbn. lia.
    + apply (f_equal length) in Hr'. rewrite length_drop in Hr'. destruct r as [|d r].
      * rewrite (proj2 (Nat.eqb_eq _ _)) by (cbn in Hr'; lia). by rewrite Hd.
      * rewrite (proj2 (Nat.eqb_neq _ _)) by (cbn in Hr'; lia). done.
  - apply orb_false_iff in Ec as [-> Ec]. rewrite Ec. cbn [negb andb]. rewrite andb_true_r.
    destruct (Ascii.eqb_spec c "{") as [->|Hc]; cbn [negb].
    + destruct (scan_fmt fuel p i (i + 1 + length w + 1) (i + 1 + length w) (slice (i + 1) (i + 1 + length w - i - 1) p)) as (s & E & Hs);
        [lia|rewrite Hr'; cbn in Hf; lia|]. exists s. split; [done|]. rewrite Hr' in Hs.
      destruct (until_brace r) as [[f t]|] eqn:Eu; [|done]. destruct Hs as [-> Ht]. cbn. split_and!; try done.
      * by rewrite Hsl, app_nil_r.
      * unfold slice. rewrite Hr', (until_brace_app _ _ _ Eu).
        replace (i + 1 + length w + 1 + length f - (i + 1 + length w) - 1)%nat with (length f) by lia. apply take_app_length.
    + eexists. split; [done|]. cbn. split_and!; try done. by rewrite Hsl, app_nil_r.
Qed.

Lemma scan_item p i c s0 :
  drop i p = c :: s0 ->
  exists s, scan_loop (S (length p)) p i (mkScan (i + 1) false 0 [] []) = Ok s /\
    match read_item s0 with
    | Some (name, f, r) => fmt_status s = false /\ str_ s = name /\ fmt_ s = f /\ drop (n_ s) p = r
    | None => fmt_status s = true /\ fmt_ s = []
    end.
Proof.
  intros Hi. destruct (drop_cons_next _ _ _ _ Hi) as [Hd Hlt].
  pose proof (scan_name (S (length p)) p i [] s0 Hd) as H. unfold read_item. destruct (span_name s0) as [a q].
  destruct H as (s & E & Hs); [apply (f_equal length) in Hi; rewrite length_drop in Hi; cbn in Hi; lia|constructor|].
  exists s. split; [rewrite <- E; cbn; rewrite Nat.add_0_r; by destruct s0|]. cbn [app] in Hs.
  destruct q as [|d q]; [done|]. destruct (eqc d "{"); [|done]. by destruct (until_brace q) as [[f t]|].
Qed.

Lemma tokens_cons nstr c s :
  tokens nstr (c :: s) =
    if negb (eqc c "%") then tokens (nstr ++ [c]) s
    else if bool_decide (head s = Some "%"%char) then tokens (nstr ++ ["%"%char]) s
    else match read_item s with
         | Some (name, f, r) => (literal nstr ++ (name, f, 1) :: (tokens [] r).1, (tokens [] r).2)
         | None => ((pattern_error, [], 0) :: (tokens nstr s).1, true)
         end.
Proof.
  rewrite tokens_equation_2. unfold tokens_unfold_clause_2. destruct (eqc c "%"); [|done]. cbn.
  unfold tokens_unfold_clause_2_clause_2. destruct (bool_decide _); [done|]. cbn. unfold inspect. cbn.
  by destruct (read_item s) as [[[name f] r]|].
Qed.

Lemma init_loop_tokens fuel p i nstr vec error :
  (i <= length p)%nat -> (length (drop i p) < fuel)%nat ->
  init_loop fuel p i nstr vec error =
    Ok (vec ++ (tokens nstr (drop i p)).1, error || (tokens nstr (drop i p)).2).
Proof.
  revert i nstr vec error. induction fuel as [|fuel IH]; intros i nstr vec error Hi Hf; [lia|].
  cbn [init_loop]. rewrite lookup_drop_head. destruct (drop i p) as [|c s] eqn:Ed.
  { cbn [head]. rewrite tokens_equation_1. cbn. by rewrite orb_false_r. }
  destruct (drop_cons_next _ _ _ _ Ed) as [Ed' Hlt]. cbn [head]. cbn in Hf. rewrite tokens_cons.
  destruct (negb (eqc c "%")). { rewrite IH by (rewrite ?Ed'; lia). by rewrite Ed'. }
  rewrite lookup_drop_head, Ed'. destruct (bool_decide _). { rewrite IH by (rewrite ?Ed'; lia). by rewrite Ed'. }
  destruct (scan_item p i c s Ed) as (sc & -> & Hs). destruct (read_item s) as [[[name f] r]|] eqn:Er.
  - destruct Hs as (-> & -> & -> & Hr). cbn [negb]. pose proof (read_item_length _ _ _ _ Er).
    destruct (decide (n_ sc <= length p)%nat).
    + rewrite IH by (rewrite ?Hr; lia). rewrite Hr. cbn [fst snd]. by rewrite <- !app_assoc.
    + rewrite drop_ge in Hr by lia. subst r. destruct fuel as [|fuel]; [lia|]. cbn [init_loop].
      rewrite lookup_ge_None_2 by lia. rewrite tokens_equation_1. cbn. by rewrite orb_false_r, app_nil_r.
  - destruct Hs as (-> & ->). cbn [negb]. rewrite IH by (rewrite ?Ed'; lia). rewrite Ed'. cbn [fst snd].
    by rewrite <- app_assoc, orb_true_r.
Qed.

(** The formatter of a list of entries. *)
Definition compiled (pattern : string) (t : list entry * bool) : LogFormatter :=
  mkFormatter pattern (map (fun e => (item_of e).1) t.1) (t.2 || existsb (fun e => (item_of e).2) t.1).

Lemma formatter_tokens pattern :
  new_LogFormatter pattern = Ok (compiled pattern (tokens [] (String.list_ascii_of_string pattern))).
Proof. unfold new_LogFormatter. by rewrite init_loop_tokens by (rewrite ?drop_0; lia). Qed.

(** C29: the loops of [Init], which walk over the pattern with indices and cut it with
    [substr], end for every pattern and give exactly the items of the reference
    reading: text up to a percent sign; after it a name of letters and closing
    braces, and a format if a brace follows; an error item for a name that is not
    known or a brace that stays open. *)
Theorem formatter_reads_pattern pattern :
  exists f, new_LogFormatter pattern = Ok f /\ f = compiled pattern (tokens [] (String.list_ascii_of_string pattern)).
Proof. eexists. split; [apply formatter_tokens|done]. Qed.

(** ** Patterns that mean what they say *)

(** A piece of a pattern: text without a percent sign, or an item with its format. *)
Inductive piece := Text (s : chars) | Item (name : ascii) (f : option chars).

Definition print_piece (x : piece) : chars :=
  match x with
  | Text s => s
  | Item name None => ["%"%char; name]
  | Item name (Some f) => ["%"%char; name; "{"%char] ++ f ++ ["}"%char]
  end.

Definition known (name : ascii) : bool :=
  match List.find (fun x => String.eqb x.1 (text [name])) format_items_map with Some _ => true | None => false end.

(** What may stand after an item without a format. *)
Definition stops_name (s : chars) : bool :=
  match s with [] => true | c :: _ => negb (isalpha c) && negb (eqc c "{") && negb (eqc c "}") end.

Fixpoint print_pieces (l : list piece) : chars :=
  match l with [] => [] | x :: l => print_piece x ++ print_pieces l end.

(** Text is not empty, has no percent sign and is not followed by text; names are
    known; formats have no closing brace. *)
Fixpoint clear (l : list piece) : bool :=
  match l with
  | [] => true
  | Text s :: l =>
      negb (bool_decide (s = [])) && forallb (fun c => negb (eqc c "%")) s &&
      match l with Text _ :: _ => false | _ => clear l end
  | Item name None :: l => known name && stops_name (print_pieces l) && clear l
  | Item name (Some f) :: l => known name && forallb (fun c => negb (eqc c "}")) f && clear l
  end.

Definition piece_item (x : piece) : FormatItem :=
  match x with
  | Text s => StringFormatItem (text s)
  | Item name f => (item_of ([name], default [] f, 1)).1
  end.

Lemma known_alpha name : known name = true -> isalpha name = true /\ eqc name "%" = false /\ eqc name "}" = false.
Proof. by destruct name as [[] [] [] [] [] [] [] []]. Qed.

Lemma tokens_text nstr s r : forallb (fun c => negb (eqc c "%")) s = true -> tokens nstr (s ++ r) = tokens (nstr ++ s) r.
Proof.
  revert nstr. induction s as [|c s IH]; intros nstr Hs; [by rewrite app_nil_r|].
  cbn in Hs. apply andb_true_iff in Hs as [Hc Hs]. cbn [app]. rewrite tokens_cons, Hc, (IH _ Hs). by rewrite <- app_assoc.
Qed.

Lemma until_brace_print f r : forallb (fun c => negb (eqc c "}")) f = true -> until_brace (f ++ "}"%char :: r) = Some (f, r).
Proof.
  induction f as [|c f IH]; [done|]. cbn. intros [Hc Hf]%andb_true_iff. apply negb_true_iff in Hc. by rewrite Hc, (IH Hf).
Qed.

Lemma read_item_print name f l :
  clear (Item name f :: l) = true ->
  exists s, print_pieces (Item name f :: l) = "%"%char :: s /\ head s = Some name /\ eqc name "%" = false /\
    read_item s = Some ([name], default [] f, print_pieces l).
Proof.
  intros Hc. assert (known name = true) as Hk by (destruct f; cbn in Hc; by destruct (known name)).
  destruct (known_alpha name Hk) as (Ha & Hp & _).
  destruct f as [f|]; cbn [print_pieces print_piece app]; eexists; (split; [done|]); (split; [done|]); (split; [done|]);
    unfold read_item; cbn [span_name]; unfold name_char at 1; rewrite Ha; cbn [orb].
  - cbn [span_name default]. change (name_char "{") with false. cbv iota beta. change (eqc "{" "{") with true. cbv iota.
    rewrite <- app_assoc. cbn [app]. rewrite until_brace_print; [done|]. cbn in Hc. rewrite Hk in Hc. by apply andb_true_iff in Hc as [Hf _].
  - cbn in Hc. rewrite Hk in Hc. cbn in Hc. apply andb_true_iff in Hc as [Hs _]. cbn [default].
    destruct (print_pieces l) as [|c s]; [done|]. cbn in Hs. apply andb_true_iff in Hs as [[H1 H2]%andb_true_iff H3].
    apply negb_true_iff in H1, H2, H3. cbn [span_name]. unfold name_char. rewrite H1, H3. cbn [orb]. by rewrite H2.
Qed.

Definition piece_entry (x : piece) : entry :=
  match x with Text s => (s, [], 0) | Item name f => ([name], default [] f, 1) end.

Lemma tokens_pieces l nstr :
  clear l = true -> match l with Text _ :: _ => nstr = [] | _ => True end ->
  tokens nstr (print_pieces l) = (literal nstr ++ map piece_entry l, false).
Proof.
  revert nstr. induction l as [|x l IH]; intros nstr Hc Hn; [cbn; by rewrite tokens_equation_1, app_nil_r|].
  destruct x as [s|name f].
  - subst nstr. cbn in Hc. apply andb_true_iff in Hc as [[Hs Hp]%andb_true_iff Hl].
    cbn [print_pieces print_piece]. rewrite tokens_text by done. cbn [app].
    rewrite IH; [|by destruct l as [|[]]|by destruct l as [|[]]]. by destruct s.
  - destruct (read_item_print name f l Hc) as (s & -> & Hh & Hp & Hr).
    assert (clear l = true) as Hl by (destruct f; cbn in Hc; by apply andb_true_iff in Hc as [_ Hc]).
    rewrite tokens_cons. change (eqc "%" "%") with true. cbn [negb].
    rewrite bool_decide_false by (rewrite Hh; intros [= ->]; done). rewrite Hr.
    rewrite (IH []) by (try done; by destruct l as [|[]]). done.
Qed.

Lemma clear_items l : clear l = true -> existsb (fun e => (item_of e).2) (map piece_entry l) = false.
Proof.
  induction l as [|x l IH]; [done|]. intros Hc. cbn [map existsb]. apply orb_false_iff. destruct x as [s|name f].
  - split; [done|]. apply IH. cbn in Hc. apply andb_true_iff in Hc as [_ Hc]. by destruct l as [|[]].
  - assert (known name = true /\ clear l = true) as [Hk Hl].
    { destruct f; cbn in Hc; apply andb_true_iff in Hc as [[Hc _]%andb_true_iff Hl]; done. }
    split; [|by apply IH]. unfold known in Hk. cbn [item_of piece_entry snd]. change (1 =? 0) with false. cbv iota. by destruct (List.find _ format_items_map).
Qed.

(** A pattern that was written down from its pieces is read back as these pieces:
    the items of the formatter are the texts and the items in their order, each date
    with its own format, and there is no error. *)
Theorem pattern_roundtrip l :
  clear l = true ->
  new_LogFormatter (text (print_pieces l)) = Ok (mkFormatter (text (print_pieces l)) (map piece_item l) false).
Proof.
  intros Hc. rewrite formatter_tokens, String.list_ascii_of_string_of_list_ascii.
  rewrite tokens_pieces by (try done; by destruct l as [|[]]). unfold compiled. cbn [fst snd app literal orb].
  rewrite (clear_items l Hc), map_map. do 2 f_equal. apply map_ext. by intros [].
Qed.

(** ** Levels and lines *)

Lemma level_roundtrip l : FromString (ToString l) = l.
Proof. by destruct l. Qed.

Lemma format_items_app strftime name_of e l1 l2 s1 s2 :
  format_items strftime name_of e l1 = Ok s1 -> format_items strftime name_of e l2 = Ok s2 ->
  format_items strftime name_of e (l1 ++ l2) = Ok (s1 +:+ s2).
Proof.
  revert s1. induction l1 as [|i l1 IH]; intros s1; cbn; [by intros [= <-]|].
  destruct (format_item strftime name_of e i) as [t|]; [|done]. destruct (format_items strftime name_of e l1) as [u|]; [|done].
  intros [= <-] H2. rewrite (IH u) by done. by rewrite str_app_assoc.
Qed.

(** The times a list of items asks for. *)
Definition dates (items : list FormatItem) : list string :=
  omap (fun i => match i with DateTimeFormatItem f => Some f | _ => None end) items.

(** A line is printed whenever the dates in it fit. *)
Lemma format_items_total strftime name_of e items :
  (forall f, f ∈ dates items -> is_Some (strftime f (time_ e))) ->
  exists s, format_items strftime name_of e items = Ok s.
Proof.
  induction items as [|i items IH]; intros Hf; [by eexists|]. cbn [format_items].
  assert (exists t, format_item strftime name_of e i = Ok t) as [t ->].
  { destruct i; try by eexists. cbn. destruct (Hf format) as [t ->]; [left|by eexists]. }
  destruct IH as [u ->]; [|by eexists]. intros f Hin. apply Hf. unfold dates. cbn. destruct i; try done. by right.
Qed.

(** ** Examples *)

Definition demo_pieces : list piece :=
  [Item "d" (Some (String.list_ascii_of_string "%Y-%m-%d")); Item "T" None; Text (String.list_ascii_of_string "[");
   Item "p" None; Text (String.list_ascii_of_string "] "); Item "m" None; Item "n" None].

Lemma pattern_roundtrip_witness :
  clear demo_pieces = true /\
  new_LogFormatter "%d{%Y-%m-%d}%T[%p] %m%n" =
    Ok (mkFormatter "%d{%Y-%m-%d}%T[%p] %m%n" (map piece_item demo_pieces) false).
Proof. split; [reflexivity|]. exact (pattern_roundtrip demo_pieces eq_refl). Defined.

(** A percent sign cannot be written: of two of them the first becomes text and the
    second begins an item all the same.  A letter after an item belongs to its
    name.  The mark of an open brace comes before the text that precedes it. *)
Theorem pattern_flaws :
  new_LogFormatter "100%% done" =
    Ok (mkFormatter "100%% done" [StringFormatItem "100%"; StringFormatItem "<<error_format %>>"; StringFormatItem " done"] true) /\
  new_LogFormatter "%ms" = Ok (mkFormatter "%ms" [StringFormatItem "<<error_format %ms>>"] true) /\
  new_LogFormatter "at %d{%H" =
    Ok (mkFormatter "at %d{%H" [StringFormatItem "<<pattern_error>>"; StringFormatItem "at d{"; StringFormatItem "<<error_format %H>>"] true).
Proof. vm_compute. done. Qed.

Definition demo_event : LogEvent := write_event "hello" (new_LogEvent 0 INFO "main.cpp" 12 0 77 3 1700000000).

Definition demo_time (format : string) (t : Z) : option string := Some (format +:+ "@" +:+ pretty t).

Example line_printed :
  match new_LogFormatter "%d{%Y} %t %F [%p] %c %f:%l %m%n" with
  | Ok f => format_items demo_time (fun _ => "root") demo_event (items_ f)
  | Fail e => Fail e
  end = Ok ("%Y@1700000000 77 3 [INFO] root main.cpp:12 hello" +:+ newline).
Proof. vm_compute. done. Qed.
