(* ===== verification/Logger.v ===== *)
(** * Loggers: [Logger], [LogAppender] and [LoggerManager] of [gudov/log.h] and [gudov/log.cpp]

    Loggers and appenders are objects of two heaps, since they are shared by pointer; a
    formatter never changes and is a value.  What a logger prints goes to the standard
    output and to files; the system's answers when a file is opened or written are a
    list, which is exhausted by successes. *)

From S2P Require Import Prelude OrderedMap LogFormat.
From stdpp Require Import base numbers list sets sorting strings.
From Stdlib Require Import ZArith Lia Ascii.
Open Scope Z_scope.
Open Scope prog_scope.

(** ** State *)

(** [std::ofstream]: whether it holds a file, and [fail()]. *)
Record ofstream := mkOfstream { is_open : bool; fail_ : bool }.

Definition new_ofstream : ofstream := mkOfstream false false.

(** [close()] of a stream without a file fails. *)
Definition close_stream (st : ofstream) : ofstream :=
  if is_open st then mkOfstream false (fail_ st) else mkOfstream false true.

Inductive AppenderKind :=
  | StdoutLogAppender
  | FileLogAppender (filename_ : string) (filestream_ : ofstream) (last_time_ : Z).

Record LogAppender := mkAppender {
  a_kind : AppenderKind;
  a_level : Level;
  a_formatter : option LogFormatter }.

Record Logger := mkLogger {
  l_name : string;
  l_level : Level;
  l_appenders : list nat;
  l_formatter : option LogFormatter;
  l_root : option nat }.

Record Logging := mkLogging {
  appender_heap : list LogAppender;
  logger_heap : list Logger;
  loggers_ : list (string * nat);
  root_ : nat;
  now_ : Z;
  stdout_ : string;
  files_ : string -> string;
  answers_ : list bool }.

Definition set_appenders (h : list LogAppender) (s : Logging) : Logging :=
  mkLogging h (logger_heap s) (loggers_ s) (root_ s) (now_ s) (stdout_ s) (files_ s) (answers_ s).
Definition set_loggers (h : list Logger) (s : Logging) : Logging :=
  mkLogging (appender_heap s) h (loggers_ s) (root_ s) (now_ s) (stdout_ s) (files_ s) (answers_ s).
Definition set_names (m : list (string * nat)) (s : Logging) : Logging :=
  mkLogging (appender_heap s) (logger_heap s) m (root_ s) (now_ s) (stdout_ s) (files_ s) (answers_ s).
Definition set_now (t : Z) (s : Logging) : Logging :=
  mkLogging (appender_heap s) (logger_heap s) (loggers_ s) (root_ s) t (stdout_ s) (files_ s) (answers_ s).
Definition set_answers (l : list bool) (s : Logging) : Logging :=
  mkLogging (appender_heap s) (logger_heap s) (loggers_ s) (root_ s) (now_ s) (stdout_ s) (files_ s) l.

Definition print_stdout (t : string) (s : Logging) : Logging :=
  mkLogging (appender_heap s) (logger_heap s) (loggers_ s) (root_ s) (now_ s) (stdout_ s +:+ t) (files_ s) (answers_ s).
Definition print_file (f t : string) (s : Logging) : Logging :=
  mkLogging (appender_heap s) (logger_heap s) (loggers_ s) (root_ s) (now_ s) (stdout_ s)
    (fun g => if String.eqb g f then files_ s g +:+ t else files_ s g) (answers_ s).

Definition get_logger (l : nat) : prog Logging Logger :=
  fun s => match logger_heap s !! l with Some x => (Ok x, s) | None => (Fail null_deref, s) end.
Definition put_logger (l : nat) (x : Logger) : prog Logging unit := modify (fun s => set_loggers (<[l := x]> (logger_heap s)) s).
Definition get_appender (a : nat) : prog Logging LogAppender :=
  fun s => match appender_heap s !! a with Some x => (Ok x, s) | None => (Fail null_deref, s) end.
Definition put_appender (a : nat) (x : LogAppender) : prog Logging unit := modify (fun s => set_appenders (<[a := x]> (appender_heap s)) s).

(** The next answer of the system. *)
Definition answer : prog Logging bool :=
  fun s => match answers_ s with [] => (Ok true, s) | b :: l => (Ok b, set_answers l s) end.

(** ** Files *)

(** [open()] of a stream that holds a file fails; otherwise it clears the failure or
    reports one. *)
Definition open_stream (st : ofstream) : prog Logging ofstream :=
  if is_open st then ret (mkOfstream true true)
  else let* ok := answer in ret (if (ok : bool) then mkOfstream true false else mkOfstream false true).

(** [stream << t] *)
Definition write_stream (f t : string) (st : ofstream) : prog Logging ofstream :=
  if fail_ st then ret st
  else if negb (is_open st) then ret (mkOfstream false true)
  else let* ok := answer in
       if (ok : bool) then modify (print_file f t) ;; ret st else ret (mkOfstream true true).

(** [FileLogAppender::reopen] *)
Definition reopen_stream (st : ofstream) : prog Logging ofstream :=
  open_stream (if fail_ st then st else close_stream st).

Definition reopen (a : nat) : prog Logging bool :=
  let* x := get_appender a in
  match a_kind x with
  | FileLogAppender f st t =>
      let* st := reopen_stream st in
      put_appender a (mkAppender (FileLogAppender f st t) (a_level x) (a_formatter x)) ;; ret (negb (fail_ st))
  | StdoutLogAppender => fail undefined
  end.

(** ** Appenders *)

Definition new_appender (x : LogAppender) : prog Logging nat :=
  fun s => (Ok (length (appender_heap s)), set_appenders (appender_heap s ++ [x]) s).

(** The constructors. *)
Definition new_StdoutLogAppender (level : Level) : prog Logging nat := new_appender (mkAppender StdoutLogAppender level None).

Definition new_FileLogAppender (filename : string) (level : Level) : prog Logging nat :=
  let* a := new_appender (mkAppender (FileLogAppender filename new_ofstream 0) level None) in
  let* _ := reopen a in ret a.

(** [LogAppender::SetFormatter] and [SetLevel] *)
Definition SetFormatter_appender (a : nat) (f : option LogFormatter) : prog Logging unit :=
  let* x := get_appender a in put_appender a (mkAppender (a_kind x) (a_level x) f).
Definition SetLevel_appender (a : nat) (level : Level) : prog Logging unit :=
  let* x := get_appender a in put_appender a (mkAppender (a_kind x) level (a_formatter x)).

Section Output.
Context (strftime : string -> Z -> option string).

Definition name_in (h : list Logger) (l : nat) : string := match h !! l with Some x => l_name x | None => EmptyString end.

(** [formatter_->format(event)] *)
Definition format_with (f : option LogFormatter) (e : LogEvent) : prog Logging string :=
  fun s => match f with
           | None => (Fail null_deref, s)
           | Some f => (format_items strftime (name_in (logger_heap s)) e (items_ f), s)
           end.

(** [event->GetLevel() >= level] *)
Definition level_le (level : Level) (e : LogEvent) : bool := level_value level <=? level_value (level_ e).

(** [StdoutLogAppender::output] and [FileLogAppender::output] *)
Definition output (a : nat) (e : LogEvent) : prog Logging unit :=
  let* x := get_appender a in
  match a_kind x with
  | StdoutLogAppender =>
      if level_le (a_level x) e then let* t := format_with (a_formatter x) e in modify (print_stdout t) else ret tt
  | FileLogAppender f st last =>
      let* now := gets now_ in
      let* p := (if negb (now =? last) then let* st := reopen_stream st in ret (st, now) else ret (st, last)) in
      put_appender a (mkAppender (FileLogAppender f p.1 p.2) (a_level x) (a_formatter x)) ;;
      let* t := format_with (a_formatter x) e in
      let* st := write_stream f t p.1 in
      put_appender a (mkAppender (FileLogAppender f st p.2) (a_level x) (a_formatter x)) ;;
      if fail_ st then modify (print_stdout ("error" +:+ newline)) else ret tt
  end.

Fixpoint output_all (l : list nat) (e : LogEvent) : prog Logging unit :=
  match l with [] => ret tt | a :: l => output a e ;; output_all l e end.

(** [Logger::log]; a logger hands over to its root, which has none. *)
Fixpoint log (fuel : nat) (l : nat) (e : LogEvent) : prog Logging unit :=
  match fuel with
  | O => fail out_of_fuel
  | S fuel =>
      let* x := get_logger l in
      if level_le (l_level x) e then
        match l_appenders x with
        | [] => match l_root x with Some r => log fuel r e | None => ret tt end
        | _ => output_all (l_appenders x) e
        end
      else ret tt
  end.

(** [LOG_LEVEL(logger, level) << text]: the event is logged when its wrapper goes. *)
Definition LOG_LEVEL (l : nat) (level : Level) (file : string) (line threadId fiberId : Z) (t : string) : prog Logging unit :=
  let* x := get_logger l in
  if level_value (l_level x) <=? level_value level then
    let* now := gets now_ in
    log 2 l (write_event t (new_LogEvent l level file line 0 threadId fiberId now))
  else ret tt.
End Output.

(** ** Loggers *)

Definition default_layout : string := "%d{%Y-%m-%d %H:%M:%S}%T%t%T%F%T[%p]%T[%c]%T%f:%l%T%m%n".

Definition new_Logger (name : string) : prog Logging nat :=
  let* f := lift (new_LogFormatter default_layout) in
  fun s => (Ok (length (logger_heap s)), set_loggers (logger_heap s ++ [mkLogger name DEBUG [] (Some f) None]) s).

Definition SetLevel (l : nat) (level : Level) : prog Logging unit :=
  let* x := get_logger l in put_logger l (mkLogger (l_name x) level (l_appenders x) (l_formatter x) (l_root x)).

(** Give the logger's formatter to an appender that has none. *)
Definition inherit_formatter (f : option LogFormatter) (a : nat) : prog Logging unit :=
  let* x := get_appender a in
  match a_formatter x with Some _ => ret tt | None => put_appender a (mkAppender (a_kind x) (a_level x) f) end.

Fixpoint inherit_all (f : option LogFormatter) (l : list nat) : prog Logging unit :=
  match l with [] => ret tt | a :: l => inherit_formatter f a ;; inherit_all f l end.

(** [Logger::SetFormatter(LogFormatter::ptr)] *)
Definition SetFormatter (l : nat) (f : option LogFormatter) : prog Logging unit :=
  let* x := get_logger l in
  put_logger l (mkLogger (l_name x) (l_level x) (l_appenders x) f (l_root x)) ;;
  inherit_all f (l_appenders x).

(** [Logger::SetFormatter(const std::string&)]: an invalid pattern is reported on the
    standard output and changes nothing. *)
Definition SetFormatter_pattern (l : nat) (val : string) : prog Logging unit :=
  let* f := lift (new_LogFormatter val) in
  if error_ f then
    let* x := get_logger l in
    modify (print_stdout ("Logger SetFormatter name=" +:+ l_name x +:+ " value=" +:+ val +:+ " invalid formatter" +:+ newline))
  else SetFormatter l (Some f).

Definition AddAppender (l a : nat) : prog Logging unit :=
  let* x := get_logger l in
  inherit_formatter (l_formatter x) a ;;
  put_logger l (mkLogger (l_name x) (l_level x) (l_appenders x ++ [a]) (l_formatter x) (l_root x)).

(** The first occurrence is erased. *)
Fixpoint erase_first (a : nat) (l : list nat) : list nat :=
  match l with [] => [] | b :: l => if (b =? a)%nat then l else b :: erase_first a l end.

Definition DelAppender (l a : nat) : prog Logging unit :=
  let* x := get_logger l in
  put_logger l (mkLogger (l_name x) (l_level x) (erase_first a (l_appenders x)) (l_formatter x) (l_root x)).

Definition clearAppenders (l : nat) : prog Logging unit :=
  let* x := get_logger l in put_logger l (mkLogger (l_name x) (l_level x) [] (l_formatter x) (l_root x)).

(** ** The manager *)

Definition GetLogger (name : string) : prog Logging nat :=
  let* it := gets (fun s => map_find string_less name (loggers_ s)) in
  match it with
  | Some l => ret l
  | None =>
      let* l := new_Logger name in
      let* x := get_logger l in
      let* r := gets root_ in
      put_logger l (mkLogger (l_name x) (l_level x) (l_appenders x) (l_formatter x) (Some r)) ;;
      modify (fun s => set_names (map_assign string_less name l (loggers_ s)) s) ;;
      ret l
  end.

(** The constructor; the first logger made is the root. *)
Definition new_LoggerManager (now : Z) (files : string -> string) (answers : list bool) : result Logging :=
  match (let* l := new_Logger "root" in
         let* a := new_StdoutLogAppender DEBUG in
         AddAppender l a ;;
         modify (fun s => set_names (map_assign string_less "root" l (loggers_ s)) s) ;;
         ret tt) (mkLogging [] [] [] 0 now EmptyString files answers) with
  | (Ok _, s) => Ok s
  | (Fail e, _) => Fail e
  end.

(** ** Every attached appender can format *)

Section Invariant.

Definition formatted (h : list LogAppender) (a : nat) : Prop := exists x, h !! a = Some x /\ is_Some (a_formatter x).

Definition logger_ok (h : list LogAppender) (r : nat) (x : Logger) : Prop :=
  is_Some (l_formatter x) /\ Forall (formatted h) (l_appenders x) /\ (l_root x = None \/ l_root x = Some r).

(** Loggers have a formatter and so have their appenders; the root has no root; the
    names are those of the loggers. *)
Definition logging_ok (s : Logging) : Prop :=
  Forall (logger_ok (appender_heap s) (root_ s)) (logger_heap s) /\
  (exists r, logger_heap s !! root_ s = Some r /\ l_root r = None /\ l_name r = "root"%string) /\
  map_ok string_less (loggers_ s) /\
  Forall (fun p => exists x, logger_heap s !! p.2 = Some x /\ l_name x = p.1) (loggers_ s) /\
  map_find string_less "root" (loggers_ s) = Some (root_ s).

(** What printing leaves as it was. *)
Definition calm (s s' : Logging) : Prop :=
  logger_heap s' = logger_heap s /\ loggers_ s' = loggers_ s /\ root_ s' = root_ s /\
  length (appender_heap s') = length (appender_heap s) /\
  forall a, formatted (appender_heap s) a -> formatted (appender_heap s') a.

Lemma calm_refl s : calm s s.
Proof. by repeat split. Qed.

Lemma calm_trans s1 s2 s3 : calm s1 s2 -> calm s2 s3 -> calm s1 s3.
Proof. intros (?&?&?&?&?) (?&?&?&?&?). repeat split; try congruence. auto. Qed.

Lemma logger_ok_more h h' r x : (forall a, formatted h a -> formatted h' a) -> logger_ok h r x -> logger_ok h' r x.
Proof. intros Hh (H1 & H2 & H3). split_and!; [done| |done]. by eapply Forall_impl. Qed.

Lemma calm_ok s s' : calm s s' -> logging_ok s -> logging_ok s'.
Proof.
  intros (E1 & E2 & E3 & _ & Hf) (H1 & H2 & H3 & H4 & H5). unfold logging_ok. rewrite E1, E2, E3. split_and!; try done.
  eapply Forall_impl; [exact H1|]. intros x. by apply logger_ok_more.
Qed.

Lemma formatted_insert h a x b : (forall y, h !! a = Some y -> is_Some (a_formatter y) -> is_Some (a_formatter x)) ->
  formatted h b -> formatted (<[a := x]> h) b.
Proof.
  intros Hx (y & Hy & Hf). destruct (decide (b = a)) as [->|Hb].
  - exists x. split; [|by eapply Hx]. apply list_lookup_insert_eq. by eapply lookup_lt_Some.
  - exists y. by rewrite list_lookup_insert_ne.
Qed.

(** Writing an appender without taking its formatter away. *)
Lemma put_appender_calm s a x : (forall y, appender_heap s !! a = Some y -> is_Some (a_formatter y) -> is_Some (a_formatter x)) ->
  calm s (set_appenders (<[a := x]> (appender_heap s)) s).
Proof. intros Hx. repeat split; cbn; [by rewrite length_insert|]. intros b. by apply formatted_insert. Qed.

Lemma answer_calm s : runs answer s (fun _ s' => calm s s' /\ appender_heap s' = appender_heap s) (fun _ _ => False).
Proof. unfold runs, answer. by destruct (answers_ s). Qed.

Lemma open_calm st s : runs (open_stream st) s (fun _ s' => calm s s' /\ appender_heap s' = appender_heap s) (fun _ _ => False).
Proof.
  unfold open_stream. destruct (is_open st); [by apply runs_ret|]. apply runs_bind.
  eapply runs_weaken; [apply answer_calm| |done]. intros b s' ?. by apply runs_ret.
Qed.

Lemma write_calm f t st s : runs (write_stream f t st) s (fun _ s' => calm s s' /\ appender_heap s' = appender_heap s) (fun _ _ => False).
Proof.
  unfold write_stream. destruct (fail_ st); [by apply runs_ret|]. destruct (is_open st); [|by apply runs_ret]. cbn. apply runs_bind.
  eapply runs_weaken; [apply answer_calm| |done]. intros [|] s' [Hc Ha]; [|by apply runs_ret]. done.
Qed.

Context (strftime : string -> Z -> option string).

(** A date that does not fit into its buffer, the only way printing can go wrong. *)
Definition misfit (err : failure) : Prop := err = undefined /\ exists f t, strftime f t = None.

Lemma format_calm f e s : is_Some f -> runs (format_with strftime f e) s (fun _ s' => s' = s) (fun err s' => misfit err /\ s' = s).
Proof.
  intros [x ->]. unfold runs, format_with. destruct (format_items _ _ _ _) as [t|err] eqn:E; [done|]. split; [|done].
  revert err E. induction (items_ x) as [|i l IH]; intros err; cbn; [done|].
  destruct (format_item _ _ e i) eqn:Ei; [destruct (format_items _ _ _ l); [done|]; intros [= <-]; by apply IH|].
  intros [= <-]. destruct i; try done. cbn in Ei. destruct (strftime _ _) eqn:Es; [done|]. split; [congruence|eauto].
Qed.

Lemma output_calm a e s : formatted (appender_heap s) a ->
  runs (output strftime a e) s (fun _ s' => calm s s') (fun err s' => misfit err /\ calm s s').
Proof.
  intros (x & Hx & Hf). unfold output. apply runs_bind. eapply runs_ok; [unfold get_appender; by rewrite Hx|].
  destruct (a_kind x) as [|f st last] eqn:Ek.
  - destruct (level_le _ e); [|apply runs_ret, calm_refl]. apply runs_bind.
    eapply runs_weaken; [by apply format_calm| |by intros err s' [? ->]; split; [|try apply Hc2; try apply calm_refl]]. intros t s' E. rewrite E. done.
  - apply runs_bind, runs_ret, runs_bind.
    apply (runs_weaken _ _ (fun _ s' => calm s s' /\ appender_heap s' = appender_heap s) _ (fun _ _ => False)); [| |done].
    { destruct (negb (now_ s =? last)); [|by apply runs_ret]. apply runs_bind.
      eapply runs_weaken; [apply open_calm| |done]. intros st' s' ?. by apply runs_ret. }
    intros [st1 t1] s1 [Hc1 Ha1]. apply runs_bind. apply runs_ret. cbn [fst snd].
    set (s2 := set_appenders _ s1). assert (calm s s2) as Hc2.
    { eapply calm_trans; [exact Hc1|]. by apply put_appender_calm. }
    apply runs_bind. eapply runs_weaken; [by apply format_calm| |by intros err s' [? ->]; split]. intros t s' E'. rewrite E'. clear E' s'.
    apply runs_bind. eapply runs_weaken; [apply write_calm| |done]. intros st3 s3 [Hc3 Ha3].
    apply runs_bind. apply runs_ret. set (s4 := set_appenders _ s3). assert (calm s s4) as Hc4.
    { eapply calm_trans; [exact Hc2|]. eapply calm_trans; [exact Hc3|]. by apply put_appender_calm. }
    by destruct (fail_ st3).
Qed.

Lemma output_all_calm l e s : Forall (formatted (appender_heap s)) l ->
  runs (output_all strftime l e) s (fun _ s' => calm s s') (fun err s' => misfit err /\ calm s s').
Proof.
  revert s. induction l as [|a l IH]; intros s Hl; [apply runs_ret, calm_refl|]. apply Forall_cons in Hl as [Ha Hl].
  cbn. apply runs_bind. eapply runs_weaken; [by apply output_calm| |done]. intros u1 s1 Hc. cbn in Hc.
  eapply runs_weaken; [apply IH; eapply Forall_impl; [exact Hl|]; apply Hc|..].
  - intros u2 s2 Hc2. by eapply calm_trans.
  - intros err s2 [Hm Hc2]. split; [done|by eapply calm_trans].
Qed.

Lemma logger_at s l x : logging_ok s -> logger_heap s !! l = Some x -> logger_ok (appender_heap s) (root_ s) x.
Proof. intros [H _] Hx. rewrite Forall_forall in H. apply H. by eapply list_elem_of_lookup_2. Qed.

(** Two rounds are enough: the root has no root. *)
Lemma log_calm l e s : logging_ok s -> is_Some (logger_heap s !! l) ->
  runs (log strftime 2 l e) s (fun _ s' => calm s s') (fun err s' => misfit err /\ calm s s').
Proof.
  intros Hs [x Hx]. destruct (logger_at s l x Hs Hx) as (_ & Ha & Hr). cbn [log].
  apply runs_bind. eapply runs_ok; [unfold get_logger; by rewrite Hx|].
  destruct (level_le _ e); [|apply runs_ret, calm_refl]. destruct (l_appenders x) as [|a al]; [|by apply output_all_calm].
  destruct Hr as [->| ->]; [apply runs_ret, calm_refl|].
  destruct Hs as (Hall & (r & Hr & Hrr & _) & _). apply runs_bind. eapply runs_ok; [unfold get_logger; by rewrite Hr|].
  destruct (level_le _ e); [|apply runs_ret, calm_refl]. rewrite Hrr.
  destruct (l_appenders r) as [|b bl] eqn:Eb; [apply runs_ret, calm_refl|]. apply output_all_calm.
  rewrite Forall_forall in Hall. destruct (Hall r) as (_ & Hf & _); [by eapply list_elem_of_lookup_2|]. by rewrite <- Eb.
Qed.
End Invariant.

(** ** Any sequence of calls *)

Section Calls.
Context (strftime : string -> Z -> option string).

(** The calls of a program that holds pointers to loggers and appenders; a new formatter
    is given to an appender unless its pattern is wrong, as the listener of the
    configuration does. *)
Inductive gop :=
  | GGetLogger (name : string)
  | GStdout (level : Level)
  | GFile (filename : string) (level : Level)
  | GAddAppender (l a : nat)
  | GDelAppender (l a : nat)
  | GClearAppenders (l : nat)
  | GSetLevel (l : nat) (level : Level)
  | GSetFormatter (l : nat) (pattern : string)
  | GAppenderFormatter (a : nat) (pattern : string)
  | GAppenderLevel (a : nat) (level : Level)
  | GLog (l : nat) (level : Level) (file : string) (line threadId fiberId : Z) (t : string)
  | GTime (t : Z).

Definition run_gop (o : gop) : prog Logging unit :=
  match o with
  | GGetLogger name => let* _ := GetLogger name in ret tt
  | GStdout level => let* _ := new_StdoutLogAppender level in ret tt
  | GFile filename level => let* _ := new_FileLogAppender filename level in ret tt
  | GAddAppender l a => AddAppender l a
  | GDelAppender l a => DelAppender l a
  | GClearAppenders l => clearAppenders l
  | GSetLevel l level => SetLevel l level
  | GSetFormatter l pattern => SetFormatter_pattern l pattern
  | GAppenderFormatter a pattern =>
      let* f := lift (new_LogFormatter pattern) in if error_ f then ret tt else SetFormatter_appender a (Some f)
  | GAppenderLevel a level => SetLevel_appender a level
  | GLog l level file line threadId fiberId t => LOG_LEVEL strftime l level file line threadId fiberId t
  | GTime t => modify (set_now t)
  end.

(** The pointers are to objects. *)
Definition addressed (s : Logging) (o : gop) : Prop :=
  match o with
  | GAddAppender l a | GDelAppender l a => is_Some (logger_heap s !! l) /\ is_Some (appender_heap s !! a)
  | GClearAppenders l | GSetLevel l _ | GSetFormatter l _ | GLog l _ _ _ _ _ _ => is_Some (logger_heap s !! l)
  | GAppenderFormatter a _ | GAppenderLevel a _ => is_Some (appender_heap s !! a)
  | _ => True
  end.

Inductive reached : Logging -> Prop :=
  | reached_start now files answers s : new_LoggerManager now files answers = Ok s -> reached s
  | reached_step s o : reached s -> addressed s o -> reached (run_gop o s).2.

(** Objects and names stay. *)
Definition later (s s' : Logging) : Prop :=
  root_ s' = root_ s /\
  (forall l x, logger_heap s !! l = Some x -> exists x', logger_heap s' !! l = Some x' /\ l_name x' = l_name x) /\
  (forall n l, map_find string_less n (loggers_ s) = Some l -> map_find string_less n (loggers_ s') = Some l) /\
  (forall a, is_Some (appender_heap s !! a) -> is_Some (appender_heap s' !! a)).

Definition fine (s s' : Logging) : Prop := logging_ok s' /\ later s s'.

Lemma later_refl s : later s s.
Proof. split_and!; eauto. Qed.

Lemma later_trans s1 s2 s3 : later s1 s2 -> later s2 s3 -> later s1 s3.
Proof.
  intros (E1 & L1 & N1 & A1) (E2 & L2 & N2 & A2). split_and!; [congruence| |auto|auto].
  intros l x (x1 & Hx1 & Hn1)%L1. destruct (L2 _ _ Hx1) as (x2 & Hx2 & Hn2). exists x2. split; congruence.
Qed.

Lemma fine_refl s : logging_ok s -> fine s s.
Proof. intros Hs. split; [done|apply later_refl]. Qed.

Lemma fine_trans s1 s2 s3 : fine s1 s2 -> fine s2 s3 -> fine s1 s3.
Proof. intros [_ H1] [H2 H3]. split; [done|by eapply later_trans]. Qed.

Lemma calm_fine s s' : logging_ok s -> calm s s' -> fine s s'.
Proof.
  intros Hs Hc. split; [by eapply calm_ok|]. destruct Hc as (E1 & E2 & E3 & El & _). unfold later. rewrite E1, E2, E3. split_and!; eauto.
  intros a. by rewrite !lookup_lt_is_Some, El.
Qed.

Lemma put_logger_fine s l x x' : logging_ok s -> logger_heap s !! l = Some x ->
  logger_ok (appender_heap s) (root_ s) x' -> l_name x' = l_name x -> l_root x' = l_root x ->
  fine s (set_loggers (<[l := x']> (logger_heap s)) s).
Proof.
  intros (H1 & (r & Hr & Hrr & Hrn) & H3 & H4 & H5) Hx Hx' Hn Hroot.
  assert (forall k y, logger_heap s !! k = Some y -> exists y', <[l := x']> (logger_heap s) !! k = Some y' /\ l_name y' = l_name y /\ l_root y' = l_root y) as Hk.
  { intros k y Hy. destruct (decide (k = l)) as [->|Hne].
    - exists x'. rewrite list_lookup_insert_eq by (by eapply lookup_lt_Some). split_and!; congruence.
    - exists y. by rewrite list_lookup_insert_ne. }
  split; split_and!; cbn; eauto.
  - by apply Forall_insert.
  - destruct (Hk _ _ Hr) as (r' & ? & ? & ?). exists r'. split_and!; congruence.
  - eapply Forall_impl; [exact H4|]. intros p (y & Hy & Hyn). destruct (Hk _ _ Hy) as (y' & ? & ? & _). exists y'. split; congruence.
  - intros k y Hy. destruct (Hk _ _ Hy) as (y' & ? & ? & _). eauto.
Qed.

Lemma new_appender_fine x s : logging_ok s -> runs (new_appender x) s (fun a s' => fine s s' /\ appender_heap s' !! a = Some x) (fun _ _ => False).
Proof.
  intros (H1 & H2 & H3 & H4 & H5). unfold runs, new_appender. split.
  - assert (forall a y, appender_heap s !! a = Some y -> (appender_heap s ++ [x]) !! a = Some y) as Hk.
    { intros a y Hy. by rewrite lookup_app_l by (by eapply lookup_lt_Some). }
    split; split_and!; cbn; eauto.
    + eapply Forall_impl; [exact H1|]. intros y. apply logger_ok_more. intros a (z & Hz & Hf). exists z. split; [by apply Hk|done].
    + intros a [y Hy]. exists y. by apply Hk.
  - cbn. by rewrite lookup_app_r, Nat.sub_diag by done.
Qed.

Lemma inherit_calm f a s : is_Some f -> is_Some (appender_heap s !! a) ->
  runs (inherit_formatter f a) s (fun _ s' => calm s s' /\ formatted (appender_heap s') a) (fun _ _ => False).
Proof.
  intros Hf [x Hx]. unfold inherit_formatter. apply runs_bind. eapply runs_ok; [unfold get_appender; by rewrite Hx|].
  destruct (a_formatter x) as [g|] eqn:Eg.
  - apply runs_ret. split; [apply calm_refl|]. exists x. by rewrite Eg.
  - apply runs_modify. split; [by apply put_appender_calm|]. eexists. cbn. rewrite list_lookup_insert_eq by (by eapply lookup_lt_Some). done.
Qed.

Lemma inherit_all_calm f l s : is_Some f -> Forall (formatted (appender_heap s)) l ->
  runs (inherit_all f l) s (fun _ s' => calm s s') (fun _ _ => False).
Proof.
  intros Hf. revert s. induction l as [|a l IH]; intros s Hl; [apply runs_ret, calm_refl|]. apply Forall_cons in Hl as [(x & Hx & _) Hl].
  cbn. apply runs_bind. eapply runs_weaken; [apply (inherit_calm f a s Hf); by eexists| |done]. intros u1 s1 [Hc _].
  eapply runs_weaken; [apply IH; eapply Forall_impl; [exact Hl|]; apply Hc| |done]. intros u2 s2 Hc2. by eapply calm_trans.
Qed.

Lemma reopen_calm a s x f st t : appender_heap s !! a = Some x -> a_kind x = FileLogAppender f st t ->
  runs (reopen a) s (fun _ s' => calm s s') (fun _ _ => False).
Proof.
  intros Hx Hk. unfold reopen. apply runs_bind. eapply runs_ok; [unfold get_appender; by rewrite Hx|]. rewrite Hk. apply runs_bind.
  eapply runs_weaken; [apply open_calm| |done]. intros st' s1 [Hc Ha]. apply runs_bind, runs_modify, runs_ret.
  eapply calm_trans; [exact Hc|]. apply put_appender_calm. rewrite Ha. intros y Hy. by simplify_eq.
Qed.

Lemma new_logger_fine name s : logging_ok s ->
  runs (new_Logger name) s
    (fun l s' => fine s s' /\ root_ s' = root_ s /\ loggers_ s' = loggers_ s /\ appender_heap s' = appender_heap s /\ l = length (logger_heap s) /\
       exists x, logger_heap s' = logger_heap s ++ [x] /\ l_name x = name /\ l_appenders x = [] /\ is_Some (l_formatter x))
    (fun _ _ => False).
Proof.
  intros (H1 & (r & Hr & Hrr & Hrn) & H3 & H4 & H5). unfold new_Logger. rewrite formatter_tokens. apply runs_bind. cbn.
  set (x := mkLogger name DEBUG [] _ None).
  assert (forall l y, logger_heap s !! l = Some y -> (logger_heap s ++ [x]) !! l = Some y) as Hk.
  { intros l y Hy. by rewrite lookup_app_l by (by eapply lookup_lt_Some). }
  unfold runs. split_and!; try done; [|by exists x].
  split; split_and!; cbn; eauto.
  - apply Forall_app. split; [done|]. repeat constructor; by eauto.
  - eapply Forall_impl; [exact H4|]. intros p (y & Hy & Hyn). exists y. split; [by apply Hk|done].
Qed.

Lemma find_assign_string k k' (v : nat) m : map_ok string_less m ->
  map_find string_less k (map_assign string_less k' v m) = if decide (k = k') then Some v else map_find string_less k m.
Proof.
  intros Hm. rewrite (find_assign string_less) by done. unfold equiv_key.
  destruct (string_less k k') eqn:E1, (string_less k' k) eqn:E2; cbn; destruct (decide (k = k')) as [->|Hk]; try done.
  all: try (rewrite (less_irrefl k') in *; done). by destruct Hk; apply string_less_total.
Qed.

Lemma map_find_In k (v : nat) (m : list (string * nat)) : map_find string_less k m = Some v -> (k, v) ∈ m.
Proof.
  induction m as [|[k' v'] m IH]; cbn; [done|]. destruct (string_less k' k) eqn:E1; [right; by apply IH|].
  destruct (string_less k k') eqn:E2; [done|]. intros [= ->]. rewrite (string_less_total k k' E2 E1). by left.
Qed.

Lemma map_assign_elem k (v : nat) (m : list (string * nat)) p : p ∈ map_assign string_less k v m -> p = (k, v) \/ p ∈ m.
Proof.
  induction m as [|[k' v'] m IH]; cbn; [by intros ->%list_elem_of_singleton; left|].
  destruct (string_less k' k) eqn:E1.
  - intros [->|[->|Hp]%IH]%elem_of_cons; [right; by left|by left|right; by right].
  - destruct (string_less k k') eqn:E2; [intros [->|Hp]%elem_of_cons; auto|].
    rewrite (string_less_total k k' E2 E1). intros [->|Hp]%elem_of_cons; [by left|right; by right].
Qed.

Lemma get_logger_fine name s : logging_ok s ->
  runs (GetLogger name) s (fun l s' => fine s s' /\ map_find string_less name (loggers_ s') = Some l /\
    exists x, logger_heap s' !! l = Some x /\ l_name x = name) (fun _ _ => False).
Proof.
  intros Hs. unfold GetLogger. apply runs_bind. eapply runs_ok; [done|].
  destruct (map_find string_less name (loggers_ s)) as [l|] eqn:Ef.
  { apply runs_ret. split_and!; [by apply fine_refl|done|]. destruct Hs as (_ & _ & _ & H4 & _). rewrite Forall_forall in H4.
    destruct (H4 _ (map_find_In _ _ _ Ef)) as (x & Hx & Hn). eauto. }
  apply runs_bind. eapply runs_weaken; [by apply new_logger_fine| |done].
  intros l s1 (Hf1 & Hr1 & Hn1 & Ha1 & -> & x & Hh1 & Hx & Hxa & Hxf). set (l := length (logger_heap s)) in *.
  assert (logger_heap s1 !! l = Some x) as Hl by (rewrite Hh1; apply list_lookup_middle; done).
  apply runs_bind. eapply runs_ok; [unfold get_logger; by rewrite Hl|]. apply runs_bind. eapply runs_ok; [done|].
  apply runs_bind, runs_modify, runs_bind, runs_modify, runs_ret.
  set (x' := mkLogger _ _ _ _ (Some (root_ s1))).
  destruct Hs as (H1 & (r & Hr & Hrr & Hrn) & H3 & H4 & H5).
  assert (<[l := x']> (logger_heap s1) = logger_heap s ++ [x']) as Hh2.
  { rewrite Hh1. unfold l. by rewrite insert_app_r_alt, Nat.sub_diag by done. }
  assert (forall k y, logger_heap s !! k = Some y -> (logger_heap s ++ [x']) !! k = Some y) as Hk.
  { intros k y Hy. by rewrite lookup_app_l by (by eapply lookup_lt_Some). }
  assert ((logger_heap s ++ [x']) !! l = Some x') as Hl' by (apply list_lookup_middle; done).
  unfold fine, logging_ok, later. cbn. rewrite Hh2, Hn1, Ha1, Hr1. rewrite !find_assign_string by done. split_and!; eauto.
  - apply Forall_app. split; [done|]. constructor; [|done]. unfold logger_ok. cbn. rewrite Hxa, Hr1. split_and!; [done|done|by right].
  - apply map_assign_ok; [apply _|done].
  - apply Forall_forall. intros p [->|Hp]%map_assign_elem; [by eauto|]. rewrite Forall_forall in H4. destruct (H4 p Hp) as (y & Hy & Hyn). eauto.
  - destruct (decide _) as [<-|]; [congruence|done].
  - intros n k Hk'. rewrite find_assign_string by done. destruct (decide (n = name)) as [->|]; [congruence|done].
  - rewrite decide_True by done. done.
Qed.

(** Replacing a logger's level, appenders or formatter. *)
Lemma change_logger_fine l x x' s : logging_ok s -> logger_heap s !! l = Some x ->
  is_Some (l_formatter x') -> Forall (formatted (appender_heap s)) (l_appenders x') -> l_name x' = l_name x -> l_root x' = l_root x ->
  fine s (set_loggers (<[l := x']> (logger_heap s)) s).
Proof.
  intros Hs Hx Hf Ha Hn Hr. eapply put_logger_fine; eauto. split_and!; [done|done|]. rewrite Hr. apply (logger_at s l x Hs Hx).
Qed.

Lemma erase_first_sub a b l : b ∈ erase_first a l -> b ∈ l.
Proof.
  induction l as [|c l IH]; cbn; [done|]. destruct (c =? a)%nat; [by right|].
  intros [->|Hb]%elem_of_cons; [by left|right; by apply IH].
Qed.

Lemma run_gop_fine o s : logging_ok s -> addressed s o ->
  runs (run_gop o) s (fun _ s' => fine s s') (fun err s' => misfit strftime err /\ fine s s').
Proof.
  intros Hs Ha. destruct o as [name|lv|f lv|l a|l a|l|l lv|l p|a p|a lv|l lv file line ti fi t|t]; cbn [run_gop addressed] in *.
  - apply runs_bind. eapply runs_weaken; [by apply get_logger_fine|by intros l s' (? & _); apply runs_ret|done].
  - apply runs_bind. eapply runs_weaken; [by apply new_appender_fine|by intros a s' (? & _); apply runs_ret|done].
  - apply runs_bind, runs_bind. eapply runs_weaken; [by apply new_appender_fine| |done]. intros a s1 [Hf Hx].
    apply runs_bind. eapply runs_weaken; [by eapply reopen_calm| |done]. intros b s2 Hc. apply runs_ret, runs_ret.
    eapply fine_trans; [done|]. apply calm_fine; [apply Hf|done].
  - destruct Ha as [[x Hx] Hy]. destruct (logger_at s l x Hs Hx) as (Hf & Hal & _). apply runs_bind. eapply runs_ok; [unfold get_logger; by rewrite Hx|].
    apply runs_bind. eapply runs_weaken; [by apply inherit_calm| |done]. intros u s1 [Hc Hfa]. apply runs_modify.
    eapply fine_trans; [by apply calm_fine|]. assert (Hc' := Hc). destruct Hc' as (E1 & _ & _ & _ & Hk).
    apply (change_logger_fine l x); [by eapply calm_ok|by rewrite E1|done| |done|done].
    apply Forall_app. split; [eapply Forall_impl; [exact Hal|]; apply Hk|by constructor].
  - destruct Ha as [[x Hx] _]. destruct (logger_at s l x Hs Hx) as (Hf & Hal & _). apply runs_bind. eapply runs_ok; [unfold get_logger; by rewrite Hx|].
    apply runs_modify, (change_logger_fine l x); try done. rewrite Forall_forall in *. intros b Hb%erase_first_sub. by apply Hal.
  - destruct Ha as [x Hx]. destruct (logger_at s l x Hs Hx) as (Hf & Hal & _). apply runs_bind. eapply runs_ok; [unfold get_logger; by rewrite Hx|].
    by apply runs_modify, (change_logger_fine l x).
  - destruct Ha as [x Hx]. destruct (logger_at s l x Hs Hx) as (Hf & Hal & _). apply runs_bind. eapply runs_ok; [unfold get_logger; by rewrite Hx|].
    by apply runs_modify, (change_logger_fine l x).
  - destruct Ha as [x Hx]. destruct (logger_at s l x Hs Hx) as (Hf & Hal & _). unfold SetFormatter_pattern. rewrite formatter_tokens. apply runs_bind, runs_ret.
    destruct (error_ _).
    + apply runs_bind. eapply runs_ok; [unfold get_logger; by rewrite Hx|]. apply runs_modify. by apply calm_fine; [|repeat split].
    + apply runs_bind. eapply runs_ok; [unfold get_logger; by rewrite Hx|]. apply runs_bind, runs_modify.
      match goal with |- runs _ ?s1 _ _ => assert (fine s s1) as Hf1 by (by apply (change_logger_fine l x); eauto) end.
      eapply runs_weaken; [apply inherit_all_calm; [by eexists|done]| |done]. intros u s2 Hc.
      eapply fine_trans; [exact Hf1|]. apply calm_fine; [apply Hf1|done].
  - destruct Ha as [x Hx]. rewrite formatter_tokens. apply runs_bind, runs_ret. destruct (error_ _); [by apply runs_ret, fine_refl|].
    apply runs_bind. eapply runs_ok; [unfold get_appender; by rewrite Hx|]. apply runs_modify, calm_fine; [done|]. apply put_appender_calm. by eauto.
  - destruct Ha as [x Hx]. apply runs_bind. eapply runs_ok; [unfold get_appender; by rewrite Hx|].
    apply runs_modify, calm_fine; [done|]. apply put_appender_calm. intros y Hy. by simplify_eq.
  - destruct Ha as [x Hx]. apply runs_bind. eapply runs_ok; [unfold get_logger; by rewrite Hx|]. destruct (_ <=? _); [|by apply runs_ret, fine_refl].
    apply runs_bind, runs_ret. eapply runs_weaken; [apply log_calm; eauto|..].
    + intros u s' Hc. by apply calm_fine.
    + intros err s' [Hm Hc]. split; [done|by apply calm_fine].
  - apply runs_modify, calm_fine; [done|]. by repeat split.
Qed.

Lemma manager_ok now files answers s : new_LoggerManager now files answers = Ok s -> logging_ok s.
Proof.
  unfold new_LoggerManager, new_Logger. rewrite formatter_tokens. cbn. intros [= <-]. unfold logging_ok. cbn. split_and!.
  - repeat constructor; eauto. cbn. eexists. done.
  - eauto.
  - repeat constructor.
  - repeat constructor. eauto.
  - done.
Qed.

Lemma reached_ok s : reached s -> logging_ok s.
Proof.
  induction 1 as [now files answers s E|s o _ IH Ha]; [by eapply manager_ok|].
  pose proof (run_gop_fine o s IH Ha) as Hr. unfold runs in Hr. destruct (run_gop o s) as [[u|e] s']; [apply Hr|apply Hr].
Qed.

(** C31: Whatever loggers, appenders, formatters and levels a program sets up, and in
    whichever order, no call of the logging library dereferences a null pointer or goes
    round for ever: every appender of every logger can format, and a logger without
    appenders hands its events to a root that has no root.  Only a date that does not
    fit into its buffer can go wrong. *)
Theorem logging_safe s o : reached s -> addressed s o ->
  ((run_gop o s).1 = Ok tt \/ (run_gop o s).1 = Fail undefined /\ exists f t, strftime f t = None) /\ logging_ok (run_gop o s).2.
Proof.
  intros Hs%reached_ok Ha. pose proof (run_gop_fine o s Hs Ha) as Hr. unfold runs in Hr.
  destruct (run_gop o s) as [[[]|e] s']; [|destruct Hr as [[-> Hm] Hr]]; (split; [auto|apply Hr]).
Qed.

(** Any number of calls. *)
Inductive reached_from (s : Logging) : Logging -> Prop :=
  | from_here : reached_from s s
  | from_step s1 o : reached_from s s1 -> addressed s1 o -> reached_from s (run_gop o s1).2.

Lemma from_fine s s' : logging_ok s -> reached_from s s' -> fine s s'.
Proof.
  intros Hs. induction 1 as [|s1 o _ IH Ha]; [by apply fine_refl|]. eapply fine_trans; [exact IH|].
  pose proof (run_gop_fine o s1 (proj1 IH) Ha) as Hr. unfold runs in Hr. by destruct (run_gop o s1) as [[u|e] s2]; [|destruct Hr].
Qed.

(** A name stands for one logger: asking for it gives a logger of that name, asking
    for it again at any later time gives the same one, two different names never give
    the same one, and the name [root] is the root. *)
Theorem logger_by_name s name : reached s -> exists l s1,
  GetLogger name s = (Ok l, s1) /\ (exists x, logger_heap s1 !! l = Some x /\ l_name x = name) /\
  (name = "root"%string -> l = root_ s1) /\
  forall s2, reached_from s1 s2 -> GetLogger name s2 = (Ok l, s2) /\
  (forall name' s3, GetLogger name' s2 = (Ok l, s3) -> name' = name).
Proof.
  intros Hs%reached_ok. destruct (runs_total _ _ _ (get_logger_fine name s Hs)) as (l & s1 & E & Hf & Hm & x & Hx & Hn).
  exists l, s1. split_and!; [done|eauto|..].
  - intros ->. destruct Hf as [(_ & _ & _ & _ & H5) _]. congruence.
  - intros s2 Hfrom. pose proof (from_fine s1 s2 (proj1 Hf) Hfrom) as [H1 (_ & H2 & H3 & _)]. pose proof (H3 _ _ Hm) as Hm2. split.
    + unfold GetLogger, bind, gets. cbn. by rewrite Hm2.
    + intros name' s3 E'. pose proof (get_logger_fine name' s2 H1) as Hg. unfold runs in Hg. rewrite E' in Hg.
      destruct Hg as ((H4 & _ & H5 & _) & _ & y & Hy & Hyn). destruct (H2 _ _ Hx) as (z & Hz & Hzn). destruct (H5 _ _ Hz) as (w & Hw & Hwn). congruence.
Qed.
End Calls.

(** ** Where an event goes *)

Section Delivery.
Context (strftime : string -> Z -> option string).

(** The file an appender writes to; none for the standard output. *)
Definition target (x : LogAppender) : option string :=
  match a_kind x with StdoutLogAppender => None | FileLogAppender f _ _ => Some f end.

Definition text_of (s : Logging) (e : LogEvent) (f : option LogFormatter) : result string :=
  match f with Some f => format_items strftime (name_in (logger_heap s)) e (items_ f) | None => Fail null_deref end.

(** What an appender prints of an event, and where; an appender to the standard output
    has a level of its own, one to a file prints everything. *)
Definition line (s : Logging) (e : LogEvent) (a : nat) : option (option string * string) :=
  match appender_heap s !! a with
  | Some x =>
      match target x, text_of s e (a_formatter x) with
      | None, Ok t => if level_le (a_level x) e then Some (None, t) else None
      | Some f, Ok t => Some (Some f, t)
      | _, Fail _ => None
      end
  | None => None
  end.

Fixpoint written (k : option string) (l : list (option string * string)) : string :=
  match l with
  | [] => EmptyString
  | (k', t) :: l => if decide (k' = k) then t +:+ written k l else written k l
  end.

(** The appenders that see an event: the logger's own, or the root's if it has none,
    provided that the levels on the way let it pass. *)
Definition receivers (s : Logging) (l : nat) (e : LogEvent) : list nat :=
  match logger_heap s !! l with
  | None => []
  | Some x =>
      if level_le (l_level x) e then
        match l_appenders x, l_root x with
        | [], Some r => match logger_heap s !! r with
                        | Some y => if level_le (l_level y) e then l_appenders y else []
                        | None => []
                        end
        | al, _ => al
        end
      else []
  end.

(** The files are open, and the system has no errors in store. *)
Definition healthy (s : Logging) : Prop :=
  answers_ s = [] /\
  Forall (fun x => match a_kind x with FileLogAppender _ st _ => st = mkOfstream true false | StdoutLogAppender => True end) (appender_heap s).

(** What an event's lines depend on. *)
Definition view (s : Logging) : list (option string * Level * option LogFormatter) * list Logger :=
  ((fun x => (target x, a_level x, a_formatter x)) <$> appender_heap s, logger_heap s).

Definition printable (s : Logging) (e : LogEvent) (a : nat) : Prop :=
  exists x t, appender_heap s !! a = Some x /\ text_of s e (a_formatter x) = Ok t.

Lemma view_lookup s s' a x : view s' = view s -> appender_heap s !! a = Some x ->
  exists x', appender_heap s' !! a = Some x' /\ target x' = target x /\ a_level x' = a_level x /\ a_formatter x' = a_formatter x.
Proof.
  intros Hv Hx. injection Hv as Hv _. pose proof (f_equal (.!! a) Hv) as Ha. cbn in Ha. rewrite !list_lookup_fmap, Hx in Ha.
  destruct (appender_heap s' !! a) as [x'|]; [|done]. injection Ha as ? ? ?. eauto.
Qed.

Lemma view_text s s' e f : view s' = view s -> text_of s' e f = text_of s e f.
Proof. intros Hv. injection Hv as _ Hl. unfold text_of. by rewrite Hl. Qed.

Lemma view_line s s' e a : view s' = view s -> line s' e a = line s e a.
Proof.
  intros Hv. unfold line. destruct (appender_heap s !! a) as [x|] eqn:Hx.
  - destruct (view_lookup s s' a x Hv Hx) as (x' & -> & -> & -> & ->). by rewrite (view_text s s' e _ Hv).
  - destruct (appender_heap s' !! a) as [x'|] eqn:Hx'; [|done]. symmetry in Hv.
    destruct (view_lookup s' s a x' Hv Hx') as (y & Hy & _). congruence.
Qed.

Lemma view_printable s s' e a : view s' = view s -> printable s e a -> printable s' e a.
Proof.
  intros Hv (x & t & Hx & Ht). destruct (view_lookup s s' a x Hv Hx) as (x' & Hx' & _ & _ & Hf).
  exists x', t. split; [done|]. by rewrite Hf, (view_text s s' e _ Hv).
Qed.

(** [s'] is [s] after the lines [ls] were printed. *)
Definition printed (ls : list (option string * string)) (s s' : Logging) : Prop :=
  view s' = view s /\ healthy s' /\ stdout_ s' = stdout_ s +:+ written None ls /\
  forall f, files_ s' f = files_ s f +:+ written (Some f) ls.

Lemma written_app k l1 l2 : written k (l1 ++ l2) = written k l1 +:+ written k l2.
Proof.
  induction l1 as [|[k' t] l1 IH]; [done|]. cbn [app written]. rewrite IH. destruct (decide _); [|done]. by rewrite str_app_assoc.
Qed.

Lemma printed_nil s : healthy s -> printed [] s s.
Proof. intros Hh. split_and!; try done; intros; cbn; by rewrite str_app_nil. Qed.

Lemma printed_trans l1 l2 s1 s2 s3 : printed l1 s1 s2 -> printed l2 s2 s3 -> printed (l1 ++ l2) s1 s3.
Proof.
  intros (V1 & _ & O1 & F1) (V2 & H2 & O2 & F2). split_and!; [congruence|done|..].
  - by rewrite O2, O1, written_app, str_app_assoc.
  - intros f. by rewrite F2, F1, written_app, str_app_assoc.
Qed.

Lemma view_put_file s a x f st t st' t' : appender_heap s !! a = Some x -> a_kind x = FileLogAppender f st t ->
  (fun x => (target x, a_level x, a_formatter x)) <$> <[a := mkAppender (FileLogAppender f st' t') (a_level x) (a_formatter x)]> (appender_heap s) =
  (fun x => (target x, a_level x, a_formatter x)) <$> appender_heap s.
Proof.
  intros Hx Hk. rewrite list_fmap_insert. apply list_insert_id. rewrite list_lookup_fmap, Hx. cbn. unfold target. by rewrite Hk.
Qed.

Lemma output_prints a e s : healthy s -> printable s e a ->
  exists s', output strftime a e s = (Ok tt, s') /\ printed (match line s e a with Some p => [p] | None => [] end) s s'.
Proof.
  intros [Ha Hh] (x & t & Hx & Ht). unfold line. rewrite Hx, Ht. unfold output, bind, get_appender. rewrite Hx.
  unfold target. destruct (a_kind x) as [|f st last] eqn:Ek.
  - destruct (level_le (a_level x) e); [|exists s; split; [done|by apply printed_nil]].
    unfold text_of in Ht. destruct (a_formatter x) as [fm|]; [|done]. unfold format_with. rewrite Ht.
    eexists. split; [done|]. split_and!; [done|done|cbn; by rewrite str_app_nil|]. intros g. cbn. by rewrite str_app_nil.
  - assert (st = mkOfstream true false) as ->.
    { rewrite Forall_forall in Hh. specialize (Hh x (list_elem_of_lookup_2 _ _ _ Hx)). by rewrite Ek in Hh. }
    unfold text_of in Ht. destruct (a_formatter x) as [fm|] eqn:Efm; [|done].
    pose proof (view_put_file s a x f _ last (mkOfstream true false) (if negb (now_ s =? last) then now_ s else last) Hx Ek) as Hv.
    rewrite Efm in Hv.
    set (x' := mkAppender (FileLogAppender f (mkOfstream true false) (if negb (now_ s =? last) then now_ s else last)) (a_level x) (Some fm)) in *.
    exists (print_file f t (set_appenders (<[a := x']> (appender_heap s)) s)). split.
    + unfold gets, reopen_stream, open_stream, answer, bind, ret. cbn.
      destruct (negb (now_ s =? last)); cbn; rewrite ?Ha; cbn; unfold format_with; cbn; rewrite Ht; unfold write_stream; cbn;
        unfold bind, answer, modify; cbn; rewrite ?Ha; cbn; unfold set_appenders, print_file; cbn; by rewrite list_insert_insert_eq.
    + split_and!; cbn.
      * unfold view. cbn. by rewrite Hv.
      * split; [done|]. cbn. by apply Forall_insert.
      * by rewrite str_app_nil.
      * intros g. destruct (String.eqb_spec g f) as [->|Hg]; [rewrite decide_True by done; by rewrite str_app_nil|].
        rewrite decide_False by congruence. by rewrite str_app_nil.
Qed.

Lemma output_all_prints l e s : healthy s -> Forall (printable s e) l ->
  exists s', output_all strftime l e s = (Ok tt, s') /\ printed (omap (line s e) l) s s'.
Proof.
  revert s. induction l as [|a l IH]; intros s Hh Hl; [exists s; split; [done|by apply printed_nil]|].
  apply Forall_cons in Hl as [Ha Hl]. destruct (output_prints a e s Hh Ha) as (s1 & E1 & H1).
  destruct (IH s1) as (s2 & E2 & H2); [apply H1|eapply Forall_impl; [exact Hl|]; intros b; apply view_printable, H1|].
  exists s2. split; [cbn; unfold bind; by rewrite E1|]. assert (omap (line s1 e) l = omap (line s e) l) as Hom.
  { apply list_omap_ext, Forall2_same_length_lookup_2; [done|]. intros i b c Hb Hc. simplify_eq. apply view_line, H1. }
  rewrite Hom in H2. replace (omap (line s e) (a :: l)) with ((match line s e a with Some p => [p] | None => [] end) ++ omap (line s e) l)
    by (cbn; by destruct (line s e a)). by eapply printed_trans.
Qed.

(** C30: An event reaches exactly the appenders it should, in their order: those of the
    logger, or those of the root when the logger has none, if the levels let it pass.
    The standard output and every file grow by exactly the lines of the appenders that
    write to them, formatted as each appender says, and by nothing else, also when the
    second changes and the files are opened again. *)
Theorem log_delivers s l e : reached strftime s -> is_Some (logger_heap s !! l) -> healthy s -> Forall (printable s e) (receivers s l e) ->
  exists s', log strftime 2 l e s = (Ok tt, s') /\ healthy s' /\
  stdout_ s' = stdout_ s +:+ written None (omap (line s e) (receivers s l e)) /\
  forall f, files_ s' f = files_ s f +:+ written (Some f) (omap (line s e) (receivers s l e)).
Proof.
  intros Hs%reached_ok [x Hx] Hh Hp.
  enough (exists s', log strftime 2 l e s = (Ok tt, s') /\ printed (omap (line s e) (receivers s l e)) s s') as (s' & E & _ & ? & ? & ?) by eauto.
  destruct (logger_at s l x Hs Hx) as (_ & _ & Hr). unfold receivers in *. rewrite Hx in *. cbn [log]. unfold bind, get_logger. rewrite Hx.
  destruct (level_le (l_level x) e); [|exists s; split; [done|by apply printed_nil]].
  destruct (l_appenders x) as [|a al]; [|by apply output_all_prints].
  destruct Hr as [Hr|Hr]; rewrite Hr in *; [exists s; split; [done|by apply printed_nil]|].
  destruct Hs as (_ & (r & Hroot & Hrr & _) & _). rewrite Hroot in *.
  destruct (level_le (l_level r) e); [|exists s; split; [done|by apply printed_nil]].
  rewrite Hrr. destruct (l_appenders r) as [|b bl]; [exists s; split; [done|by apply printed_nil]|]. by apply output_all_prints.
Qed.
End Delivery.

(** ** What the loggers do not do *)

Section Limits.
Context (strftime : string -> Z -> option string).

(** Once a write to its file has failed, an appender never writes again: [reopen] does
    not close a stream that has failed, and a stream that is not closed cannot be
    opened. *)
Theorem file_error_is_final a e s x f last : appender_heap s !! a = Some x -> a_kind x = FileLogAppender f (mkOfstream true true) last ->
  let s' := (output strftime a e s).2 in
  files_ s' = files_ s /\ exists x' last', appender_heap s' !! a = Some x' /\ a_kind x' = FileLogAppender f (mkOfstream true true) last'.
Proof.
  intros Hx Hk. pose proof (lookup_lt_Some _ _ _ Hx) as Ha. unfold output, bind, get_appender. rewrite Hx, Hk. unfold gets, reopen_stream, open_stream, ret. cbn.
  destruct (negb (now_ s =? last)); cbn; (destruct (format_with _ _ _ _) as [[t|err] s1] eqn:E; unfold format_with in E;
    destruct (a_formatter x); simplify_eq/=; (split; [done|]); rewrite ?list_insert_insert_eq; eauto using list_lookup_insert_eq).
Qed.

(** Appenders that have a formatter keep it. *)
Lemma inherit_all_same f l s : Forall (formatted (appender_heap s)) l -> inherit_all f l s = (Ok tt, s).
Proof.
  induction 1 as [|a al (y & Hy & [g Hg]) _ IH]; [done|].
  cbn. unfold bind, inherit_formatter, get_appender, bind. rewrite Hy, Hg. exact IH.
Qed.

(** Giving a logger a new formatter changes no appender it already has. *)
Theorem formatter_of_appenders_kept l f s : reached strftime s -> is_Some (logger_heap s !! l) ->
  exists s', SetFormatter l (Some f) s = (Ok tt, s') /\ appender_heap s' = appender_heap s.
Proof.
  intros Hs%reached_ok [x Hx]. destruct (logger_at s l x Hs Hx) as (_ & Ha & _). unfold SetFormatter, bind, get_logger. rewrite Hx. cbn.
  eexists. split; [by apply inherit_all_same|done].
Qed.
End Limits.

(** ** An example *)

Module LoggerDemo.
Definition demo_ops : list gop :=
  [ GGetLogger "system"; GFile "a.log" INFO; GStdout ERROR; GAppenderFormatter 1 "%p %c: %m%n"; GSetFormatter 1 "%m%n";
    GAddAppender 1 1; GAddAppender 1 2; GSetFormatter 1 "%l%n"; GTime 5; GGetLogger "quiet" ].

Definition demo_start : Logging :=
  match new_LoggerManager 4 (fun _ => EmptyString) [] with Ok s => s | Fail _ => mkLogging [] [] [] 0 0 EmptyString (fun _ => EmptyString) [] end.

Definition demo_logging : Logging := foldl (fun s o => (run_gop demo_time o s).2) demo_start demo_ops.

Lemma demo_reached : reached demo_time demo_logging.
Proof.
  unfold demo_logging, demo_ops. cbn [foldl].
  do 10 (apply reached_step; [|vm_compute; by eauto]).
  apply (reached_start _ 4 (fun _ => EmptyString) []). vm_compute. reflexivity.
Qed.

Definition warning (l : nat) : LogEvent := write_event "hello" (new_LogEvent l WARN "main.cpp" 12 0 77 3 5).
Definition failure_event (l : nat) : LogEvent := write_event "oops" (new_LogEvent l FATAL "main.cpp" 13 0 77 3 5).

Lemma demo_healthy : healthy demo_logging.
Proof. vm_compute. split; [done|]. repeat constructor. Qed.
End LoggerDemo.
Import LoggerDemo.

Lemma logging_safe_witness :
  ((run_gop demo_time (GLog 1 WARN "main.cpp" 12 77 3 "hello") demo_logging).1 = Ok tt \/
   (run_gop demo_time (GLog 1 WARN "main.cpp" 12 77 3 "hello") demo_logging).1 = Fail undefined /\ exists f t, demo_time f t = None) /\
  logging_ok (run_gop demo_time (GLog 1 WARN "main.cpp" 12 77 3 "hello") demo_logging).2.
Proof.
  apply (logging_safe demo_time demo_logging (GLog 1 WARN "main.cpp" 12 77 3 "hello") demo_reached). vm_compute. eauto.
Defined.

Lemma logger_by_name_witness : exists l s1,
  GetLogger "system" demo_logging = (Ok l, s1) /\ (exists x, logger_heap s1 !! l = Some x /\ l_name x = "system"%string) /\
  ("system"%string = "root"%string -> l = root_ s1) /\
  forall s2, reached_from demo_time s1 s2 -> GetLogger "system" s2 = (Ok l, s2) /\
  (forall name' s3, GetLogger name' s2 = (Ok l, s3) -> name' = "system"%string).
Proof. exact (logger_by_name demo_time demo_logging "system" demo_reached). Defined.

Lemma log_delivers_witness : exists s', log demo_time 2 1 (failure_event 1) demo_logging = (Ok tt, s') /\ healthy s' /\
  stdout_ s' = stdout_ demo_logging +:+ written None (omap (line demo_time demo_logging (failure_event 1)) (receivers demo_logging 1 (failure_event 1))) /\
  forall f, files_ s' f = files_ demo_logging f +:+ written (Some f) (omap (line demo_time demo_logging (failure_event 1)) (receivers demo_logging 1 (failure_event 1))).
Proof.
  apply (log_delivers demo_time demo_logging 1 (failure_event 1) demo_reached); [vm_compute; by eauto|exact demo_healthy|].
  vm_compute. repeat constructor; do 2 eexists; split; reflexivity.
Defined.

(** The two events of the example: the warning is not printed on the standard output,
    whose appender of this logger wants errors; a logger without appenders prints on
    the root's. *)
Example demo_logged :
  let '(r, s) := (log demo_time 2 1 (warning 1) ;; log demo_time 2 1 (failure_event 1))%prog demo_logging in
  r = Ok tt /\ stdout_ s = ("oops" +:+ newline)%string /\
  files_ s "a.log"%string = ("WARN system: hello" +:+ newline +:+ "FATAL system: oops" +:+ newline)%string /\
  receivers s 2 (warning 2) = [0%nat].
Proof. vm_compute. auto. Qed.
