(* ===== verification/LogConfig.v ===== *)
(** * The configuration of the loggers: [gudov/log.cpp]

    The variable [logs]: its conversions, the listener that sets the loggers up when it
    changes, and the YAML text of loggers.  The messages the conversion prints about
    entries it skips are left out. *)

From S2P Require Import Prelude OrderedMap Yaml LexicalCast Config LogFormat Logger.
From stdpp Require Import base numbers list sets sorting strings.
From Stdlib Require Import ZArith Lia Ascii.
Open Scope Z_scope.
Open Scope prog_scope.

(** ** Entries *)

Record LogAppenderConfig := mkAppenderConfig {
  c_type : Z;
  c_level : Level;
  c_formatter : string;
  c_file : string }.

Record LogConfig := mkLogConfig {
  d_name : string;
  d_level : Level;
  d_formatter : string;
  d_appenders : list LogAppenderConfig }.

Definition empty_appender : LogAppenderConfig := mkAppenderConfig 0 UNKNOWN EmptyString EmptyString.

Definition level_eq (a b : Level) : bool := level_value a =? level_value b.

Definition appender_eq (a b : LogAppenderConfig) : bool :=
  (c_type a =? c_type b) && level_eq (c_level a) (c_level b) && String.eqb (c_formatter a) (c_formatter b) && String.eqb (c_file a) (c_file b).

(** [LogConfig::operator==]: the appenders are compared with themselves. *)
Definition config_eq (a b : LogConfig) : bool :=
  String.eqb (d_name a) (d_name b) && level_eq (d_level a) (d_level b) && String.eqb (d_formatter a) (d_formatter b)
  && lists_eq appender_eq (d_appenders a) (d_appenders a).

Definition config_less (a b : LogConfig) : bool := string_less (d_name a) (d_name b).

Lemma appenders_eq_refl k : lists_eq appender_eq k k = true.
Proof. induction k as [|a k IH]; [done|]. cbn. rewrite IH. unfold appender_eq, level_eq. by rewrite !Z.eqb_refl, !String.eqb_refl. Qed.

(** ** Conversions *)

Section ConfigCasts.
Context `{YB : Yaml}.

(** An entry of [appenders]; entries without a type or a file, or of another type, are
    skipped. *)
Definition read_appender (a : Node) : result (option LogAppenderConfig) :=
  t ← node_get "type" a;
  if negb (IsDefined t) then Ok None
  else
    type ← as_string t;
    if String.eqb type "FileLogAppender" then
      file ← node_get "file" a;
      if negb (IsDefined file) then Ok None
      else
        file ← as_string file;
        fm ← node_get "formatter" a;
        formatter ← (if IsDefined fm then as_string fm else Ok EmptyString);
        Ok (Some (mkAppenderConfig 1 UNKNOWN formatter file))
    else if String.eqb type "StdoutLogAppender" then Ok (Some (mkAppenderConfig 2 UNKNOWN EmptyString EmptyString))
    else Ok None.

Fixpoint read_appenders (node : Node) (js : list nat) (acc : list LogAppenderConfig) : result (list LogAppenderConfig) :=
  match js with
  | [] => Ok acc
  | j :: js => lad ← read_appender (node_at node j);
               read_appenders node js (match lad with Some x => acc ++ [x] | None => acc end)
  end.

(** An entry of the sequence; entries without a name are skipped. *)
Definition read_config (n : Node) : result (option LogConfig) :=
  nm ← node_get "name" n;
  if negb (IsDefined nm) then Ok None
  else
    name ← as_string nm;
    lv ← node_get "level" n;
    level ← (if IsDefined lv then as_string lv else Ok EmptyString);
    fm ← node_get "formatter" n;
    formatter ← (if IsDefined fm then as_string fm else Ok EmptyString);
    ap ← node_get "appenders" n;
    appenders ← (if IsDefined ap then read_appenders ap (indices ap) [] else Ok []);
    Ok (Some (mkLogConfig name (FromString level) formatter appenders)).

Fixpoint read_configs (node : Node) (js : list nat) (vec : list LogConfig) : result (list LogConfig) :=
  match js with
  | [] => Ok vec
  | j :: js => ld ← read_config (node_at node j);
               read_configs node js (match ld with Some x => set_insert config_less x vec | None => vec end)
  end.

(** [LexicalCast<std::string, std::set<LogConfig>>] *)
Definition configs_from (v : string) : result (list LogConfig) :=
  node ← Load v; read_configs node (indices node) [].

(** [n[k] = v] with a string, and under a condition. *)
Definition set_text (k v : string) (n : Node) : result Node := node_set n k (Scalar v).
Definition set_text_if (b : bool) (k v : string) (n : Node) : result Node := if b then set_text k v n else Ok n.

Definition is_empty (s : string) : bool := String.eqb s EmptyString.

Definition write_appender (a : LogAppenderConfig) : result Node :=
  na ← (if c_type a =? 1 then na ← set_text "type" "FileLogAppender" Null; set_text "file" (c_file a) na
        else if c_type a =? 2 then set_text "type" "StdoutLogAppender" Null else Ok Null);
  na ← set_text_if (negb (level_eq (c_level a) UNKNOWN)) "level" (ToString (c_level a)) na;
  set_text_if (negb (is_empty (c_formatter a))) "formatter" (c_formatter a) na.

(** [n["appenders"].push_back(na)] *)
Definition push_appender (acc : result Node) (na : result Node) : result Node :=
  n ← acc; x ← na; l ← node_get "appenders" n; l ← push_back l x; node_set n "appenders" l.

Definition write_config (i : LogConfig) : result Node :=
  n ← set_text "name" (d_name i) Null;
  n ← set_text_if (negb (level_eq (d_level i) UNKNOWN)) "level" (ToString (d_level i)) n;
  n ← set_text_if (is_empty (d_formatter i)) "formatter" (d_formatter i) n;
  foldl push_appender (Ok n) (write_appender <$> d_appenders i).

Definition push_config (acc : result Node) (i : LogConfig) : result Node :=
  node ← acc; n ← write_config i; push_back node n.

(** [LexicalCast<std::set<LogConfig>, std::string>] *)
Definition configs_to (v : list LogConfig) : result string :=
  node ← foldl push_config (Ok Null) v; Ok (dump node).

(** ** The YAML text of loggers *)

Definition pattern_field (f : option LogFormatter) (n : Node) : result Node :=
  match f with Some f => set_text "formatter" (pattern_ f) n | None => Ok n end.

(** [toYamlString] of the two appenders. *)
Definition appender_yaml (x : LogAppender) : result string :=
  n ← match a_kind x with
      | FileLogAppender f _ _ => n ← set_text "type" "FileLogAppender" Null; set_text "file" f n
      | StdoutLogAppender => set_text "type" "StdoutLogAppender" Null
      end;
  n ← set_text_if (negb (level_eq (a_level x) UNKNOWN)) "level" (ToString (a_level x)) n;
  n ← pattern_field (a_formatter x) n;
  Ok (dump n).

Definition appender_node (s : Logging) (a : nat) : result Node :=
  match appender_heap s !! a with Some x => t ← appender_yaml x; Load t | None => Fail null_deref end.

(** [Logger::toYamlString] and [LoggerManager::toYamlString] *)
Definition logger_yaml (s : Logging) (x : Logger) : result string :=
  n ← set_text "name" (l_name x) Null;
  n ← set_text_if (negb (level_eq (l_level x) UNKNOWN)) "level" (ToString (l_level x)) n;
  n ← pattern_field (l_formatter x) n;
  n ← foldl push_appender (Ok n) (appender_node s <$> l_appenders x);
  Ok (dump n).

Definition push_logger (s : Logging) (acc : result Node) (p : string * nat) : result Node :=
  node ← acc;
  match logger_heap s !! p.2 with
  | Some x => t ← logger_yaml s x; n ← Load t; push_back node n
  | None => Fail null_deref
  end.

Definition manager_yaml (s : Logging) : result string :=
  node ← foldl (push_logger s) (Ok Null) (loggers_ s); Ok (dump node).
End ConfigCasts.

(** ** The listener *)

Section Listener.
Context (strftime : string -> Z -> option string) (here : string) (thread_id fiber_id : Z).

(** One appender of an entry; a type that is neither leaves a null pointer. *)
Definition attach_appender (name : string) (l : nat) (c : LogAppenderConfig) : prog Logging unit :=
  let* p := (if c_type c =? 1 then let* a := new_FileLogAppender (c_file c) DEBUG in ret (Some a)
             else if c_type c =? 2 then let* a := new_StdoutLogAppender DEBUG in ret (Some a)
             else ret None) in
  match p with
  | None => fail null_deref
  | Some a =>
      SetLevel_appender a (c_level c) ;;
      (if is_empty (c_formatter c) then ret tt
       else let* fmt := lift (new_LogFormatter (c_formatter c)) in
            if error_ fmt then
              modify (print_stdout ("log.name=" +:+ name +:+ " appender type=" +:+ pretty.pretty (c_type c) +:+ " formatter=" +:+ c_formatter c +:+ " is invalid" +:+ newline))
            else SetFormatter_appender a (Some fmt)) ;;
      AddAppender l a
  end.

Fixpoint attach_all (name : string) (l : nat) (cs : list LogAppenderConfig) : prog Logging unit :=
  match cs with [] => ret tt | c :: cs => attach_appender name l c ;; attach_all name l cs end.

(** An entry of the new value: [logger] stays null when the old value has an equal
    entry. *)
Definition configure (old : list LogConfig) (i : LogConfig) : prog Logging unit :=
  let* logger := (match set_find config_less i old with
                  | None => let* l := GetLogger (d_name i) in ret (Some l)
                  | Some it => if negb (config_eq i it) then let* l := GetLogger (d_name i) in ret (Some l) else ret None
                  end) in
  match logger with
  | None => fail null_deref
  | Some l =>
      SetLevel l (d_level i) ;;
      (if is_empty (d_formatter i) then ret tt else SetFormatter_pattern l (d_formatter i)) ;;
      clearAppenders l ;;
      attach_all (d_name i) l (d_appenders i)
  end.

(** An entry of the old value that is gone. *)
Definition retire (new : list LogConfig) (i : LogConfig) : prog Logging unit :=
  match set_find config_less i new with
  | Some _ => ret tt
  | None => let* l := GetLogger (d_name i) in SetLevel l UNKNOWN ;; clearAppenders l
  end.

Fixpoint each {A} (f : A -> prog Logging unit) (l : list A) : prog Logging unit :=
  match l with [] => ret tt | x :: l => f x ;; each f l end.

Definition on_logger_conf_changed (old new : list LogConfig) : prog Logging unit :=
  (let* r := gets root_ in LOG_LEVEL strftime r INFO here 596 thread_id fiber_id "on_logger_conf_changed") ;;
  each (configure old) new ;;
  each (retire new) old.
End Listener.

(** ** What survives the conversions *)

Section Recast.
Context `{YB : Yaml}.

(** The level of an appender and the formatter of one that prints on the standard
    output are not read; an appender of no known type is dropped. *)
Definition kept_appender (c : LogAppenderConfig) : option LogAppenderConfig :=
  if c_type c =? 1 then Some (mkAppenderConfig 1 UNKNOWN (c_formatter c) (c_file c))
  else if c_type c =? 2 then Some (mkAppenderConfig 2 UNKNOWN EmptyString EmptyString)
  else None.

(** The formatter of a logger is written only when there is none. *)
Definition kept (i : LogConfig) : LogConfig :=
  mkLogConfig (d_name i) (d_level i) EmptyString (omap kept_appender (d_appenders i)).

Lemma map_emits l : Forall (fun kv : Node * Node => emits kv.1 /\ emits kv.2) l -> emits (Map l).
Proof. apply emits_map. Qed.

Lemma write_appender_ok c : exists na, write_appender c = Ok na /\ emits na /\ read_appender na = Ok (kept_appender c).
Proof.
  unfold write_appender, kept_appender, set_text_if, is_empty.
  destruct (c_type c =? 1); [|destruct (c_type c =? 2)]; destruct (level_eq (c_level c) UNKNOWN); destruct (String.eqb_spec (c_formatter c) EmptyString) as [E|E];
    cbn; (eexists; split; [reflexivity|]; split; [first [apply emits_null|apply emits_map; repeat constructor; apply emits_scalar]|]); cbn; try rewrite E; reflexivity.
Qed.

Lemma write_appenders_ok cs : exists nas, Forall2 (fun c na => write_appender c = Ok na) cs nas /\ Forall emits nas /\
  Forall2 (fun na c => read_appender na = Ok (kept_appender c)) nas cs.
Proof.
  induction cs as [|c cs (nas & H1 & H2 & H3)]; [by exists []|]. destruct (write_appender_ok c) as (na & E1 & E2 & E3).
  exists (na :: nas). split_and!; by constructor.
Qed.

Abbreviation appenders_entry nas := (Scalar "appenders", Sequence nas).

(** Another key than [appenders]. *)
Abbreviation other_keys l := (Forall (fun kv : Node * Node => key_is "appenders" kv.1 = false) l).

Lemma appenders_found l x n : other_keys l ->
  lookup_key "appenders" (l ++ [appenders_entry x]) = Sequence x /\
  assign_key "appenders" n (l ++ [appenders_entry x]) = l ++ [(Scalar "appenders", n)] /\
  lookup_key "appenders" l = Undefined /\ assign_key "appenders" n l = l ++ [(Scalar "appenders", n)].
Proof. induction 1 as [|[k v] l Hk _ (IH1 & IH2 & IH3 & IH4)]; [done|]. cbn in *. by rewrite Hk, IH1, IH2, IH3, IH4. Qed.

Lemma push_more l nas (ws : list (result Node)) rest : other_keys l -> Forall2 (fun w n => w = Ok n) ws rest ->
  foldl push_appender (Ok (Map (l ++ [appenders_entry nas]))) ws = Ok (Map (l ++ [appenders_entry (nas ++ rest)])).
Proof.
  intros Hl Hw. revert nas. induction Hw as [|w n ws rest -> _ IH]; intros nas; [by rewrite app_nil_r|].
  cbn [foldl]. rewrite (cons_middle n nas rest), app_assoc, <- IH. f_equal. unfold push_appender. cbn.
  destruct (appenders_found l nas (Sequence (nas ++ [n])) Hl) as (-> & E & _). cbn. by rewrite E.
Qed.

Lemma push_appenders l (ws : list (result Node)) nas : other_keys l -> Forall2 (fun w n => w = Ok n) ws nas ->
  foldl push_appender (Ok (Map l)) ws = Ok (Map (match nas with [] => l | _ => l ++ [appenders_entry nas] end)).
Proof.
  intros Hl Hw. destruct Hw as [|w n ws nas -> Hw]; [done|]. cbn [foldl].
  replace (push_appender (Ok (Map l)) (Ok n)) with (Ok (Map (l ++ [appenders_entry [n]])) : result Node); [by apply (push_more l [n])|].
  unfold push_appender. cbn. destruct (appenders_found l [] (Sequence [n]) Hl) as (_ & _ & -> & E). cbn. by rewrite E.
Qed.

Lemma read_appenders_ok pre nas cs acc : Forall2 (fun na c => read_appender na = Ok (kept_appender c)) nas cs ->
  read_appenders (Sequence (pre ++ nas)) (seq (length pre) (length nas)) acc = Ok (acc ++ omap kept_appender cs).
Proof.
  intros Hn. revert pre acc. induction Hn as [|na c nas cs Hna _ IH]; intros pre acc; [by cbn; rewrite app_nil_r|].
  cbn [length seq read_appenders]. cbn [node_at]. rewrite list_lookup_middle by done. cbn [default]. unfold default. cbn. rewrite Hna. cbn.
  rewrite (cons_middle na pre nas), app_assoc. replace (S (length pre)) with (length (pre ++ [na])) by (rewrite length_app; cbn; lia).
  rewrite IH. destruct (kept_appender c); cbn; [by rewrite <- app_assoc|done].
Qed.

(** A field that is absent or a text. *)
Definition text_field (k : string) (l : list (Node * Node)) (t : string) : Prop :=
  lookup_key k l = Scalar t \/ lookup_key k l = Undefined /\ t = EmptyString.

Lemma read_config_fields l name lv fm ap cs :
  lookup_key "name" l = Scalar name -> text_field "level" l lv -> text_field "formatter" l fm ->
  (lookup_key "appenders" l = ap /\ read_appenders ap (indices ap) [] = Ok cs) \/ (lookup_key "appenders" l = Undefined /\ cs = []) ->
  IsDefined ap = true ->
  read_config (Map l) = Ok (Some (mkLogConfig name (FromString lv) fm cs)).
Proof.
  intros Hn Hl Hf Ha Hd. unfold read_config. cbn. rewrite Hn. cbn.
  destruct Hl as [->|[-> ->]], Hf as [->|[-> ->]], Ha as [[-> Ha]|[-> ->]]; cbn; rewrite ?Hd, ?Ha; done.
Qed.

Lemma write_config_ok i : exists n, write_config i = Ok n /\ emits n /\ read_config n = Ok (Some (kept i)).
Proof.
  destruct (write_appenders_ok (d_appenders i)) as (nas & Hw & He & Hr).
  assert (Forall2 (fun w n => w = Ok n) (write_appender <$> d_appenders i) nas) as Hw'.
  { clear -Hw. induction Hw; cbn; by constructor. }
  assert (forall l lv, other_keys l -> Forall (fun kv : Node * Node => emits kv.1 /\ emits kv.2) l ->
    (forall m, lookup_key "name" (l ++ m) = Scalar (d_name i)) ->
    (forall m, m = [] \/ (exists x, m = [appenders_entry x]) -> text_field "level" (l ++ m) lv /\ text_field "formatter" (l ++ m) EmptyString) ->
    FromString lv = d_level i ->
    exists n, foldl push_appender (Ok (Map l)) (write_appender <$> d_appenders i) = Ok n /\ emits n /\ read_config n = Ok (Some (kept i))) as Hgo.
  { intros l lv Hl Hle Hnm Hlf Hlv. rewrite (push_appenders l _ nas Hl Hw'). eexists. split; [done|].
    unfold kept. rewrite <- Hlv. destruct nas as [|na nas].
    - split; [by apply emits_map|]. specialize (Hnm []). specialize (Hlf [] (or_introl eq_refl)). rewrite app_nil_r in *.
      apply (read_config_fields l _ _ _ Null); [done|apply Hlf|apply Hlf| |done]. right.
      split; [apply (appenders_found l [] Null Hl)|]. by apply Forall2_nil_inv_l in Hr as ->.
    - split; [apply emits_map, Forall_app; split; [done|]; repeat constructor; [apply emits_scalar|by apply emits_sequence]|].
      destruct (Hlf [appenders_entry (na :: nas)]) as [H1 H2]; [by right; eexists|].
      apply (read_config_fields _ _ _ _ (Sequence (na :: nas))); [apply Hnm|done|done| |done]. left.
      split; [apply (appenders_found l (na :: nas) Null Hl)|]. apply (read_appenders_ok [] (na :: nas) _ [] Hr). }
  unfold write_config, set_text_if, is_empty. pose proof (level_roundtrip (d_level i)) as Hlv.
  assert (level_eq (d_level i) UNKNOWN = true -> FromString EmptyString = d_level i) as Hun by (by destruct (d_level i)).
  destruct (level_eq (d_level i) UNKNOWN) eqn:El; destruct (String.eqb_spec (d_formatter i) EmptyString) as [E|E]; cbn -[ToString];
    [apply (Hgo _ EmptyString)|apply (Hgo _ EmptyString)|apply (Hgo _ (ToString (d_level i)))|apply (Hgo _ (ToString (d_level i)))];
    try done; try by auto; try by (repeat constructor; apply emits_scalar).
  all: try by (repeat constructor).
  all: intros m [->|[x ->]]; rewrite ?E; (split; [by first [left; reflexivity|right; split; reflexivity]|by first [left; reflexivity|right; split; reflexivity]]).
Qed.

Lemma push_configs_ok v : exists ns, foldl push_config (Ok Null) v = Ok (seq_of ns) /\ Forall emits ns /\
  Forall2 (fun n i => read_config n = Ok (Some (kept i))) ns v.
Proof.
  enough (forall acc, exists ns, foldl push_config (Ok (seq_of acc)) v = Ok (seq_of (acc ++ ns)) /\ Forall emits ns /\
    Forall2 (fun n i => read_config n = Ok (Some (kept i))) ns v) as He by exact (He []).
  induction v as [|i v IH]; intros acc; [exists []; by rewrite app_nil_r|].
  destruct (write_config_ok i) as (n & E1 & E2 & E3). destruct (IH (acc ++ [n])) as (ns & H1 & H2 & H3).
  exists (n :: ns). split_and!; [|by constructor..]. rewrite (cons_middle n acc ns), app_assoc, <- H1. cbn [foldl]. f_equal.
  change (push_config (Ok (seq_of acc)) i) with (x ← write_config i; push_back (seq_of acc) x). rewrite E1. apply push_all.
Qed.

Lemma read_configs_ok pre ns v acc : Forall2 (fun n i => read_config n = Ok (Some (kept i))) ns v ->
  read_configs (Sequence (pre ++ ns)) (seq (length pre) (length ns)) acc = Ok (foldl (flip (set_insert config_less)) acc (kept <$> v)).
Proof.
  intros Hn. revert pre acc. induction Hn as [|n i ns v Hi _ IH]; intros pre acc; [done|].
  cbn [length seq read_configs]. cbn [node_at]. rewrite list_lookup_middle by done. unfold default. cbn. rewrite Hi. cbn.
  rewrite (cons_middle n pre ns), app_assoc. replace (S (length pre)) with (length (pre ++ [n])) by (rewrite length_app; cbn; lia). apply IH.
Qed.

(** Writing the configuration of the loggers and reading it again gives exactly
    [kept] of every entry: names, levels of loggers, types and files survive, and so
    does the formatter of an appender to a file; the formatters of the loggers and the
    levels of the appenders are lost. *)
Theorem configs_recast v : set_ok config_less v -> exists s, configs_to v = Ok s /\ configs_from s = Ok (kept <$> v).
Proof.
  intros Hv. destruct (push_configs_ok v) as (ns & E & He & Hr). unfold configs_to, configs_from. rewrite E. cbn.
  eexists. split; [done|]. rewrite (load_dump _ (seq_of_emits _ He)). cbn.
  assert (set_ok config_less (kept <$> v)) as Hk.
  { clear -Hv. induction Hv as [|i v Hv IH Hi]; cbn; [constructor|]. constructor; [done|]. by apply Forall_fmap. }
  rewrite <- (set_rebuilt config_less (kept <$> v) Hk). destruct ns as [|n ns]; [by apply Forall2_nil_inv_l in Hr as ->|].
  apply (read_configs_ok [] (n :: ns) v [] Hr).
Qed.
End Recast.

(** ** The loggers follow the configuration *)

Section Applying.
Context (strftime : string -> Z -> option string) (here : string) (thread_id fiber_id : Z).

(** The formatter an entry asks for, if its pattern is right. *)
Definition own_formatter (pattern : string) : option LogFormatter :=
  if is_empty pattern then None
  else match new_LogFormatter pattern with Ok f => if error_ f then None else Some f | Fail _ => None end.

(** The appender [a] is what [c] asks for, on a logger with the formatter [lf]. *)
Definition attached (s : Logging) (lf : option LogFormatter) (a : nat) (c : LogAppenderConfig) : Prop :=
  exists y, appender_heap s !! a = Some y /\ target y = (if c_type c =? 1 then Some (c_file c) else None) /\ a_level y = c_level c /\
  a_formatter y = match own_formatter (c_formatter c) with Some f => Some f | None => lf end.

(** The logger of the entry's name is what the entry asks for. *)
Definition configured (s : Logging) (i : LogConfig) : Prop :=
  exists l x, map_find string_less (d_name i) (loggers_ s) = Some l /\ logger_heap s !! l = Some x /\ l_level x = d_level i /\
  (forall f, own_formatter (d_formatter i) = Some f -> l_formatter x = Some f) /\
  Forall2 (attached s (l_formatter x)) (l_appenders x) (d_appenders i).

Definition retired (s : Logging) (i : LogConfig) : Prop :=
  exists l x, map_find string_less (d_name i) (loggers_ s) = Some l /\ logger_heap s !! l = Some x /\ l_level x = UNKNOWN /\ l_appenders x = [].

Definition supported (i : LogConfig) : Prop := Forall (fun c => c_type c = 1 \/ c_type c = 2) (d_appenders i).

Definition look (x : LogAppender) : option string * Level * option LogFormatter := (target x, a_level x, a_formatter x).

(** Nothing but the logger [l] and new objects changes. *)
Definition frame (l : nat) (s s' : Logging) : Prop :=
  (forall k x, k <> l -> logger_heap s !! k = Some x -> logger_heap s' !! k = Some x) /\
  (forall a x, appender_heap s !! a = Some x -> exists x', appender_heap s' !! a = Some x' /\ look x' = look x).

Lemma frame_refl l s : frame l s s.
Proof. split; eauto. Qed.

Lemma frame_trans l s1 s2 s3 : frame l s1 s2 -> frame l s2 s3 -> frame l s1 s3.
Proof.
  intros [L1 A1] [L2 A2]. split; [by auto|]. intros a x (x1 & Hx1 & E1)%A1. destruct (A2 _ _ Hx1) as (x2 & Hx2 & E2). exists x2. split; congruence.
Qed.

Lemma attached_frame l s s' lf a c : frame l s s' -> attached s lf a c -> attached s' lf a c.
Proof.
  intros [_ HA] (y & Hy & Ht & Hl & Hf). destruct (HA _ _ Hy) as (y' & Hy' & E). unfold look in E. injection E as E1 E2 E3. exists y'. split_and!; congruence.
Qed.

(** The appender an entry makes: at a new address, with no formatter yet. *)
Definition made (c : LogAppenderConfig) (s : Logging) (p : option nat) (s' : Logging) : Prop :=
  exists a y, p = Some a /\ appender_heap s' !! a = Some y /\ appender_heap s !! a = None /\
  target y = (if c_type c =? 1 then Some (c_file c) else None) /\ a_formatter y = None /\
  logger_heap s' = logger_heap s /\ loggers_ s' = loggers_ s /\ root_ s' = root_ s /\
  (forall b x, appender_heap s !! b = Some x -> appender_heap s' !! b = Some x).

Lemma lookup_new {A} (h : list A) x : (h ++ [x]) !! length h = Some x /\ h !! length h = None /\ (forall b y, h !! b = Some y -> (h ++ [x]) !! b = Some y).
Proof.
  split_and!; [by rewrite lookup_app_r, Nat.sub_diag by done|by apply lookup_ge_None|].
  intros b y Hb. by rewrite lookup_app_l by (by eapply lookup_lt_Some).
Qed.

Lemma make_file f s : exists a y s', new_FileLogAppender f DEBUG s = (Ok a, s') /\ a = length (appender_heap s) /\
  target y = Some f /\ a_formatter y = None /\ appender_heap s' = appender_heap s ++ [y] /\
  logger_heap s' = logger_heap s /\ loggers_ s' = loggers_ s /\ root_ s' = root_ s.
Proof.
  unfold new_FileLogAppender, bind, new_appender, reopen, get_appender, bind. cbn.
  destruct (lookup_new (appender_heap s) (mkAppender (FileLogAppender f new_ofstream 0) DEBUG None)) as (-> & _ & _). cbn.
  unfold reopen_stream, open_stream, answer, bind, ret. cbn. destruct (answers_ s) as [|b l]; cbn.
  - do 3 eexists. split; [done|]. cbn. split_and!; try done; [..|by rewrite insert_app_r_alt, Nat.sub_diag by done]; done.
  - do 3 eexists. split; [done|]. cbn. split_and!; try done; [..|by rewrite insert_app_r_alt, Nat.sub_diag by done]; done.
Qed.

Lemma make_appender c s : c_type c = 1 \/ c_type c = 2 -> exists p s',
  (if c_type c =? 1 then let* a := new_FileLogAppender (c_file c) DEBUG in ret (Some a)
   else if c_type c =? 2 then let* a := new_StdoutLogAppender DEBUG in ret (Some a) else ret None) s = (Ok p, s') /\ made c s p s'.
Proof.
  intros [E|E]; unfold made; rewrite E; cbn; unfold bind.
  - destruct (make_file (c_file c) s) as (a & y & s' & -> & -> & Ht & Hf & Ha & Hl & Hn & Hr). do 2 eexists. split; [done|].
    exists (length (appender_heap s)), y. rewrite Ha. destruct (lookup_new (appender_heap s) y) as (? & ? & ?). by split_and!.
  - do 2 eexists. split; [done|]. destruct (lookup_new (appender_heap s) (mkAppender StdoutLogAppender DEBUG None)) as (? & ? & ?).
    exists (length (appender_heap s)), (mkAppender StdoutLogAppender DEBUG None). by split_and!.
Qed.

(** [s'] is [s] with the appender [a] replaced, and perhaps more text printed. *)
Definition redressed (a : nat) (y : LogAppender) (s s' : Logging) : Prop :=
  appender_heap s' = <[a := y]> (appender_heap s) /\ logger_heap s' = logger_heap s /\ loggers_ s' = loggers_ s /\ root_ s' = root_ s.

Lemma dress name c a y s : appender_heap s !! a = Some y -> a_formatter y = None -> exists y' s',
  (SetLevel_appender a (c_level c) ;;
   (if is_empty (c_formatter c) then ret tt
    else let* fmt := lift (new_LogFormatter (c_formatter c)) in
         if error_ fmt then
           modify (print_stdout ("log.name=" +:+ name +:+ " appender type=" +:+ pretty.pretty (c_type c) +:+ " formatter=" +:+ c_formatter c +:+ " is invalid" +:+ newline))
         else SetFormatter_appender a (Some fmt))) s = (Ok tt, s') /\
  redressed a y' s s' /\ target y' = target y /\ a_level y' = c_level c /\ a_formatter y' = own_formatter (c_formatter c).
Proof.
  intros Hy Hf. pose proof (lookup_lt_Some _ _ _ Hy) as Ha.
  unfold SetLevel_appender, own_formatter, bind, get_appender. rewrite Hy. cbn. destruct (is_empty (c_formatter c)).
  { do 2 eexists. split; [done|]. by split_and!. }
  unfold lift. rewrite formatter_tokens. destruct (error_ _).
  { do 2 eexists. split; [done|]. by split_and!. }
  unfold SetFormatter_appender, bind, get_appender. cbn. rewrite list_lookup_insert_eq by done. cbn.
  exists (mkAppender (a_kind y) (c_level c) (Some (compiled (c_formatter c) (tokens [] (String.list_ascii_of_string (c_formatter c)))))).
  eexists. split; [done|]. split_and!; try done. unfold redressed. cbn. by rewrite list_insert_insert_eq.
Qed.

Lemma add_appender_run l a x y s : logger_heap s !! l = Some x -> appender_heap s !! a = Some y -> exists y' s',
  AddAppender l a s = (Ok tt, s') /\ appender_heap s' = <[a := y']> (appender_heap s) /\ look y' = (target y, a_level y, match a_formatter y with Some f => Some f | None => l_formatter x end) /\
  logger_heap s' = <[l := mkLogger (l_name x) (l_level x) (l_appenders x ++ [a]) (l_formatter x) (l_root x)]> (logger_heap s) /\ loggers_ s' = loggers_ s /\ root_ s' = root_ s.
Proof.
  intros Hx Hy. unfold AddAppender, inherit_formatter, bind, get_logger, get_appender. rewrite Hx, Hy. unfold look. destruct (a_formatter y) as [f|] eqn:Ef; cbn.
  - exists y. eexists. split; [done|]. cbn. rewrite list_insert_id by done. split_and!; try done. by rewrite Ef.
  - do 2 eexists. split; [done|]. cbn. by split_and!.
Qed.

Lemma made_fine c s p s' : logging_ok s -> made c s p s' -> fine s s'.
Proof.
  intros (H1 & H2 & H3 & H4 & H5) (a & y & -> & Hy & Hno & _ & _ & El & En & Er & Hk). unfold fine, logging_ok, later. rewrite El, En, Er.
  split; split_and!; eauto.
  - eapply Forall_impl; [exact H1|]. intros x. apply logger_ok_more. intros b (z & Hz & Hf). exists z. split; [by apply Hk|done].
  - intros b [z Hz]. exists z. by apply Hk.
Qed.

Lemma redressed_calm a y s s' : redressed a y s s' -> (forall z, appender_heap s !! a = Some z -> a_formatter z = None) -> calm s s'.
Proof.
  intros (E1 & E2 & E3 & E4) Hn. unfold calm. rewrite E1, E2, E3, E4. split_and!; try done; [by rewrite length_insert|].
  intros b. apply formatted_insert. intros z Hz%Hn [f Hf]. congruence.
Qed.

Lemma attach_appender_spec name l c s x : logging_ok s -> logger_heap s !! l = Some x -> c_type c = 1 \/ c_type c = 2 ->
  exists s' a, attach_appender name l c s = (Ok tt, s') /\ fine s s' /\ frame l s s' /\ loggers_ s' = loggers_ s /\
  logger_heap s' !! l = Some (mkLogger (l_name x) (l_level x) (l_appenders x ++ [a]) (l_formatter x) (l_root x)) /\ attached s' (l_formatter x) a c.
Proof.
  intros Hs Hx Hc. destruct (make_appender c s Hc) as (p & s1 & E1 & Hm). pose proof (made_fine _ _ _ _ Hs Hm) as Hf1.
  destruct Hm as (a & y & -> & Hy & Hno & Ht & Hfy & El & En & Er & Hk).
  destruct (dress name c a y s1 Hy Hfy) as (y2 & s2 & E2 & Hr2 & Ht2 & Hl2 & Hf2).
  assert (calm s1 s2) as Hc2 by (eapply redressed_calm; [exact Hr2|]; intros z Hz; congruence).
  assert (fine s s2) as Hfs2 by (eapply fine_trans; [exact Hf1|]; apply calm_fine; [apply Hf1|done]).
  destruct Hr2 as (Ea2 & El2 & En2 & Er2). pose proof (lookup_lt_Some _ _ _ Hy) as Hlt.
  assert (logger_heap s2 !! l = Some x) as Hx2 by congruence.
  assert (appender_heap s2 !! a = Some y2) as Hy2 by (rewrite Ea2; by apply list_lookup_insert_eq).
  destruct (add_appender_run l a x y2 s2 Hx2 Hy2) as (y3 & s3 & E3 & Ea3 & Hlook & El3 & En3 & Er3).
  exists s3, a. split_and!.
  - unfold attach_appender. erewrite bind_ok by exact E1. cbn beta iota.
    unfold bind in E2 |- *. destruct (SetLevel_appender a (c_level c) s1) as [[u|e] s1']; [|done]. cbn in E2 |- *. rewrite E2. exact E3.
  - eapply fine_trans; [exact Hfs2|]. pose proof (run_gop_fine strftime (GAddAppender l a) s2 (proj1 Hfs2)) as Hg.
    unfold runs in Hg. cbn [run_gop addressed] in Hg. rewrite E3 in Hg. apply Hg. split; by eexists.
  - split.
    + intros k z Hkl Hz. rewrite El3, list_lookup_insert_ne by done. congruence.
    + intros b z Hz. assert (b <> a) by congruence. exists z. split; [|done]. rewrite Ea3, list_lookup_insert_ne by done. rewrite Ea2, list_lookup_insert_ne by done. by apply Hk.
  - congruence.
  - rewrite El3. apply list_lookup_insert_eq. by eapply lookup_lt_Some.
  - exists y3. rewrite Ea3. unfold look in Hlook. injection Hlook as H1 H2 H3. split_and!; [|congruence|congruence|by rewrite H3, Hf2].
    apply list_lookup_insert_eq. by eapply lookup_lt_Some.
Qed.

Lemma attach_all_spec name l cs s x : logging_ok s -> logger_heap s !! l = Some x -> Forall (fun c => c_type c = 1 \/ c_type c = 2) cs ->
  exists s' al, attach_all name l cs s = (Ok tt, s') /\ fine s s' /\ frame l s s' /\ loggers_ s' = loggers_ s /\
  logger_heap s' !! l = Some (mkLogger (l_name x) (l_level x) (l_appenders x ++ al) (l_formatter x) (l_root x)) /\ Forall2 (attached s' (l_formatter x)) al cs.
Proof.
  intros Hs Hx Hcs. revert s x Hs Hx. induction Hcs as [|c cs Hc _ IH]; intros s x Hs Hx.
  { exists s, []. split_and!; try done; [by apply fine_refl|apply frame_refl|]. rewrite app_nil_r. by destruct x. }
  destruct (attach_appender_spec name l c s x Hs Hx Hc) as (s1 & a & E1 & Hf1 & Hfr1 & Hn1 & Hx1 & Ha1).
  destruct (IH s1 _ (proj1 Hf1) Hx1) as (s2 & al & E2 & Hf2 & Hfr2 & Hn2 & Hx2 & Ha2). cbn in Hx2, Ha2.
  exists s2, (a :: al). split_and!; [|by eapply fine_trans|by eapply frame_trans|congruence| |].
  - cbn [attach_all]. by erewrite bind_ok by exact E1.
  - rewrite Hx2. by rewrite <- app_assoc.
  - constructor; [|done]. by eapply attached_frame.
Qed.

Definition relogger (x : Logger) (lv : Level) (al : list nat) (f : option LogFormatter) : Logger := mkLogger (l_name x) lv al f (l_root x).

Lemma get_logger_frame name s l s' : GetLogger name s = (Ok l, s') ->
  appender_heap s' = appender_heap s /\ forall k x, logger_heap s !! k = Some x -> logger_heap s' !! k = Some x.
Proof.
  unfold GetLogger, bind, gets. destruct (map_find string_less name (loggers_ s)); [by intros [= <- <-]|].
  unfold new_Logger, bind, lift, get_logger. rewrite formatter_tokens. cbn. rewrite (proj1 (lookup_new _ _)). cbn. intros [= <- <-]. cbn.
  split; [done|]. intros k x Hk. rewrite list_lookup_insert_ne; [by apply lookup_new|]. apply lookup_lt_Some in Hk. lia.
Qed.

(** The logger of a name, its level, formatter and appenders set anew. *)
Lemma prepare name lv pattern s : logging_ok s -> exists l x f s1 s2,
  GetLogger name s = (Ok l, s1) /\
  (SetLevel l lv ;; (if is_empty pattern then ret tt else SetFormatter_pattern l pattern) ;; clearAppenders l) s1 = (Ok tt, s2) /\
  fine s s2 /\ map_find string_less name (loggers_ s2) = Some l /\ logger_heap s2 !! l = Some (relogger x lv [] f) /\
  (forall g, own_formatter pattern = Some g -> f = Some g) /\
  appender_heap s2 = appender_heap s /\ forall k z, k <> l -> logger_heap s !! k = Some z -> logger_heap s2 !! k = Some z.
Proof.
  intros Hs. destruct (runs_total _ _ _ (get_logger_fine name s Hs)) as (l & s1 & E1 & Hf1 & Hm1 & x & Hx & _).
  destruct (get_logger_frame name s l s1 E1) as (Ea1 & Hk1). pose proof (lookup_lt_Some _ _ _ Hx) as Hlt.
  destruct (logger_at s1 l x (proj1 Hf1) Hx) as (Hfx & Hal & _).
  set (f := match own_formatter pattern with Some g => Some g | None => l_formatter x end).
  exists l, x, f, s1.
  assert (exists s2, (SetLevel l lv ;; (if is_empty pattern then ret tt else SetFormatter_pattern l pattern) ;; clearAppenders l) s1 = (Ok tt, s2) /\
    logger_heap s2 = <[l := relogger x lv [] f]> (logger_heap s1) /\ appender_heap s2 = appender_heap s1 /\ loggers_ s2 = loggers_ s1 /\ root_ s2 = root_ s1) as (s2 & E2 & El2 & Ea2 & En2 & Er2).
  { unfold SetLevel, bind, get_logger. rewrite Hx. cbn. unfold f, own_formatter. destruct (is_empty pattern).
    - unfold clearAppenders, bind, get_logger, ret. cbn. rewrite list_lookup_insert_eq by done. cbn. eexists. split; [done|]. cbn. by rewrite list_insert_insert_eq.
    - unfold SetFormatter_pattern, bind, lift. rewrite formatter_tokens. destruct (error_ _).
      + unfold clearAppenders, bind, get_logger. cbn. rewrite list_lookup_insert_eq by done. cbn. rewrite list_lookup_insert_eq by done.
        eexists. split; [done|]. cbn. by rewrite list_insert_insert_eq.
      + unfold SetFormatter, bind, get_logger. cbn. rewrite list_lookup_insert_eq by done. cbn. rewrite inherit_all_same by done.
        unfold clearAppenders, bind, get_logger. cbn. rewrite list_insert_insert_eq, list_lookup_insert_eq by done.
        eexists. split; [done|]. cbn. by rewrite list_insert_insert_eq. }
  exists s2. split_and!; [done|done| |congruence|rewrite El2; by apply list_lookup_insert_eq| |congruence|].
  - assert (is_Some f) as Hsf by (unfold f; destruct (own_formatter pattern); [by eexists|done]).
    pose proof (change_logger_fine l x (relogger x lv [] f) s1 (proj1 Hf1) Hx Hsf (Forall_nil_2 _) eq_refl eq_refl) as Hf2.
    eapply fine_trans; [exact Hf1|]. eapply fine_trans; [exact Hf2|]. apply calm_fine; [apply Hf2|]. unfold calm. cbn. rewrite El2, Ea2, En2, Er2. by repeat split.
  - intros g Hg. unfold f. by rewrite Hg.
  - intros k z Hkl Hz. rewrite El2, list_lookup_insert_ne by done. by apply Hk1.
Qed.

(** Loggers of other names are left alone. *)
Definition undisturbed (name : string) (s s' : Logging) : Prop :=
  (forall n l x, n <> name -> map_find string_less n (loggers_ s) = Some l -> logger_heap s !! l = Some x ->
    map_find string_less n (loggers_ s') = Some l /\ logger_heap s' !! l = Some x) /\
  (forall a x, appender_heap s !! a = Some x -> exists x', appender_heap s' !! a = Some x' /\ look x' = look x).

Lemma names_apart s n n' l : logging_ok s -> map_find string_less n (loggers_ s) = Some l -> map_find string_less n' (loggers_ s) = Some l -> n = n'.
Proof.
  intros (_ & _ & _ & H & _) H1%map_find_In H2%map_find_In. rewrite Forall_forall in H.
  destruct (H _ H1) as (x & Hx & Hn), (H _ H2) as (x' & Hx' & Hn'). cbn in *. congruence.
Qed.

Lemma configure_spec old i s : logging_ok s -> supported i ->
  (forall j, set_find config_less i old = Some j -> config_eq i j = false) ->
  exists s', configure old i s = (Ok tt, s') /\ fine s s' /\ configured s' i /\ undisturbed (d_name i) s s'.
Proof.
  intros Hs Hsup Hch. destruct (prepare (d_name i) (d_level i) (d_formatter i) s Hs) as (l & x & f & s1 & s2 & E1 & E2 & Hf2 & Hm2 & Hx2 & Hfm & Ea2 & Hk2).
  destruct (attach_all_spec (d_name i) l (d_appenders i) s2 _ (proj1 Hf2) Hx2 Hsup) as (s3 & al & E3 & Hf3 & Hfr3 & Hn3 & Hx3 & Ha3). cbn in Hx3, Ha3.
  exists s3. split_and!; [|by eapply fine_trans| |].
  - unfold configure. assert ((match set_find config_less i old with
      | None => let* l := GetLogger (d_name i) in ret (Some l)
      | Some it => if negb (config_eq i it) then let* l := GetLogger (d_name i) in ret (Some l) else ret None end) s = (Ok (Some l), s1)) as Hl.
    { destruct (set_find config_less i old) as [j|]; [rewrite (Hch j eq_refl); cbn [negb]|]; by erewrite bind_ok by exact E1. }
    erewrite bind_ok by exact Hl. cbn beta iota. unfold bind in E2 |- *. destruct (SetLevel l (d_level i) s1) as [[u|e] t1]; [|done]. cbn in E2 |- *.
    destruct ((if is_empty (d_formatter i) then ret tt else SetFormatter_pattern l (d_formatter i)) t1) as [[u'|e] t2]; [|done]. rewrite E2. exact E3.
  - exists l, (mkLogger (l_name x) (d_level i) al f (l_root x)). split_and!; [by rewrite Hn3|done|done|done|done].
  - split.
    + intros n k z Hne Hn Hz. assert (k <> l) as Hkl.
      { intros ->. apply Hne, (names_apart s2 n (d_name i) l); [apply Hf2| |done]. by apply Hf2. }
      split; [rewrite Hn3; by apply Hf2|]. apply Hfr3; [done|]. by apply Hk2.
    + intros a z Hz. rewrite <- Ea2 in Hz. by apply Hfr3.
Qed.

Lemma configured_kept name s s' i : d_name i <> name -> undisturbed name s s' -> configured s i -> configured s' i.
Proof.
  intros Hne [HL HA] (l & x & Hm & Hx & Hlv & Hf & Ha). destruct (HL _ _ _ Hne Hm Hx) as [Hm' Hx']. exists l, x. split_and!; try done.
  eapply Forall2_impl; [exact Ha|]. intros a c (y & Hy & Ht & Hl & Hfy). destruct (HA _ _ Hy) as (y' & Hy' & E). unfold look in E. injection E as E1 E2 E3.
  exists y'. split_and!; congruence.
Qed.

Lemma retired_kept name s s' i : d_name i <> name -> undisturbed name s s' -> retired s i -> retired s' i.
Proof. intros Hne [HL _] (l & x & Hm & Hx & Hlv & Ha). destruct (HL _ _ _ Hne Hm Hx) as [Hm' Hx']. by exists l, x. Qed.

Lemma each_app {A} (f : A -> prog Logging unit) l k s : each f (l ++ k) s = bind (each f l) (fun _ => each f k) s.
Proof.
  revert s. induction l as [|x l IH]; intros s; [done|]. cbn [app each]. unfold bind in *. destruct (f x s) as [[u|e] s']; [apply IH|done].
Qed.

(** Entries whose names are not in [l] keep their loggers. *)
Definition spares (l : list LogConfig) (s s' : Logging) : Prop :=
  forall j, d_name j ∉ d_name <$> l -> (configured s j -> configured s' j) /\ (retired s j -> retired s' j).

Lemma each_configure old l s : logging_ok s -> NoDup (d_name <$> l) -> Forall supported l ->
  Forall (fun i => forall j, set_find config_less i old = Some j -> config_eq i j = false) l ->
  exists s', each (configure old) l s = (Ok tt, s') /\ fine s s' /\ Forall (configured s') l /\ spares l s s'.
Proof.
  revert s. induction l as [|i l IH]; intros s Hs Hd Hsup Hch; [exists s; split_and!; [done|by apply fine_refl|done|by intros j]|].
  apply NoDup_cons in Hd as [Hi Hd]. apply Forall_cons in Hsup as [Hsi Hsup]. apply Forall_cons in Hch as [Hci Hch].
  destruct (configure_spec old i s Hs Hsi Hci) as (s1 & E1 & Hf1 & Hc1 & Hu1).
  destruct (IH s1 (proj1 Hf1) Hd Hsup Hch) as (s2 & E2 & Hf2 & Hc2 & Hu2).
  exists s2. split_and!; [cbn; by erewrite bind_ok by exact E1|by eapply fine_trans|constructor; [by apply Hu2|done]|].
  intros j [Hji Hj]%not_elem_of_cons. destruct (Hu2 j Hj) as [H1 H2].
  split; intros H; [apply H1; by eapply configured_kept|apply H2; by eapply retired_kept].
Qed.

Lemma retire_spec new i s : logging_ok s -> set_find config_less i new = None ->
  exists s', retire new i s = (Ok tt, s') /\ fine s s' /\ retired s' i /\ undisturbed (d_name i) s s'.
Proof.
  intros Hs Hi. destruct (prepare (d_name i) UNKNOWN EmptyString s Hs) as (l & x & f & s1 & s2 & E1 & E2 & Hf2 & Hm2 & Hx2 & _ & Ea2 & Hk2).
  exists s2. split_and!; [|done|by exists l, (relogger x UNKNOWN [] f)|].
  - unfold retire. rewrite Hi. erewrite bind_ok by exact E1. exact E2.
  - split.
    + intros n k z Hne Hn Hz. assert (k <> l) as Hkl.
      { intros ->. apply Hne, (names_apart s2 n (d_name i) l); [apply Hf2| |done]. by apply Hf2. }
      split; [by apply Hf2|by apply Hk2].
    + intros a z Hz. rewrite Ea2. eauto.
Qed.

(** The entries that are gone. *)
Definition gone (new : list LogConfig) (l : list LogConfig) : list LogConfig := filter (fun i => set_find config_less i new = None) l.

Lemma each_retire new l s : logging_ok s -> NoDup (d_name <$> l) ->
  exists s', each (retire new) l s = (Ok tt, s') /\ fine s s' /\ Forall (retired s') (gone new l) /\ spares (gone new l) s s'.
Proof.
  revert s. induction l as [|i l IH]; intros s Hs Hd; [exists s; split_and!; [done|by apply fine_refl|constructor|by intros j]|].
  apply NoDup_cons in Hd as [Hi Hd]. unfold gone. destruct (set_find config_less i new) as [j|] eqn:Ef.
  - rewrite filter_cons_False by congruence. destruct (IH s Hs Hd) as (s2 & E2 & H2). exists s2. split; [|done].
    cbn. unfold retire at 1. rewrite Ef. exact E2.
  - rewrite filter_cons_True by done. destruct (retire_spec new i s Hs Ef) as (s1 & E1 & Hf1 & Hr1 & Hu1).
    destruct (IH s1 (proj1 Hf1) Hd) as (s2 & E2 & Hf2 & Hr2 & Hu2).
    assert (d_name i ∉ d_name <$> gone new l) as Hig.
    { intros (j & Hj & Hjl)%list_elem_of_fmap. apply list_elem_of_filter in Hjl as [_ Hjl]. apply Hi, list_elem_of_fmap. eauto. }
    exists s2. split_and!; [cbn; by erewrite bind_ok by exact E1|by eapply fine_trans|constructor; [by apply Hu2|done]|].
    intros j [Hji Hj]%not_elem_of_cons. destruct (Hu2 j Hj) as [H1 H2].
    split; intros H; [apply H1; by eapply configured_kept|apply H2; by eapply retired_kept].
Qed.

Lemma config_names v : set_ok config_less v -> NoDup (d_name <$> v).
Proof.
  induction 1 as [|i v Hv IH Hi]; cbn; constructor; [|done]. intros (j & Hj & Hjv)%list_elem_of_fmap. rewrite Forall_forall in Hi.
  pose proof (Hi j Hjv) as Hl. unfold config_less in Hl. by rewrite Hj, less_irrefl in Hl.
Qed.

Lemma set_find_name i j v : set_ok config_less v -> j ∈ v -> d_name j = d_name i -> set_find config_less i v = Some j.
Proof.
  intros Hv Hj Hn. induction Hv as [|k v Hv IH Hk]; [by apply elem_of_nil in Hj|]. cbn. unfold config_less in *. rewrite <- Hn.
  apply elem_of_cons in Hj as [->|Hj]; [by rewrite less_irrefl|].
  rewrite Forall_forall in Hk. rewrite (Hk j Hj). by apply IH.
Qed.

Lemma announce_ok s : (forall f t, is_Some (strftime f t)) -> logging_ok s -> exists s',
  (let* r := gets root_ in LOG_LEVEL strftime r INFO here 596 thread_id fiber_id "on_logger_conf_changed") s = (Ok tt, s') /\ fine s s'.
Proof.
  intros Hfit Hs. pose proof (run_gop_fine strftime (GLog (root_ s) INFO here 596 thread_id fiber_id "on_logger_conf_changed") s Hs) as Hg.
  unfold runs in Hg. cbn [run_gop addressed] in Hg. unfold bind at 1, gets at 1. cbn beta iota.
  assert (is_Some (logger_heap s !! root_ s)) as Hr by (destruct Hs as (_ & (r & -> & _) & _); by eexists).
  destruct (LOG_LEVEL _ _ _ _ _ _ _ _ s) as [[[]|e] s'] eqn:E; [eauto|].
  destruct (Hg Hr) as [(_ & f & t & Hft) _]. destruct (Hfit f t). congruence.
Qed.

Lemma conf_applies s old new : logging_ok s -> (forall f t, is_Some (strftime f t)) ->
  set_ok config_less old -> set_ok config_less new -> Forall supported new ->
  Forall (fun i => forall j, set_find config_less i old = Some j -> config_eq i j = false) new ->
  exists s', on_logger_conf_changed strftime here thread_id fiber_id old new s = (Ok tt, s') /\
  Forall (configured s') new /\ forall i, i ∈ old -> set_find config_less i new = None -> retired s' i.
Proof.
  intros Hs Hfit Ho Hn Hsup Hch. destruct (announce_ok s Hfit Hs) as (s1 & E1 & Hf1).
  destruct (each_configure old new s1 (proj1 Hf1) (config_names new Hn) Hsup Hch) as (s2 & E2 & Hf2 & Hc2 & _).
  destruct (each_retire new old s2 (proj1 Hf2) (config_names old Ho)) as (s3 & E3 & Hf3 & Hr3 & Hu3).
  exists s3. split_and!.
  - unfold on_logger_conf_changed. erewrite bind_ok by exact E1. by erewrite bind_ok by exact E2.
  - rewrite Forall_forall in *. intros i Hi. apply (Hu3 i); [|by apply Hc2].
    intros (j & Hj & Hjg)%list_elem_of_fmap. apply list_elem_of_filter in Hjg as [Hjg _]. by rewrite (set_find_name j i new Hn Hi Hj) in Hjg.
  - intros i Hi Hg. rewrite Forall_forall in Hr3. apply Hr3. by apply list_elem_of_filter.
Qed.


(** The listener dereferences a null pointer as soon as the new value has an entry
    that equals one of the old value, that is, whenever one logger is changed and another
    is not; and an entry counts as equal whatever its appenders are. *)
Theorem unchanged_entry_crashes s old pre i post j : reached strftime s -> (forall f t, is_Some (strftime f t)) ->
  NoDup (d_name <$> pre) -> Forall supported pre ->
  Forall (fun i => forall j, set_find config_less i old = Some j -> config_eq i j = false) pre ->
  set_find config_less i old = Some j -> d_name i = d_name j -> d_level i = d_level j -> d_formatter i = d_formatter j ->
  exists s', on_logger_conf_changed strftime here thread_id fiber_id old (pre ++ i :: post) s = (Fail null_deref, s').
Proof.
  intros Hs%reached_ok Hfit Hd Hsup Hch Hf Hn Hl Hfm. destruct (announce_ok s Hfit Hs) as (s1 & E1 & Hf1).
  destruct (each_configure old pre s1 (proj1 Hf1) Hd Hsup Hch) as (s2 & E2 & _).
  assert (config_eq i j = true) as He by (unfold config_eq, level_eq; by rewrite Hn, Hl, Hfm, !String.eqb_refl, Z.eqb_refl, appenders_eq_refl).
  exists s2. unfold on_logger_conf_changed. erewrite bind_ok by exact E1. apply bind_fail. rewrite each_app. erewrite bind_ok by exact E2.
  cbn [each]. apply bind_fail. unfold configure. rewrite Hf, He. done.
Qed.
End Applying.

(** ** The variable [logs] *)

(** A change of the appenders alone is not seen at all. *)
Theorem appender_change_unseen (v w : list LogConfig) :
  Forall2 (fun i j => d_name i = d_name j /\ d_level i = d_level j /\ d_formatter i = d_formatter j) v w -> lists_eq config_eq v w = true.
Proof.
  induction 1 as [|i j v w (Hn & Hl & Hf) _ IH]; [done|]. cbn. rewrite IH. unfold config_eq, level_eq. by rewrite Hn, Hl, Hf, !String.eqb_refl, Z.eqb_refl, appenders_eq_refl.
Qed.

#[global] Instance config_order : WeakOrder config_less.
Proof. unfold config_less. split; [intros; apply less_irrefl|intros x y z; apply less_trans|intros x y z; apply less_split]. Qed.

(** [std::set<LogConfig>] as a type with conversions of its own. *)
Inductive log_code := LogSet.

#[global] Instance log_code_eq_dec : EqDecision log_code.
Proof. solve_decision. Defined.

Lemma config_eq_sym a b : config_eq a b = config_eq b a.
Proof.
  unfold config_eq, level_eq. rewrite !appenders_eq_refl, (String.eqb_sym (d_name a)), (String.eqb_sym (d_formatter a)), (Z.eqb_sym (level_value (d_level a))). done.
Qed.

#[global] Instance log_scalars `{YB : Yaml} : Scalars log_code.
Proof.
  refine {| base_type _ := list LogConfig; base_eq _ := lists_eq config_eq; base_less _ := lex_less config_less;
            base_from _ := configs_from; base_to _ := configs_to |}.
  intros _ x. induction x as [|i x IH]; intros [|j y]; cbn; try done. by rewrite config_eq_sym, IH.
Defined.

Section Start.
Context `{YB : Yaml} `{HB : Hashing} (strftime : string -> Z -> option string) (here : string) (thread_id fiber_id : Z).

Definition logs_type : Ty log_code := TBase LogSet.

(** [g_log_defines] and [LogIniter]: the variable and its listener, made before [main]. *)
Definition log_init : prog (Config (B := log_code) Logging) Z :=
  let* p := Config.Lookup logs_type "logs" [] "logs config" in
  match p with
  | Some a => AddListener_at logs_type a (on_logger_conf_changed strftime here thread_id fiber_id)
  | None => fail null_deref
  end.

Lemma read_appenders_types node js acc cs : Forall (fun c => c_type c = 1 \/ c_type c = 2) acc ->
  read_appenders node js acc = Ok cs -> Forall (fun c => c_type c = 1 \/ c_type c = 2) cs.
Proof.
  revert acc. induction js as [|j js IH]; cbn [read_appenders]; intros acc Ha; [by intros [= <-]|].
  destruct (read_appender (node_at node j)) as [o|] eqn:E; [|done]. cbn. apply IH. destruct o as [c|]; [|done].
  apply Forall_app. split; [done|]. apply Forall_singleton. unfold read_appender in E.
  repeat match type of E with
  | (_ ← ?m; _) = _ => destruct m; cbn [mbind result_bind] in E; [|done]
  | (if ?b then _ else _) = _ => destruct b; [|]
  | Ok _ = Ok _ => injection E as <- || discriminate E
  end; cbn; auto.
Qed.

Lemma read_config_supported n i : read_config n = Ok (Some i) -> supported i.
Proof.
  unfold read_config. intros E.
  destruct (node_get "name" n) as [nm|]; cbn -[read_appenders] in E; [|done]. destruct (IsDefined nm); cbn -[read_appenders] in E; [|done].
  destruct (as_string nm); cbn -[read_appenders] in E; [|done]. destruct (node_get "level" n) as [lv|]; cbn -[read_appenders] in E; [|done].
  destruct (if IsDefined lv then _ else _); cbn -[read_appenders] in E; [|done]. destruct (node_get "formatter" n) as [fm|]; cbn -[read_appenders] in E; [|done].
  destruct (if IsDefined fm then _ else _); cbn -[read_appenders] in E; [|done]. destruct (node_get "appenders" n) as [ap|]; cbn -[read_appenders] in E; [|done].
  destruct (IsDefined ap); cbn -[read_appenders] in E; [|injection E as <-; constructor].
  destruct (read_appenders ap (indices ap) []) eqn:Er; cbn in E; [|done]. injection E as <-. by apply (read_appenders_types ap (indices ap) []).
Qed.

Lemma read_configs_ok_set node js vec v : set_ok config_less vec -> Forall supported vec -> read_configs node js vec = Ok v -> set_ok config_less v /\ Forall supported v.
Proof.
  revert vec. induction js as [|j js IH]; cbn [read_configs]; intros vec Hv Hs; [by intros [= <-]|].
  destruct (read_config (node_at node j)) as [o|] eqn:E; [|done]. cbn. destruct o as [i|]; [|by apply IH].
  apply IH; [apply set_insert_ok; [apply _|done]|]. apply set_insert_all; [by eapply read_config_supported|done].
Qed.

(** The registry once [LogIniter] has run, with the value [v] and the loggers [w]. *)
Definition logs_entry (v : list LogConfig) : Entry (B := log_code) Logging :=
  mkEntry "logs" "logs config" logs_type (mkVar (t := logs_type) v [(1, on_logger_conf_changed strftime here thread_id fiber_id)]).

Definition logs_config (v : list LogConfig) (ids : Ty log_code -> Z) (w : Logging) : Config (B := log_code) Logging :=
  mkConfig [logs_entry v] [("logs"%string, 0%nat)] ids w.

Lemma log_init_ok w : exists ids, log_init (no_config w) = (Ok 1, logs_config [] ids w).
Proof.
  unfold log_init, Config.Lookup, bind, gets, no_config, add_entry. cbn. unfold AddListener_at. cbn.
  unfold unordered_map_insert. cbn. eexists. unfold logs_config. f_equal. f_equal.
  assert (forall x : string * nat, place x [] = [x]) as Hp by (intros x; pose proof (place_perm x []) as H; by apply Permutation_singleton_r in H).
  apply Hp.
Qed.

(** A member of another name. *)
Lemma load_other key n v ids w : valid_name key = true -> key <> "logs"%string ->
  load_member (key, n) (logs_config v ids w) = (Ok tt, logs_config v ids w).
Proof.
  intros Hk Hne. unfold load_member. destruct (String.eqb_spec key EmptyString); [done|]. rewrite (tolower_valid key Hk). unfold bind, LookupBase, gets. cbn [logs_config datas find_entry].
  by destruct (String.eqb_spec "logs" key) as [<-|].
Qed.

Lemma load_nothing l v ids w : texts_for "logs" l = [] -> Forall (fun m => valid_name m.1 = true) l ->
  load_members l (logs_config v ids w) = (Ok tt, logs_config v ids w).
Proof.
  intros Ht Hl. induction Hl as [|[key n] l Hk _ IH]; [done|]. unfold texts_for in Ht, IH. rewrite filter_cons in Ht. cbn [fst] in *.
  destruct (decide (key = "logs"%string /\ "logs"%string <> EmptyString)) as [|Hne]; [done|]. cbn [load_members]. erewrite bind_ok; [by apply IH|].
  apply load_other; [done|]. intros ->. by destruct Hne.
Qed.

(** The member that sets the loggers up. *)
Lemma load_logs n v ids w : logging_ok w -> (forall f t, is_Some (strftime f t)) -> configs_from (node_text n) = Ok v -> v <> [] ->
  exists w', load_member ("logs"%string, n) (logs_config [] ids w) = (Ok tt, logs_config v ids w') /\ Forall (configured w') v.
Proof.
  intros Hw Hfit Hc Hv. assert (set_ok config_less v /\ Forall supported v) as [Hset Hsup].
  { unfold configs_from in Hc. destruct (Load (node_text n)); [|done]. cbn in Hc. by apply (read_configs_ok_set _ _ [] v) in Hc; [|constructor..]. }
  destruct (conf_applies strftime here thread_id fiber_id w [] v Hw Hfit) as (w' & E & Hconf & _); [constructor|done|done|by apply Forall_true|].
  exists w'. split; [|done].
  assert (fromString_at 0 (node_text n) (logs_config [] ids w) = (Ok false, logs_config v ids w')) as Hfs.
  { unfold fromString_at, call_var. change (heap (logs_config [] ids w) !! 0%nat) with (Some (logs_entry [])).
    cbv beta iota. unfold fromString. change (from_string (type_ (logs_entry [])) (node_text n)) with (configs_from (node_text n)). rewrite Hc.
    unfold SetValue. destruct v as [|i v]; [done|]. cbn -[on_logger_conf_changed]. unfold bind. by rewrite E. }
  unfold load_member. change (String.eqb "logs" EmptyString) with false. cbv iota. rewrite (tolower_valid "logs" eq_refl).
  unfold bind at 1, LookupBase, gets. change (find_entry "logs" (datas (logs_config [] ids w))) with (Some 0%nat). cbv beta iota.
  by erewrite bind_ok by exact Hfs.
Qed.

Lemma load_once l txt v ids w : logging_ok w -> (forall f t, is_Some (strftime f t)) -> texts_for "logs" l = [txt] ->
  Forall (fun m => valid_name m.1 = true) l -> configs_from txt = Ok v -> v <> [] ->
  exists w', load_members l (logs_config [] ids w) = (Ok tt, logs_config v ids w') /\ Forall (configured w') v.
Proof.
  intros Hw Hfit Ht Hl Hc Hv. induction Hl as [|[key n] l Hk Hl IH]; [done|]. unfold texts_for in Ht, IH. rewrite filter_cons in Ht. cbn [fst] in *.
  destruct (decide (key = "logs"%string /\ "logs"%string <> EmptyString)) as [[-> _]|Hne].
  - cbn in Ht. injection Ht as Hn Ht. rewrite <- Hn in Hc. destruct (load_logs n v ids w Hw Hfit Hc Hv) as (w' & E & Hconf).
    exists w'. split; [|done]. cbn [load_members]. erewrite bind_ok by exact E. by apply load_nothing.
  - destruct (IH Ht) as (w' & E & Hconf). exists w'. split; [|done]. cbn [load_members]. erewrite bind_ok; [exact E|].
    apply load_other; [done|]. intros ->. by destruct Hne.
Qed.

(** From the start of the program, loading a document that configures loggers under
    [logs] leaves every logger it names set up as it says, and keeps the configuration
    as the value of the variable: the registry, the conversion, the listener and the
    loggers work together.  The document may hold anything else. *)
Theorem first_load_configures w root txt v : reached strftime w -> (forall f t, is_Some (strftime f t)) ->
  texts_for "logs" (ListAllMember EmptyString root) = [txt] -> configs_from txt = Ok v -> v <> [] ->
  exists s ids w', log_init (no_config w) = (Ok 1, s) /\ LoadFromYaml root s = (Ok tt, logs_config v ids w') /\ Forall (configured w') v.
Proof.
  intros Hw%reached_ok Hfit Ht Hc Hv. destruct (log_init_ok w) as [ids E0]. exists (logs_config [] ids w), ids.
  destruct (load_once _ txt v ids w Hw Hfit Ht) as (w' & E & Hconf); [|done|done|by exists w'].
  rewrite members_filter. apply Forall_forall. by intros m [Hm _]%list_elem_of_filter.
Qed.
End Start.

Module LogConfigDemo.
Import LoggerDemo.

Definition system_old : LogConfig := mkLogConfig "system" INFO EmptyString [mkAppenderConfig 2 UNKNOWN EmptyString EmptyString].
Definition system_new : LogConfig :=
  mkLogConfig "system" ERROR "%m%n" [mkAppenderConfig 1 WARN EmptyString "b.log"; mkAppenderConfig 2 UNKNOWN "%p%n" EmptyString].
Definition http_old : LogConfig := mkLogConfig "http" INFO EmptyString [].

Lemma demo_set2 i j : config_less i j = true -> set_ok config_less [i; j].
Proof. intros H. repeat constructor. exact H. Qed.
End LogConfigDemo.
Import LoggerDemo LogConfigDemo.


Lemma unchanged_entry_crashes_witness : exists s',
  on_logger_conf_changed demo_time "log.cpp" 1 0 [http_old; system_old] ([] ++ [mkLogConfig "http" INFO EmptyString [empty_appender]; system_new]) demo_logging = (Fail null_deref, s').
Proof.
  apply (unchanged_entry_crashes demo_time "log.cpp" 1 0 demo_logging [http_old; system_old] [] (mkLogConfig "http" INFO EmptyString [empty_appender]) [system_new] http_old demo_reached);
    [intros f t; by eexists|constructor|constructor|constructor|reflexivity..].
Defined.

Lemma configs_recast_witness : exists s, configs_to (YB := flow_yaml) [http_old; system_new] = Ok s /\ configs_from s = Ok (kept <$> [http_old; system_new]).
Proof. apply (configs_recast [http_old; system_new]). by apply demo_set2. Defined.

(** What is lost. *)
Example formatter_lost : d_formatter (kept system_new) = EmptyString /\ d_formatter system_new = "%m%n"%string.
Proof. done. Qed.

(** The example's loggers as text, and read as a configuration. *)
Example demo_yaml : match manager_yaml (YB := flow_yaml) demo_logging with Ok t => configs_from t | Fail e => Fail e end =
  Ok [ mkLogConfig "quiet" DEBUG default_layout []; mkLogConfig "root" DEBUG default_layout [mkAppenderConfig 2 UNKNOWN EmptyString EmptyString];
       mkLogConfig "system" DEBUG "%l%n" [mkAppenderConfig 1 UNKNOWN "%p %c: %m%n" "a.log"; mkAppenderConfig 2 UNKNOWN EmptyString EmptyString] ].
Proof. vm_compute. reflexivity. Qed.

Definition demo_document : Node :=
  Map [ (Scalar "tcp", Map [(Scalar "port", Scalar "80")]);
        (Scalar "logs", Sequence [Map [(Scalar "name", Scalar "system"); (Scalar "level", Scalar "error");
                                       (Scalar "appenders", Sequence [Map [(Scalar "type", Scalar "FileLogAppender"); (Scalar "file", Scalar "b.log")]])]]) ].

Lemma first_load_configures_witness : exists s ids w',
  log_init (YB := flow_yaml) (HB := CastDemo.demo_hashing) demo_time "log.cpp" 1 0 (no_config demo_logging) = (Ok 1, s) /\
  LoadFromYaml (HB := CastDemo.demo_hashing) demo_document s =
    (Ok tt, logs_config demo_time "log.cpp" 1 0 [mkLogConfig "system" ERROR EmptyString [mkAppenderConfig 1 UNKNOWN EmptyString "b.log"]] ids w') /\
  Forall (configured w') [mkLogConfig "system" ERROR EmptyString [mkAppenderConfig 1 UNKNOWN EmptyString "b.log"]].
Proof.
  eapply (first_load_configures demo_time "log.cpp" 1 0 demo_logging demo_document);
    [exact demo_reached|intros f t; by eexists|vm_compute; reflexivity|vm_compute; reflexivity|done].
Defined.
