(* ===== verification/FileSystem.v ===== *)
(** * Files and utilities: [gudov/util.h] and [gudov/util.cpp]

    Listing, making and removing directories, and cutting path names; the clock and
    backtraces.  The system's
    calls are a parameter (class [Posix]) with their documented behaviour; a path is a
    [string]. *)

From S2P Require Import Prelude.
From stdpp Require Import base numbers list sets strings.
From Stdlib Require Import ZArith Lia Ascii.
Open Scope Z_scope.
Open Scope prog_scope.

(** ** The system *)

Inductive dtype := DT_DIR | DT_REG | DT_OTHER.

#[global] Instance dtype_eq_dec : EqDecision dtype.
Proof. solve_decision. Defined.

(** The file types in [st_mode]. *)
Definition S_IFMT : Z := 61440.
Definition S_IFDIR : Z := 16384.
Definition S_IFREG : Z := 32768.
Definition S_IFLNK : Z := 40960.
Definition S_IFSOCK : Z := 49152.
Definition S_IFBLK : Z := 24576.

(** [readdir] is the whole of a directory's stream, if [opendir] gives one. *)
Class Posix (S : Type) := {
  access : string -> S -> bool;
  lstat : string -> S -> option Z;
  readdir : string -> S -> option (list (dtype * string));
  mkdir : string -> S -> bool * S;
  unlink : string -> S -> bool * S;
  rmdir : string -> S -> bool * S;
  rename : string -> string -> S -> bool * S;
  symlink : string -> string -> S -> bool * S;
  realpath : string -> S -> option string;
  open_out : string -> S -> bool * S;
  open_in : string -> S -> bool }.

Definition slash : ascii := "/".

(** [path + "/" + name] *)
Definition join (path name : string) : string := path +:+ "/" +:+ name.

Definition is_dot (name : string) : bool := String.eqb name "." || String.eqb name "..".

(** A call of the system as a command. *)
Definition sys {S A} (f : S -> A * S) : prog S A := fun s => let '(a, s') := f s in (Ok a, s').

(** ** The clock and backtraces *)

(** What [gettimeofday] gives, in milliseconds and in microseconds; [tv_sec * 1000] is
    signed. *)
Definition GetCurrentMS (tv_sec tv_usec : Z) : Z := u64 (u64 (tv_sec * 1000) + Z.quot tv_usec 1000).
Definition GetCurrentUS (tv_sec tv_usec : Z) : result Z :=
  if (- 2 ^ 63 <=? tv_sec * 1000) && (tv_sec * 1000 <? 2 ^ 63) then Ok (u64 (u64 (tv_sec * 1000 * 1000) + tv_usec))
  else Fail undefined.

(** The lines of [backtrace_symbols] for the first [size] frames, without the first [skip]. *)
Definition BackTrace (symbols : list string -> option (list string)) (stack : list string) (size skip : Z) : list string :=
  match symbols (take (Z.to_nat size) stack) with
  | None => []
  | Some lines => drop (Z.to_nat (u64 skip)) lines
  end.

Definition BacktraceToString (symbols : list string -> option (list string)) (stack : list string) (size skip : Z) (prefix : string) : string :=
  foldr (fun line out => prefix +:+ line +:+ String (ascii_of_nat 10) out) EmptyString (BackTrace symbols stack size skip).

(** ** Names *)

(** [filename.rfind('/')]: what is before the last slash and what is behind it. *)
Fixpoint cut_last (s : string) : option (string * string) :=
  match s with
  | EmptyString => None
  | String c s' =>
      match cut_last s' with
      | Some (a, b) => Some (String c a, b)
      | None => if Ascii.eqb c slash then Some (EmptyString, s') else None
      end
  end.

Definition Dirname (filename : string) : string :=
  if String.eqb filename EmptyString then "."
  else match cut_last filename with
       | Some (EmptyString, _) => "/"
       | None => "."
       | Some (a, _) => a
       end.

Definition Basename (filename : string) : string :=
  if String.eqb filename EmptyString then filename
  else match cut_last filename with None => filename | Some (_, b) => b end.

(** ** Operations *)

Section Operations.
Context {S : Type} `{Posix S}.

(** [filename.substr(filename.length() - subfix.size()) == subfix], and the tests before
    it. *)
Definition has_suffix (subfix filename : string) : bool :=
  if String.eqb subfix EmptyString then true
  else if (String.length filename <? String.length subfix)%nat then false
  else String.eqb (String.substring (String.length filename - String.length subfix) (String.length subfix) filename) subfix.

(** The loop over [readdir]: what it appends to [files], [sub] being the recursive call. *)
Fixpoint list_entries (sub : string -> result (list string)) (path subfix : string) (l : list (dtype * string)) : result (list string) :=
  match l with
  | [] => Ok []
  | (DT_DIR, d_name) :: l =>
      if is_dot d_name then list_entries sub path subfix l
      else fs ← sub (join path d_name); rest ← list_entries sub path subfix l; Ok (fs ++ rest)
  | (DT_REG, d_name) :: l =>
      rest ← list_entries sub path subfix l; Ok (if has_suffix subfix d_name then join path d_name :: rest else rest)
  | (DT_OTHER, _) :: l => list_entries sub path subfix l
  end.

(** [FSUtil::ListAllFile] *)
Fixpoint ListAllFile (fuel : nat) (path subfix : string) (s : S) : result (list string) :=
  match fuel with
  | O => Fail out_of_fuel
  | Datatypes.S fuel =>
      if negb (access path s) then Ok []
      else match readdir path s with
           | None => Ok []
           | Some l => list_entries (fun p => ListAllFile fuel p subfix s) path subfix l
           end
  end.

(** [__mkdir] *)
Definition mkdir_if (dirname : string) : prog S bool :=
  let* there := gets (access dirname) in
  if there then ret true else sys (mkdir dirname).

(** The path up to each slash that is not its first character. *)
Fixpoint cuts (before rest : string) : list string :=
  match rest with
  | EmptyString => []
  | String c rest =>
      let next := before +:+ String c EmptyString in
      if Ascii.eqb c slash && negb (String.eqb before EmptyString) then before :: cuts next rest else cuts next rest
  end.

Fixpoint mkdir_each (l : list string) : prog S bool :=
  match l with
  | [] => ret true
  | path :: l => let* ok := mkdir_if path in if (ok : bool) then mkdir_each l else ret false
  end.

(** [FSUtil::Mkdir]; [strchr(path + 1, '/')] starts behind the end of an empty string. *)
Definition Mkdir (dirname : string) : prog S bool :=
  let* there := gets (lstat dirname) in
  match there with
  | Some _ => ret true
  | None => if String.eqb dirname EmptyString then fail undefined else mkdir_each (cuts EmptyString dirname ++ [dirname])
  end.

(** [FSUtil::Unlink] *)
Definition Unlink (filename : string) (exist : bool) : prog S bool :=
  let* there := gets (lstat filename) in
  match exist, there with
  | false, None => ret true
  | _, _ => sys (unlink filename)
  end.

(** The loop of [FSUtil::Rm], [rm] being the recursive call: the answer for an entry
    replaces the one before. *)
Fixpoint rm_entries (rm : string -> prog S bool) (path : string) (r : bool) (l : list (dtype * string)) : prog S bool :=
  match l with
  | [] => ret r
  | (_, d_name) :: l => if is_dot d_name then rm_entries rm path r l else let* r := rm (join path d_name) in rm_entries rm path r l
  end.

(** [FSUtil::Rm] *)
Fixpoint Rm (fuel : nat) (path : string) : prog S bool :=
  match fuel with
  | O => fail out_of_fuel
  | Datatypes.S fuel =>
      let* st := gets (lstat path) in
      match st with
      | None => ret true
      | Some st_mode =>
          if Z.land st_mode S_IFDIR =? 0 then Unlink path false
          else
            let* dir := gets (readdir path) in
            match dir with
            | None => ret false
            | Some l =>
                let* r := rm_entries (Rm fuel) path true l in
                let* ok := sys (rmdir path) in
                ret (if (ok : bool) then r else false)
            end
      end
  end.

(** [FSUtil::Mv], [FSUtil::Symlink] and [FSUtil::Realpath] *)
Definition Mv (fuel : nat) (from to : string) : prog S bool :=
  let* ok := Rm fuel to in if (ok : bool) then sys (rename from to) else ret false.

Definition Symlink (fuel : nat) (from to : string) : prog S bool :=
  let* ok := Rm fuel to in if (ok : bool) then sys (symlink from to) else ret false.

Definition Realpath (path : string) : prog S (option string) :=
  let* there := gets (lstat path) in
  match there with None => ret None | Some _ => gets (realpath path) end.

(** [FSUtil::OpenForWrite] *)
Definition OpenForWrite (filename : string) : prog S bool :=
  let* ok := sys (open_out filename) in
  if (ok : bool) then ret true
  else let* _ := Mkdir (Dirname filename) in sys (open_out filename).

(** [FSUtil::OpenForRead], of a stream that is not open. *)
Definition OpenForRead (filename : string) : prog S bool := gets (open_in filename).

(** [atoi]: spaces, a sign, digits; the value must fit into an [int]. *)
Definition is_space (c : ascii) : bool := let n := nat_of_ascii c in ((n =? 32) || (9 <=? n) && (n <=? 13))%nat.
Definition is_digit (c : ascii) : bool := let n := nat_of_ascii c in ((48 <=? n) && (n <=? 57))%nat.

Fixpoint atoi_digits (acc : Z) (s : string) : Z :=
  match s with
  | String c s => if is_digit c then atoi_digits (10 * acc + (Z.of_nat (nat_of_ascii c) - 48)) s else acc
  | EmptyString => acc
  end.

Fixpoint atoi_value (s : string) : Z :=
  match s with
  | EmptyString => 0
  | String c s' =>
      if is_space c then atoi_value s'
      else if Ascii.eqb c "-" then - atoi_digits 0 s'
      else if Ascii.eqb c "+" then atoi_digits 0 s'
      else atoi_digits 0 s
  end.

Definition atoi (s : string) : result Z :=
  let v := atoi_value s in if (- 2 ^ 31 <=? v) && (v <? 2 ^ 31) then Ok v else Fail undefined.

(** [FSUtil::IsRunningPidfile]: [first_line] is what [getline] reads, if it can, and
    [alive pid] whether [kill(pid, 0)] succeeds. *)
Definition IsRunningPidfile (first_line : string -> S -> option string) (alive : Z -> S -> bool) (pidfile : string) (s : S) : result bool :=
  match lstat pidfile s with
  | None => Ok false
  | Some _ =>
      match first_line pidfile s with
      | None | Some EmptyString => Ok false
      | Some line => pid ← atoi line; Ok (if pid <=? 1 then false else alive pid s)
      end
  end.
End Operations.

(** ** Cutting names *)

Definition no_slash (s : string) : Prop := forall a b, s <> a +:+ String slash b.

Lemma cut_last_spec s : match cut_last s with
  | Some (a, b) => s = a +:+ String slash b /\ no_slash b
  | None => no_slash s
  end.
Proof.
  induction s as [|c s IH]; cbn; [by intros [] ?|]. destruct (cut_last s) as [[a b]|].
  - destruct IH as [-> Hb]. done.
  - destruct (Ascii.eqb_spec c slash) as [->|Hc]; [done|].
    intros [|x a] b E; injection E as E1 E2; [congruence|]. by apply (IH a b).
Qed.

Lemma cut_last_join a b : no_slash b -> cut_last (join a b) = Some (a, b).
Proof.
  intros Hb. unfold join. change ("/" +:+ b) with (String slash b). induction a as [|c a IH].
  - change (EmptyString +:+ String slash b) with (String slash b). cbn [cut_last]. pose proof (cut_last_spec b) as Hs. destruct (cut_last b) as [[x y]|]; [|done]. destruct Hs as [-> _]. by destruct (Hb x y).
  - change (String c a +:+ String slash b) with (String c (a +:+ String slash b)). cbn [cut_last]. by rewrite IH.
Qed.

(** A path name is its directory, a slash and its base name, in exactly one way:
    [Dirname] and [Basename] take apart what a slash has joined, a base name has no
    slash, and a name that holds a slash behind its first character is the two parts
    joined again. *)
Theorem dirname_basename a b filename : no_slash b ->
  (a <> EmptyString -> Dirname (join a b) = a) /\ Basename (join a b) = b /\ no_slash (Basename filename) /\
  (Dirname filename <> "."%string -> Dirname filename <> "/"%string -> join (Dirname filename) (Basename filename) = filename).
Proof.
  intros Hb. assert (String.eqb (join a b) EmptyString = false) as Hj by (by destruct a).
  unfold Dirname, Basename. rewrite Hj, (cut_last_join a b Hb). split_and!; [by destruct a|done|..].
  - destruct (String.eqb_spec filename EmptyString) as [->|_]; [by intros [] ?|]. pose proof (cut_last_spec filename) as Hs.
    destruct (cut_last filename) as [[x y]|]; [apply Hs|done].
  - destruct (String.eqb_spec filename EmptyString) as [->|_]; [done|]. pose proof (cut_last_spec filename) as Hs.
    destruct (cut_last filename) as [[x y]|]; [|done]. destruct Hs as [Hs _]. destruct x; intros H1 H2; [by destruct H2|by rewrite Hs].
Qed.

(** ** Listing *)

(** A tree of files, in the order in which [readdir] gives them. *)
Inductive tree := Reg | Other | Dir (l : list (string * tree)).

Fixpoint depth (t : tree) : nat :=
  match t with Reg | Other => O | Dir l => S (fold_right Nat.max O (map (fun x => depth x.2) l)) end.

Definition type_of (t : tree) : dtype := match t with Reg => DT_REG | Other => DT_OTHER | Dir _ => DT_DIR end.

Section TreeInduction.
Variable P : tree -> Prop.
Hypothesis P_reg : P Reg.
Hypothesis P_other : P Other.
Hypothesis P_dir : forall l, Forall (fun x => P x.2) l -> P (Dir l).

Lemma tree_induction t : P t.
Proof.
  revert t. fix go 1. intros [| |l]; [done|done|]. apply P_dir. induction l as [|[n t] l IH]; constructor; [apply go|exact IH].
Qed.
End TreeInduction.

(** The regular files with the suffix, depth first. *)
Fixpoint files_below (subfix path : string) (t : tree) : list string :=
  match t with
  | Dir l => flat_map (fun '(n, t) =>
      match t with
      | Reg => if has_suffix subfix n then [join path n] else []
      | Other => []
      | Dir _ => files_below subfix (join path n) t
      end) l
  | _ => []
  end.

Section Listing.
Context {S : Type} `{Posix S}.

(** The entries of a directory, without [.] and [..]. *)
Definition real_entries (l : list (dtype * string)) : list (dtype * string) := filter (fun x => is_dot x.2 = false) l.

(** The system shows the tree [t] at [path]. *)
Fixpoint shows (s : S) (path : string) (t : tree) : Prop :=
  match t with
  | Reg => exists m, lstat path s = Some m /\ Z.land m S_IFMT = S_IFREG
  | Other => exists m, lstat path s = Some m /\ Z.land m S_IFMT = S_IFLNK
  | Dir l =>
      access path s = true /\ (exists m, lstat path s = Some m /\ Z.land m S_IFMT = S_IFDIR) /\
      (exists es, readdir path s = Some es /\ real_entries es = map (fun x => (type_of x.2, x.1)) l /\
                  Forall (fun x => is_dot x.2 = true -> x.1 = DT_DIR) es) /\
      (fix all l : Prop := match l with [] => True | (n, t) :: l => shows s (join path n) t /\ all l end) l
  end.

Lemma shows_child s path l n t : shows s path (Dir l) -> (n, t) ∈ l -> shows s (join path n) t.
Proof.
  cbn. intros (_ & _ & _ & Hall) Hin. induction l as [|[m u] l IH]; [by apply elem_of_nil in Hin|]. destruct Hall as [Hu Hall].
  apply elem_of_cons in Hin as [[= -> ->]|Hin]; [done|by apply IH].
Qed.

Lemma depth_child l n t : (n, t) ∈ l -> (depth t < depth (Dir l))%nat.
Proof.
  cbn. induction l as [|[m u] l IH]; intros Hin; [by apply elem_of_nil in Hin|]. cbn.
  apply elem_of_cons in Hin as [[= -> ->]|Hin]; [lia|]. specialize (IH Hin). lia.
Qed.

Lemma list_entries_ok sub path subfix es l :
  real_entries es = map (fun x => (type_of x.2, x.1)) l -> Forall (fun x => is_dot x.2 = true -> x.1 = DT_DIR) es ->
  (forall n k, (n, Dir k) ∈ l -> sub (join path n) = Ok (files_below subfix (join path n) (Dir k))) ->
  list_entries sub path subfix es = Ok (files_below subfix path (Dir l)).
Proof.
  revert l. induction es as [|[d n] es IH]; intros l Hl Hd Hsub.
  { destruct l; [done|]. done. }
  apply Forall_cons in Hd as [Hdn Hd]. unfold real_entries in Hl. cbn [snd] in Hdn. destruct (is_dot n) eqn:En.
  - rewrite filter_cons_False in Hl by (cbn; congruence). cbn [fst] in Hdn. rewrite (Hdn eq_refl). cbn [list_entries]. rewrite En. by apply IH.
  - rewrite filter_cons_True in Hl by done. destruct l as [|[m t] l]; [done|]. cbn in Hl. injection Hl as Hdt Hnm Hl. subst d n.
    assert (list_entries sub path subfix es = Ok (files_below subfix path (Dir l))) as Hes.
    { apply IH; [done|done|]. intros k u Hk. apply Hsub. by right. }
    destruct t as [| |k]; cbn [type_of list_entries].
    + rewrite Hes. cbn. by destruct (has_suffix subfix m).
    + by rewrite Hes.
    + rewrite En, (Hsub m k) by (by left). cbn -[files_below]. rewrite Hes. done.
Qed.

Lemma list_all s path l subfix fuel : shows s path (Dir l) -> (depth (Dir l) <= fuel)%nat ->
  ListAllFile fuel path subfix s = Ok (files_below subfix path (Dir l)).
Proof.
  revert path fuel. remember (Dir l) as t eqn:Et. revert l Et. induction t as [| |l' IH] using tree_induction; intros l Et path fuel Hs Hf; [done..|].
  injection Et as ->. destruct fuel as [|fuel]; [cbn in Hf; lia|]. pose proof Hs as (Ha & _ & (es & Hr & He & Hd) & _).
  cbn [ListAllFile]. rewrite Ha, Hr. apply list_entries_ok; [done|done|].
  intros n k Hin. rewrite Forall_forall in IH. apply (IH (n, Dir k) Hin k eq_refl); [by eapply shows_child|].
  pose proof (depth_child _ _ _ Hin). unfold snd. lia.
Qed.

End Listing.

(** ** Removing *)

(** The entry of a name, and a directory without it. *)
Fixpoint child (n : string) (l : list (string * tree)) : option tree :=
  match l with [] => None | (m, t) :: l => if String.eqb m n then Some t else child n l end.

Fixpoint remove_name (n : string) (l : list (string * tree)) : list (string * tree) :=
  match l with [] => [] | (m, t) :: l => if String.eqb m n then l else (m, t) :: remove_name n l end.

Fixpoint set_child (n : string) (u : tree) (l : list (string * tree)) : list (string * tree) :=
  match l with [] => [] | (m, t) :: l => if String.eqb m n then (m, u) :: l else (m, t) :: set_child n u l end.

(** The tree below a list of names, and the tree with the directory there changed. *)
Fixpoint tree_at (cs : list string) (t : tree) : option tree :=
  match cs, t with
  | [], _ => Some t
  | n :: cs, Dir l => match child n l with Some u => tree_at cs u | None => None end
  | _, _ => None
  end.

Fixpoint update_at (cs : list string) (f : list (string * tree) -> list (string * tree)) (t : tree) : tree :=
  match t with
  | Dir l => match cs with
             | [] => Dir (f l)
             | n :: cs => match child n l with Some u => Dir (set_child n (update_at cs f u) l) | None => t end
             end
  | _ => t
  end.

Definition path_of (r : string) (cs : list string) : string := foldl join r cs.

(** What the system does to a tree it shows at [r] when it removes an entry of it. *)
Class PosixLaws (S : Type) `{Posix S} := {
  unlink_tree (s : S) r cs n T L t : shows s r T -> tree_at cs T = Some (Dir L) -> child n L = Some t -> t = Reg \/ t = Other ->
    exists s', unlink (path_of r (cs ++ [n])) s = (true, s') /\ shows s' r (update_at cs (remove_name n) T);
  rmdir_tree (s : S) r cs n T L : shows s r T -> tree_at cs T = Some (Dir L) -> child n L = Some (Dir []) ->
    exists s', rmdir (path_of r (cs ++ [n])) s = (true, s') /\ shows s' r (update_at cs (remove_name n) T) }.

Lemma tree_at_app cs ds t : tree_at (cs ++ ds) t = match tree_at cs t with Some u => tree_at ds u | None => None end.
Proof. revert t. induction cs as [|n cs IH]; intros t; [by destruct t|]. destruct t; cbn; [done|done|]. destruct (child n l); [apply IH|done]. Qed.

Lemma child_set n u l t : child n l = Some t -> child n (set_child n u l) = Some u.
Proof.
  induction l as [|[m v] l IH]; cbn; [done|]. destruct (String.eqb_spec m n) as [->|Hm]; cbn; [by rewrite String.eqb_refl|].
  destruct (String.eqb_spec m n); [done|apply IH].
Qed.

Lemma set_set n u v l : set_child n u (set_child n v l) = set_child n u l.
Proof.
  induction l as [|[m w] l IH]; cbn; [done|]. destruct (String.eqb_spec m n) as [->|Hm]; cbn; [by rewrite String.eqb_refl|].
  destruct (String.eqb_spec m n); [done|by rewrite IH].
Qed.

Lemma remove_set n u l : remove_name n (set_child n u l) = remove_name n l.
Proof.
  induction l as [|[m w] l IH]; cbn; [done|]. destruct (String.eqb_spec m n) as [->|Hm]; cbn; [by rewrite String.eqb_refl|].
  destruct (String.eqb_spec m n); [done|by rewrite IH].
Qed.

Lemma tree_at_update cs f t L : tree_at cs t = Some (Dir L) -> tree_at cs (update_at cs f t) = Some (Dir (f L)).
Proof.
  revert t. induction cs as [|n cs IH]; intros t; [by intros [= ->]|]. destruct t as [| |l]; cbn; [done|done|].
  destruct (child n l) as [u|] eqn:E; [|done]. intros Hu. cbn. rewrite (child_set _ _ _ _ E). by apply IH.
Qed.

Lemma update_update cs f g t L : tree_at cs t = Some (Dir L) -> update_at cs f (update_at cs g t) = update_at cs (fun l => f (g l)) t.
Proof.
  revert t. induction cs as [|n cs IH]; intros t; [by intros [= ->]|]. destruct t as [| |l]; cbn; [done|done|].
  destruct (child n l) as [u|] eqn:E; [|done]. intros Hu. cbn. rewrite (child_set _ _ _ _ E), set_set. by rewrite IH.
Qed.

(** Only the directory's own entries matter. *)
Lemma update_ext cs f g t L : tree_at cs t = Some (Dir L) -> f L = g L -> update_at cs f t = update_at cs g t.
Proof.
  revert t. induction cs as [|n cs IH]; intros t; [by intros [= ->] E; cbn; rewrite E|]. destruct t as [| |l]; cbn; [done|done|].
  destruct (child n l) as [u|] eqn:E; [|done]. intros Hu Hfg. by rewrite (IH u).
Qed.

Lemma remove_updated cs n f t L : tree_at cs t = Some (Dir L) ->
  update_at cs (remove_name n) (update_at (cs ++ [n]) f t) = update_at cs (remove_name n) t.
Proof.
  revert t. induction cs as [|m cs IH]; intros t.
  - intros [= ->]. cbn. destruct (child n L) as [u|]; cbn; [by rewrite remove_set|done].
  - destruct t as [| |l]; cbn; [done|done|]. destruct (child m l) as [u|] eqn:E; [|by rewrite ?E]. intros Hu. cbn.
    rewrite (child_set _ _ _ _ E), set_set. by rewrite IH.
Qed.

Lemma child_In n l t : child n l = Some t -> (n, t) ∈ l.
Proof. induction l as [|[m u] l IH]; cbn; [done|]. destruct (String.eqb_spec m n) as [->|]; [intros [= ->]; by left|]. right. by apply IH. Qed.

Lemma set_same n l u : child n l = Some u -> set_child n u l = l.
Proof.
  induction l as [|[m v] l IH]; cbn; [done|]. destruct (String.eqb_spec m n) as [->|]; [by intros [= ->]|]. intros Hc. by rewrite IH.
Qed.

Lemma update_same cs f t L : tree_at cs t = Some (Dir L) -> f L = L -> update_at cs f t = t.
Proof.
  intros Hat Hf. revert t Hat. induction cs as [|n cs IH]; intros t; [by intros [= ->]; cbn; rewrite Hf|]. destruct t as [| |l]; cbn; [done|done|].
  destruct (child n l) as [u|] eqn:E; [|done]. intros Hu. by rewrite IH, set_same.
Qed.

Section Removing.
Context {S : Type} `{PosixLaws S}.

Lemma shows_at s r cs T t : shows s r T -> tree_at cs T = Some t -> shows s (path_of r cs) t.
Proof.
  revert r T. induction cs as [|n cs IH]; intros r T Hs; [by intros [= <-]|]. destruct T as [| |l]; [done|done|].
  cbn. destruct (child n l) as [u|] eqn:E; [|done]. apply IH. eapply shows_child; [exact Hs|]. by apply child_In.
Qed.

Lemma mode_bits m k : Z.land m S_IFMT = k -> Z.land m S_IFDIR = Z.land k S_IFDIR.
Proof. intros <-. rewrite <- Z.land_assoc. done. Qed.

Lemma path_of_app r cs n : join (path_of r cs) n = path_of r (cs ++ [n]).
Proof. unfold path_of. by rewrite foldl_app. Qed.

(** One entry: a file or a link. *)
Lemma rm_leaf fuel s r cs n T L t : shows s r T -> tree_at cs T = Some (Dir L) -> child n L = Some t -> t = Reg \/ t = Other ->
  exists s', Rm (Datatypes.S fuel) (path_of r (cs ++ [n])) s = (Ok true, s') /\ shows s' r (update_at cs (remove_name n) T).
Proof.
  intros Hs HL Hc Ht. assert (tree_at (cs ++ [n]) T = Some t) as Hat by (rewrite tree_at_app, HL; cbn; rewrite Hc; by destruct t).
  pose proof (shows_at _ _ _ _ _ Hs Hat) as Hsh. destruct (unlink_tree s r cs n T L t Hs HL Hc Ht) as (s' & Hu & Hs').
  exists s'. split; [|done]. cbn [Rm]. unfold bind at 1, gets at 1.
  assert (exists m, lstat (path_of r (cs ++ [n])) s = Some m /\ Z.land m S_IFDIR = 0) as (m & Hm & Hz).
  { destruct Ht as [-> | ->]; cbn in Hsh; destruct Hsh as (m & Hm & Hk); exists m; (split; [done|]); by rewrite (mode_bits _ _ Hk). }
  rewrite Hm, Hz. cbn. unfold Unlink, bind, gets. rewrite Hm. unfold sys. by rewrite Hu.
Qed.

(** The loop over the entries of a directory, one after the other. *)
Lemma rm_entries_ok fuel r ds es k T (s : S) :
  (forall n t T s L, (n, t) ∈ k -> shows s r T -> tree_at ds T = Some (Dir L) -> child n L = Some t ->
    exists s', Rm fuel (path_of r (ds ++ [n])) s = (Ok true, s') /\ shows s' r (update_at ds (remove_name n) T)) ->
  real_entries es = map (fun x => (type_of x.2, x.1)) k -> shows s r T -> tree_at ds T = Some (Dir k) ->
  exists s', rm_entries (Rm fuel) (path_of r ds) true es s = (Ok true, s') /\ shows s' r (update_at ds (fun _ => []) T).
Proof.
  revert k T s. induction es as [|[d e] es IH]; intros k T s Hrm He Hs Hat.
  { destruct k; [|done]. exists s. split; [done|]. by rewrite (update_same ds _ T [] Hat eq_refl). }
  unfold real_entries in He. cbn [rm_entries]. destruct (is_dot e) eqn:Ee.
  { rewrite filter_cons_False in He by (cbn; congruence). by apply (IH k). }
  rewrite filter_cons_True in He by done. destruct k as [|[n t] k]; [done|]. cbn in He. injection He as _ -> He.
  destruct (Hrm n t T s ((n, t) :: k)) as (s1 & E1 & Hs1); [by left|done|done|cbn; by rewrite String.eqb_refl|].
  assert (remove_name n ((n, t) :: k) = k) as Hrn by (cbn; by rewrite String.eqb_refl).
  destruct (IH k (update_at ds (remove_name n) T) s1) as (s2 & E2 & Hs2); [|done|done|by rewrite (tree_at_update _ _ _ _ Hat), Hrn|].
  { intros m u T' s' L' Hm. apply Hrm. by right. }
  exists s2. split; [rewrite path_of_app; by erewrite bind_ok by exact E1|]. by rewrite (update_update _ _ _ _ _ Hat) in Hs2.
Qed.

(** [Rm] of an entry of a tree returns true and leaves exactly the tree without that
    entry: everything below it is gone, whatever its depth, and nothing else is touched,
    at any place the system shows the tree.  It ends after as many rounds as the entry is
    deep. *)
Theorem rm_prunes t fuel s r cs n T L : shows s r T -> tree_at cs T = Some (Dir L) -> child n L = Some t -> (depth t < fuel)%nat ->
  exists s', Rm fuel (path_of r (cs ++ [n])) s = (Ok true, s') /\ shows s' r (update_at cs (remove_name n) T).
Proof.
  revert fuel s r cs n T L. induction t as [| |l IH] using tree_induction; intros fuel s r cs n T L Hs HL Hc Hf;
    (destruct fuel as [|fuel]; [lia|]); [by eapply rm_leaf; eauto|by eapply rm_leaf; eauto|].
  assert (tree_at (cs ++ [n]) T = Some (Dir l)) as Hat by (rewrite tree_at_app, HL; cbn; by rewrite Hc).
  pose proof (shows_at _ _ _ _ _ Hs Hat) as (_ & (m & Hm & Hk) & (es & Hr & He & _) & _).
  destruct (rm_entries_ok fuel r (cs ++ [n]) es l T s) as (s1 & E1 & Hs1); [|done|done|done|].
  { intros m' u T' s' L' Hin Hs' HL' Hc'. rewrite Forall_forall in IH. apply (IH (m', u) Hin fuel s' r (cs ++ [n]) m' T' L' Hs' HL' Hc').
    pose proof (depth_child _ _ _ Hin). unfold snd. lia. }
  assert (exists L', tree_at cs (update_at (cs ++ [n]) (fun _ => []) T) = Some (Dir L') /\ child n L' = Some (Dir [])) as (L' & HL' & Hc').
  { pose proof (tree_at_update _ (fun _ => []) _ _ Hat) as Hu. rewrite tree_at_app in Hu.
    destruct (tree_at cs (update_at (cs ++ [n]) _ T)) as [[| |L']|]; [done|done| |done]. exists L'. split; [done|]. cbn in Hu. by destruct (child n L') as [u|]; [destruct u; simplify_eq|]. }
  destruct (rmdir_tree s1 r cs n _ L' Hs1 HL' Hc') as (s2 & E2 & Hs2). rewrite (remove_updated _ _ _ _ _ HL) in Hs2.
  exists s2. split; [|done]. cbn [Rm]. unfold bind at 1, gets at 1. rewrite Hm, (mode_bits _ _ Hk). change (Z.land S_IFDIR S_IFDIR =? 0) with false. cbv beta iota.
  unfold bind at 1, gets at 1. rewrite Hr. erewrite bind_ok by exact E1. unfold bind, sys. by rewrite E2.
Qed.
End Removing.

(** ** What is not removed, and what is made *)

Section Limits.
Context {S : Type} `{Posix S}.

(** [st_mode & S_IFDIR] also holds for sockets and block devices, which cannot be opened
    as directories: they are not removed. *)
Theorem rm_socket_refused fuel path m s : lstat path s = Some m -> Z.land m S_IFMT = S_IFSOCK \/ Z.land m S_IFMT = S_IFBLK ->
  readdir path s = None -> Rm (Datatypes.S fuel) path s = (Ok false, s).
Proof.
  intros Hm Ht Hr. cbn [Rm]. unfold bind at 1, gets at 1. rewrite Hm.
  assert (Z.land m S_IFDIR =? 0 = false) as -> by (destruct Ht as [Ht|Ht]; by rewrite (mode_bits _ _ Ht)).
  unfold bind, gets. by rewrite Hr.
Qed.

(** [Mkdir] takes whatever is there for the directory. *)
Theorem mkdir_takes_anything path m s : lstat path s = Some m -> Mkdir path s = (Ok true, s).
Proof. intros Hm. unfold Mkdir, bind, gets. by rewrite Hm. Qed.

Hypothesis mkdir_makes : forall p s s', mkdir p s = (true, s') -> access p s' = true.
Hypothesis mkdir_keeps : forall p q s b s', mkdir p s = (b, s') -> access q s = true -> access q s' = true.

(** When [Mkdir] has made a directory, it and every directory above it are there. *)
Theorem mkdir_makes_all path s s' : Mkdir path s = (Ok true, s') -> lstat path s = None ->
  Forall (fun p => access p s' = true) (cuts EmptyString path ++ [path]).
Proof.
  intros HM Hl. unfold Mkdir, bind, gets in HM. rewrite Hl in HM. destruct (String.eqb path EmptyString); [done|]. clear Hl.
  revert s HM. generalize (cuts EmptyString path ++ [path]) as l.
  enough (forall l s, mkdir_each l s = (Ok true, s') -> Forall (fun p => access p s' = true) l /\ forall q, access q s = true -> access q s' = true) as Hgo
    by (intros l s HM; by apply (Hgo l s)).
  induction l as [|p l IH]; intros s; cbn; [by intros [= <-]|]. unfold bind, mkdir_if, bind, gets. destruct (access p s) eqn:Ea.
  - cbn. intros [H1 H2]%IH. split; [|done]. constructor; [by apply H2|done].
  - unfold sys. destruct (mkdir p s) as [[|] s1] eqn:Em; [|done]. intros [H1 H2]%IH. split; [constructor; [by eapply H2, mkdir_makes|done]|].
    intros q Hq. by eapply H2, mkdir_keeps.
Qed.
End Limits.

(** The two clocks tell the same time. *)
Lemma clocks_agree tv_sec tv_usec us : 0 <= tv_sec < 2 ^ 44 -> 0 <= tv_usec < 1000000 ->
  GetCurrentUS tv_sec tv_usec = Ok us -> us / 1000 = GetCurrentMS tv_sec tv_usec.
Proof.
  intros Hs Hu. unfold GetCurrentUS, GetCurrentMS. destruct (_ && _); [|done]. intros [= <-]. rewrite Z.quot_div_nonneg by lia.
  rewrite (u64_small (tv_sec * 1000 * 1000)), (u64_small (tv_sec * 1000)) by lia.
  pose proof (Z.div_lt_upper_bound tv_usec 1000 1000 ltac:(lia) ltac:(lia)). pose proof (Z.div_pos tv_usec 1000 ltac:(lia) ltac:(lia)).
  rewrite !u64_small by lia. rewrite Z.add_comm, Z.div_add by lia. lia.
Qed.

(** ** A file system *)

(** A tree under the name [top], whose entries have proper names. *)
Module TreeFs.

Fixpoint split (s : string) : list string :=
  match s with
  | EmptyString => [EmptyString]
  | String c s => if Ascii.eqb c slash then EmptyString :: split s
                  else match split s with x :: l => String c x :: l | [] => [] end
  end.

Fixpoint slash_free (s : string) : bool := match s with EmptyString => true | String c s => negb (Ascii.eqb c slash) && slash_free s end.

Fixpoint distinct (l : list (string * tree)) : bool :=
  match l with [] => true | (n, _) :: l => match child n l with None => distinct l | Some _ => false end end.

Fixpoint tree_ok (t : tree) : bool :=
  match t with
  | Dir l => distinct l && forallb (fun '(n, u) => slash_free n && negb (is_dot n) && tree_ok u) l
  | _ => true
  end.

Definition find (p : string) (s : tree) : option tree :=
  if tree_ok s then match split p with top :: cs => if String.eqb top "top" then tree_at cs s else None | [] => None end else None.

Definition mode_of (t : tree) : Z := match t with Reg => S_IFREG | Other => S_IFLNK | Dir _ => S_IFDIR end.

Definition entries_of (t : tree) : option (list (dtype * string)) :=
  match t with Dir l => Some ((DT_DIR, "."%string) :: (DT_DIR, ".."%string) :: map (fun x => (type_of x.2, x.1)) l) | _ => None end.

(** The entry of a path taken out. *)
Definition take_out (p : string) (s : tree) : tree :=
  let cs := tail (split p) in
  match last cs with Some n => update_at (removelast cs) (remove_name n) s | None => s end.

#[export] Instance tree_posix : Posix tree := {|
  access p s := match find p s with Some _ => true | None => false end;
  lstat p s := mode_of <$> find p s;
  readdir p s := match find p s with Some t => entries_of t | None => None end;
  mkdir p s := (false, s);
  unlink p s := match find p s with Some (Dir _) | None => (false, s) | Some _ => (true, take_out p s) end;
  rmdir p s := match find p s with Some (Dir []) => (true, take_out p s) | _ => (false, s) end;
  rename _ _ s := (false, s);
  symlink _ _ s := (false, s);
  realpath _ _ := None;
  open_out _ s := (false, s);
  open_in p s := match find p s with Some _ => true | None => false end |}.

Lemma split_free n : slash_free n = true -> split n = [n].
Proof. induction n as [|c n IH]; cbn; [done|]. destruct (Ascii.eqb c slash); [done|]. cbn. intros Hn. by rewrite (IH Hn). Qed.

Lemma split_nonempty s : split s <> [].
Proof. destruct s as [|c s]; cbn; [done|]. destruct (Ascii.eqb c slash); [done|]. induction s as [|d s IH]; cbn; [done|]. destruct (Ascii.eqb d slash); [done|]. by destruct (split s). Qed.

Lemma split_join p n : slash_free n = true -> split (join p n) = split p ++ [n].
Proof.
  intros Hn. unfold join. change ("/" +:+ n) with (String slash n). induction p as [|c p IH].
  - change (EmptyString +:+ String slash n) with (String slash n). cbn. by rewrite (split_free n Hn).
  - change (String c p +:+ String slash n) with (String c (p +:+ String slash n)). cbn [split]. rewrite IH. destruct (Ascii.eqb c slash); [done|].
    pose proof (split_nonempty p). by destruct (split p).
Qed.

Lemma ok_child l n t : tree_ok (Dir l) = true -> child n l = Some t -> slash_free n = true /\ is_dot n = false /\ tree_ok t = true.
Proof.
  cbn. intros [_ Hl]%andb_true_iff Hc%child_In. rewrite forallb_forall in Hl. apply list_elem_of_In, Hl in Hc. cbn in Hc.
  apply andb_true_iff in Hc as [[Hn Hd]%andb_true_iff Ht]. by apply negb_true_iff in Hd.
Qed.

Lemma ok_at cs t u : tree_ok t = true -> tree_at cs t = Some u -> tree_ok u = true /\ forallb slash_free cs = true.
Proof.
  revert t. induction cs as [|n cs IH]; intros t Ht; [by intros [= <-]|]. destruct t as [| |l]; [done|done|]. cbn [tree_at forallb].
  destruct (child n l) as [v|] eqn:E; [|done]. destruct (ok_child l n v Ht E) as (Hn & _ & Hv). rewrite Hn. by apply IH.
Qed.

Lemma child_distinct l n t : distinct l = true -> (n, t) ∈ l -> child n l = Some t.
Proof.
  induction l as [|[m u] l IH]; cbn; intros Hd Hin; [by apply elem_of_nil in Hin|]. destruct (child m l) eqn:Em; [done|].
  apply elem_of_cons in Hin as [[= -> ->]|Hin]; [by rewrite String.eqb_refl|].
  destruct (String.eqb_spec m n) as [->|]; [|by apply IH]. by rewrite (IH Hd Hin) in Em.
Qed.

Lemma find_join r n s : slash_free n = true -> find (join r n) s = match find r s with Some (Dir l) => child n l | _ => None end.
Proof.
  intros Hn. unfold find. destruct (tree_ok s); [|done]. rewrite (split_join r n Hn). pose proof (split_nonempty r).
  destruct (split r) as [|top cs]; [done|]. cbn. destruct (String.eqb top "top"); [|done]. rewrite tree_at_app.
  destruct (tree_at cs s) as [[| |l]|]; cbn; [done|done| |done]. by destruct (child n l) as [[]|].
Qed.

Lemma find_ok r s t : find r s = Some t -> tree_ok t = true.
Proof.
  unfold find. destruct (tree_ok s) eqn:Hs; [|done]. destruct (split r) as [|top cs]; [done|]. destruct (String.eqb top "top"); [|done].
  intros Ha. by apply (ok_at cs s t).
Qed.

Lemma real_entries_ok l : tree_ok (Dir l) = true -> real_entries (map (fun x => (type_of x.2, x.1)) l) = map (fun x => (type_of x.2, x.1)) l.
Proof.
  cbn. intros [_ Hl]%andb_true_iff. induction l as [|[n t] l IH]; [done|]. cbn in Hl. apply andb_true_iff in Hl as [Hn Hl].
  apply andb_true_iff in Hn as [[_ Hd]%andb_true_iff _]. unfold real_entries in *. cbn [map]. rewrite filter_cons_True by (cbn; by apply negb_true_iff). by rewrite IH.
Qed.

Lemma find_shows s r T : find r s = Some T -> shows s r T.
Proof.
  revert r. induction T as [| |l IH] using tree_induction; intros r Hf; cbn; rewrite ?Hf; cbn; [by eexists|by eexists|].
  pose proof (find_ok _ _ _ Hf) as Hok. pose proof Hok as [Hd _]%andb_true_iff.
  split_and!; [done|by eexists|eexists; split_and!; [done|by apply real_entries_ok|]|].
  - repeat constructor. apply Forall_map, Forall_forall. intros [n t] Hin Hdot. destruct (ok_child l n t Hok (child_distinct l n t Hd Hin)) as (_ & Hnd & _). cbn in Hdot. congruence.
  - assert (forall k, (forall x, x ∈ k -> x ∈ l) -> (fix all l : Prop := match l with [] => True | (n, t) :: l => shows s (join r n) t /\ all l end) k) as Hall; [|by apply Hall].
    induction k as [|[n t] k IHk]; intros Hin; [done|]. split; [|apply IHk; intros x Hx; apply Hin; by right].
    assert ((n, t) ∈ l) as Hnt by (apply Hin; by left). rewrite Forall_forall in IH. apply (IH _ Hnt).
    pose proof (child_distinct l n t Hd Hnt) as Hc. rewrite find_join, Hf; [done|]. apply (ok_child l n t Hok Hc).
Qed.

Lemma types_names (l0 l : list (string * tree)) : map (fun x => (type_of x.2, x.1)) l0 = map (fun x => (type_of x.2, x.1)) l -> l0.*1 = l.*1.
Proof. revert l. induction l0 as [|x l0 IH]; intros [|y l] He; try done. cbn in *. injection He as _ -> He. by rewrite (IH l He). Qed.

Lemma child_None n l : child n l = None -> n ∉ l.*1.
Proof.
  induction l as [|[k v] l IH]; cbn; [intros _ Hn; by apply elem_of_nil in Hn|]. destruct (String.eqb_spec k n) as [|Hk]; [done|].
  intros Hc [->|Hn]%elem_of_cons; [done|by apply IH].
Qed.

Lemma entries_eq l0 l : distinct l0 = true -> l0.*1 = l.*1 -> (forall n t, (n, t) ∈ l -> child n l0 = Some t) -> l0 = l.
Proof.
  revert l. induction l0 as [|[n t] l0 IH]; intros [|[n' t'] l] Hd He Hc; try done. cbn in He. injection He as -> He.
  pose proof (Hc n' t' ltac:(by left)) as Hc0. cbn in Hc0. rewrite String.eqb_refl in Hc0. injection Hc0 as ->. f_equal.
  cbn in Hd. destruct (child n' l0) eqn:En; [done|]. apply IH; [done|done|]. intros m u Hin. pose proof (Hc m u ltac:(by right)) as Hm. cbn in Hm.
  destruct (String.eqb_spec n' m) as [->|]; [|done]. exfalso. apply (child_None m l0 En). rewrite He. apply list_elem_of_fmap. by exists (m, u).
Qed.

Lemma shows_find s r T : shows s r T -> find r s = Some T.
Proof.
  revert r. induction T as [| |l IH] using tree_induction; intros r Hs.
  1-2: cbn in Hs; destruct Hs as (m & Hm & Hk); destruct (find r s) as [[]|]; cbn in Hm; simplify_eq; done.
  assert (forall n t, (n, t) ∈ l -> shows s (join r n) t) as Hch by (intros n t Hin; by eapply shows_child).
  cbn in Hs. destruct Hs as (_ & _ & (es & Hr & He & _) & _).
  destruct (find r s) as [[| |l0]|] eqn:Hf; cbn in Hr; [done|done| |done]. injection Hr as <-. pose proof (find_ok _ _ _ Hf) as Hok.
  unfold real_entries in He. rewrite !filter_cons_False in He by done. fold (real_entries (map (fun x => (type_of x.2, x.1)) l0)) in He.
  rewrite (real_entries_ok l0 Hok) in He. pose proof Hok as [Hd _]%andb_true_iff. do 2 f_equal. apply entries_eq; [done|by apply types_names|].
  intros n t Hin. assert (n ∈ l0.*1) as ([n0 t0] & -> & Hn0)%list_elem_of_fmap.
  { rewrite (types_names _ _ He). apply list_elem_of_fmap. by exists (n, t). }
  rewrite Forall_forall in IH. pose proof (IH _ Hin _ (Hch _ _ Hin)) as Hfj. cbn in Hfj.
  destruct (ok_child l0 _ _ Hok (child_distinct l0 _ _ Hd Hn0)) as (Hsf & _). by rewrite find_join, Hf in Hfj.
Qed.

(** Taking an entry out keeps the tree proper. *)
Lemma remove_ok n l : tree_ok (Dir l) = true -> tree_ok (Dir (remove_name n l)) = true.
Proof.
  cbn. intros [Hd Hl]%andb_true_iff. apply andb_true_iff. induction l as [|[m t] l IH]; [done|]. cbn in *. destruct (child m l) eqn:Em; [done|].
  apply andb_true_iff in Hl as [Hm Hl]. destruct (IH Hd Hl) as [IH1 IH2]. destruct (String.eqb m n); [done|]. cbn. rewrite Hm, IH2. split; [|done].
  assert (child m (remove_name n l) = None) as ->; [|done]. clear -Em. induction l as [|[k v] l IH]; [done|]. cbn in *.
  destruct (String.eqb_spec k m); [done|]. destruct (String.eqb k n); [done|]. cbn. destruct (String.eqb_spec k m); [done|by apply IH].
Qed.

Lemma child_set_none n m u l : child m (set_child n u l) = None <-> child m l = None.
Proof. induction l as [|[k v] l IH]; [done|]. cbn. destruct (String.eqb k n); cbn; by destruct (String.eqb k m). Qed.

Lemma set_child_ok n u l : tree_ok (Dir l) = true -> tree_ok u = true -> tree_ok (Dir (set_child n u l)) = true.
Proof.
  cbn. intros [Hd Hl]%andb_true_iff Hu. apply andb_true_iff. induction l as [|[m v] l IH]; [done|]. cbn in *. destruct (child m l) eqn:Em; [done|].
  apply andb_true_iff in Hl as [[Hm Hv]%andb_true_iff Hl]. destruct (IH Hd Hl) as [IH1 IH2].
  destruct (String.eqb m n); cbn; [by rewrite Em, Hm, Hu, Hl|]. rewrite Hm, Hv, IH2. by rewrite (proj2 (child_set_none n m u l) Em).
Qed.

Lemma take_ok cs n t L : tree_ok t = true -> tree_at cs t = Some (Dir L) -> tree_ok (update_at cs (remove_name n) t) = true.
Proof.
  revert t. induction cs as [|m cs IH]; intros t Ht; [intros [= ->]; by apply remove_ok|]. destruct t as [| |l]; [done|done|]. cbn [tree_at update_at].
  destruct (child m l) as [u|] eqn:E; [|done]. intros Hu. apply set_child_ok; [done|]. apply IH; [|done]. by apply (ok_child l m u Ht E).
Qed.

Lemma tree_at_update_app c0 cs f t u : tree_at c0 t = Some u -> tree_at c0 (update_at (c0 ++ cs) f t) = Some (update_at cs f u).
Proof.
  revert t. induction c0 as [|n c0 IH]; intros t; [by intros [= <-]; destruct t|]. destruct t as [| |l]; [done|done|]. cbn [tree_at app update_at].
  destruct (child n l) as [v|] eqn:E; [|done]. intros Hv. cbn [tree_at]. rewrite (child_set _ _ _ _ E). by apply IH.
Qed.

Lemma split_path r cs : forallb slash_free cs = true -> split (path_of r cs) = split r ++ cs.
Proof.
  revert r. induction cs as [|n cs IH]; intros r Hc; [by rewrite app_nil_r|]. cbn in Hc. apply andb_true_iff in Hc as [Hn Hc].
  change (path_of r (n :: cs)) with (path_of (join r n) cs). rewrite (IH _ Hc), (split_join r n Hn). by rewrite <- app_assoc.
Qed.

(** The tree shown at [r] without an entry is what is left when the entry is taken out. *)
Lemma take_out_shows s r cs n T L t : shows s r T -> tree_at cs T = Some (Dir L) -> child n L = Some t ->
  find (path_of r (cs ++ [n])) s = Some t /\ shows (take_out (path_of r (cs ++ [n])) s) r (update_at cs (remove_name n) T).
Proof.
  intros Hs%shows_find HL Hc. pose proof (find_ok _ _ _ Hs) as HT. destruct (ok_at cs T _ HT HL) as [HLok Hcs].
  destruct (ok_child L n t HLok Hc) as (Hn & _ & _).
  unfold find in Hs. destruct (tree_ok s) eqn:Hok; [|done]. destruct (split r) as [|top c0] eqn:Er; [done|]. destruct (String.eqb top "top") eqn:Et; [|done].
  assert (split (path_of r (cs ++ [n])) = top :: c0 ++ cs ++ [n]) as Hsp by (rewrite split_path, Er by (rewrite forallb_app; cbn; by rewrite Hcs, Hn); done).
  assert (tree_at (c0 ++ cs) s = Some (Dir L)) as Hat by (by rewrite tree_at_app, Hs). split.
  - unfold find. rewrite Hok, Hsp, Et, app_assoc, tree_at_app, Hat. cbn. rewrite Hc. by destruct t.
  - apply find_shows. unfold take_out. rewrite Hsp. cbn [tail]. rewrite app_assoc, last_snoc, removelast_last. unfold find.
    rewrite (take_ok _ _ _ _ Hok Hat), Er, Et. by apply tree_at_update_app.
Qed.

#[export] Instance tree_laws : PosixLaws tree.
Proof.
  split.
  - intros s r cs n T L t Hs HL Hc Ht. destruct (take_out_shows s r cs n T L t Hs HL Hc) as [Hf Hsh].
    exists (take_out (path_of r (cs ++ [n])) s). split; [|done]. cbn. rewrite Hf. by destruct Ht as [-> | ->].
  - intros s r cs n T L Hs HL Hc. destruct (take_out_shows s r cs n T L (Dir []) Hs HL Hc) as [Hf Hsh].
    exists (take_out (path_of r (cs ++ [n])) s). split; [|done]. cbn. by rewrite Hf.
Qed.

(** A small tree. *)
Definition demo_tree : tree :=
  Dir [("a.yml"%string, Reg); ("sub"%string, Dir [("b.yml"%string, Reg); ("c.txt"%string, Reg); ("link"%string, Other); ("deep"%string, Dir [("d.yml"%string, Reg)])]); ("e.yml"%string, Dir [])].

Lemma demo_shows : shows demo_tree "top" demo_tree.
Proof. by apply find_shows. Qed.
End TreeFs.
Import TreeFs.


Example demo_files : files_below ".yml" "top" demo_tree = ["top/a.yml"; "top/sub/b.yml"; "top/sub/deep/d.yml"]%string.
Proof. reflexivity. Qed.

Lemma rm_prunes_witness : exists s',
  Rm 3 (path_of "top" ([] ++ ["sub"%string])) demo_tree = (Ok true, s') /\ shows s' "top" (Dir [("a.yml"%string, Reg); ("e.yml"%string, Dir [])]).
Proof. eapply (rm_prunes _ 3 demo_tree "top" [] "sub" demo_tree); [exact demo_shows|reflexivity|reflexivity|cbn; lia]. Defined.

Lemma dirname_basename_witness :
  ("conf"%string <> EmptyString -> Dirname (join "conf" "log.yml") = "conf"%string) /\ Basename (join "conf" "log.yml") = "log.yml"%string /\
  no_slash (Basename "a/b/c") /\ (Dirname "a/b/c" <> "."%string -> Dirname "a/b/c" <> "/"%string -> join (Dirname "a/b/c") (Basename "a/b/c") = "a/b/c"%string).
Proof. apply (dirname_basename "conf" "log.yml" "a/b/c"). pose proof (cut_last_spec "log.yml") as Hs. exact Hs. Defined.
