(* ===== verification/Env.v ===== *)
(** * The environment of the program: [gudov/env.h] and [gudov/env.cpp]

    The program's name and path, the options of its command line, the help texts and
    the system's variables.  The process (its number and the link to its executable)
    is a parameter (class [Self]). *)

From S2P Require Import Prelude OrderedMap Yaml LexicalCast Config FileSystem.
From stdpp Require Import base numbers list sorting strings pretty gmap.
From Stdlib Require Import ZArith Lia Ascii.
Open Scope Z_scope.
Open Scope prog_scope.

(** [getpid] and [readlink]; a link that cannot be read has no target. *)
Class Self := { getpid : Z; readlink : string -> option string }.

Record Env := mkEnv {
  args_ : list (string * string);
  helps_ : list (string * string);
  program_ : string;
  exe_ : string;
  cwd_ : string }.

Definition no_env : Env := mkEnv [] [] EmptyString EmptyString EmptyString.

Definition set_args (m : list (string * string)) (e : Env) : Env := mkEnv m (helps_ e) (program_ e) (exe_ e) (cwd_ e).
Definition set_helps (h : list (string * string)) (e : Env) : Env := mkEnv (args_ e) h (program_ e) (exe_ e) (cwd_ e).

(** ** Variables of the program *)

Definition Add (key val : string) : prog Env unit := modify (fun e => set_args (map_assign string_less key val (args_ e)) e).

Definition Has (key : string) (e : Env) : bool :=
  match map_find string_less key (args_ e) with Some _ => true | None => false end.

Definition Del (key : string) : prog Env unit := modify (fun e => set_args (map_erase string_less key (args_ e)) e).

Definition Get (key default_value : string) (e : Env) : string :=
  match map_find string_less key (args_ e) with Some v => v | None => default_value end.

(** ** Help *)

Definition RemoveHelp (key : string) : prog Env unit := modify (fun e => set_helps (filter (fun h => h.1 <> key) (helps_ e)) e).

Definition AddHelp (key desc : string) : prog Env unit :=
  RemoveHelp key ;; modify (fun e => set_helps (helps_ e ++ [(key, desc)]) e).

Definition endl : string := String (ascii_of_nat 10) EmptyString.

(** [std::setw(5) << "-"] pads on the left. *)
Definition PrintHelp (e : Env) : string :=
  "Usage: " +:+ program_ e +:+ " [options]" +:+ endl +:+
  foldr (fun h out => "    -" +:+ h.1 +:+ " : " +:+ h.2 +:+ endl +:+ out) EmptyString (helps_ e).

(** ** The command line *)

Definition dash : ascii := "-".

(** [argv[i][0] == '-'] *)
Definition is_option (arg : string) : bool := match arg with String c _ => Ascii.eqb c dash | EmptyString => false end.

(** [if (now_key) Add(now_key, "")] *)
Definition flush_key (now_key : option string) : prog Env unit :=
  match now_key with Some k => Add k EmptyString | None => ret tt end.

(** The loop over [argv] and the test behind it. *)
Fixpoint parse_args (now_key : option string) (argv : list string) : prog Env bool :=
  match argv with
  | [] => flush_key now_key ;; ret true
  | arg :: argv =>
      if is_option arg then
        if (1 <? String.length arg)%nat then
          flush_key now_key ;; parse_args (Some (String.substring 1 (String.length arg - 1) arg)) argv
        else ret false
      else match now_key with
           | Some k => Add k arg ;; parse_args None argv
           | None => ret false
           end
  end.

Section Init.
Context `{Self}.

Definition exe_link : string := "/proc/" +:+ pretty getpid +:+ "/exe".

(** [exe_.substr(0, exe_.find_last_of("/")) + "/"] *)
Definition dir_of (exe : string) : string :=
  match cut_last exe with Some (a, _) => a | None => exe end +:+ "/".

(** [Env::Init].  [readlink] writes no terminator: a target of 1024 bytes or more leaves
    the buffer without one.  [main] gets at least one argument. *)
Definition Init (argv : list string) : prog Env bool :=
  match readlink exe_link with
  | None => ret false
  | Some target =>
      if (String.length target =? 0)%nat then ret false
      else if (1024 <=? String.length target)%nat then fail undefined
      else
        let path := c_str target in
        modify (fun e => mkEnv (args_ e) (helps_ e) (program_ e) path (dir_of path)) ;;
        match argv with
        | [] => fail undefined
        | arg0 :: argv =>
            modify (fun e => mkEnv (args_ e) (helps_ e) arg0 (exe_ e) (cwd_ e)) ;;
            parse_args None argv
        end
  end.
End Init.

(** ** Variables of the system *)

Fixpoint has_char (c : ascii) (s : string) : bool := match s with EmptyString => false | String d s => Ascii.eqb c d || has_char c s end.

(** [setenv(key, val, 1)] refuses an empty name and one with an equals sign. *)
Definition SetEnv (key val : string) : prog (gmap string string) bool :=
  let key := c_str key in
  if String.eqb key EmptyString || has_char "=" key then ret false
  else modify (fun environ => <[key := c_str val]> environ) ;; ret true.

Definition GetEnv (key default_value : string) (environ : gmap string string) : string :=
  match environ !! c_str key with Some v => v | None => default_value end.

(** ** Paths *)

Definition GetAbsolutePath (path : string) (e : Env) : string :=
  match path with
  | EmptyString => "/"
  | String c _ => if Ascii.eqb c slash then path else cwd_ e +:+ path
  end.

Definition GetConfigPath (e : Env) : string := GetAbsolutePath (Get "c" "conf" e) e.

Section WorkPath.
Context {B : Type} `{EqDecision B} `{SB : Scalars B} `{YB : Yaml} `{HB : Hashing} {W : Type}.

(** The code of [std::string], whose values are strings. *)
Context (std_string : B) (str_of : base_type std_string -> string).

(** [g_server_work_path->GetValue()] *)
Definition work_path (a : option nat) : prog (Config (B := B) W) string :=
  match a with
  | None => fail null_deref
  | Some a => call_var a (fun t '(c, w) =>
      as_type (TBase std_string) (fun '(c, w) => (Ok (str_of (GetValue c)), (c, w))) t (c, w))
  end.

(** [Env::GetAbsoluteWorkPath]; the static pointer is looked up in the first call that
    gets there and kept, null or not. *)
Definition GetAbsoluteWorkPath (path : string) : prog (option (option nat) * Config (B := B) W) string :=
  match path with
  | EmptyString => ret "/"%string
  | String c _ =>
      if Ascii.eqb c slash then ret path
      else fun '(g_server_work_path, s) =>
        match (match g_server_work_path with
               | Some a => (Ok a, s)
               | None => Lookup_name (TBase std_string) "server.work_path" s
               end) with
        | (Fail e, s) => (Fail e, (None, s))
        | (Ok a, s) =>
            match work_path a s with
            | (Ok v, s) => (Ok (v +:+ "/" +:+ path), (Some a, s))
            | (Fail e, s) => (Fail e, (Some a, s))
            end
        end
  end.
End WorkPath.

(** ** What a command line means *)

(** An option with its value, if it has one. *)
Abbreviation opt := (string * option string)%type.

Definition render (o : opt) : list string :=
  String dash o.1 :: match o.2 with Some v => [v] | None => [] end.

(** A name is not empty; a value does not look like an option. *)
Definition opt_ok (o : opt) : Prop :=
  o.1 <> EmptyString /\ match o.2 with Some v => is_option v = false | None => True end.

(** What is assigned; a name without a value has the empty one. *)
Definition assigned (o : opt) : string * string := (o.1, default EmptyString o.2).

Definition assign_all (l : list (string * string)) (m : list (string * string)) : list (string * string) :=
  foldl (fun m p => map_assign string_less p.1 p.2 m) m l.

(** An argument at which the command line is refused after some options: a lone dash, or a
    value that belongs to no name. *)
Definition refused (opts : list opt) (arg : string) : Prop :=
  arg = "-"%string \/ is_option arg = false /\ (forall k, last opts <> Some (k, None)).

(** What has been assigned by then: a name that still waits for its value has not. *)
Definition settled (opts : list opt) (rest : list string) : list (string * string) :=
  assigned <$> match rest, last opts with _ :: _, Some (_, None) => removelast opts | _, _ => opts end.

Lemma substring_tail n s m : (String.length s <= n)%nat -> m = n -> String.substring 0 m s = s.
Proof. intros Hn ->. revert n Hn. induction s as [|c s IH]; intros [|n] Hn; cbn in *; [done|done|lia|]. rewrite IH; [done|lia]. Qed.

Lemma option_name k : (String.length (String dash k) =? 1)%nat = false ->
  String.substring 1 (String.length (String dash k) - 1) (String dash k) = k.
Proof. intros _. cbn. apply (substring_tail (String.length k)); lia. Qed.

Lemma is_option_inv arg : is_option arg = true -> exists k, arg = String dash k.
Proof. destruct arg as [|c k]; [done|]. cbn. intros Hc%Ascii.eqb_eq. subst. by exists k. Qed.

(** The name that waits is the last option read. *)
Definition pending (now_key : option string) : list opt := match now_key with Some k => [(k, None)] | None => [] end.

Lemma flush_pending now_key e : flush_key now_key e = (Ok tt, set_args (assign_all (assigned <$> pending now_key) (args_ e)) e).
Proof. by destruct now_key, e. Qed.

Lemma settled_app a b rest : b <> [] -> settled (a ++ b) rest = (assigned <$> a) ++ settled b rest.
Proof.
  intros Hb. unfold settled. destruct b as [|o b] using rev_ind; [done|]. rewrite app_assoc, !last_snoc, removelast_last.
  rewrite removelast_last. destruct rest, o as [k [v|]]; by rewrite ?fmap_app, <- ?app_assoc.
Qed.

Lemma assign_app a b m : assign_all (a ++ b) m = assign_all b (assign_all a m).
Proof. apply foldl_app. Qed.

(** The loop with a name that waits reads the options that begin with it. *)
Lemma parse_spec args : forall now_key e, Forall opt_ok (pending now_key) ->
  exists opts rest, Forall opt_ok opts /\ mjoin (render <$> pending now_key) ++ args = mjoin (render <$> opts) ++ rest /\
    (pending now_key <> [] -> opts <> []) /\
    match rest with [] => True | arg :: _ => refused opts arg end /\
    parse_args now_key args e = (Ok (match rest with [] => true | _ => false end), set_args (assign_all (settled opts rest) (args_ e)) e).
Proof.
  induction args as [|arg args IH]; intros now_key e Hp.
  - exists (pending now_key), []. split_and!; try done. cbn. unfold bind. rewrite flush_pending. unfold settled. by destruct now_key.
  - cbn [parse_args]. destruct (is_option arg) eqn:Ho.
    + apply is_option_inv in Ho as [k ->]. destruct (1 <? String.length (String dash k))%nat eqn:Hl.
      * rewrite option_name by (apply Nat.eqb_neq; apply Nat.ltb_lt in Hl; lia).
        assert (opt_ok (k, None)) as Hk by (split; [|done]; by destruct k).
        destruct (IH (Some k) (set_args (assign_all (assigned <$> pending now_key) (args_ e)) e) ltac:(by apply Forall_singleton)) as (opts & rest & H1 & H2 & H3 & H4 & H5).
        specialize (H3 ltac:(done)). exists (pending now_key ++ opts), rest. split_and!.
        -- by apply Forall_app.
        -- cbn [pending fmap list_fmap render mjoin list_join fst snd] in H2. rewrite fmap_app, join_app, <- app_assoc. f_equal. exact H2.
        -- destruct (pending now_key); done.
        -- destruct rest; [done|]. destruct H4 as [?|[? Hn]]; [by left|right]. split; [done|]. intros k'. rewrite last_app. destruct (last opts) eqn:El; [apply Hn|]. by apply last_None in El.
        -- unfold bind. rewrite flush_pending, H5, settled_app, assign_app by done. by destruct e.
      * destruct k; [|by apply Nat.ltb_ge in Hl; cbn in Hl; lia]. exists (pending now_key), ("-"%string :: args).
        split_and!; try done; [by left|]. unfold settled. destruct now_key, e; done.
    + destruct now_key as [k|].
      * assert (opt_ok (k, Some arg)) as Hk by (apply Forall_singleton in Hp as [Hk _]; by split).
        destruct (IH None (set_args (map_assign string_less k arg (args_ e)) e) ltac:(constructor)) as (opts & rest & H1 & H2 & _ & H4 & H5).
        exists ((k, Some arg) :: opts), rest. split_and!; [by constructor|cbn in *; by rewrite H2|done| |].
        -- destruct rest; [done|]. destruct H4 as [?|[? Hn]]; [by left|right]. split; [done|]. intros k'. destruct opts; [done|apply Hn].
        -- unfold bind, Add, modify. rewrite H5. change ((k, Some arg) :: opts) with ([(k, Some arg)] ++ opts). unfold settled.
           destruct rest as [|r rest]; [by destruct e|]. destruct opts as [|o opts'] eqn:Eo; [by destruct e|]. rewrite <- Eo in *.
           assert (opts <> []) by (by subst). change (_ :: opts) with ([(k, Some arg)] ++ opts).
           pose proof (settled_app [(k, Some arg)] opts (r :: rest) ltac:(done)) as Hs. unfold settled in Hs. rewrite Hs, assign_app. by destruct e.
      * exists [], (arg :: args). split_and!; try done; [by right|]. by destruct e.
Qed.

(** Two readings of a command line are the same. *)
Lemma render_unique opts opts' rest' : Forall opt_ok opts -> Forall opt_ok opts' ->
  match rest' with [] => True | arg :: _ => refused opts' arg end ->
  mjoin (render <$> opts) = mjoin (render <$> opts') ++ rest' -> opts = opts' /\ rest' = [].
Proof.
  revert opts'. induction opts as [|[k v] opts IH]; intros opts' Ho Ho' Hr He.
  - by destruct opts', rest'.
  - apply Forall_cons in Ho as [[Hk Hv] Ho]. destruct opts' as [|[k' v'] opts'].
    { cbn in He. destruct rest' as [|arg rest']; [done|]. injection He as <- _. destruct Hr as [[= ->]|[Hr _]]; [done|]. by cbn in Hr. }
    apply Forall_cons in Ho' as [[Hk' Hv'] Ho']. cbn in He. injection He as <- He.
    assert (match rest' with [] => True | arg :: _ => refused opts' arg end) as Hr'.
    { destruct rest'; [done|]. destruct Hr as [?|[? Hn]]; [by left|right]. split; [done|]. intros q. destruct opts'; [done|apply Hn]. }
    assert (v = v') as ->; [|destruct v'; cbn in He; [injection He as He|]; by destruct (IH opts' Ho Ho' Hr' He) as [-> ->]].
    destruct v as [v|], v' as [v'|]; cbn in *; [by injection He as ->| | |done].
    + destruct opts' as [|o opts']; cbn in He; [|by injection He as -> _].
      destruct rest' as [|arg rest']; [done|]. injection He as <- _. destruct Hr as [->|[_ Hr]]; [done|]. by destruct (Hr k).
    + destruct opts as [|o opts]; cbn in He; [done|]. injection He as <- _. done.
Qed.

Lemma find_assigned k l m : map_ok string_less m ->
  map_find string_less k (assign_all l m) = match last (filter (fun p => p.1 = k) l) with Some p => Some p.2 | None => map_find string_less k m end.
Proof.
  revert m. induction l as [|[a v] l IH]; intros m Hm; [done|].
  change (assign_all ((a, v) :: l) m) with (assign_all l (map_assign string_less a v m)). rewrite IH by (apply map_assign_ok; [apply _|done]).
  rewrite filter_cons. rewrite (find_assign string_less) by done. unfold equiv_key. cbn. case_decide as Ha.
  - subst. rewrite (less_irrefl (less := string_less)). cbn [negb orb]. destruct (last (filter _ l)) eqn:El; [|by apply last_None in El; rewrite El].
    destruct (filter _ l); [done|]. cbn in *. by rewrite El.
  - destruct (string_less k a) eqn:E1; [by cbn|]. destruct (string_less a k) eqn:E2; [by cbn|]. by destruct Ha; apply string_less_total.
Qed.

(** C37: [Env::Init] reads the command line as the one sequence of options it is: names
    behind a dash, each with the next argument as its value when that is not an option
    itself.  It returns [true] exactly when the whole command line is such a sequence;
    the last assignment to a name is what [Get] returns, a name without a value has the
    empty one, and other variables keep theirs.  When it stops at an argument, a lone dash
    or a value without a name, the options before it are already assigned, except a name
    that still waits for its value. *)
Theorem init_exact `{Self} target arg0 args e :
  readlink exe_link = Some target -> (0 < String.length target < 1024)%nat -> map_ok string_less (args_ e) ->
  exists opts rest e', args = mjoin (render <$> opts) ++ rest /\ Forall opt_ok opts /\
    match rest with [] => True | arg :: _ => refused opts arg end /\
    (forall opts', Forall opt_ok opts' -> args = mjoin (render <$> opts') -> opts' = opts /\ rest = []) /\
    Init (arg0 :: args) e = (Ok (match rest with [] => true | _ => false end), e') /\
    helps_ e' = helps_ e /\ program_ e' = arg0 /\ exe_ e' = c_str target /\ cwd_ e' = dir_of (c_str target) /\
    forall key d, Get key d e' = match last (filter (fun p => p.1 = key) (settled opts rest)) with Some p => p.2 | None => Get key d e end.
Proof.
  intros Hr Hl Hm. destruct (parse_spec args None (mkEnv (args_ e) (helps_ e) arg0 (c_str target) (dir_of (c_str target))) ltac:(constructor)) as (opts & rest & H1 & H2 & _ & H4 & H5).
  eexists opts, rest, (set_args _ (mkEnv _ _ _ _ _)).
  split_and!; [exact H2|done|done|intros opts' Ho' He; apply render_unique; [done..|]; by rewrite <- He| |reflexivity..|].
  - unfold Init. rewrite Hr. destruct (Nat.eqb_spec (String.length target) 0); [lia|]. destruct (Nat.leb_spec 1024 (String.length target)); [lia|].
    exact H5.
  - intros key d. unfold Get. cbn [args_ set_args]. rewrite find_assigned by done. by destruct (last _).
Qed.

(** ** An example *)

Module EnvDemo.

#[export] Instance demo_process : Self := {| getpid := 42; readlink p := if String.eqb p "/proc/42/exe" then Some "/opt/gudov/server"%string else None |}.

Definition demo_args : list string := ["server"; "-c"; "conf.d"; "-d"; "-p"; "80"; "-p"; "8020"]%string.
End EnvDemo.
Import EnvDemo.

Lemma init_exact_witness : exists opts rest e',
  tail demo_args = mjoin (render <$> opts) ++ rest /\ Init demo_args no_env = (Ok (match rest with [] => true | _ => false end), e') /\ Get "p" "1" e' = "8020"%string.
Proof.
  destruct (init_exact (H := demo_process) "/opt/gudov/server" "server" (tail demo_args) no_env eq_refl ltac:(cbn; lia) ltac:(constructor)) as (opts & rest & e' & H1 & H2 & H3 & H4 & H5 & _).
  exists opts, rest, e'. split_and!; [exact H1|exact H5|]. assert (e' = snd (Init demo_args no_env)) as -> by (unfold demo_args in *; cbn [tail] in H5; by rewrite H5). reflexivity.
Defined.

Example demo_init : (Init demo_args no_env).1 = Ok true /\ Get "c" "conf" (Init demo_args no_env).2 = "conf.d"%string /\
  Has "d" (Init demo_args no_env).2 = true /\ GetConfigPath (Init demo_args no_env).2 = "/opt/gudov/conf.d"%string.
Proof. vm_compute. done. Qed.

(** A value that begins with a dash is taken for an option, and a refused command line has
    already had its effect. *)
Example demo_refused : (Init ["server"; "-n"; "-5"; "x"; "y"]%string no_env).1 = Ok false /\
  args_ (Init ["server"; "-n"; "-5"; "x"; "y"]%string no_env).2 = [("5"%string, "x"%string); ("n"%string, EmptyString)].
Proof. vm_compute. done. Qed.
