(* ===== verification/ConfDir.v ===== *)
(** * Loading a directory of configuration files: [Config::LoadFromConfDir] of
    [gudov/config.cpp]

    The files below a directory of the program, found by [FSUtil::ListAllFile], are
    loaded one after another into the registry; the modification times already seen are
    kept in a map.  The file system and the YAML reader are parameters. *)

From S2P Require Import Prelude OrderedMap Yaml LexicalCast Config FileSystem Env.
From stdpp Require Import base numbers list sets sorting strings.
From Stdlib Require Import ZArith Lia Ascii.
Open Scope Z_scope.
Open Scope prog_scope.

(** [lstat(path).st_mtime], and [YAML::LoadFile]. *)
Class ConfFiles (S : Type) := {
  st_mtime : string -> S -> option Z;
  LoadFile : string -> S -> result Node }.

Section ConfDir.
Context {B : Type} `{EqDecision B} `{SB : Scalars B} `{YB : Yaml} `{HB : Hashing} {W : Type}.
Context {F : Type} `{Posix F} `{ConfFiles F}.

(** The registry and [s_file2modifytime]. *)
Record Loader := mkLoader {
  conf : Config (B := B) W;
  s_file2modifytime : list (string * Z) }.

(** [s_file2modifytime[i]], which makes an entry of 0 when there is none. *)
Definition mtime_of (i : string) (m : list (string * Z)) : Z := default 0 (map_find string_less i m).

Definition set_mtime (i : string) (t : Z) : prog Loader unit :=
  modify (fun l => mkLoader (conf l) (map_assign string_less i t (s_file2modifytime l))).

(** The [try] of the loop: any exception is logged. *)
Definition load_file (fs : F) (i : string) : prog Loader unit :=
  fun l => match LoadFile i fs with
           | Fail e => (if is_exception e then Ok tt else Fail e, l)
           | Ok root =>
               match LoadFromYaml root (conf l) with
               | (Ok _, c) => (Ok tt, mkLoader c (s_file2modifytime l))
               | (Fail e, c) => (if is_exception e then Ok tt else Fail e, mkLoader c (s_file2modifytime l))
               end
           end.

(** One round of the loop; when [lstat] fails, what is compared is not initialised. *)
Definition visit_file (fs : F) (force : bool) (i : string) : prog Loader unit :=
  match st_mtime i fs with
  | None => fail undefined
  | Some t =>
      let st_mtime := u64 t in
      let* seen := gets (fun l => mtime_of i (s_file2modifytime l)) in
      if negb force && (seen =? st_mtime) then set_mtime i seen
      else set_mtime i st_mtime ;; load_file fs i
  end.

Fixpoint visit_files (fs : F) (force : bool) (files : list string) : prog Loader unit :=
  match files with [] => ret tt | i :: files => visit_file fs force i ;; visit_files fs force files end.

(** [fuel] is for [ListAllFile]. *)
Definition LoadFromConfDir (fuel : nat) (e : Env) (fs : F) (path : string) (force : bool) : prog Loader unit :=
  let absoulte_path := GetAbsolutePath path e in
  let* files := lift (ListAllFile fuel absoulte_path ".yml" fs) in
  visit_files fs force files.

(** ** What it loads *)

Implicit Types (l : Loader) (fs : F).

(** The files whose time is not the one recorded, 0 if there is none. *)
Definition due fs (force : bool) (m : list (string * Z)) (i : string) : bool :=
  force || negb (mtime_of i m =? u64 (default 0 (st_mtime i fs))).

(** The members of the documents that can be read. *)
Definition members_of fs (i : string) : list (string * Node) :=
  match LoadFile i fs with Ok root => ListAllMember EmptyString root | Fail _ => [] end.

(** Each file has its time, and reading one fails by throwing. *)
Definition readable fs (i : string) : Prop :=
  (exists t, st_mtime i fs = Some t) /\ forall err, LoadFile i fs = Fail err -> is_exception err = true.

Lemma load_members_app (a b : list (string * Node)) (s c : Config (B := B) W) :
  load_members (a ++ b) s = (Ok tt, c) -> exists c1, load_members a s = (Ok tt, c1) /\ load_members b c1 = (Ok tt, c).
Proof.
  revert s. induction a as [|m a IH]; intros s; cbn; [by exists s|]. unfold bind. destruct (load_member m s) as [[[]|err] s2]; [apply IH|done].
Qed.

Lemma all_valid fs i : Forall (fun m => valid_name m.1 = true) (members_of fs i).
Proof.
  unfold members_of. destruct (LoadFile i fs); [|constructor]. rewrite members_filter. apply Forall_forall. by intros m [Hm _]%list_elem_of_filter.
Qed.

Lemma mtime_assign i j t m : map_ok string_less m -> mtime_of i (map_assign string_less j t m) = if decide (i = j) then t else mtime_of i m.
Proof.
  intros Hm. unfold mtime_of. rewrite (find_assign string_less) by done. unfold equiv_key. case_decide as Hij.
  - subst. by rewrite (less_irrefl (less := string_less)).
  - destruct (string_less i j) eqn:E1; [done|]. destruct (string_less j i) eqn:E2; [done|]. by destruct Hij; apply string_less_total.
Qed.

(** One file: what it does to the registry is to load its members. *)
Lemma visit_one fs force i l c : readable fs i -> map_ok string_less (s_file2modifytime l) ->
  load_members (if due fs force (s_file2modifytime l) i then members_of fs i else []) (conf l) = (Ok tt, c) ->
  exists m, visit_file fs force i l = (Ok tt, mkLoader c m) /\ map_ok string_less m /\
    forall j, mtime_of j m = if decide (j = i) then u64 (default 0 (st_mtime i fs)) else mtime_of j (s_file2modifytime l).
Proof.
  intros [[t Ht] Hf] Hm Hl. exists (map_assign string_less i (u64 t) (s_file2modifytime l)).
  split_and!; [|apply map_assign_ok; [apply _|done]|intros j; rewrite Ht; by apply mtime_assign].
  unfold visit_file, due in *. rewrite Ht in *. unfold bind, gets. cbn [default from_option id] in *.
  destruct force; cbn [negb andb orb] in *; [|destruct (mtime_of i (s_file2modifytime l) =? u64 t) eqn:He; rewrite ?He in Hl; cbn [negb] in *].
  2: { cbn in Hl; unfold ret in Hl. injection Hl as <-. apply Z.eqb_eq in He. unfold set_mtime, modify. by rewrite He. }
  all: unfold set_mtime, modify, load_file, members_of, LoadFromYaml in *; cbn [conf s_file2modifytime];
    destruct (LoadFile i fs) as [root|err]; [by rewrite Hl|cbn in Hl; unfold ret in Hl; injection Hl as <-; by rewrite (Hf err eq_refl)].
Qed.

Lemma due_later fs force i (files : list string) m m' : i ∉ files ->
  (forall j, mtime_of j m' = if decide (j = i) then u64 (default 0 (st_mtime i fs)) else mtime_of j m) ->
  filter (fun j => due fs force m' j = true) files = filter (fun j => due fs force m j = true) files.
Proof.
  intros Hi Hm. apply filter_ext_mem. intros j Hj. unfold due. rewrite Hm, decide_False; [done|]. by intros ->.
Qed.

(** The loop loads the files that are due as one sequence of members. *)
Lemma visit_all_files fs force (files : list string) l c : NoDup files -> Forall (readable fs) files -> map_ok string_less (s_file2modifytime l) ->
  load_members (mjoin (members_of fs <$> filter (fun i => due fs force (s_file2modifytime l) i = true) files)) (conf l) = (Ok tt, c) ->
  exists m, visit_files fs force files l = (Ok tt, mkLoader c m) /\ map_ok string_less m /\
    forall i, mtime_of i m = if decide (i ∈ files) then u64 (default 0 (st_mtime i fs)) else mtime_of i (s_file2modifytime l).
Proof.
  intros Hn. revert l. induction Hn as [|i files Hi Hn IH]; intros l Hr Hm Hl.
  - exists (s_file2modifytime l). cbn in Hl; unfold ret in Hl. injection Hl as <-. split_and!; [by destruct l|done|]. intros i. rewrite decide_False; [done|]. by intros ?%elem_of_nil.
  - apply Forall_cons in Hr as [Hr1 Hr]. rewrite filter_cons in Hl.
    assert (exists c1, load_members (if due fs force (s_file2modifytime l) i then members_of fs i else []) (conf l) = (Ok tt, c1) /\
      load_members (mjoin (members_of fs <$> filter (fun i => due fs force (s_file2modifytime l) i = true) files)) c1 = (Ok tt, c)) as (c1 & H1 & H2).
    { case_decide as Hd; [rewrite Hd; by apply load_members_app|apply not_true_is_false in Hd; rewrite Hd; by exists (conf l)]. }
    destruct (visit_one fs force i l c1 Hr1 Hm H1) as (m1 & E1 & Hm1 & Ht1).
    destruct (IH (mkLoader c1 m1) Hr Hm1) as (m2 & E2 & Hm2 & Ht2).
    { cbn [conf s_file2modifytime]. by rewrite (due_later _ _ _ _ _ _ Hi Ht1). }
    exists m2. split_and!; [cbn [visit_files]; unfold bind; by rewrite E1|done|]. intros j. rewrite Ht2. cbn [s_file2modifytime]. rewrite Ht1.
    destruct (decide (j ∈ files)), (decide (j = i)), (decide (j ∈ i :: files)); set_solver.
Qed.

(** A directory of files that can be read, and a registry in order. *)
Definition conf_dir_ok fs (path : string) (fuel : nat) (files : list string) : Prop :=
  (exists k, shows fs path (Dir k) /\ (depth (Dir k) <= fuel)%nat /\ files = files_below ".yml" path (Dir k)) /\
  NoDup files /\ Forall (readable fs) files.

Definition loader_ok l : Prop :=
  map_ok string_less (s_file2modifytime l) /\ registry_ok (conf l) /\ Forall quiet (heap (conf l)).

(** C38: [LoadFromConfDir] gives every registered variable the texts that the due files below
    the directory have under its name, file after file in the order in which they are
    listed; a file is due when the load is forced or its time differs from the recorded
    one, and one that cannot be read is passed over.  Afterwards the time of every file
    is recorded, the unreadable ones too, so that a second load without force changes no
    variable. *)
Theorem conf_dir_exact fuel e fs path force files l :
  conf_dir_ok fs (GetAbsolutePath path e) fuel files -> loader_ok l -> casts_throw ->
  exists l', LoadFromConfDir fuel e fs path force l = (Ok tt, l') /\ datas (conf l') = datas (conf l) /\
  (forall a en, heap (conf l) !! a = Some en ->
    heap (conf l') !! a = Some (with_value en (foldl updated (value_ (var_ en))
      (if decide (find_entry (name_ en) (datas (conf l)) = Some a)
       then texts_for (name_ en) (mjoin (members_of fs <$> filter (fun i => due fs force (s_file2modifytime l) i = true) files)) else [])))) /\
  (forall i, i ∈ files -> mtime_of i (s_file2modifytime l') = u64 (default 0 (st_mtime i fs))) /\
  exists m, LoadFromConfDir fuel e fs path false l' = (Ok tt, mkLoader (conf l') m).
Proof.
  intros ((k & Hs & Hd & Hk) & Hn & Hr) (Hm & Hreg & Hq) Ht.
  assert (forall f, LoadFromConfDir fuel e fs path f = visit_files fs f files) as Hload.
  { intros f. unfold LoadFromConfDir. by rewrite (list_all _ _ _ _ _ Hs Hd), Hk. }
  destruct (load_members_ok (mjoin (members_of fs <$> filter (fun i => due fs force (s_file2modifytime l) i = true) files)) (conf l) Ht) as (c & Hc & Hdat & Hheap); [|done|done|].
  { apply Forall_join, Forall_fmap, Forall_forall. intros i _. apply all_valid. }
  destruct (visit_all_files fs force files l c Hn Hr Hm Hc) as (m & E & Hm' & Hts).
  exists (mkLoader c m). rewrite !Hload. split_and!; [done..|intros i Hi; cbn [s_file2modifytime]; by rewrite Hts, decide_True|].
  destruct (visit_all_files fs false files (mkLoader c m) c Hn Hr Hm') as (m2 & E2 & _); [|by exists m2].
  cbn [conf s_file2modifytime]. rewrite (filter_none _ files); [done|]. intros i Hi. unfold due. rewrite Hts, decide_True by done. by rewrite Z.eqb_refl.
Qed.

(** A file whose time is the epoch is taken for one that has been loaded. *)
Theorem epoch_file_skipped fs i l : st_mtime i fs = Some 0 -> map_find string_less i (s_file2modifytime l) = None ->
  conf (visit_file fs false i l).2 = conf l.
Proof. intros Ht Hf. unfold visit_file, bind, gets, mtime_of. by rewrite Ht, Hf. Qed.
End ConfDir.

(** ** An example *)

Module ConfDirDemo.
Import CastDemo ConfigDemo TreeFs.

#[export] Instance demo_files_of : ConfFiles tree := {|
  st_mtime p s := match find p s with Some _ => Some 1700000000 | None => None end;
  LoadFile p s :=
    if String.eqb p "top/a.yml" then Ok demo_root
    else if String.eqb p "top/sub/deep/d.yml" then Ok (Map [(Scalar "tcp", Map [(Scalar "port", Scalar "99")])])
    else Fail runtime_error |}.

Definition demo_list : list string := ["top/a.yml"; "top/sub/b.yml"; "top/sub/deep/d.yml"]%string.
Definition demo_loader : Loader (B := scalar) (W := list nat) := mkLoader demo_config [].

Lemma demo_dir : conf_dir_ok demo_tree (GetAbsolutePath "top" no_env) 3 demo_list.
Proof.
  split_and!; [eexists; split_and!; [exact demo_shows|cbn; lia|reflexivity]|by apply (bool_decide_unpack _); vm_compute|].
  repeat constructor; try (eexists; reflexivity); intros err; cbn; by intros [= <-].
Qed.

Lemma demo_ready : loader_ok demo_loader.
Proof. split_and!; [constructor|exact demo_registry|exact demo_quiet]. Qed.
End ConfDirDemo.
Import CastDemo ConfigDemo TreeFs ConfDirDemo.

Lemma conf_dir_exact_witness : exists l', LoadFromConfDir 3 no_env demo_tree "top" false demo_loader = (Ok tt, l') /\
  exists m, LoadFromConfDir 3 no_env demo_tree "top" false l' = (Ok tt, mkLoader (conf l') m).
Proof.
  destruct (conf_dir_exact 3 no_env demo_tree "top" false demo_list demo_loader demo_dir demo_ready demo_throws) as (l' & H1 & _ & _ & _ & H2).
  by exists l'.
Defined.

(** The last file wins, the one in the middle is not YAML. *)
Example demo_dir_loaded : world (conf (LoadFromConfDir 3 no_env demo_tree "top" false demo_loader).2) = [2; 3; 2]%nat.
Proof. vm_compute. reflexivity. Qed.
