(* ===== verification/Lock.v ===== *)
(** * Locks: [gudov/mutex.h], and [Semaphore] of [gudov/thread.cpp]

    The scoped locks are modelled against an interface (class [Lockable]) that says what
    they need of a lock; the spin lock over an atomic flag implements it, and so do the
    locks of POSIX as they are documented.  A call that would block is not enabled; the
    threads' calls interleave as sequences of such steps. *)

From S2P Require Import Prelude.
From stdpp Require Import base numbers list.
From Stdlib Require Import ZArith Lia.
Open Scope Z_scope.

(** ** What a scoped lock needs *)

(** A lock of type [M] is taken in a mode and given back; [holds m l] says that it is held
    in the modes [l]. *)
Class Lockable (M mode : Type) := {
  free : M;
  try_lock : mode -> M -> option M;
  unlock_ : M -> M;
  compatible : mode -> mode -> bool;
  holds : M -> list mode -> Prop;
  compatible_sym a b : compatible a b = compatible b a;
  holds_free : holds free [];
  holds_perm m l k : holds m l -> l ≡ₚ k -> holds m k;
  lock_granted a m m' l : holds m l -> try_lock a m = Some m' -> holds m' (a :: l) /\ forallb (compatible a) l = true;
  lock_blocked a m l : holds m l -> try_lock a m = None -> forallb (compatible a) l = false;
  unlock_gives a m l : holds m (a :: l) -> holds (unlock_ m) l }.

Lemma forallb_refuted {A} (f : A -> bool) l : forallb f l = false -> exists x, x ∈ l /\ f x = false.
Proof.
  induction l as [|x l IH]; cbn; [done|]. destruct (f x) eqn:E; cbn; [|exists x; split; [by left|done]].
  intros (y & Hy & Hf)%IH. exists y. split; [by right|done].
Qed.

Section Scoped.
Context {M mode : Type} `{LM : Lockable M mode}.

(** [ScopedLockImpl], [ReadScopedLockImpl] and [WriteScopedLockImpl]: [mode] is what their
    [Lock] asks of the lock. *)
Record Locker := mkLocker { mode_ : mode; locked_ : bool }.

(** [Lock()]: nothing if it holds the lock; [None] while the lock is not granted. *)
Definition Lock (k : Locker) (m : M) : option (Locker * M) :=
  if locked_ k then Some (k, m)
  else match try_lock (mode_ k) m with Some m => Some (mkLocker (mode_ k) true, m) | None => None end.

Definition Unlock (k : Locker) (m : M) : Locker * M :=
  if locked_ k then (mkLocker (mode_ k) false, unlock_ m) else (k, m).

(** The constructor locks, the destructor unlocks. *)
Definition new_Locker (a : mode) (m : M) : option (Locker * M) := Lock (mkLocker a false) m.

Definition del_Locker (k : Locker) (m : M) : M := (Unlock k m).2.

(** ** The scoped locks of a program *)

(** One lock and the scoped locks on it that threads have made; a destroyed one is
    [None]. *)
Record system := mkSystem { lock : M; lockers : list (option Locker) }.

Inductive call := CNew (a : mode) | CLock (i : nat) | CUnlock (i : nat) | CDel (i : nat).

Definition put (i : nat) (k : option Locker) (m : M) (s : system) : system := mkSystem m (<[i := k]> (lockers s)).

(** A call of some thread; [None] when it blocks or there is no such scoped lock. *)
Definition step (c : call) (s : system) : option system :=
  match c with
  | CNew a =>
      match new_Locker a (lock s) with Some (k, m) => Some (mkSystem m (lockers s ++ [Some k])) | None => None end
  | CLock i =>
      match lockers s !! i with
      | Some (Some k) => match Lock k (lock s) with Some (k, m) => Some (put i (Some k) m s) | None => None end
      | _ => None
      end
  | CUnlock i =>
      match lockers s !! i with Some (Some k) => let '(k, m) := Unlock k (lock s) in Some (put i (Some k) m s) | _ => None end
  | CDel i =>
      match lockers s !! i with Some (Some k) => Some (put i None (del_Locker k (lock s)) s) | _ => None end
  end.

Inductive reachable : system -> Prop :=
  | reach_start : reachable (mkSystem free [])
  | reach_step c s s' : reachable s -> step c s = Some s' -> reachable s'.

(** The modes in which the lock is held by some scoped lock. *)
Definition held1 (x : option Locker) : list mode := match x with Some k => if locked_ k then [mode_ k] else [] | None => [] end.
Definition held (l : list (option Locker)) : list mode := mjoin (held1 <$> l).

Lemma held_insert l i x y : l !! i = Some x -> exists rest, held l ≡ₚ held1 x ++ rest /\ held (<[i := y]> l) ≡ₚ held1 y ++ rest.
Proof.
  intros Hi. exists (held (take i l ++ drop (S i) l)). split.
  - rewrite <- (take_drop_middle l i x Hi) at 1. unfold held. rewrite !fmap_app, !join_app. cbn. by rewrite Permutation_app_swap_app.
  - rewrite insert_take_drop by (by eapply lookup_lt_Some). unfold held. rewrite !fmap_app, !join_app. cbn. by rewrite Permutation_app_swap_app.
Qed.

Lemma held_snoc l k : held (l ++ [Some k]) ≡ₚ held1 (Some k) ++ held l.
Proof. unfold held. rewrite fmap_app, join_app. cbn. by rewrite app_nil_r, Permutation_app_comm. Qed.

(** What the lock is held in is what the scoped locks believe, and no two of them clash. *)
Definition exclusive (l : list mode) : Prop := ForallOrdPairs (fun a b => compatible a b = true) l.

Definition in_step (s : system) : Prop := holds (lock s) (held (lockers s)) /\ exclusive (held (lockers s)).

Lemma exclusive_cons a l : exclusive (a :: l) <-> forallb (compatible a) l = true /\ exclusive l.
Proof.
  split.
  - inversion 1 as [|? ? Ha Hl]. subst. split; [|done]. apply forallb_forall. by apply List.Forall_forall.
  - intros [Ha Hl]. constructor; [|done]. apply List.Forall_forall. by apply forallb_forall.
Qed.

Lemma exclusive_perm l k : l ≡ₚ k -> exclusive l -> exclusive k.
Proof.
  induction 1 as [|a l k Hp IH|a b l|l k k' _ IH1 _ IH2]; [done| | |auto].
  - rewrite !exclusive_cons. intros [Ha Hl]. split; [|auto]. rewrite forallb_forall in *. intros x Hx. apply Ha. by rewrite Hp.
  - rewrite !exclusive_cons. cbn. rewrite !andb_true_iff, (compatible_sym b a). tauto.
Qed.

(** Taking the lock, giving it back, and leaving it alone. *)
Lemma take_step k m k' m' l rest : Lock k m = Some (k', m') -> holds m l -> exclusive l -> l ≡ₚ held1 (Some k) ++ rest ->
  holds m' (held1 (Some k') ++ rest) /\ exclusive (held1 (Some k') ++ rest).
Proof.
  unfold Lock. intros HL Hm Hx Hl. destruct (locked_ k) eqn:Hk.
  - injection HL as <- <-. split; [by eapply holds_perm|by eapply exclusive_perm].
  - destruct (try_lock (mode_ k) m) as [m1|] eqn:Ht; [|done]. injection HL as <- <-. cbn in *. rewrite Hk in Hl. cbn in Hl.
    destruct (lock_granted _ _ _ _ (holds_perm _ _ _ Hm Hl) Ht) as [H1 H2]. split; [done|]. apply exclusive_cons. split; [done|by eapply exclusive_perm].
Qed.

Lemma give_step k m k' m' l rest : Unlock k m = (k', m') -> holds m l -> exclusive l -> l ≡ₚ held1 (Some k) ++ rest ->
  locked_ k' = false /\ holds m' rest /\ exclusive rest.
Proof.
  unfold Unlock. intros HU Hm Hx Hl. cbn in Hl. pose proof (holds_perm _ _ _ Hm Hl) as Hm'. pose proof (exclusive_perm _ _ Hl Hx) as Hx'.
  destruct (locked_ k) eqn:Hk; injection HU as <- <-; [|done]. split; [done|]. split; [by eapply unlock_gives|by apply exclusive_cons in Hx' as [_ ?]].
Qed.

Lemma step_in_step c s s' : in_step s -> step c s = Some s' -> in_step s'.
Proof.
  intros [Hh Hx] Hs. unfold in_step. destruct c as [a|i|i|i]; unfold step in Hs.
  - destruct (new_Locker a (lock s)) as [[k m]|] eqn:E; [|done]. injection Hs as <-. cbn.
    destruct (take_step _ _ _ _ _ (held (lockers s)) E Hh Hx) as [H1 H2]; [done|].
    pose proof (held_snoc (lockers s) k) as Hp. symmetry in Hp. split; [by eapply holds_perm|by eapply exclusive_perm].
  - destruct (lockers s !! i) as [[k|]|] eqn:Ei; [|done..]. destruct (Lock k (lock s)) as [[k' m]|] eqn:E; [|done]. injection Hs as <-. cbn.
    destruct (held_insert _ _ _ (Some k') Ei) as (rest & Hp & Hp'). destruct (take_step _ _ _ _ _ rest E Hh Hx Hp) as [H1 H2].
    symmetry in Hp'. split; [by eapply holds_perm|by eapply exclusive_perm].
  - destruct (lockers s !! i) as [[k|]|] eqn:Ei; [|done..]. destruct (Unlock k (lock s)) as [k' m] eqn:E. injection Hs as <-. cbn.
    destruct (held_insert _ _ _ (Some k') Ei) as (rest & Hp & Hp'). destruct (give_step _ _ _ _ _ rest E Hh Hx Hp) as (H0 & H1 & H2).
    cbn in Hp'. rewrite H0 in Hp'. symmetry in Hp'. split; [by eapply holds_perm|by eapply exclusive_perm].
  - destruct (lockers s !! i) as [[k|]|] eqn:Ei; [|done..]. injection Hs as <-. cbn. unfold del_Locker. destruct (Unlock k (lock s)) as [k' m] eqn:E.
    destruct (held_insert _ _ _ None Ei) as (rest & Hp & Hp'). destruct (give_step _ _ _ _ _ rest E Hh Hx Hp) as (H0 & H1 & H2).
    symmetry in Hp'. split; [by eapply holds_perm|by eapply exclusive_perm].
Qed.

Lemma reachable_in_step s : reachable s -> in_step s.
Proof. induction 1 as [|c s s' _ IH Hs]; [split; [apply holds_free|constructor]|by eapply step_in_step]. Qed.

Lemma held_at l i k : l !! i = Some (Some k) -> locked_ k = true -> mode_ k ∈ held l.
Proof. intros Hi Hk. destruct (held_insert l i _ (Some k) Hi) as (rest & Hp & _). cbn in Hp. rewrite Hk in Hp. rewrite Hp. by left. Qed.

Lemma held_by l b : b ∈ held l -> exists j k, l !! j = Some (Some k) /\ locked_ k = true /\ b = mode_ k.
Proof.
  unfold held. intros (l' & Hb & Hl)%list_elem_of_join. apply list_elem_of_fmap in Hl as (x & -> & Hx).
  apply list_elem_of_lookup in Hx as [j Hj]. destruct x as [k|]; [|by apply elem_of_nil in Hb].
  cbn in Hb. destruct (locked_ k) eqn:Hk; [|by apply elem_of_nil in Hb]. apply list_elem_of_singleton in Hb as ->. eauto.
Qed.

Lemma exclusive_two l i j k k' : exclusive (held l) -> i <> j -> l !! i = Some (Some k) -> l !! j = Some (Some k') ->
  locked_ k = true -> locked_ k' = true -> compatible (mode_ k) (mode_ k') = true.
Proof.
  intros Hx Hij Hi Hj Hk Hk'. destruct (held_insert l i _ None Hi) as (rest & Hp & Hp').
  cbn in Hp, Hp'. rewrite Hk in Hp. apply (exclusive_perm _ _ Hp) in Hx. apply exclusive_cons in Hx as [Hx _].
  rewrite forallb_forall in Hx. apply Hx, list_elem_of_In. rewrite <- Hp'. apply (held_at _ j); [|done]. by rewrite list_lookup_insert_ne.
Qed.

End Scoped.

Arguments Locker : clear implicits.
Arguments system : clear implicits.
Arguments call : clear implicits.

(** ** [CASLock] *)

(** [atomic_flag_test_and_set]: what the flag was, and the flag now. *)
Definition test_and_set (flag : bool) : bool * bool := (flag, true).

(** [Lock()]: the loop ends when the flag was clear; a round that finds it set leaves it as
    it is. *)
Definition CASLock_Lock (flag : bool) : option bool := let '(was, flag) := test_and_set flag in if was then None else Some flag.

Definition CASLock_Unlock (flag : bool) : bool := false.

(** The modes of a lock that is held once. *)
Definition one_holder (m : bool) (l : list unit) : Prop := length l = if m then 1%nat else 0%nat.

(** A lock that is granted when it is not taken, and is free when it has been given back. *)
Definition exclusive_lock (take : bool -> option bool) (give : bool -> bool) :
  (forall m, take m = if m then None else Some true) -> (forall m, give m = false) -> Lockable bool unit.
Proof.
  intros Ht Hg. refine {| free := false; try_lock _ m := take m; unlock_ := give; compatible _ _ := false; holds := one_holder |}.
  - done.
  - done.
  - intros m l k Hl Hp. unfold one_holder in *. by rewrite <- Hp.
  - intros [] m m' l Hl. rewrite Ht. destruct m; [done|]. intros [= <-]. by destruct l.
  - intros [] m l Hl. rewrite Ht. destruct m; [|done]. intros _. by destruct l.
  - intros [] m l Hl. rewrite Hg. unfold one_holder in *. destruct m; [|done]. by destruct l.
Defined.

#[export] Instance cas_lock : Lockable bool unit := exclusive_lock CASLock_Lock CASLock_Unlock ltac:(by intros []) ltac:(done).

(** ** [Mutex] and [Spinlock]

    [pthread_mutex_lock] and [pthread_spin_lock] return with the lock held by the caller
    when no thread holds it, and block otherwise, also when the caller holds it. *)

Definition Mutex_Lock (taken : bool) : option bool := if taken then None else Some true.
Definition Mutex_Unlock (taken : bool) : bool := false.

Definition mutex_lock : Lockable bool unit := exclusive_lock Mutex_Lock Mutex_Unlock ltac:(done) ltac:(done).

(** ** [RWMutex]

    [pthread_rwlock_rdlock] blocks while there is a writer, [pthread_rwlock_wrlock] while
    there is any holder; [pthread_rwlock_unlock] gives back what the caller holds. *)

Module RWMutex.
Inductive mode := Read | Write.

Record t := mkRW { readers : nat; writer : bool }.

Definition rdlock (m : t) : option t := if writer m then None else Some (mkRW (S (readers m)) false).
Definition wrlock (m : t) : option t := if writer m then None else match readers m with O => Some (mkRW 0 true) | S _ => None end.
Definition unlock (m : t) : t := if writer m then mkRW (readers m) false else mkRW (pred (readers m)) false.

Definition both_read (a b : mode) : bool := match a, b with Read, Read => true | _, _ => false end.

(** What [ReadScopedLockImpl] and [WriteScopedLockImpl] call. *)
Definition lock_of (a : mode) : t -> option t := match a with Read => rdlock | Write => wrlock end.

(** One writer, or as many readers as are counted. *)
Definition rw_holds (m : t) (l : list mode) : Prop :=
  if writer m then readers m = 0%nat /\ l = [Write] else l = replicate (readers m) Read.

#[export] Instance rw_lock : Lockable t mode.
Proof.
  refine {| free := mkRW 0 false; try_lock := lock_of; unlock_ := unlock; compatible := both_read; holds := rw_holds |}.
  - by intros [] [].
  - done.
  - intros [r w] l k Hl Hp. unfold rw_holds in *. cbn in *. destruct w.
    + destruct Hl as [-> ->]. split; [done|]. symmetry in Hp. by apply Permutation_singleton_r in Hp.
    + subst. by apply replicate_Permutation in Hp.
  - intros [] [r []] m' l Hl; cbn; try done.
    + intros [= <-]. unfold rw_holds in *. cbn in *. subst. split; [done|]. by induction r.
    + destruct r; [|done]. intros [= <-]. unfold rw_holds in *. cbn in *. by subst.
  - intros [] [r []] l Hl; cbn; try done.
    + intros _. unfold rw_holds in Hl. cbn in Hl. by destruct Hl as [_ ->].
    + intros _. unfold rw_holds in Hl. cbn in Hl. by destruct Hl as [_ ->].
    + destruct r; [done|]. intros _. unfold rw_holds in Hl. cbn in Hl. by subst.
  - intros [] [r []] l; unfold rw_holds; cbn.
    + by intros [_ [=]].
    + destruct r; [done|]. by intros [= ->].
    + intros [-> [= ->]]. done.
    + by destruct r.
Defined.
End RWMutex.
Import RWMutex.

(** ** [Semaphore] *)

Definition SEM_VALUE_MAX : Z := 2 ^ 31 - 1.

(** The constructor: [sem_init] fails for a count that is too large. *)
Definition new_Semaphore (count : Z) : result Z := if count <=? SEM_VALUE_MAX then Ok count else Fail logic_error.

(** [Wait()]: blocks ([None]) while the count is zero. *)
Definition Wait (count : Z) : option Z := if 0 <? count then Some (count - 1) else None.

(** [Notify()]: [sem_post] fails when the count would overflow. *)
Definition Notify (count : Z) : result Z := if count <? SEM_VALUE_MAX then Ok (count + 1) else Fail logic_error.

(** ** Examples *)

Definition run_calls {M mode} `{Lockable M mode} (l : list (call mode)) (s : system M mode) : option (system M mode) :=
  foldl (fun s c => match s with Some s => step c s | None => None end) (Some s) l.

Lemma run_calls_reachable {M mode} `{Lockable M mode} (l : list (call mode)) s s' : reachable s -> run_calls l s = Some s' -> reachable s'.
Proof.
  revert s. induction l as [|c l IH]; intros s Hs Hr; [by injection Hr as <-|]. unfold run_calls in *. cbn in Hr.
  destruct (step c s) as [s1|] eqn:E; [apply (IH s1); [by eapply reach_step|done]|]. exfalso. clear -Hr. by induction l.
Qed.

Definition rw_state : system t mode := mkSystem (mkRW 2 false) [None; Some (mkLocker Read true); Some (mkLocker Write false); Some (mkLocker Read true)].

Lemma rw_state_reached : reachable rw_state.
Proof. eapply (run_calls_reachable [CNew Read; CNew Read; CUnlock 0; CDel 0; CUnlock 1; CNew Write; CUnlock 2; CNew Read; CLock 1]); [apply reach_start|reflexivity]. Qed.

