(* ===== verification/Thread.v ===== *)
(** * Threads: [Thread] of [gudov/thread.h] and [gudov/thread.cpp]

    A [Thread] object and the thread it starts: the constructor, [Thread::Run], [Join] and
    the destructor as a transition system of the two threads, one step per access to what
    they share.  An access to an object that is gone is undefined behaviour.  The
    callback is a parameter; while it runs it may rename its thread. *)

From S2P Require Import Prelude Lock.
From stdpp Require Import base numbers list strings.
From Stdlib Require Import ZArith Lia.
Open Scope Z_scope.

(** The fields of a [Thread]; [callback_] is [None] when it is empty. *)
Record ThreadObj (cb : Type) := mkThread {
  id_ : Z;
  thread_ : Z;
  name_ : string;
  callback_ : option cb;
  semaphore_ : Z }.
Arguments mkThread {cb}.
Arguments id_ {cb}.
Arguments thread_ {cb}.
Arguments name_ {cb}.
Arguments callback_ {cb}.
Arguments semaphore_ {cb}.

(** Where the constructing thread is: before [pthread_create], in [Wait], behind the
    constructor, or out of it by an exception. *)
Inductive creator := Creating | Waiting | Constructed | Threw.

(** The next access of [Thread::Run]; [Absent]: there is no thread yet. *)
Inductive runner := Absent | SetSelf | SetName | SetId | SetKernelName | SwapCallback | DoNotify | CallCallback | Finished.

#[global] Instance runner_eq_dec : EqDecision runner.
Proof. solve_decision. Defined.

(** [released]: the thread has been joined or detached. *)
Record world (cb : Type) := mkWorld {
  object : option (ThreadObj cb);
  creator_at : creator;
  runner_at : runner;
  t_running_thread : bool;
  t_running_thread_name : string;
  kernel_name : string;
  local_callback : option cb;
  ran : list cb;
  released : bool }.
Arguments mkWorld {cb}.
Arguments object {cb}.
Arguments creator_at {cb}.
Arguments runner_at {cb}.
Arguments t_running_thread {cb}.
Arguments t_running_thread_name {cb}.
Arguments kernel_name {cb}.
Arguments local_callback {cb}.
Arguments ran {cb}.
Arguments released {cb}.

Section Thread.
Context {cb : Type}.
Implicit Types (w : world cb) (o : ThreadObj cb).

Definition unknown : string := "UNKNOWN".

(** [name_(name), callback_(callback)], and the test of the constructor. *)
Definition new_Thread (callback : cb) (name : string) : ThreadObj cb :=
  mkThread (-1) 0 (if String.eqb name EmptyString then unknown else name) (Some callback) 0.

(** The state before [pthread_create]; a new thread's name is [UNKNOWN]. *)
Definition start (callback : cb) (name : string) : world cb :=
  mkWorld (Some (new_Thread callback name)) Creating Absent false unknown EmptyString None [] false.

Definition set_object o w : world cb :=
  mkWorld (Some o) (creator_at w) (runner_at w) (t_running_thread w) (t_running_thread_name w) (kernel_name w) (local_callback w) (ran w) (released w).
Definition set_creator (c : creator) w : world cb :=
  mkWorld (object w) c (runner_at w) (t_running_thread w) (t_running_thread_name w) (kernel_name w) (local_callback w) (ran w) (released w).
Definition set_runner (r : runner) w : world cb :=
  mkWorld (object w) (creator_at w) r (t_running_thread w) (t_running_thread_name w) (kernel_name w) (local_callback w) (ran w) (released w).

(** An access through a pointer to the object. *)
Definition with_object w (k : ThreadObj cb -> result (world cb)) : result (world cb) :=
  match object w with Some o => k o | None => Fail undefined end.

(** [pthread_create] with result [rt]; the handle is not zero. *)
Definition create (rt handle : Z) w : result (world cb) :=
  with_object w (fun o =>
    if rt =? 0 then Ok (set_runner SetSelf (set_creator Waiting (set_object (mkThread (id_ o) handle (name_ o) (callback_ o) (semaphore_ o)) w)))
    else Ok (mkWorld None Threw Absent (t_running_thread w) (t_running_thread_name w) (kernel_name w) (local_callback w) (ran w) (released w))).

(** [semaphore_.Wait()]; [None] while it blocks. *)
Definition wait_step w : option (result (world cb)) :=
  match object w with
  | None => Some (Fail undefined)
  | Some o => match Wait (semaphore_ o) with
              | None => None
              | Some n => Some (Ok (set_creator Constructed (set_object (mkThread (id_ o) (thread_ o) (name_ o) (callback_ o) n) w)))
              end
  end.

(** One access of [Thread::Run], in the thread whose kernel id is [tid]. *)
Definition run_step (tid : Z) w : result (world cb) :=
  match runner_at w with
  | SetSelf => Ok (mkWorld (object w) (creator_at w) SetName true (t_running_thread_name w) (kernel_name w) (local_callback w) (ran w) (released w))
  | SetName => with_object w (fun o =>
      Ok (mkWorld (object w) (creator_at w) SetId (t_running_thread w) (name_ o) (kernel_name w) (local_callback w) (ran w) (released w)))
  | SetId => with_object w (fun o =>
      Ok (set_runner SetKernelName (set_object (mkThread tid (thread_ o) (name_ o) (callback_ o) (semaphore_ o)) w)))
  | SetKernelName => with_object w (fun o =>
      Ok (mkWorld (object w) (creator_at w) SwapCallback (t_running_thread w) (t_running_thread_name w)
            (c_str (String.substring 0 15 (name_ o))) (local_callback w) (ran w) (released w)))
  | SwapCallback => with_object w (fun o =>
      Ok (mkWorld (Some (mkThread (id_ o) (thread_ o) (name_ o) (local_callback w) (semaphore_ o))) (creator_at w) DoNotify
            (t_running_thread w) (t_running_thread_name w) (kernel_name w) (callback_ o) (ran w) (released w)))
  | DoNotify => with_object w (fun o =>
      match Notify (semaphore_ o) with
      | Ok n => Ok (set_runner CallCallback (set_object (mkThread (id_ o) (thread_ o) (name_ o) (callback_ o) n) w))
      | Fail e => Fail e
      end)
  | CallCallback =>
      match local_callback w with
      | Some f => Ok (mkWorld (object w) (creator_at w) Finished (t_running_thread w) (t_running_thread_name w) (kernel_name w) (local_callback w) (ran w ++ [f]) (released w))
      | None => Fail bad_cast
      end
  | Absent | Finished => Ok w
  end.

(** [Thread::SetRunningThreadName], called by the callback. *)
Definition SetRunningThreadName (name : string) w : result (world cb) :=
  if t_running_thread w then
    with_object w (fun o =>
      Ok (mkWorld (Some (mkThread (id_ o) (thread_ o) name (callback_ o) (semaphore_ o))) (creator_at w) (runner_at w) true name (kernel_name w) (local_callback w) (ran w) (released w)))
  else Ok (mkWorld (object w) (creator_at w) (runner_at w) false name (kernel_name w) (local_callback w) (ran w) (released w)).

(** [Thread::Join] from the constructing thread; [pthread_join] blocks ([None]) until the
    thread has ended, and gives 0 for a thread that can be joined. *)
Definition Join w : option (result (world cb)) :=
  match object w with
  | None => Some (Fail undefined)
  | Some o =>
      if thread_ o =? 0 then Some (Ok w)
      else if released w then Some (Fail logic_error)
      else if decide (runner_at w = Finished) then
        Some (Ok (mkWorld (Some (mkThread (id_ o) 0 (name_ o) (callback_ o) (semaphore_ o))) (creator_at w) (runner_at w)
                    (t_running_thread w) (t_running_thread_name w) (kernel_name w) (local_callback w) (ran w) true))
      else None
  end.

(** The destructor detaches a thread that was not joined. *)
Definition Destroy w : result (world cb) :=
  with_object w (fun o =>
    Ok (mkWorld None (creator_at w) (runner_at w) (t_running_thread w) (t_running_thread_name w) (kernel_name w) (local_callback w) (ran w)
          (released w || negb (thread_ o =? 0)))).

(** ** The two threads together *)

Inductive move := MCreate (rt handle : Z) | MWait | MRun | MRename (name : string) | MJoin | MDestroy.

(** What a thread may do next; [None]: it is elsewhere, or it blocks.  The object is the
    caller's once the constructor has returned; the callback renames its thread while the
    object is there. *)
Definition act (tid : Z) (m : move) w : option (result (world cb)) :=
  match m, creator_at w with
  | MCreate rt handle, Creating => Some (create rt handle w)
  | MWait, Waiting => wait_step w
  | MRun, _ => match runner_at w with Absent | Finished => None | _ => Some (run_step tid w) end
  | MRename name, _ => if decide (runner_at w = CallCallback) then Some (SetRunningThreadName name w) else None
  | MJoin, Constructed => match object w with Some _ => Join w | None => None end
  | MDestroy, Constructed => match object w with Some _ => Some (Destroy w) | None => None end
  | _, _ => None
  end.

Section Runs.
Context (callback : cb) (name : string) (tid : Z).

(** [pthread_create] gives a handle; a callback that renames its thread needs the object. *)
Definition allowed (m : move) w : Prop :=
  match m with MCreate _ handle => handle <> 0 | MRename _ => object w <> None | _ => True end.

Inductive reach : world cb -> Prop :=
  | reach_start : reach (start callback name)
  | reach_act m w w' : reach w -> allowed m w -> act tid m w = Some (Ok w') -> reach w'.

Definition full_name : string := if String.eqb name EmptyString then unknown else name.

(** How far [Run] has come. *)
Definition stage (r : runner) : nat :=
  match r with
  | Absent => 0 | SetSelf => 1 | SetName => 2 | SetId => 3 | SetKernelName => 4 | SwapCallback => 5 | DoNotify => 6 | CallCallback => 7 | Finished => 8
  end.

Definition past (k : nat) w : bool := (k <? stage (runner_at w))%nat.

Definition notified w : bool := past 6 w.

(** The object as long as it is there. *)
Definition object_ok w o : Prop :=
  (if notified w then True else name_ o = full_name) /\ (if past 3 w then id_ o = tid else True) /\
  callback_ o = (if past 5 w then None else Some callback) /\
  semaphore_ o = (if notified w then match creator_at w with Waiting => 1 | _ => 0 end else 0) /\
  (if past 0 w then thread_ o = 0 <-> released w = true else True).

Definition world_ok w : Prop :=
  match creator_at w with
  | Creating => runner_at w = Absent /\ object w <> None
  | Waiting => past 0 w = true /\ object w <> None
  | Constructed => notified w = true
  | Threw => runner_at w = Absent /\ object w = None
  end /\
  match object w with Some o => object_ok w o /\ (released w = true -> runner_at w = Finished) | None => True end /\
  (t_running_thread w = past 1 w) /\
  (if notified w then True else if past 2 w then t_running_thread_name w = full_name else True) /\
  (if past 4 w then kernel_name w = c_str (String.substring 0 15 full_name) else True) /\
  local_callback w = (if past 5 w then Some callback else None) /\
  ran w = (if past 7 w then [callback] else []).

Ltac world_cases :=
  unfold world_ok, object_ok, notified, past in *; cbn in *; destruct_and?; simplify_eq; repeat case_match; simplify_eq; cbn in *; split_and?; try done; try tauto; try lia; try congruence;
  try match goal with H : true = true -> _ |- _ => discriminate (H eq_refl) end.

Ltac world_facts H := unfold world_ok, object_ok, notified, past in H; cbn in H; destruct_and?.

Lemma start_ok : world_ok (start callback name).
Proof. unfold world_ok, object_ok, start, full_name. cbn. by split_and!. Qed.

(** Each step of [Run] finds what it needs. *)
Lemma run_ok w : world_ok w -> runner_at w <> Absent -> runner_at w <> Finished -> exists w', run_step tid w = Ok w' /\ world_ok w'.
Proof.
  intros Hw H1 H2. destruct w as [[o|] c r t tn kn lc rn rel]; destruct r; try done; unfold run_step, with_object, Notify; cbn in *.
  all: try (destruct c; by world_facts Hw).
  all: try (eexists; split; [reflexivity|]; destruct c; by world_cases).
  - assert (semaphore_ o = 0) as Hs by (by world_facts Hw). rewrite Hs.
    eexists; split; [reflexivity|]. destruct c; by world_cases.
  - assert (lc = Some callback) as -> by (by world_facts Hw). eexists; split; [reflexivity|]. destruct c; by world_cases.
  - assert (lc = Some callback) as -> by (by world_facts Hw). eexists; split; [reflexivity|]. destruct c; by world_cases.
Qed.

Lemma act_ok m w r : world_ok w -> allowed m w -> act tid m w = Some r -> exists w', r = Ok w' /\ world_ok w'.
Proof.
  intros Hw Ha. unfold act. destruct m as [rt handle| | |n| |].
  - destruct w as [o [] r' t tn kn lc rn rel]; cbn; try done. intros [= <-]. destruct o as [o|]; [|by world_facts Hw].
    unfold create, with_object. cbn. destruct (rt =? 0); (eexists; split; [reflexivity|]).
    + assert (r' = Absent) as -> by (by world_facts Hw). cbn in Ha. destruct rel; world_cases.
    + assert (r' = Absent) as -> by (by world_facts Hw). world_cases.
  - destruct w as [o [] r' t tn kn lc rn rel]; cbn; try done. destruct o as [o|]; [|by world_facts Hw].
    unfold wait_step, Wait. cbn. destruct (0 <? semaphore_ o) eqn:Hs; [|done]. intros [= <-]. eexists; split; [reflexivity|].
    destruct r'; world_cases.
  - intros Hr. assert (runner_at w <> Absent /\ runner_at w <> Finished) as [H1 H2] by (destruct (runner_at w); by destruct (creator_at w)).
    assert (r = run_step tid w) as -> by (destruct (runner_at w); destruct (creator_at w); by simplify_eq). by apply run_ok.
  - destruct w as [o c r' t tn kn lc rn rel]; cbn. case_decide; [|done]. subst. intros Hr. cbn in Ha. destruct o as [o|]; [|done].
    assert (t = true) as -> by (by world_facts Hw). unfold SetRunningThreadName, with_object in Hr. cbn in Hr.
    destruct c; simplify_eq; (eexists; split; [reflexivity|]); world_cases.
  - destruct w as [[o|] [] r' t tn kn lc rn rel]; cbn; try done. unfold Join. cbn. destruct (thread_ o =? 0) eqn:Ht; [intros [= <-]; eauto|].
    destruct rel; [exfalso; apply Z.eqb_neq in Ht; destruct r'; world_cases|]. case_decide; [|done]. intros [= <-]. eexists; split; [reflexivity|]. subst. world_cases.
  - destruct w as [[o|] [] r' t tn kn lc rn rel]; cbn; try done. intros [= <-]. eexists; split; [reflexivity|]. destruct r'; world_cases.
Qed.

Lemma reach_ok w : reach w -> world_ok w.
Proof. induction 1 as [|m w w' _ IH Ha Hact]; [apply start_ok|]. destruct (act_ok _ _ _ IH Ha Hact) as (w1 & [= ->] & Hw). done. Qed.

(** What is left to do for the two threads, apart from the caller's use of the object. *)
Definition todo w : nat :=
  (8 - stage (runner_at w)) + match creator_at w with Creating => 3 | Waiting => 1 | _ => 0 end.

Definition both_done w : Prop :=
  creator_at w = Threw \/ creator_at w = Constructed /\ runner_at w = Finished.

Lemma progress w : world_ok w -> ~ both_done w ->
  exists m w', allowed m w /\ act tid m w = Some (Ok w') /\ (todo w' < todo w)%nat.
Proof.
  intros Hw Hd. destruct (decide (runner_at w = Absent \/ runner_at w = Finished)) as [Hr|Hr].
  - destruct w as [o c r t tn kn lc rn rel]; cbn in Hr. destruct c.
    + exists (MCreate 0 1). destruct o as [o|]; [|by world_facts Hw]. assert (r = Absent) as -> by (by world_facts Hw).
      eexists. split_and!; [done|reflexivity|]. cbn. lia.
    + exists MWait. destruct o as [o|]; [|by world_facts Hw]. destruct Hr as [->| ->]; [by world_facts Hw|].
      assert (semaphore_ o = 1) as Hs by (by world_facts Hw). eexists. unfold act, wait_step. cbn. rewrite Hs. split_and!; [done|reflexivity|]. cbn. lia.
    + destruct Hr as [-> | ->]; [by world_facts Hw|]. destruct Hd. by right.
    + destruct Hd. by left.
  - destruct (run_ok w Hw) as (w' & Hrun & Hw'); [tauto..|]. exists MRun, w'. split; [done|]. split.
    + unfold act. destruct (runner_at w), (creator_at w); try tauto; by rewrite Hrun.
    + assert (creator_at w' = creator_at w /\ stage (runner_at w') = S (stage (runner_at w))) as [H1 H2].
      { unfold run_step, with_object in Hrun. destruct (runner_at w); destruct (object w); try tauto; repeat case_match; by simplify_eq. }
      unfold todo. rewrite H1, H2. destruct (runner_at w); cbn; try tauto; lia.
Qed.

(** C34: However the new thread, its creator and the owner of the [Thread] object interleave, no
    access goes wrong, also when the object is destroyed as soon as the constructor has
    returned.  Then [GetID] is the thread's kernel id, the callback has left the object
    and the thread's names are set; the callback is called exactly once, in the new
    thread; and until both threads are through, one of them can go on, each such step
    bringing the end nearer. *)
Theorem thread_handshake w : reach w ->
  (forall m r, allowed m w -> act tid m w = Some r -> is_ok r = true) /\
  (creator_at w = Constructed ->
    (forall o, object w = Some o -> id_ o = tid /\ callback_ o = None) /\ t_running_thread w = true /\
    kernel_name w = c_str (String.substring 0 15 full_name)) /\
  ran w = (if decide (runner_at w = Finished) then [callback] else []) /\
  (both_done w \/ exists m w', allowed m w /\ act tid m w = Some (Ok w') /\ (todo w' < todo w)%nat).
Proof.
  intros Hr. pose proof (reach_ok w Hr) as Hw. split_and!.
  - intros m r Ha Hact. destruct (act_ok _ _ _ Hw Ha Hact) as (w' & -> & _). done.
  - destruct w as [o c r t tn kn lc rn rel]; cbn. intros ->. destruct r; try by world_facts Hw.
    all: world_facts Hw; split_and!; try done; intros o' ->; by world_facts H1.
  - destruct w as [o c r t tn kn lc rn rel]; cbn. by destruct r; world_facts Hw.
  - destruct (decide (runner_at w = Finished)) as [Hf|Hf]; destruct (creator_at w) eqn:Hc; try (by left; left).
    all: try (left; by right). all: right; apply progress; [done|]; unfold both_done; rewrite Hc; naive_solver.
Qed.
End Runs.

(** The thread keeps a pointer to its object: when the object has gone, renaming the running
    thread uses it nevertheless. *)
Theorem rename_dangles w name : t_running_thread w = true -> object w = None -> SetRunningThreadName name w = Fail undefined.
Proof. intros Ht Ho. unfold SetRunningThreadName, with_object. by rewrite Ht, Ho. Qed.
End Thread.

(** ** An example *)

(** The owner destroys the object while the callback runs. *)
Definition demo_moves : list move := [MCreate 0 77; MRun; MRun; MRun; MRun; MRun; MRun; MWait; MRename "io"; MDestroy].

Definition run_moves (tid : Z) (ms : list move) (w : world nat) : option (world nat) :=
  foldl (fun w m => match w with Some w => match act tid m w with Some (Ok w) => Some w | _ => None end | None => None end) (Some w) ms.

Lemma moves_reach tid c n ms w w' : reach c n tid w -> (forall m (v : world nat), m ∈ ms -> allowed m v) ->
  run_moves tid ms w = Some w' -> reach (cb := nat) c n tid w'.
Proof.
  revert w. induction ms as [|m ms IH]; intros w Hw Ha Hr; [by injection Hr as <-|]. unfold run_moves in *. cbn in Hr.
  destruct (act tid m w) as [[w1|]|] eqn:E.
  - apply (IH w1); [eapply reach_act; [done| |done]; apply Ha; by left|intros; apply Ha; by right|done].
  - exfalso. clear -Hr. by induction ms.
  - exfalso. clear -Hr. by induction ms.
Qed.

Definition demo_world : world nat :=
  mkWorld (Some (mkThread 1234 77 unknown None 0)) Constructed CallCallback true unknown unknown (Some 5%nat) [] false.

Lemma demo_world_reached : reach 5%nat EmptyString 1234 demo_world.
Proof.
  apply (moves_reach _ _ _ (take 8 demo_moves) (start 5%nat EmptyString)); [apply reach_start| |vm_compute; reflexivity]. intros m v Hm.
  repeat (apply elem_of_cons in Hm as [->|Hm]; [done|]). by apply elem_of_nil in Hm.
Qed.

Lemma thread_handshake_witness : creator_at demo_world = Constructed /\ kernel_name demo_world = unknown /\ ran demo_world = [] /\
  is_ok (default (Ok demo_world) (act 1234 MDestroy demo_world)) = true.
Proof.
  destruct (thread_handshake _ _ _ demo_world demo_world_reached) as (H1 & H2 & H3 & _).
  split_and!; [reflexivity|exact (proj2 (proj2 (H2 eq_refl)))|exact H3|exact (H1 MDestroy _ I eq_refl)].
Defined.

Example demo_end : run_moves 1234 (demo_moves ++ [MRun]) (start 5%nat EmptyString) =
  Some (mkWorld None Constructed Finished true "io"%string unknown (Some 5%nat) [5%nat] true).
Proof. reflexivity. Qed.
