(* ===== verification/Socket.v ===== *)
(** * Sockets: [gudov/socket.h] and [gudov/socket.cpp]

    A [Socket] wraps a descriptor.  Opening, closing, registering and the timeouts go
    through the hooked calls and the table of descriptors of [Hook.v]; what else the
    system does with a socket is a parameter (class [Net]).  The calls run with hooks
    enabled. *)

From S2P Require Import Prelude Endian Address Timer Fiber Scheduler IOManager Hook.
From stdpp Require Import base numbers list gmap strings pretty.
From Stdlib Require Import ZArith Lia Strings.Byte.
Open Scope Z_scope.
Open Scope prog_scope.

Definition SOCK_STREAM : Z := 1.
Definition SOCK_DGRAM : Z := 2.
Definition SOL_SOCKET : Z := 1.
Definition SO_REUSEADDR : Z := 2.
Definition IPPROTO_TCP : Z := 6.
Definition TCP_NODELAY : Z := 1.
Definition TCP_ESTABLISHED : Z := 1.

(** ** The system's sockets *)

(** Calls on an open socket; none of them opens, closes or changes the flags of a
    descriptor.  [getsockname] and [getpeername] are the address the system writes into
    an address object of the socket's family, [None] when the call fails; the result of
    [tcp_state] and [so_error] is that of [getsockopt]. *)
Class Net (K : Type) `{System K} := {
  bindF : Z -> Address -> K -> Z * K;
  listenF : Z -> Z -> K -> Z * K;
  connectF : Z -> Address -> option Z -> K -> Z * K;
  setsockoptF : Z -> Z -> Z -> K -> Z * K;
  sendF : Z -> list (list byte) -> option Address -> Z -> K -> Z * K;
  recvF : Z -> list Z -> Z -> K -> Z * list byte * option Address * K;
  getsockname : K -> Z -> option Address;
  getpeername : K -> Z -> option Address;
  tcp_state : K -> Z -> option Z;
  so_error : K -> Z -> option Z;
  errno : K -> Z;
  open_range o k : -1 <= (openF o k).1;
  bind_keeps fd a k f : getfl (bindF fd a k).2 f = getfl k f;
  listen_keeps fd n k f : getfl (listenF fd n k).2 f = getfl k f;
  connect_keeps fd a t k f : getfl (connectF fd a t k).2 f = getfl k f;
  setsockopt_keeps fd l o k f : getfl (setsockoptF fd l o k).2 f = getfl k f }.

Record Socket := mkSocket {
  sock_ : Z;
  family_ : Z;
  type_ : Z;
  protocol_ : Z;
  is_connected_ : bool;
  local_address_ : option Address;
  remote_address_ : option Address }.

Definition new_Socket (family type protocol : Z) : Socket := mkSocket (-1) family type protocol false None None.

Definition IsValid (s : Socket) : bool := negb (sock_ s =? -1).

Definition set_sock (fd : Z) (s : Socket) : Socket := mkSocket fd (family_ s) (type_ s) (protocol_ s) (is_connected_ s) (local_address_ s) (remote_address_ s).
Definition set_connected (b : bool) (s : Socket) : Socket := mkSocket (sock_ s) (family_ s) (type_ s) (protocol_ s) b (local_address_ s) (remote_address_ s).
Definition set_local (a : option Address) (s : Socket) : Socket := mkSocket (sock_ s) (family_ s) (type_ s) (protocol_ s) (is_connected_ s) a (remote_address_ s).
Definition set_remote (a : option Address) (s : Socket) : Socket := mkSocket (sock_ s) (family_ s) (type_ s) (protocol_ s) (is_connected_ s) (local_address_ s) a.

Section Sockets.
Context `{HH : Host} {K E : Type} {SK : System K} {NK : Net K} {EE : Epoll E}.
Abbreviation scmd A := (prog (Socket * Process K E) A).

Definition get_sock : scmd Socket := gets fst.
Definition upd (f : Socket -> Socket) : scmd unit := modify (fun '(s, p) => (f s, p)).

(** A call of the hooked library or of the system. *)
Definition call {A} (c : prog (Process K E) A) : scmd A := fun '(s, p) => let '(r, p') := c p in (r, (s, p')).
Definition sys_call {A} (f : K -> A * K) : scmd A :=
  call (on_fdm (fun m => let '(a, k) := f (sys m) in (Ok a, set_sys k m))).
Definition the_system : scmd K := gets (fun '(_, p) => sys (fdm p)).

(** ** Options and timeouts *)

(** [SetOption]: whether [setsockopt] succeeded. *)
Definition SetOption (level option : Z) : scmd bool :=
  let* s := get_sock in let* rt := sys_call (setsockoptF (sock_ s) level option) in ret (rt =? 0).

(** [SetOption] of a [timeval], which the hook notes before it calls the system. *)
Definition SetOption_timeval (option tv_sec tv_usec : Z) : scmd bool :=
  let* s := get_sock in
  call (on_fdm (setsockopt_timeo (sock_ s) option tv_sec tv_usec)) ;;
  SetOption SOL_SOCKET option.

(** [timeval{int(v / 1000), int(v % 1000 * 1000)}] *)
Definition timeval_of (v : Z) : Z * Z := (s32 (Z.quot v 1000), s32 (Z.rem v 1000 * 1000)).

Definition SetTimeout_of (option v : Z) : scmd unit :=
  let '(sec, usec) := timeval_of v in let* _ := SetOption_timeval option sec usec in ret tt.

Definition SetSendTimeout (v : Z) : scmd unit := SetTimeout_of SO_SNDTIMEO v.
Definition SetRecvTimeout (v : Z) : scmd unit := SetTimeout_of SO_RCVTIMEO v.

Definition GetTimeout_of (option : Z) : scmd Z :=
  let* s := get_sock in
  let* ctx := call (on_fdm (Get (sock_ s) false)) in
  match ctx with
  | Some p => let* c := call (on_fdm (ctx_of p)) in ret (s64 (GetTimeout option c))
  | None => ret (-1)
  end.

Definition GetSendTimeout : scmd Z := GetTimeout_of SO_SNDTIMEO.
Definition GetRecvTimeout : scmd Z := GetTimeout_of SO_RCVTIMEO.

(** [GetError] *)
Definition GetError : scmd Z :=
  let* s := get_sock in let* k := the_system in ret (match so_error k (sock_ s) with Some e => e | None => errno k end).

(** [CheckConnected]: when [getsockopt] fails, what is read is not initialised. *)
Definition CheckConnected : scmd bool :=
  let* s := get_sock in
  let* k := the_system in
  match tcp_state k (sock_ s) with
  | Some st => upd (set_connected (st =? TCP_ESTABLISHED)) ;; ret (st =? TCP_ESTABLISHED)
  | None => fail undefined
  end.

(** ** Addresses *)

(** [GetRemoteAddress] and [GetLocalAddress]: an address that has been found is kept. *)
Definition GetRemoteAddress : scmd Address :=
  let* s := get_sock in
  match remote_address_ s with
  | Some a => ret a
  | None =>
      let* k := the_system in
      match getpeername k (sock_ s) with
      | None => ret (new_UnknownAddress (family_ s))
      | Some a => upd (set_remote (Some a)) ;; ret a
      end
  end.

Definition GetLocalAddress : scmd Address :=
  let* s := get_sock in
  match local_address_ s with
  | Some a => ret a
  | None =>
      let* k := the_system in
      match getsockname k (sock_ s) with
      | None => ret (new_UnknownAddress (family_ s))
      | Some a => upd (set_local (Some a)) ;; ret a
      end
  end.

(** ** Opening and closing *)

Definition InitSock : scmd unit :=
  let* _ := SetOption SOL_SOCKET SO_REUSEADDR in
  let* s := get_sock in
  if type_ s =? SOCK_STREAM then let* _ := SetOption IPPROTO_TCP TCP_NODELAY in ret tt else ret tt.

Definition NewSock : scmd unit :=
  let* fd := call (on_fdm socket) in
  upd (set_sock fd) ;;
  if negb (fd =? -1) then InitSock else ret tt.

(** [Init(sock)], for a descriptor that [accept] returned. *)
Definition Init (fd : Z) : scmd bool :=
  let* ctx := call (on_fdm (socket_ctx fd)) in
  match ctx with
  | None => ret false
  | Some _ =>
      upd (set_sock fd) ;; upd (set_connected true) ;; InitSock ;;
      let* _ := GetLocalAddress in let* _ := GetRemoteAddress in ret true
  end.

Definition Close : scmd bool :=
  let* s := get_sock in
  if negb (is_connected_ s) && (sock_ s =? -1) then ret true
  else
    upd (set_connected false) ;;
    (if negb (sock_ s =? -1) then call (close (sock_ s)) ;; upd (set_sock (-1)) else ret tt) ;;
    ret false.

(** [if (!IsValid()) { NewSock(); if (!IsValid()) return false; }] *)
Definition make_valid : scmd bool :=
  let* s := get_sock in
  if IsValid s then ret true else NewSock ;; let* s := get_sock in ret (IsValid s).

Definition Bind (addr : Address) : scmd bool :=
  let* ok := make_valid in
  if negb ok then ret false
  else
    let* s := get_sock in
    if negb (GetFamily addr =? family_ s) then ret false
    else
      let* rt := sys_call (bindF (sock_ s) addr) in
      if negb (rt =? 0) then ret false else let* _ := GetLocalAddress in ret true.

(** [connect] without a timeout is the hooked call with the configured one. *)
Definition Connect (addr : Address) (timeoutMs : Z) : scmd bool :=
  let* ok := make_valid in
  if negb ok then ret false
  else
    let* s := get_sock in
    if negb (GetFamily addr =? family_ s) then ret false
    else
      let* rt := sys_call (connectF (sock_ s) addr (if timeoutMs =? max64 then None else Some timeoutMs)) in
      if negb (rt =? 0) then let* _ := Close in ret false
      else
        upd (set_connected true) ;;
        let* _ := GetRemoteAddress in let* _ := GetLocalAddress in ret true.

Definition Listen (backLog : Z) : scmd bool :=
  let* s := get_sock in
  if negb (IsValid s) then ret false
  else let* rt := sys_call (listenF (sock_ s) backLog) in ret (rt =? 0).

(** [Accept]: the new socket, if there is one; [::accept] waits in the hook, and fails for
    a socket without a descriptor. *)
Definition Accept : scmd (option Socket) :=
  let* s := get_sock in
  let* new_sock := if IsValid s then call (on_fdm accept_tail) else ret (-1) in
  if new_sock =? -1 then ret None
  else fun '(_, p) =>
    match Init new_sock (new_Socket (family_ s) (type_ s) (protocol_ s), p) with
    | (Ok true, (sock, p)) => (Ok (Some sock), (s, p))
    | (Ok false, (_, p)) => (Ok None, (s, p))
    | (Fail e, (_, p)) => (Fail e, (s, p))
    end.

(** ** Sending and receiving *)

(** [Send] and [SendTo]: one buffer is a list of one; the result is an [int]. *)
Definition SendTo_iov (buffers : list (list byte)) (to : option Address) (flags : Z) : scmd Z :=
  let* s := get_sock in
  if is_connected_ s then let* rt := sys_call (sendF (sock_ s) buffers to flags) in ret (s32 rt) else ret (-1).

Definition Send (buffer : list byte) (flags : Z) : scmd Z := SendTo_iov [buffer] None flags.
Definition Send_iov (buffers : list (list byte)) (flags : Z) : scmd Z := SendTo_iov buffers None flags.
Definition SendTo (buffer : list byte) (to : Address) (flags : Z) : scmd Z := SendTo_iov [buffer] (Some to) flags.

(** [Recv] and [RecvFrom] into areas of the given sizes: the result, the bytes, and who
    sent them. *)
Definition RecvFrom_iov (sizes : list Z) (flags : Z) : scmd (Z * list byte * option Address) :=
  let* s := get_sock in
  if is_connected_ s then
    let* r := sys_call (fun k => let '(rt, bs, from, k) := recvF (sock_ s) sizes flags k in ((rt, bs, from), k)) in
    let '(rt, bs, from) := r in ret (s32 rt, bs, from)
  else ret (-1, [], None).

Definition Recv (length flags : Z) : scmd (Z * list byte) :=
  let* r := RecvFrom_iov [length] flags in ret (r.1.1, r.1.2).

(** ** Cancelling *)

(** [IOManager::GetThis()->...] *)
Definition on_iom {A} (c : prog (IOManager E) A) : scmd A :=
  fun '(s, p) => match iom p with
                 | None => (Fail null_deref, (s, p))
                 | Some io => let '(r, io') := c io in (r, (s, mkProcess (fdm p) (Some io')))
                 end.

Definition CancelRead : scmd bool := let* s := get_sock in on_iom (CancelEvent (sock_ s) READ).
Definition CancelWrite : scmd bool := let* s := get_sock in on_iom (CancelEvent (sock_ s) WRITE).
Definition CancelAccept : scmd bool := let* s := get_sock in on_iom (CancelEvent (sock_ s) READ).
Definition CancelAll : scmd bool := let* s := get_sock in on_iom (IOManager.CancelAll (sock_ s)).

(** ** Making sockets *)

Definition CreateTCP (address : Address) : Socket := new_Socket (GetFamily address) SOCK_STREAM 0.
Definition CreateTCPSocket : Socket := new_Socket AF_INET SOCK_STREAM 0.
Definition CreateTCPSocket6 : Socket := new_Socket AF_INET6 SOCK_STREAM 0.
Definition CreateUnixTCPSocket : Socket := new_Socket AF_UNIX SOCK_STREAM 0.
Definition CreateUnixUDPSocket : Socket := new_Socket AF_UNIX SOCK_DGRAM 0.

(** A datagram socket of a family; [sock] before the calls is [new Socket(family, UDP, 0)]. *)
Definition open_udp : scmd unit := NewSock ;; upd (set_connected true).

(** ** Printing *)

Definition bit (b : bool) : string := if b then "1" else "0".

Definition Dump (s : Socket) : string :=
  "[Socket sock=" +:+ pretty (sock_ s) +:+ " is_connected=" +:+ bit (is_connected_ s) +:+ " family=" +:+ pretty (family_ s) +:+
  " type=" +:+ pretty (type_ s) +:+ " protocol=" +:+ pretty (protocol_ s) +:+
  match local_address_ s with Some a => " local_address=" +:+ Address.ToString a | None => EmptyString end +:+
  match remote_address_ s with Some a => " remote_address=" +:+ Address.ToString a | None => EmptyString end +:+ "]".

(** ** Descriptors and their owners *)

(** The descriptors open in the system are those of [base], which are not ours, and the
    ones in [D], which are registered sockets; the thread has an [IOManager] if [io] says
    so, and its pipe is not ours. *)
Definition proc_ok (io : bool) (base D : gset Z) (p : Process K E) : Prop :=
  exists v, shows (fdm p) v /\ dom v = D /\
    (forall fd, is_Some (getfl (sys (fdm p)) fd) <-> fd ∈ base \/ fd ∈ D) /\ base ## D /\ (forall fd, fd ∈ D -> 0 <= fd) /\
    match iom p with Some m => io = true /\ io_inv m /\ tickle_fd m ∈ base | None => io = false end.

Lemma managed_open m v fd : shows m v -> fd ∈ dom v -> is_Some (getfl (sys m) fd) /\ is_Some (ptr m fd).
Proof.
  intros [Hi Hv] Hd. apply elem_of_dom in Hd as [b Hb]. rewrite Hv in Hb. unfold managed in Hb.
  destruct (ptr m fd) as [q|] eqn:Eq; [|done]. split; [|done].
  destruct (fdi_ctx _ Hi _ _ Eq) as (c & _ & _ & _ & _ & Hn). by destruct (getfl (sys m) fd).
Qed.

Lemma shows_set_sys m v k : shows m v -> (forall fd, getfl k fd = getfl (sys m) fd) -> shows (set_sys k m) v.
Proof.
  intros [Hi Hv] Hk. split; [|done]. apply (set_sys_ok 0); [done| |done]. intros [q Hq].
  destruct (fdi_ctx _ Hi _ _ Hq) as (c & _ & _ & _ & _ & Hn). by rewrite Hk.
Qed.

(** A call that opens nothing and closes nothing. *)
Lemma same_proc io base D p p' v' : proc_ok io base D p -> iom p' = iom p -> shows (fdm p') v' -> dom v' = D ->
  (forall fd, getfl (sys (fdm p')) fd = getfl (sys (fdm p)) fd) -> proc_ok io base D p'.
Proof.
  intros (v & Hs & Hd & Ho & Hb & Hr & Hio) Hi Hs' Hd' Hg. exists v'. split_and!; try done; [|by rewrite Hi].
  intros fd. rewrite Hg. apply Ho.
Qed.

(** Opening a socket. *)
Lemma opened io base D p o fd k : proc_ok io base D p -> openF o (sys (fdm p)) = (fd, k) -> 0 <= fd ->
  exists q m', Get fd true (set_sys k (fdm p)) = (Ok q, m') /\ fd ∉ D /\ fd ∉ base /\ proc_ok io base ({[fd]} ∪ D) (mkProcess m' (iom p)).
Proof.
  intros (v & Hs & Hd & Ho & Hb & Hr & Hio) Hop Hfd. destruct (open_ok _ _ _ _ _ Hs Hop Hfd) as (m' & Eg & Hs' & _).
  destruct (open_new _ _ _ _ Hop Hfd) as [Hn Hsk]. assert (fd ∉ D /\ fd ∉ base) as [H1 H2].
  { split; intros Hin; by destruct (proj2 (Ho fd) ltac:(auto)) as [x Hx]; rewrite Hn in Hx. }
  eexists _, m'. split_and!; [done..|]. exists (<[fd := false]> v). split_and!; [done|by rewrite dom_insert_L, Hd| |set_solver|set_solver|done].
  intros f. cbn [fdm]. destruct (decide (f = fd)) as [->|Hf].
  - split; [set_solver|]. intros _. apply (managed_open _ _ _ Hs'). set_solver.
  - assert (getfl (sys m') f = getfl (sys (fdm p)) f) as ->; [|rewrite Ho; set_solver].
    destruct Hs as [Hi Hv]. assert (ptr (fdm p) fd = None) as Hp.
    { destruct (ptr (fdm p) fd) as [q|] eqn:Hp; [|done]. destruct (fdi_ctx _ Hi _ _ Hp) as (c & _ & _ & _ & _ & Hc). by rewrite Hn in Hc. }
    assert (fd_inv (set_sys k (fdm p))) as Hi1.
    { apply (set_sys_ok fd); [done|rewrite Hp; by intros []|]. intros fd' Hd'. by apply (open_other _ _ _ _ fd' Hop). }
    destruct (Get_create_ok fd (set_sys k (fdm p)) Hi1 Hfd Hsk Hp) as (m2 & E2 & _ & _ & Hsb). rewrite E2 in Eg. injection Eg as <-.
    destruct (Hsb f ltac:(done)) as [_ ->]. by apply (open_other _ _ _ _ f Hop).
Qed.

Lemma open_negative io base D p o fd k : proc_ok io base D p -> openF o (sys (fdm p)) = (fd, k) -> fd < 0 -> fd = -1 /\ set_sys k (fdm p) = fdm p.
Proof.
  intros _ Hop Hfd. pose proof (open_range o (sys (fdm p))) as Hr. rewrite Hop in Hr. cbn in Hr. split; [lia|].
  rewrite (open_fails _ _ _ _ Hop Hfd). by destruct (fdm p).
Qed.

(** What [socket] and [accept] do to the table. *)
Definition opens (io : bool) (base D : gset Z) (p : Process K E) (c : prog (FdManager K) Z) : Prop :=
  exists fd p', on_fdm c p = (Ok fd, p') /\
    (fd = -1 /\ proc_ok io base D p' \/ 0 <= fd /\ fd ∉ D /\ fd ∉ base /\ proc_ok io base ({[fd]} ∪ D) p').

Lemma socket_opens io base D p : proc_ok io base D p -> opens io base D p socket.
Proof.
  intros Hp. destruct (openF By_socket (sys (fdm p))) as [fd k] eqn:Ho. unfold opens, on_fdm, socket, bind, gets, modify, id.
  destruct (Z.leb_spec 0 fd) as [Hfd|Hfd].
  - destruct (opened _ _ _ _ _ _ _ Hp Ho Hfd) as (q & m' & Eg & H1 & H2 & H3). exists fd, (mkProcess m' (iom p)). split; [|by right].
    rewrite Ho. destruct (Z.eqb_spec fd (-1)); [lia|]. by rewrite Eg.
  - destruct (open_negative _ _ _ _ _ _ _ Hp Ho Hfd) as [-> Hk]. exists (-1), p. split; [|by left]. rewrite Ho, Hk. by destruct p.
Qed.

Lemma accept_opens io base D p : proc_ok io base D p -> opens io base D p accept_tail.
Proof.
  intros Hp. destruct (openF By_accept (sys (fdm p))) as [fd k] eqn:Ho. unfold opens, on_fdm, accept_tail, bind, gets, modify, id.
  destruct (Z.leb_spec 0 fd) as [Hfd|Hfd].
  - destruct (opened _ _ _ _ _ _ _ Hp Ho Hfd) as (q & m' & Eg & H1 & H2 & H3). exists fd, (mkProcess m' (iom p)). split; [|by right].
    rewrite Ho. destruct (Z.leb_spec 0 fd); [|lia]. by rewrite Eg.
  - destruct (open_negative _ _ _ _ _ _ _ Hp Ho Hfd) as [-> Hk]. exists (-1), p. split; [|by left]. rewrite Ho, Hk. by destruct p.
Qed.

(** Closing a descriptor of ours, whatever waits for it. *)
Lemma close_closes io base D p fd : proc_ok io base D p -> fd ∈ D -> exists p', close fd p = (Ok tt, p') /\ proc_ok io base (D ∖ {[fd]}) p'.
Proof.
  intros (v & Hs & Hd & Ho & Hb & Hr & Hio) Hfd. assert (fd ∈ dom v) as Hdom by (by rewrite Hd).
  destruct (managed_open _ _ _ Hs Hdom) as [_ [q Hq]].
  assert (exists i', cancel_events fd p = (Ok tt, mkProcess (fdm p) i') /\ match i' with Some m => io = true /\ io_inv m /\ tickle_fd m ∈ base | None => io = false end) as (io' & Ec & Hio').
  { unfold cancel_events. destruct p as [m [i|]]; cbn [fdm iom] in *; [|by exists None]. destruct Hio as (He & Hi & Ht).
    destruct (CancelAll_ok i fd Hi (Hr _ Hfd)) as (r & i' & Ec & Hi' & (_ & _ & Ht' & _) & _); [set_solver|]. rewrite Ec. exists (Some i'). by rewrite Ht'. }
  destruct (close_tail_ok fd (fdm p) v Hs) as (m1 & m2 & E1 & -> & Hs2 & _). rewrite Hq in E1.
  assert (sys m1 = sys (fdm p)) as Hsys by (unfold Del, modify in E1; injection E1 as <-; by destruct (fd <? 0)).
  exists (mkProcess (set_sys (closeF fd (sys m1)) m1) io'). split.
  - unfold close, bind, on_fdm. rewrite Get_ok, Hq. destruct p as [m i]; cbn [fdm iom] in *. rewrite Ec. cbn [fdm iom]. by rewrite E1.
  - exists (delete fd v). cbn [fdm iom]. split_and!; [done|by rewrite dom_delete_L, Hd| |set_solver|set_solver|done].
    intros f. cbn [sys set_sys]. destruct (decide (f = fd)) as [->|Hf].
    + rewrite close_gone. split; [by intros []|]. intros [?|?]; [set_solver|set_solver].
    + rewrite close_other by done. rewrite Hsys, Ho. set_solver.
Qed.

Lemma ctx_found io base D p fd : proc_ok io base D p -> fd ∈ D -> exists q, on_fdm (socket_ctx fd) p = (Ok (Some q), p).
Proof.
  intros (v & Hs & Hd & _) Hfd. assert (fd ∈ dom v) as Hdom by (by rewrite Hd). destruct (managed_open _ _ _ Hs Hdom) as [_ [q Hq]].
  exists q. unfold on_fdm. destruct Hs as [Hi _]. rewrite (socket_ctx_ok fd (fdm p) Hi), Hq. by destruct p.
Qed.

(** The descriptor a socket owns, beside those of other sockets in [D]. *)
Definition own (s : Socket) : gset Z := if sock_ s =? -1 then ∅ else {[sock_ s]}.

Definition sock_ok (io : bool) (base D : gset Z) (st : Socket * Process K E) : Prop := own st.1 ## D /\ proc_ok io base (own st.1 ∪ D) st.2.

(** A call that returns, with the socket still the owner of its descriptor. *)
Definition keeps {A} (c : scmd A) : Prop :=
  forall io base D st, sock_ok io base D st -> runs c st (fun _ st' => sock_ok io base D st') (fun _ _ => False).

Lemma keeps_bind {A B} (m : scmd A) (k : A -> scmd B) : keeps m -> (forall a, keeps (k a)) -> keeps (bind m k).
Proof. intros Hm Hk io base D st Hst. apply runs_bind. eapply runs_weaken; [by apply Hm|intros a st'; apply Hk|done]. Qed.

Lemma keeps_ret {A} (a : A) : keeps (ret a).
Proof. by intros io base D st Hst. Qed.

Lemma keeps_gets {A} (f : Socket * Process K E -> A) : keeps (gets f).
Proof. by intros io base D st Hst. Qed.

Lemma keeps_upd f : (forall s, sock_ (f s) = sock_ s) -> keeps (upd f).
Proof. intros Hf io base D [s p] [H1 H2]. split; cbn in *; unfold own in *; by rewrite Hf. Qed.

Lemma keeps_sys_call {A} (f : K -> A * K) : (forall k fd, getfl (f k).2 fd = getfl k fd) -> keeps (sys_call f).
Proof.
  intros Hf io base D [s p] [H1 H2]. unfold runs, sys_call, call, on_fdm. specialize (Hf (sys (fdm p))). destruct (f (sys (fdm p))) as [a k]. split; [done|].
  pose proof H2 as (v & Hs & Hd & _). apply (same_proc _ _ _ p _ v); try done. by apply shows_set_sys.
Qed.

Lemma keeps_timeo fd opt sec usec : keeps (call (on_fdm (setsockopt_timeo fd opt sec usec))).
Proof.
  intros io base D [s p] [H1 H2]. pose proof H2 as (v & Hs & Hd & _). destruct (setsockopt_timeo_ok fd opt sec usec (fdm p) v Hs) as (m' & E1 & Hs' & _).
  unfold runs, call, on_fdm. rewrite E1. split; [done|]. apply (same_proc _ _ _ p _ v); try done. intros f. cbn.
  unfold setsockopt_timeo in E1. destruct (_ || _); [|by injection E1 as <-]. unfold bind in E1. rewrite Get_ok in E1.
  destruct (ptr (fdm p) fd); by injection E1 as <-.
Qed.

Lemma keeps_if {A} (b : bool) (c d : scmd A) : keeps c -> keeps d -> keeps (if b then c else d).
Proof. by destruct b. Qed.
(** ** What a call does to the socket object *)

(** The object before and after a call is related by [R]. *)
Definition respects {A} (R : Socket -> Socket -> Prop) (c : scmd A) : Prop := forall st, R st.1 (c st).2.1.

Section Respects.
Context (R : Socket -> Socket -> Prop) `{PreOrder Socket R}.

Lemma respects_bind {A B} (m : scmd A) (k : A -> scmd B) : respects R m -> (forall x, respects R (k x)) -> respects R (bind m k).
Proof. intros Hm Hk st. unfold bind. specialize (Hm st). destruct (m st) as [[x|e] st']; [|done]. etrans; [exact Hm|apply Hk]. Qed.

Lemma respects_call {A} (c : prog (Process K E) A) : respects R (call c).
Proof. intros [s p]. unfold call. by destruct (c p). Qed.

Lemma respects_gets {A} (f : Socket * Process K E -> A) : respects R (gets f).
Proof. by intros st. Qed.

Lemma respects_ret {A} (x : A) : respects R (ret x).
Proof. by intros st. Qed.

Lemma respects_if {A} (b : bool) (c d : scmd A) : respects R c -> respects R d -> respects R (if b then c else d).
Proof. by destruct b. Qed.

Lemma respects_upd f : (forall s, R s (f s)) -> respects R (upd f).
Proof. intros Hf [s p]. apply Hf. Qed.
End Respects.
End Sockets.

Create HintDb socket.
#[export] Hint Resolve keeps_bind keeps_ret keeps_gets keeps_timeo keeps_if : socket.
#[export] Hint Extern 1 (keeps (upd _)) => apply keeps_upd; reflexivity : socket.
#[export] Hint Extern 1 (keeps (sys_call (setsockoptF _ _ _))) => apply keeps_sys_call; intros; apply setsockopt_keeps : socket.
#[export] Hint Extern 1 (keeps (sys_call (bindF _ _))) => apply keeps_sys_call; intros; apply bind_keeps : socket.
#[export] Hint Extern 1 (keeps (sys_call (listenF _ _))) => apply keeps_sys_call; intros; apply listen_keeps : socket.
#[export] Hint Extern 1 (keeps (sys_call (connectF _ _ _))) => apply keeps_sys_call; intros; apply connect_keeps : socket.
#[export] Hint Extern 2 (keeps (match ?x with Some _ => _ | None => _ end)) => destruct x : socket.

Create HintDb respects.
#[export] Hint Extern 0 (PreOrder _) => apply _ : respects.
#[export] Hint Resolve respects_bind respects_call respects_gets respects_ret respects_if : respects.
#[export] Hint Extern 1 (respects _ (upd _)) => apply respects_upd; intros; first [done | by split | by intros ?] : respects.
#[export] Hint Extern 2 (respects _ (match ?x with Some _ => _ | None => _ end)) => destruct x : respects.

Section Owners.
Context `{HH : Host} {K E : Type} {SK : System K} {NK : Net K} {EE : Epoll E}.
Abbreviation scmd A := (prog (Socket * Process K E) A).

Lemma SetOption_keeps level option : keeps (E := E) (SetOption level option).
Proof. unfold SetOption, get_sock. eauto 6 with socket. Qed.

Lemma SetTimeout_keeps option v : keeps (E := E) (SetTimeout_of option v).
Proof. unfold SetTimeout_of, SetOption_timeval, timeval_of, get_sock. eauto 10 using SetOption_keeps with socket. Qed.

Lemma GetLocalAddress_keeps : keeps (E := E) GetLocalAddress.
Proof. unfold GetLocalAddress, get_sock, the_system. eauto 8 with socket. Qed.

Lemma GetRemoteAddress_keeps : keeps (E := E) GetRemoteAddress.
Proof. unfold GetRemoteAddress, get_sock, the_system. eauto 8 with socket. Qed.

Lemma InitSock_keeps : keeps (E := E) InitSock.
Proof. unfold InitSock, get_sock. eauto 8 using SetOption_keeps with socket. Qed.

Lemma Listen_keeps n : keeps (E := E) (Listen n).
Proof. unfold Listen, get_sock. eauto 8 with socket. Qed.

(** Calls that leave the descriptor and the connection as they are. *)
Definition same_conn (s s' : Socket) : Prop := sock_ s' = sock_ s /\ is_connected_ s' = is_connected_ s.

#[local] Instance same_conn_preorder : PreOrder same_conn.
Proof. split; [done|]. intros x y z [H1 H2] [H3 H4]. split; congruence. Qed.

Lemma conn_local : respects (E := E) same_conn GetLocalAddress.
Proof. unfold GetLocalAddress, get_sock, the_system. eauto 20 with respects. Qed.

Lemma conn_remote : respects (E := E) same_conn GetRemoteAddress.
Proof. unfold GetRemoteAddress, get_sock, the_system. eauto 20 with respects. Qed.

Lemma conn_init : respects (E := E) same_conn InitSock.
Proof. unfold InitSock, SetOption, sys_call, get_sock. auto 20 with respects. Qed.

Lemma conn_listen n : respects (E := E) same_conn (Listen n).
Proof. unfold Listen, sys_call, get_sock. auto 20 with respects. Qed.

Lemma conn_timeout option v : respects (E := E) same_conn (SetTimeout_of option v).
Proof. unfold SetTimeout_of, SetOption_timeval, SetOption, sys_call, timeval_of, get_sock. auto 20 with respects. Qed.

(** A call that keeps the owner and what [R] says. *)
Lemma keeps_respects {A} R (c : scmd A) io base D st : keeps c -> respects R c -> sock_ok io base D st ->
  runs c st (fun _ st' => sock_ok io base D st' /\ R st.1 st'.1) (fun _ _ => False).
Proof. intros Hk Hr Hst. specialize (Hk io base D st Hst). specialize (Hr st). unfold runs in *. by destruct (c st) as [[]]. Qed.

Lemma own_invalid s : sock_ s = -1 -> own s = ∅.
Proof. unfold own. by intros ->. Qed.

Lemma own_valid s fd : 0 <= fd -> own (set_sock fd s) = {[fd]}.
Proof. unfold own. cbn. intros Hfd. by destruct (Z.eqb_spec fd (-1)); [lia|]. Qed.

(** A socket without a descriptor gets one, or stays as it is. *)
Lemma NewSock_ok io base D s p : sock_ s = -1 -> sock_ok io base D (s, p) ->
  runs NewSock (s, p) (fun _ st => sock_ok io base D st) (fun _ _ => False).
Proof.
  intros Hs [_ Hp]. cbn in Hp. rewrite (own_invalid s Hs), union_empty_l_L in Hp.
  destruct (socket_opens io base D p Hp) as (fd & p' & Eo & Hc). unfold NewSock. apply runs_bind. eapply runs_ok; [unfold call; by rewrite Eo|].
  apply runs_bind, runs_modify. destruct Hc as [[-> Hp']|(Hfd & HD & Hb & Hp')].
  - apply runs_ret. split; cbn [fst snd]; rewrite own_invalid by done; [set_solver|by rewrite union_empty_l_L].
  - destruct (Z.eqb_spec fd (-1)); [lia|]. apply InitSock_keeps. split; cbn [fst snd]; rewrite own_valid by done; [set_solver|done].
Qed.

Lemma make_valid_keeps : keeps (E := E) make_valid.
Proof.
  intros io base D [s p] Hst. unfold make_valid, get_sock. apply runs_bind. eapply runs_ok; [done|]. cbn [fst]. unfold IsValid. destruct (Z.eqb_spec (sock_ s) (-1)) as [Hs|Hs]; cbn [negb].
  - apply runs_bind. eapply runs_weaken; [by apply NewSock_ok|intros ? st Hst'; exact Hst'|done].
  - by apply runs_ret.
Qed.

(** Closing gives the descriptor back. *)
Lemma Close_ok io base D st : sock_ok io base D st ->
  runs Close st (fun r st' => sock_ok io base D st' /\ sock_ st'.1 = -1 /\ is_connected_ st'.1 = false) (fun _ _ => False).
Proof.
  destruct st as [s p]. intros [HD Hp]. cbn in HD, Hp. unfold Close, get_sock. apply runs_bind. eapply runs_ok; [done|]. cbn [fst].
  destruct (Z.eqb_spec (sock_ s) (-1)) as [Hs|Hs]; destruct (is_connected_ s) eqn:Hc; cbn [negb andb]; try (by apply runs_ret);
    apply runs_bind, runs_modify; apply runs_bind.
  { apply runs_ret. split_and!; [|done|done]. split; [done|done]. }
  all: apply runs_bind; destruct (close_closes _ _ _ _ (sock_ s) Hp) as (p' & Ec & Hp'); [unfold own; destruct (Z.eqb_spec (sock_ s) (-1)); [done|set_solver]|].
  all: eapply runs_ok; [unfold call; by rewrite Ec|]; apply runs_modify, runs_ret; split_and!; [|done|done]; split; cbn [fst snd]; rewrite own_invalid by done; [set_solver|].
  all: unfold own in *; destruct (Z.eqb_spec (sock_ s) (-1)); [done|]; by replace (∅ ∪ D) with (({[sock_ s]} ∪ D) ∖ {[sock_ s]}) by set_solver.
Qed.

Lemma Close_keeps : keeps (E := E) Close.
Proof. intros io base D st Hst. eapply runs_weaken; [by apply Close_ok|by intros ? ? [? _]|done]. Qed.

Lemma Bind_keeps addr : keeps (E := E) (Bind addr).
Proof. unfold Bind, get_sock. eauto 12 using make_valid_keeps, GetLocalAddress_keeps with socket. Qed.

(** [Bind] succeeds on a socket that has a descriptor. *)
Lemma make_valid_true (st st' : Socket * Process K E) b : make_valid st = (Ok b, st') -> IsValid st'.1 = b.
Proof.
  unfold make_valid, get_sock, bind, gets. cbn. destruct (IsValid st.1) eqn:Hv; [intros [= <- <-]; done|].
  destruct (NewSock st) as [[[]|] st1]; [|done]. by intros [= <- <-].
Qed.

Lemma Bind_valid addr (st st' : Socket * Process K E) : Bind addr st = (Ok true, st') -> IsValid st'.1 = true.
Proof.
  unfold Bind. intros (b & st1 & H1 & H2)%bind_ok_inv. apply make_valid_true in H1. destruct b; [|done]. cbn [negb] in H2.
  assert (same_conn st1.1 st'.1) as [Hs _]; [|unfold IsValid in *; by rewrite Hs].
  assert (respects (E := E) same_conn (let* s := get_sock in if negb (GetFamily addr =? family_ s) then ret false
    else let* rt := sys_call (bindF (sock_ s) addr) in if negb (rt =? 0) then ret false else let* _ := GetLocalAddress in ret true)) as Hr.
  { unfold get_sock, sys_call. auto 20 using conn_local with respects. }
  specialize (Hr st1). by rewrite H2 in Hr.
Qed.

Lemma Connect_keeps addr t : keeps (E := E) (Connect addr t).
Proof. unfold Connect, get_sock. eauto 14 using make_valid_keeps, GetLocalAddress_keeps, GetRemoteAddress_keeps, Close_keeps with socket. Qed.

Lemma open_udp_ok io base D s p : sock_ s = -1 -> sock_ok io base D (s, p) -> runs open_udp (s, p) (fun _ st => sock_ok io base D st) (fun _ _ => False).
Proof. intros Hs Hst. unfold open_udp. apply runs_bind. eapply runs_weaken; [by apply NewSock_ok| |done]. intros ? st Hst'. by apply keeps_upd. Qed.

(** [accept] gives the new socket a descriptor of its own. *)
Lemma Accept_ok io base D s p : sock_ok io base D (s, p) ->
  runs Accept (s, p) (fun r st => st.1 = s /\ match r with Some c => sock_ok io base (own s ∪ D) (c, st.2) /\ IsValid c = true /\ is_connected_ c = true | None => sock_ok io base D st end) (fun _ _ => False).
Proof.
  intros [HD Hp]. cbn in HD, Hp. destruct (accept_opens io base _ p Hp) as (fd & p' & Eo & Hc). unfold Accept, get_sock. apply runs_bind. eapply runs_ok; [done|].
  cbn [fst]. destruct (IsValid s); [|by apply runs_bind, runs_ret, runs_ret]. apply runs_bind. eapply runs_ok; [unfold call; by rewrite Eo|]. destruct Hc as [[-> Hp']|(Hfd & HfD & Hb & Hp')]; [apply runs_ret; by split|].
  destruct (Z.eqb_spec fd (-1)); [lia|]. cbn [fst].
  set (c0 := set_connected true (set_sock fd (new_Socket (family_ s) (type_ s) (protocol_ s)))).
  assert (runs (Init fd) (new_Socket (family_ s) (type_ s) (protocol_ s), p') (fun r st => r = true /\ sock_ok io base (own s ∪ D) st /\ same_conn c0 st.1) (fun _ _ => False)) as Hi.
  { unfold Init. destruct (ctx_found _ _ _ _ fd Hp' ltac:(set_solver)) as [q Eq]. apply runs_bind. eapply runs_ok; [unfold call; by rewrite Eq|].
    apply runs_bind, runs_modify, runs_bind, runs_modify, runs_bind. fold c0.
    assert (sock_ok io base (own s ∪ D) (c0, p')) as H0 by (split; cbn; unfold own at 1; cbn; (destruct (Z.eqb_spec fd (-1)); [lia|]); [set_solver|exact Hp']).
    eapply runs_weaken; [apply (keeps_respects same_conn _ io base (own s ∪ D) (c0, p') InitSock_keeps conn_init H0)| |done].
    intros ? st [Hst C1]. apply runs_bind. eapply runs_weaken; [apply (keeps_respects same_conn _ io base (own s ∪ D) st GetLocalAddress_keeps conn_local Hst)| |done].
    intros ? st' [Hst' C2]. apply runs_bind. eapply runs_weaken; [apply (keeps_respects same_conn _ io base (own s ∪ D) st' GetRemoteAddress_keeps conn_remote Hst')| |done].
    intros ? st2 [Hst2 C3]. apply runs_ret. split_and!; [done|done|]. cbn in C1. etrans; [exact C1|]. etrans; [exact C2|exact C3]. }
  unfold runs in *. destruct (Init fd _) as [[[]|] [c p2]]; [|by destruct Hi..]. destruct Hi as (_ & H1 & Hc1 & Hc2). cbn in Hc1, Hc2.
  split_and!; [done|exact H1| |done]. unfold IsValid. rewrite Hc1. by destruct (Z.eqb_spec fd (-1)); [lia|].
Qed.

(** Cancelling what waits for a socket. *)
Lemma CancelAll_runs base D s p : sock_ok true base D (s, p) -> IsValid s = true ->
  runs CancelAll (s, p) (fun _ st => sock_ok true base D st /\ st.1 = s) (fun _ _ => False).
Proof.
  intros [HD (v & Hs & Hd & Ho & Hb & Hr & Hio)] Hv. cbn [fst snd] in *. destruct p as [m [i|]]; cbn [fdm iom] in *; [|done]. destruct Hio as (_ & Hi & Ht).
  assert (sock_ s ∈ own s ∪ D) as Hin by (unfold IsValid in Hv; unfold own; destruct (Z.eqb_spec (sock_ s) (-1)); [done|set_solver]).
  destruct (CancelAll_ok i (sock_ s) Hi (Hr _ Hin)) as (r & i' & Ec & Hi' & (_ & _ & Ht' & _) & _).
  { intros Heq. rewrite elem_of_disjoint in Hb. apply (Hb (sock_ s)); [by rewrite Heq|done]. }
  unfold CancelAll, get_sock. apply runs_bind. eapply runs_ok; [done|]. cbn [fst]. eapply runs_ok; [unfold on_iom; cbn [iom]; by rewrite Ec|].
  split; [|done]. split; [done|]. exists v. cbn [fst snd fdm iom]. rewrite Ht'. by split_and!.
Qed.

(** ** All the sockets of a program *)

(** The sockets are objects; one that has been destroyed is [None]. *)
Record node := mkNode { proc : Process K E; heap : list (option Socket) }.

Definition at_socket {A} (i : nat) (c : scmd A) (k : A -> Socket -> node -> node) : prog node unit :=
  fun n => match heap n !! i with
           | Some (Some s) =>
               match c (s, proc n) with
               | (Ok a, (s', p')) => (Ok tt, k a s' (mkNode p' (<[i := Some s']> (heap n))))
               | (Fail e, (s', p')) => (Fail e, mkNode p' (<[i := Some s']> (heap n)))
               end
           | _ => (Ok tt, n)
           end.

Definition make_socket (s : Socket) (c : scmd unit) : prog node unit :=
  fun n => let '(r, (s', p')) := c (s, proc n) in (r, mkNode p' (heap n ++ [Some s'])).

Inductive sop :=
  | STcp (family : Z) | SUdp (family : Z) | SUnixUdp
  | SBind (i : nat) (a : Address) | SConnect (i : nat) (a : Address) (timeout : Z) | SListen (i : nat) (backLog : Z)
  | SAccept (i : nat) | SClose (i : nat) | SDestroy (i : nat)
  | SRecvTimeout (i : nat) (v : Z) | SSendTimeout (i : nat) (v : Z) | SLocal (i : nat) | SRemote (i : nat).

(** A call on a socket that is there. *)
Definition run_sop (o : sop) : prog node unit :=
  match o with
  | STcp family => make_socket (new_Socket family SOCK_STREAM 0) (ret tt)
  | SUdp family => make_socket (new_Socket family SOCK_DGRAM 0) open_udp
  | SUnixUdp => make_socket CreateUnixUDPSocket (ret tt)
  | SBind i a => at_socket i (Bind a) (fun _ _ n => n)
  | SConnect i a t => at_socket i (Connect a t) (fun _ _ n => n)
  | SListen i b => at_socket i (Listen b) (fun _ _ n => n)
  | SAccept i => at_socket i Accept (fun r _ n => match r with Some c => mkNode (proc n) (heap n ++ [Some c]) | None => n end)
  | SClose i => at_socket i Close (fun _ _ n => n)
  | SDestroy i => at_socket i Close (fun _ _ n => mkNode (proc n) (<[i := None]> (heap n)))
  | SRecvTimeout i v => at_socket i (SetRecvTimeout v) (fun _ _ n => n)
  | SSendTimeout i v => at_socket i (SetSendTimeout v) (fun _ _ n => n)
  | SLocal i => at_socket i GetLocalAddress (fun _ _ n => n)
  | SRemote i => at_socket i GetRemoteAddress (fun _ _ n => n)
  end.

Fixpoint run_sops (l : list sop) : prog node unit := match l with [] => ret tt | o :: l => run_sop o ;; run_sops l end.

Definition own1 (x : option Socket) : gset Z := match x with Some s => own s | None => ∅ end.
Fixpoint owned (l : list (option Socket)) : gset Z := match l with [] => ∅ | x :: l => own1 x ∪ owned l end.
Fixpoint apart (l : list (option Socket)) : Prop := match l with [] => True | x :: l => own1 x ## owned l /\ apart l end.

Definition node_ok (io : bool) (base : gset Z) (n : node) : Prop := apart (heap n) /\ proc_ok io base (owned (heap n)) (proc n).

Lemma owned_at l i x : l !! i = Some x -> exists D, owned l = own1 x ∪ D /\
  (forall y, owned (<[i := y]> l) = own1 y ∪ D) /\ (apart l -> own1 x ## D /\ forall y, own1 y ## D -> apart (<[i := y]> l)).
Proof.
  revert i. induction l as [|z l IH]; intros [|i]; try done.
  - intros [= ->]. exists (owned l). split_and!; [done|done|]. intros [H1 H2]. split; [done|]. intros y Hy. by split.
  - intros Hi. destruct (IH i Hi) as (D & H1 & H2 & H3). exists (own1 z ∪ D). split_and!.
    + cbn. rewrite H1. set_solver.
    + intros y. change (<[S i := y]> (z :: l)) with (z :: <[i := y]> l). cbn. rewrite H2. set_solver.
    + intros [Hz Hl]. destruct (H3 Hl) as [H4 H5]. rewrite H1 in Hz. split; [set_solver|]. intros y Hy.
      change (<[S i := y]> (z :: l)) with (z :: <[i := y]> l). split; [rewrite H2; set_solver|]. apply H5. set_solver.
Qed.

Lemma owned_snoc l y : owned (l ++ [y]) = own1 y ∪ owned l /\ (apart l -> own1 y ## owned l -> apart (l ++ [y])).
Proof.
  induction l as [|z l [IH1 IH2]]; cbn; [split; [done|]; set_solver|]. rewrite IH1. split; [set_solver|]. intros [H1 H2] H3. split; [set_solver|]. apply IH2; [done|set_solver].
Qed.

(** The node after a call on the socket at [i]. *)
Lemma node_at io base n i s D s' p' : node_ok io base n -> heap n !! i = Some (Some s) -> owned (heap n) = own s ∪ D ->
  (forall y, owned (<[i := y]> (heap n)) = own1 y ∪ D) -> (forall y, own1 y ## D -> apart (<[i := y]> (heap n))) ->
  sock_ok io base D (s', p') -> node_ok io base (mkNode p' (<[i := Some s']> (heap n))).
Proof. intros _ _ _ H2 H3 [H4 H5]. split; cbn [heap proc]; [by apply H3|]. rewrite H2. exact H5. Qed.

Lemma at_socket_keeps {A} io base i (c : scmd A) n : keeps c -> node_ok io base n ->
  runs (at_socket i c (fun _ _ n => n)) n (fun _ n' => node_ok io base n') (fun _ _ => False).
Proof.
  intros Hc Hn. unfold runs, at_socket. destruct (heap n !! i) as [[s|]|] eqn:Hi; [|done|done].
  destruct (owned_at _ _ _ Hi) as (D & H1 & H2 & H3). destruct (H3 (proj1 Hn)) as [H4 H5]. pose proof Hn as [_ Hp]. rewrite H1 in Hp.
  specialize (Hc io base D (s, proc n) (conj H4 Hp)). unfold runs in Hc. destruct (c (s, proc n)) as [[a|e] [s' p']]; [|done]. by eapply node_at.
Qed.

(** Destroying the socket at [i] closes it. *)
Lemma destroy_runs io base i s n : node_ok io base n -> heap n !! i = Some (Some s) ->
  runs (run_sop (SDestroy i)) n (fun _ n' => node_ok io base n' /\ heap n' = <[i := None]> (heap n)) (fun _ _ => False).
Proof.
  intros Hn Hi. unfold runs, run_sop, at_socket. rewrite Hi.
  destruct (owned_at _ _ _ Hi) as (D & H1 & H2 & H3). destruct (H3 (proj1 Hn)) as [H4 H5]. pose proof Hn as [_ Hp]. rewrite H1 in Hp.
  pose proof (Close_ok io base D (s, proc n) (conj H4 Hp)) as Hc. unfold runs in Hc. destruct (Close (s, proc n)) as [[a|e] [s' p']]; [|done].
  destruct Hc as ([_ Hp'] & Hs & _). cbn in Hs, Hp'. rewrite own_invalid in Hp' by done. unfold node_ok. cbn [heap proc]. rewrite list_insert_insert_eq.
  split_and!; [apply H5; set_solver|by rewrite H2|done].
Qed.

Lemma destroy_ok io base i n : node_ok io base n -> runs (run_sop (SDestroy i)) n (fun _ n' => node_ok io base n') (fun _ _ => False).
Proof.
  intros Hn. destruct (heap n !! i) as [[s|]|] eqn:Hi; [|unfold runs, run_sop, at_socket; by rewrite Hi..].
  eapply runs_weaken; [by eapply destroy_runs|by intros ? ? [? _]|done].
Qed.

(** The client of [Accept] becomes a new object. *)
Lemma accept_runs io base i s n : node_ok io base n -> heap n !! i = Some (Some s) ->
  runs Accept (s, proc n) (fun r st => st.1 = s /\ match r with
    | Some c => IsValid c = true /\ is_connected_ c = true /\ node_ok io base (mkNode st.2 (<[i := Some s]> (heap n) ++ [Some c]))
    | None => node_ok io base (mkNode st.2 (<[i := Some s]> (heap n))) end) (fun _ _ => False).
Proof.
  intros Hn Hi. destruct (owned_at _ _ _ Hi) as (D & H1 & H2 & H3). destruct (H3 (proj1 Hn)) as [H4 H5]. pose proof Hn as [_ Hp]. rewrite H1 in Hp.
  eapply runs_weaken; [exact (Accept_ok io base D s (proc n) (conj H4 Hp))| |done]. intros [c|] [s' p'] [Hs Hc]; cbn [fst snd] in *; subst s'; (split; [done|]).
  - destruct Hc as ([Hc1 Hc2] & Hv & Hcn). split_and!; [done..|]. destruct (owned_snoc (<[i := Some s]> (heap n)) (Some c)) as [O1 O2].
    split; cbn [heap proc]; [apply O2; [by apply H5|by rewrite H2]|]. by rewrite O1, H2.
  - by eapply node_at.
Qed.

Lemma accept_ok io base i n : node_ok io base n -> runs (run_sop (SAccept i)) n (fun _ n' => node_ok io base n') (fun _ _ => False).
Proof.
  intros Hn. unfold runs, run_sop, at_socket. destruct (heap n !! i) as [[s|]|] eqn:Hi; [|done|done].
  pose proof (accept_runs io base i s n Hn Hi) as Hc. unfold runs in Hc. destruct (Accept (s, proc n)) as [[[c|]|e] [s' p']]; [| |done]; destruct Hc as [Hs Hc]; cbn in Hs; subst s'.
  - by destruct Hc as (_ & _ & Hc).
  - done.
Qed.

Lemma make_ok io base s (c : scmd unit) n : sock_ s = -1 ->
  (forall D p, sock_ok io base D (s, p) -> runs c (s, p) (fun _ st => sock_ok io base D st) (fun _ _ => False)) ->
  node_ok io base n -> runs (make_socket s c) n (fun _ n' => node_ok io base n') (fun _ _ => False).
Proof.
  intros Hs Hc [Ha Hp]. unfold runs, make_socket. assert (sock_ok io base (owned (heap n)) (s, proc n)) as Hst.
  { split; cbn; rewrite own_invalid by done; [set_solver|by rewrite union_empty_l_L]. }
  specialize (Hc _ _ Hst). unfold runs in Hc. destruct (c (s, proc n)) as [[[]|e] [s' p']]; [|done]. destruct Hc as [H1 H2].
  destruct (owned_snoc (heap n) (Some s')) as [O1 O2]. split; cbn [heap proc]; [by apply O2|by rewrite O1].
Qed.

Lemma sop_ok io base o n : node_ok io base n -> runs (run_sop o) n (fun _ n' => node_ok io base n') (fun _ _ => False).
Proof.
  intros Hn. destruct o; try (apply at_socket_keeps; [|done]);
    auto using Bind_keeps, Connect_keeps, Listen_keeps, Close_keeps, SetTimeout_keeps, GetLocalAddress_keeps, GetRemoteAddress_keeps, destroy_ok, accept_ok.
  - by apply make_ok.
  - apply make_ok; [done| |done]. intros D p. by apply open_udp_ok.
  - by apply make_ok.
  - apply SetTimeout_keeps.
  - apply SetTimeout_keeps.
Qed.

Lemma sops_ok io base l n : node_ok io base n -> runs (run_sops l) n (fun _ n' => node_ok io base n') (fun _ _ => False).
Proof.
  revert n. induction l as [|o l IH]; intros n Hn; [by apply runs_ret|]. cbn. apply runs_bind. eapply runs_weaken; [by apply sop_ok| |done]. intros ? n' Hn'. by apply IH.
Qed.

Lemma owned_spec l fd : apart l -> fd ∈ owned l <->
  exists i s, l !! i = Some (Some s) /\ sock_ s = fd /\ fd <> -1 /\ forall j s', l !! j = Some (Some s') -> sock_ s' = fd -> j = i.
Proof.
  induction l as [|x l IH]; cbn; intros Ha; [split; [set_solver|by intros (i & s & Hi & _)]|]. destruct Ha as [Hx Hl].
  assert (forall s i, l !! i = Some (Some s) -> sock_ s <> -1 -> sock_ s ∈ owned l) as Hin.
  { clear. induction l as [|y l IH]; [done|]. intros s [|i]; cbn; [intros [= ->] Hs; cbn; unfold own; destruct (Z.eqb_spec (sock_ s) (-1)); set_solver|]. intros Hi Hs. specialize (IH _ _ Hi Hs). set_solver. }
  rewrite elem_of_union. split.
  - intros [Ho|Ho].
    + destruct x as [s|]; [|set_solver]. cbn in Ho, Hx. unfold own in Ho, Hx. destruct (Z.eqb_spec (sock_ s) (-1)); [set_solver|]. apply elem_of_singleton in Ho as ->.
      exists 0%nat, s. split_and!; try done. intros [|j] s' Hj Hs; [done|]. cbn in Hj. exfalso. rewrite <- Hs in n. specialize (Hin _ _ Hj n). set_solver.
    + destruct (proj1 (IH Hl) Ho) as (i & s & Hi & Hs & Hn & Hu). exists (S i), s. split_and!; try done. intros [|j] s' Hj Hs'; [|cbn in Hj; f_equal; by eapply Hu].
      injection Hj as ->. exfalso. cbn in Hx. unfold own in Hx. rewrite Hs' in Hx. destruct (Z.eqb_spec fd (-1)); [done|]. set_solver.
  - intros ([|i] & s & Hi & Hs & Hn & Hu).
    + injection Hi as ->. left. cbn. unfold own. rewrite Hs. destruct (Z.eqb_spec fd (-1)); [done|]. set_solver.
    + right. apply (IH Hl). exists i, s. split_and!; try done. intros j s' Hj Hs'. specialize (Hu (S j) s' Hj Hs'). lia.
Qed.


(** ** Timeouts *)

Lemma timeval_back v : - 2 ^ 31 * 1000 < v < 2 ^ 31 * 1000 ->
  u64 ((timeval_of v).1 * 1000 + (timeval_of v).2 / 1000) = u64 v.
Proof.
  intros Hv. unfold timeval_of. cbn [fst snd].
  pose proof (Z.quot_rem v 1000 ltac:(lia)) as Hq. pose proof (Z.rem_bound_abs v 1000 ltac:(lia)) as Hr.
  assert (- 2 ^ 31 <= Z.quot v 1000 < 2 ^ 31) as Hb.
  { split; [apply Z.quot_le_lower_bound; lia|]. destruct (Z_lt_le_dec v 0); [|apply Z.quot_lt_upper_bound; lia].
    pose proof (Z.quot_le_mono v 0 1000 ltac:(lia) ltac:(lia)). rewrite Z.quot_0_l in * by lia. lia. }
  unfold s32. rewrite (wraps_small 32 (Z.quot v 1000)), (wraps_small 32 (Z.rem v 1000 * 1000)) by lia.
  rewrite Z.div_mul by lia. f_equal. lia.
Qed.

(** Setting a timeout of a registered socket. *)
Lemma SetTimeout_ctx io base D s p opt v : sock_ok io base D (s, p) -> IsValid s = true -> opt = SO_RCVTIMEO \/ opt = SO_SNDTIMEO ->
  exists q c st', ptr (fdm p) (sock_ s) = Some q /\ ctxs (fdm p) !! q = Some c /\ SetTimeout_of opt v (s, p) = (Ok tt, st') /\ st'.1 = s /\
    ptr (fdm st'.2) (sock_ s) = Some q /\
    ctxs (fdm st'.2) !! q = Some (SetTimeout opt (u64 ((timeval_of v).1 * 1000 + (timeval_of v).2 / 1000)) c).
Proof.
  intros [_ (w & Hs & Hd & _)] Hv Hopt. assert (sock_ s ∈ dom w) as Hin.
  { rewrite Hd. unfold IsValid in Hv. cbn. unfold own. destruct (Z.eqb_spec (sock_ s) (-1)); [done|set_solver]. }
  destruct (managed_open _ _ _ Hs Hin) as [_ [q Hq]]. destruct Hs as [Hi _]. cbn [snd] in *.
  destruct (fdi_ctx _ Hi _ _ Hq) as (c & Hc & _). exists q, c.
  unfold SetTimeout_of, SetOption_timeval, SetOption, sys_call, get_sock, call, on_fdm, setsockopt_timeo, update_ctx, modify, gets, ret, bind.
  destruct (timeval_of v) as [sec usec]. replace ((opt =? SO_RCVTIMEO) || (opt =? SO_SNDTIMEO)) with true by (by destruct Hopt as [-> | ->]).
  cbn [fst]. rewrite Get_ok, Hq. cbn [fst snd fdm sys set_ctxs].
  destruct (setsockoptF (sock_ s) SOL_SOCKET opt (sys (fdm p))) as [rt k]. eexists. split_and!; [done|done|reflexivity|done|exact Hq|].
  cbn. by rewrite list_lookup_alter_eq, Hc.
Qed.

Lemma GetTimeout_ctx opt s p q c : ptr (fdm p) (sock_ s) = Some q -> ctxs (fdm p) !! q = Some c ->
  GetTimeout_of (E := E) opt (s, p) = (Ok (s64 (GetTimeout opt c)), (s, p)).
Proof.
  intros Hq Hc. unfold GetTimeout_of, get_sock, call, on_fdm, gets, ret, bind. cbn [fst]. rewrite Get_ok, Hq. unfold ctx_of. cbn [fdm iom]. rewrite Hc. by destruct p.
Qed.

(** On an open socket a timeout that was set is the one that is read back, and the other
    timeout is what it was; this holds for every number of milliseconds whose seconds fit
    in 32 bits, negative ones included. *)
Theorem timeout_roundtrip io base D s p v : sock_ok io base D (s, p) -> IsValid s = true -> - 2 ^ 31 * 1000 < v < 2 ^ 31 * 1000 ->
  (exists st', SetRecvTimeout v (s, p) = (Ok tt, st') /\ (GetRecvTimeout st').1 = Ok v /\ (GetSendTimeout st').1 = (GetSendTimeout (s, p)).1) /\
  (exists st', SetSendTimeout v (s, p) = (Ok tt, st') /\ (GetSendTimeout st').1 = Ok v /\ (GetRecvTimeout st').1 = (GetRecvTimeout (s, p)).1).
Proof.
  intros Hst Hv Hb. assert (s64 (u64 v) = v) as Hback by (apply wraps_wrapu; lia). split.
  - destruct (SetTimeout_ctx io base D s p SO_RCVTIMEO v Hst Hv ltac:(by left)) as (q & c & [s' p'] & H1 & H2 & H3 & Hs & H4 & H5). cbn [fst snd] in Hs, H4, H5. subst s'.
    exists (s, p'). split; [done|]. unfold GetRecvTimeout, GetSendTimeout. rewrite !(GetTimeout_ctx _ _ _ _ _ H4 H5), (GetTimeout_ctx _ _ _ _ _ H1 H2).
    rewrite (timeval_back v Hb) in *. unfold GetTimeout, SetTimeout. cbn. by rewrite Hback.
  - destruct (SetTimeout_ctx io base D s p SO_SNDTIMEO v Hst Hv ltac:(by right)) as (q & c & [s' p'] & H1 & H2 & H3 & Hs & H4 & H5). cbn [fst snd] in Hs, H4, H5. subst s'.
    exists (s, p'). split; [done|]. unfold GetRecvTimeout, GetSendTimeout. rewrite !(GetTimeout_ctx _ _ _ _ _ H4 H5), (GetTimeout_ctx _ _ _ _ _ H1 H2).
    rewrite (timeval_back v Hb) in *. unfold GetTimeout, SetTimeout. cbn. by rewrite Hback.
Qed.

(** ** Addresses that stay *)

(** An address that is known stays known. *)
Definition keeps_remote (s s' : Socket) : Prop := forall a, remote_address_ s = Some a -> remote_address_ s' = Some a.

#[local] Instance keeps_remote_preorder : PreOrder keeps_remote.
Proof. split; [by intros s a|]. intros x y z H1 H2 a Ha. auto. Qed.

Lemma remote_known a (st : Socket * Process K E) : remote_address_ st.1 = Some a -> GetRemoteAddress st = (Ok a, st).
Proof. intros Hst. unfold GetRemoteAddress, get_sock, bind, gets. cbn. by rewrite Hst. Qed.

Lemma remote_get : respects (E := E) keeps_remote GetRemoteAddress.
Proof.
  intros [s p]. unfold GetRemoteAddress, get_sock, the_system, bind, gets, upd, modify, ret. cbn. destruct (remote_address_ s) eqn:Er; [done|].
  destruct (getpeername _ _); [|done]. intros b. by rewrite Er.
Qed.

Lemma remote_local : respects (E := E) keeps_remote GetLocalAddress.
Proof. unfold GetLocalAddress, get_sock, the_system. eauto 20 with respects. Qed.

Lemma remote_close : respects (E := E) keeps_remote Close.
Proof. unfold Close, get_sock. auto 20 with respects. Qed.

Lemma remote_connect b t : respects (E := E) keeps_remote (Connect b t).
Proof. unfold Connect, make_valid, NewSock, InitSock, SetOption, sys_call, get_sock. auto 30 using remote_get, remote_close, remote_local with respects. Qed.

(** A socket that has been closed and is connected to another peer still names the first:
    the addresses are looked up once. *)
Theorem remote_address_stale a b t st : remote_address_ st.1 = Some a ->
  let st' := (Connect b t (Close st).2).2 in (GetRemoteAddress st').1 = Ok a.
Proof.
  intros Ha. cbn zeta. pose proof (remote_connect b t _ a (remote_close st a Ha)) as Hr. by rewrite (remote_known a).
Qed.

(** A datagram socket of the Unix family is made unlike the others: it cannot send before it
    is connected. *)
Theorem unix_udp_mute bs a flags (p : Process K E) : SendTo bs a flags (CreateUnixUDPSocket, p) = (Ok (-1), (CreateUnixUDPSocket, p)).
Proof. done. Qed.
End Owners.

(** ** An example *)

Module SocketDemo.

Abbreviation socks := (list (option Z)).

(** A system in which everything succeeds but connecting with a timeout of 0; the peer of a
    descriptor is known by its number. *)
#[export] Instance demo_net : Net socks.
Proof.
  refine {| bindF fd a k := (0, k); listenF fd n k := (if n <? 0 then -1 else 0, k);
    connectF fd a t k := (match t with Some 0 => -1 | _ => 0 end, k); setsockoptF fd l o k := (0, k);
    sendF fd bs a f k := (sumz (fun b => Z.of_nat (length b)) bs, k); recvF fd ns f k := (0, [], None, k);
    getsockname k fd := Some (UnknownAddress (mkSa fd [])); getpeername k fd := Some (UnknownAddress (mkSa (100 + fd) []));
    tcp_state k fd := Some TCP_ESTABLISHED; so_error k fd := Some 0; errno k := 0 |}; try done.
  intros o k. cbn. lia.
Defined.

(** The pipe of the [IOManager] is descriptor 5. *)
Definition demo_proc : Process socks (gmap Z (Z * nat)) := mkProcess (new_FdManager [None; None; None; None; None; Some 2]) (Some demo_io).

Lemma demo_proc_ok : proc_ok true {[5]} ∅ demo_proc.
Proof.
  exists ∅. split_and!; [apply shows_new|done| |set_solver|set_solver|split; [done|split; [exact demo_io_inv|vm_compute; set_solver]]].
  intros fd. cbn. unfold sock_fl. destruct (Z.ltb_spec fd 0) as [Hn|Hn]; [split; [by intros []|set_solver by lia]|].
  destruct (decide (fd = 5)) as [->|Hf]; [split; [set_solver|by eexists]|]. split; [|set_solver].
  intros [x Hx]. exfalso. assert (Z.to_nat fd <> 5%nat) as Hz by lia. revert Hz Hx. generalize (Z.to_nat fd) as i. intros i Hi.
  do 6 (destruct i as [|i]; [done|]). by destruct i.
Qed.

Definition inet (port : Z) : Address := IPv4Address (mkIn AF_INET port 0).

Definition demo_sops : list sop :=
  [STcp AF_INET; SBind 0 (inet 1); SListen 0 10; SAccept 0; SAccept 0; SRecvTimeout 1 1500; SClose 1; STcp AF_INET; SConnect 3 (inet 2) 0; SUdp AF_INET; SDestroy 2; SConnect 3 (inet 2) 7].

Definition demo_node : node := (run_sops demo_sops (mkNode demo_proc [])).2.
End SocketDemo.
Import SocketDemo.


(** The listening socket, a closed one, a destroyed one, the client that connected at the
    second attempt and a datagram socket. *)
Example demo_descriptors : map (option_map sock_) (heap demo_node) = [Some 0; Some (-1); None; Some 2; Some 1].
Proof. vm_compute. reflexivity. Qed.

Lemma timeout_roundtrip_witness :
  let s := mkSocket 0 AF_INET SOCK_STREAM 0 false None None in
  exists st', SetRecvTimeout (-1) (s, proc demo_node) = (Ok tt, st') /\ (GetRecvTimeout st').1 = Ok (-1).
Proof.
  cbn zeta. assert (sock_ok true {[5]} {[1; 2]} (mkSocket 0 AF_INET SOCK_STREAM 0 false None None, proc demo_node)) as Hst.
  { destruct (runs_total _ _ _ (sops_ok true {[5]} demo_sops (mkNode demo_proc []) (conj I demo_proc_ok))) as ([] & n & El & _ & Hp).
    assert (n = demo_node) as -> by (unfold demo_node; rewrite El; reflexivity). split; [change (({[0]} : gset Z) ## {[1; 2]}); clear; set_solver by lia|]. cbn [fst snd].
    replace (own _ ∪ {[1; 2]}) with (owned (heap demo_node)); [exact Hp|]. vm_compute. reflexivity. }
  destruct (proj1 (timeout_roundtrip true {[5]} {[1; 2]} _ (proc demo_node) (-1) Hst eq_refl ltac:(lia))) as (st' & H1 & H2 & _).
  exists st'. split; [exact H1|exact H2].
Defined.
