(* ===== verification/TcpServer.v ===== *)
(** * The TCP server: [gudov/tcp_server.h] and [gudov/tcp_server.cpp]

    A server listens on its sockets, accepts clients in tasks of one scheduler and hands
    them to another.  The two schedulers are their queues of tasks; a round of an
    accepting loop, a call of [Start] or [Stop] and the task that [Stop] schedules are
    steps, in any order.  Sockets are shared: one is destroyed when neither the server
    nor a task holds it. *)

From S2P Require Import Prelude Endian Address Timer Fiber Scheduler IOManager Hook Socket.
From stdpp Require Import base numbers list gmap sets strings pretty.
From Stdlib Require Import ZArith Lia.
Open Scope Z_scope.
Open Scope prog_scope.

(** [std::bind(&TcpServer::StartAccept, this, sock)], the lambda of [Stop], and
    [std::bind(&TcpServer::HandleClient, this, client)]. *)
Inductive task := TStartAccept (sock : nat) | TStop | THandleClient (client : nat).

#[global] Instance task_eq_dec : EqDecision task.
Proof. solve_decision. Defined.

Record TcpServer := mkServer {
  type_ : string;
  name_ : string;
  recv_timeout_ : Z;
  is_stop_ : bool;
  socks_ : list nat }.

(** The server with the sockets of the program and the queues of its workers. *)
Record World (K E : Type) := mkWorld {
  server : TcpServer;
  net : node (K := K) (E := E);
  accept_worker_ : list task;
  io_worker_ : list task }.
Arguments mkWorld {K E}.
Arguments server {K E}.
Arguments net {K E}.
Arguments accept_worker_ {K E}.
Arguments io_worker_ {K E}.

(** The constructor; the timeout is that of the configuration. *)
Definition new_TcpServer (read_timeout : Z) : TcpServer := mkServer EmptyString "gudov/1.0.0" read_timeout true [].

Definition SOMAXCONN : Z := 4096.

Section Server.
Context {K E : Type} {SK : System K} {NK : Net K} {EE : Epoll E}.
Abbreviation cmd A := (prog (World K E) A).

Definition set_server (s : TcpServer) (w : World K E) : World K E := mkWorld s (net w) (accept_worker_ w) (io_worker_ w).
Definition set_socks (l : list nat) (s : TcpServer) : TcpServer := mkServer (type_ s) (name_ s) (recv_timeout_ s) (is_stop_ s) l.
Definition set_stop (b : bool) (s : TcpServer) : TcpServer := mkServer (type_ s) (name_ s) (recv_timeout_ s) b (socks_ s).
Definition upd_server (f : TcpServer -> TcpServer) : cmd unit := modify (fun w => set_server (f (server w)) w).

(** [Schedule] puts a task at the end of a queue. *)
Definition schedule_accept (t : task) : cmd unit := modify (fun w => mkWorld (server w) (net w) (accept_worker_ w ++ [t]) (io_worker_ w)).
Definition schedule_io (t : task) : cmd unit := modify (fun w => mkWorld (server w) (net w) (accept_worker_ w) (io_worker_ w ++ [t])).

(** A call on a socket. *)
Definition on_socket {A} (i : nat) (c : prog (Socket * Process K E) A) : cmd A :=
  fun w => match heap (net w) !! i with
           | Some (Some s) =>
               let '(r, (s', p')) := c (s, proc (net w)) in
               (r, mkWorld (server w) (mkNode p' (<[i := Some s']> (heap (net w)))) (accept_worker_ w) (io_worker_ w))
           | _ => (Fail null_deref, w)
           end.

Definition new_object (s : Socket) : cmd nat :=
  fun w => (Ok (length (heap (net w))), mkWorld (server w) (mkNode (proc (net w)) (heap (net w) ++ [Some s])) (accept_worker_ w) (io_worker_ w)).

(** Who holds a socket. *)
Definition holds_sock (i : nat) (t : task) : bool := match t with TStartAccept j | THandleClient j => (i =? j)%nat | TStop => false end.

Definition referenced (i : nat) (w : World K E) : bool :=
  existsb (Nat.eqb i) (socks_ (server w)) || existsb (holds_sock i) (accept_worker_ w) || existsb (holds_sock i) (io_worker_ w).

(** A pointer to the socket goes; the last one destroys it. *)
Definition release (i : nat) : cmd unit :=
  fun w => if referenced i w then (Ok tt, w)
           else let '(r, n) := run_sop (SDestroy i) (net w) in (r, mkWorld (server w) n (accept_worker_ w) (io_worker_ w)).

Fixpoint release_all (l : list nat) : cmd unit := match l with [] => ret tt | i :: l => release i ;; release_all l end.

(** [socks_.clear()] *)
Definition clear_socks : cmd unit :=
  let* l := gets (fun w => socks_ (server w)) in upd_server (set_socks []) ;; release_all l.

(** ** Binding *)

(** One address: [false] when it is added to [fails]. *)
Definition bind_one (addr : Address) : cmd bool :=
  let* i := new_object (CreateTCP addr) in
  let* ok := on_socket i (Bind addr) in
  if negb ok then release i ;; ret false
  else
    let* ok := on_socket i (Listen SOMAXCONN) in
    if negb ok then release i ;; ret false
    else upd_server (fun s => set_socks (socks_ s ++ [i]) s) ;; ret true.

Fixpoint bind_each (addrs fails : list Address) : cmd (list Address) :=
  match addrs with
  | [] => ret fails
  | addr :: addrs => let* ok := bind_one addr in bind_each addrs (if ok then fails else fails ++ [addr])
  end.

(** [Bind(addrs, fails)] with what [fails] is afterwards. *)
Definition Bind_all (addrs fails : list Address) : cmd (bool * list Address) :=
  let* fails := bind_each addrs fails in
  match fails with
  | [] => ret (true, fails)
  | _ => clear_socks ;; ret (false, fails)
  end.

Definition Bind (addr : Address) : cmd bool := let* r := Bind_all [addr] [] in ret r.1.

(** ** Running *)

(** One round of [StartAccept(sock)], [t] being where the task is in the queue; the loop
    ends, and with it the task, when the server has stopped. *)
Definition accept_round (t : nat) : cmd unit :=
  fun w => match accept_worker_ w !! t with
           | Some (TStartAccept sock) =>
               if is_stop_ (server w) then release sock (mkWorld (server w) (net w) (delete t (accept_worker_ w)) (io_worker_ w))
               else (let* client := on_socket sock Accept in
                     match client with
                     | None => ret tt
                     | Some c =>
                         let* i := new_object c in
                         on_socket i (SetRecvTimeout (recv_timeout_ (server w))) ;;
                         schedule_io (THandleClient i)
                     end) w
           | _ => (Ok tt, w)
           end.

Fixpoint start_each (l : list nat) : cmd unit := match l with [] => ret tt | i :: l => schedule_accept (TStartAccept i) ;; start_each l end.

Definition Start : cmd bool :=
  let* s := gets server in
  if negb (is_stop_ s) then ret true
  else upd_server (set_stop false) ;; start_each (socks_ s) ;; ret true.

Definition Stop : cmd unit := upd_server (set_stop true) ;; schedule_accept TStop.

(** A loop over sockets. *)
Fixpoint each (c : nat -> cmd unit) (l : list nat) : cmd unit := match l with [] => ret tt | i :: l => c i ;; each c l end.

(** [for (auto& sock : socks_) c(sock); socks_.clear();] *)
Definition each_then_clear (c : nat -> cmd unit) : cmd unit := let* l := gets (fun w => socks_ (server w)) in each c l ;; clear_socks.

Definition close_socket (i : nat) : cmd unit := let* _ := on_socket i Close in ret tt.
Definition cancel_and_close (i : nat) : cmd unit := let* _ := on_socket i CancelAll in close_socket i.

(** The task that [Stop] schedules. *)
Definition stop_task (t : nat) : cmd unit :=
  fun w => match accept_worker_ w !! t with
           | Some TStop =>
               each_then_clear cancel_and_close (mkWorld (server w) (net w) (delete t (accept_worker_ w)) (io_worker_ w))
           | _ => (Ok tt, w)
           end.

(** [~TcpServer()]: the tasks keep the server alive. *)
Definition del_TcpServer : cmd unit :=
  fun w => match accept_worker_ w, io_worker_ w with [], [] => each_then_clear close_socket w | _, _ => (Ok tt, w) end.

Definition SetRecvTimeout_server (v : Z) : cmd unit := upd_server (fun s => mkServer (type_ s) (name_ s) v (is_stop_ s) (socks_ s)).

(** ** Printing *)

Definition nl : string := String (Ascii.ascii_of_nat 10) EmptyString.

(** The workers' names are given; a null worker has none. *)
Definition ToString `{HH : Host} (io_name accept_name : option string) (prefix : string) (w : World K E) : string :=
  let s := server w in
  let pfx := if String.eqb prefix EmptyString then "    "%string else prefix in
  prefix +:+ "[type=" +:+ type_ s +:+ " name=" +:+ name_ s +:+ " io_worker=" +:+ default EmptyString io_name +:+
  " accept=" +:+ default EmptyString accept_name +:+ " recv_timeout=" +:+ pretty (recv_timeout_ s) +:+ "]" +:+ nl +:+
  foldr (fun i out => match heap (net w) !! i with Some (Some k) => pfx +:+ pfx +:+ Dump k +:+ nl +:+ out | _ => out end) EmptyString (socks_ s).

(** ** What the server keeps *)

Definition with_net (n : node (K := K) (E := E)) (w : World K E) : World K E := mkWorld (server w) n (accept_worker_ w) (io_worker_ w).

Definition sock_at (w : World K E) (i : nat) (P : Socket -> Prop) : Prop := exists s, heap (net w) !! i = Some (Some s) /\ P s.

(** Sockets that are there are held by someone, those of [X] excepted, which are about to be
    let go; the server's sockets have descriptors; the clients that were handed over are
    different objects, connected, and not the server's. *)
Record w_ok (base : gset Z) (X : list nat) (w : World K E) : Prop := {
  ok_node : node_ok true base (net w);
  ok_ref i : referenced i w = true -> sock_at w i (fun _ => True);
  ok_live i : sock_at w i (fun _ => True) -> referenced i w = true \/ i ∈ X;
  ok_nodup : NoDup (socks_ (server w));
  ok_socks i : i ∈ socks_ (server w) -> sock_at w i (fun s => IsValid s = true);
  ok_tasks i : THandleClient i ∉ accept_worker_ w;
  ok_io : exists cl, io_worker_ w = THandleClient <$> cl /\ NoDup cl /\
    forall i, i ∈ cl -> i ∉ socks_ (server w) /\ TStartAccept i ∉ accept_worker_ w /\ i ∉ X /\
      sock_at w i (fun s => IsValid s = true /\ is_connected_ s = true) }.

Lemma referenced_spec i w : referenced i w = true <->
  i ∈ socks_ (server w) \/ (exists t, t ∈ accept_worker_ w /\ holds_sock i t = true) \/ (exists t, t ∈ io_worker_ w /\ holds_sock i t = true).
Proof.
  unfold referenced. rewrite !orb_true_iff, !existsb_exists. setoid_rewrite list_elem_of_In. setoid_rewrite Nat.eqb_eq. naive_solver.
Qed.

(** A call on a socket that is there. *)
Lemma on_socket_runs {A} base i (c : prog (Socket * Process K E) A) w s (Q : A -> Socket -> Prop) :
  node_ok true base (net w) -> heap (net w) !! i = Some (Some s) ->
  (forall D, sock_ok true base D (s, proc (net w)) -> runs c (s, proc (net w)) (fun a st => sock_ok true base D st /\ Q a st.1) (fun _ _ => False)) ->
  runs (on_socket i c) w (fun a w' => exists s' p', w' = with_net (mkNode p' (<[i := Some s']> (heap (net w)))) w /\
    node_ok true base (net w') /\ Q a s') (fun _ _ => False).
Proof.
  intros Hn Hi Hc. unfold runs, on_socket. rewrite Hi. destruct (owned_at _ _ _ Hi) as (D & H1 & H2 & H3). destruct (H3 (proj1 Hn)) as [H4 H5].
  pose proof Hn as [_ Hp]. rewrite H1 in Hp. specialize (Hc D (conj H4 Hp)). unfold runs in Hc. destruct (c (s, proc (net w))) as [[a|e] [s' p']]; [|done].
  destruct Hc as [Hst HQ]. exists s', p'. split_and!; [done| |done]. cbn [net]. by eapply node_at.
Qed.

(** Only one socket has changed, and it is still there. *)
Lemma w_ok_set base X w i s s' p' : w_ok base X w -> heap (net w) !! i = Some (Some s) ->
  node_ok true base (mkNode p' (<[i := Some s']> (heap (net w)))) ->
  (i ∈ socks_ (server w) -> IsValid s' = true) -> (THandleClient i ∈ io_worker_ w -> IsValid s' = true /\ is_connected_ s' = true) ->
  w_ok base X (with_net (mkNode p' (<[i := Some s']> (heap (net w)))) w).
Proof.
  intros [H1 H2 H3 H4 H5 H6 (cl & H7 & H8 & H9)] Hi Hn Hv Hc.
  assert (forall j (P : Socket -> Prop), sock_at w j P -> (j = i -> P s') -> sock_at (with_net (mkNode p' (<[i := Some s']> (heap (net w)))) w) j P) as Hset.
  { intros j P (sj & Hj & HP) Hij. unfold sock_at. cbn. destruct (decide (j = i)) as [->|Hne].
    - exists s'. rewrite list_lookup_insert_eq by (by eapply lookup_lt_Some). auto.
    - exists sj. by rewrite list_lookup_insert_ne. }
  split; try done.
  - intros j Hj. apply Hset; [by apply H2|done].
  - intros j (sj & Hj & _). apply H3. destruct (decide (j = i)) as [->|Hne]; [by exists s|]. cbn in Hj. rewrite list_lookup_insert_ne in Hj by done. by exists sj.
  - intros j Hj. apply Hset; [by apply H5|]. intros ->. by apply Hv.
  - exists cl. split_and!; [done..|]. intros j Hj. destruct (H9 j Hj) as (A1 & A2 & A3 & A4). split_and!; [done..|]. apply Hset; [done|].
    intros ->. apply Hc. cbn. rewrite H7. by apply list_elem_of_fmap_2.
Qed.

(** What does not change when sockets are let go. *)
Definition same_server (w w' : World K E) : Prop :=
  server w' = server w /\ accept_worker_ w' = accept_worker_ w /\ io_worker_ w' = io_worker_ w.

Lemma release_runs base X i w : w_ok base (i :: X) w -> runs (release i) w (fun _ w' => w_ok base X w' /\ same_server w w') (fun _ _ => False).
Proof.
  intros [H1 H2 H3 H4 H5 H6 (cl & H7 & H8 & H9)]. unfold runs, release. destruct (referenced i w) eqn:Hr.
  - split; [|done]. split; try done.
    + intros j Hj. destruct (H3 j Hj) as [?|[->|?]%elem_of_cons]; auto.
    + exists cl. split_and!; [done..|]. intros j Hj. destruct (H9 j Hj) as (A1 & A2 & A3 & A4). split_and!; try done. set_solver.
  - assert (forall j, referenced j w = true -> j <> i) as Hne by (intros j Hj ->; congruence).
    assert (~ sock_at w i (fun _ => True) -> w_ok base X w) as Hgone.
    { intros Hi. split; try done.
      - intros j Hj. destruct (H3 j Hj) as [?|[->|?]%elem_of_cons]; [by left|done|by right].
      - exists cl. split_and!; [done..|]. intros j Hj. destruct (H9 j Hj) as (A1 & A2 & A3 & A4). split_and!; try done. set_solver. }
    destruct (heap (net w) !! i) as [[s|]|] eqn:Hi.
    2-3: unfold run_sop, at_socket; rewrite Hi; (split; [|done]); replace (mkWorld _ _ _ _) with w by (by destruct w); apply Hgone; intros (sj & Hj & _); congruence.
    pose proof (destroy_runs true base i s (net w) H1 Hi) as Hd. unfold runs in Hd. destruct (run_sop (SDestroy i) (net w)) as [[[]|] n]; [|done].
    destruct Hd as [Hn Hh]. split; [|done].
    assert (forall j P, sock_at w j P -> j <> i -> sock_at (mkWorld (server w) n (accept_worker_ w) (io_worker_ w)) j P) as Hset.
    { intros j P (sj & Hj & HP) Hji. exists sj. cbn. rewrite Hh. by rewrite list_lookup_insert_ne. }
    assert (forall j, j ∈ cl -> j <> i) as Hcl by (intros j Hj ->; destruct (H9 i Hj) as (_ & _ & A3 & _); set_solver).
    split; try done.
    + intros j Hj. apply Hset; [by apply H2|by apply Hne].
    + intros j (sj & Hj & _). cbn in Hj. rewrite Hh in Hj. destruct (decide (i = j)) as [->|Hij].
      { rewrite list_lookup_insert_eq in Hj by (by eapply lookup_lt_Some). done. }
      rewrite list_lookup_insert_ne in Hj by done. destruct (H3 j ltac:(by exists sj)) as [?|[?|?]%elem_of_cons]; [by left|congruence|by right].
    + intros j Hj. apply Hset; [by apply H5|]. apply Hne, referenced_spec. by left.
    + exists cl. split_and!; [done..|]. intros j Hj. destruct (H9 j Hj) as (A1 & A2 & A3 & A4). split_and!; try done; [set_solver|]. apply Hset; auto.
Qed.

Lemma release_all_runs base l X w : w_ok base (l ++ X) w -> runs (release_all l) w (fun _ w' => w_ok base X w' /\ same_server w w') (fun _ _ => False).
Proof.
  revert w. induction l as [|i l IH]; intros w Hw; [by apply runs_ret|]. cbn [release_all]. apply runs_bind.
  eapply runs_weaken; [by apply release_runs| |done]. intros ? w1 [Hw1 Hs1]. eapply runs_weaken; [by apply IH| |done].
  intros ? w2 [Hw2 Hs2]. split; [done|]. destruct Hs1 as (?&?&?), Hs2 as (?&?&?). split_and!; congruence.
Qed.

(** [socks_.clear()], when the sockets need not have descriptors any more. *)
Lemma clear_runs base w : w_ok base (socks_ (server w)) (set_server (set_socks [] (server w)) w) ->
  runs clear_socks w (fun _ w' => w_ok base [] w' /\ same_server (set_server (set_socks [] (server w)) w) w') (fun _ _ => False).
Proof.
  intros Hw. unfold clear_socks. apply runs_bind. eapply runs_ok; [done|]. apply runs_bind, runs_modify. apply release_all_runs. by rewrite app_nil_r.
Qed.

(** A world whose sockets the server lets go. *)
Lemma w_ok_drop base w : w_ok base [] w -> w_ok base (socks_ (server w)) (set_server (set_socks [] (server w)) w).
Proof.
  intros [H1 H2 H3 H4 H5 H6 (cl & H7 & H8 & H9)]. split; try done.
  - intros j [?|?]%referenced_spec; [set_solver|]. apply H2, referenced_spec. by right.
  - intros j Hj. destruct (H3 j Hj) as [Hr|?]; [|set_solver]. apply referenced_spec in Hr as [?|Hr]; [by right|]. left. apply referenced_spec. by right.
  - constructor.
  - cbn. set_solver.
  - exists cl. split_and!; [done..|]. intros j Hj. destruct (H9 j Hj) as (A1 & A2 & A3 & A4). split_and!; try done; cbn; set_solver.
Qed.

(** A new object is held by nobody yet. *)
Lemma w_ok_append base w s n' : w_ok base [] w -> heap n' = heap (net w) ++ [Some s] -> node_ok true base n' -> w_ok base [length (heap (net w))] (with_net n' w).
Proof.
  intros [H1 H2 H3 H4 H5 H6 (cl & H7 & H8 & H9)] Hh Hn.
  assert (forall j P, sock_at w j P -> sock_at (with_net n' w) j P) as Hset.
  { intros j P (sj & Hj & HP). exists sj. cbn. rewrite Hh. by rewrite lookup_app_l by (by eapply lookup_lt_Some). }
  split; try done; eauto.
  - intros j (sj & Hj & _). cbn in Hj. rewrite Hh in Hj. apply lookup_app_Some in Hj as [Hj|[Hl Hj]]; [destruct (H3 j ltac:(by exists sj)); [by left|set_solver]|].
    right. apply list_lookup_singleton_Some in Hj as [Hj _]. apply list_elem_of_singleton. lia.
  - exists cl. split_and!; [done..|]. intros j Hj. destruct (H9 j Hj) as (A1 & A2 & A3 & A4). split_and!; try done; [|by apply Hset].
    destruct A4 as (sj & Hj' & _). apply lookup_lt_Some in Hj'. rewrite list_elem_of_singleton. lia.
Qed.

Lemma node_new base n s : node_ok true base n -> sock_ s = -1 -> node_ok true base (mkNode (proc n) (heap n ++ [Some s])).
Proof.
  intros [Ha Hp] Hs. destruct (owned_snoc (heap n) (Some s)) as [O1 O2]. cbn in O1, O2. rewrite own_invalid in O1, O2 by done.
  split; cbn [heap proc]; [apply O2; [done|set_solver]|]. by rewrite O1, union_empty_l_L.
Qed.

Lemma next_unreferenced base w : w_ok base [] w -> referenced (length (heap (net w))) w = false.
Proof.
  intros Hw. destruct (referenced _ w) eqn:Hr; [|done]. destruct (ok_ref _ _ _ Hw _ Hr) as (s & Hs & _). apply lookup_lt_Some in Hs. lia.
Qed.

(** ** Binding *)

(** The socket that is being made for an address, held by nobody else. *)
Definition fresh_sock (i : nat) (w : World K E) (P : Socket -> Prop) : Prop := sock_at w i P /\ referenced i w = false.

Lemma unreferenced i w : referenced i w = false -> i ∉ socks_ (server w) /\ TStartAccept i ∉ accept_worker_ w /\ THandleClient i ∉ io_worker_ w.
Proof.
  intros Hr. assert (holds_sock i (TStartAccept i) = true /\ holds_sock i (THandleClient i) = true) as [Ha Hb] by (cbn; by rewrite Nat.eqb_refl).
  split_and!; intros Hin; apply not_true_iff_false in Hr; apply Hr, referenced_spec; eauto.
Qed.

Lemma fresh_call {A} base i (c : prog (Socket * Process K E) A) w (P : Socket -> Prop) (Q : A -> Socket -> Prop) :
  w_ok base [i] w -> fresh_sock i w P ->
  (forall io base D st, P st.1 -> sock_ok io base D st -> runs c st (fun a st' => sock_ok io base D st' /\ Q a st'.1) (fun _ _ => False)) ->
  runs (on_socket i c) w (fun a w' => w_ok base [i] w' /\ fresh_sock i w' (Q a) /\ same_server w w') (fun _ _ => False).
Proof.
  intros Hw ((s & Hi & HP) & Hr) Hc. destruct (unreferenced i w Hr) as (H1 & _ & H2). eapply runs_weaken; [apply (on_socket_runs base i c w s Q (ok_node _ _ _ Hw) Hi); intros D; by apply Hc| |done].
  intros a w' (s' & p' & -> & Hn & HQ). split_and!; [by eapply w_ok_set| |done]. split; [|done].
  exists s'. cbn. by rewrite list_lookup_insert_eq by (by eapply lookup_lt_Some).
Qed.

Lemma Bind_runs addr io base D (st : Socket * Process K E) : sock_ok io base D st ->
  runs (Socket.Bind addr) st (fun b st' => sock_ok io base D st' /\ (b = true -> IsValid st'.1 = true)) (fun _ _ => False).
Proof.
  intros Hst. pose proof (Bind_keeps addr io base D st Hst) as Hk. unfold runs in *. destruct (Socket.Bind addr st) as [[b|] st'] eqn:Eb; [|done].
  split; [done|]. intros ->. by apply (Bind_valid addr st).
Qed.

(** One more socket for the server. *)
Lemma w_ok_push base i w : w_ok base [i] w -> fresh_sock i w (fun s => IsValid s = true) ->
  w_ok base [] (set_server (set_socks (socks_ (server w) ++ [i]) (server w)) w).
Proof.
  intros [H1 H2 H3 H4 H5 H6 (cl & H7 & H8 & H9)] (Hv & Hr). destruct (unreferenced i w Hr) as (Hi & _ & Hio). split; try done.
  - intros j Hj. apply referenced_spec in Hj as [Hj|Hj]; [|apply H2, referenced_spec; by right]. cbn in Hj. apply elem_of_app in Hj as [Hj|Hj]; [apply H2, referenced_spec; by left|].
    apply list_elem_of_singleton in Hj as ->. destruct Hv as (s & Hs & _). by exists s.
  - intros j Hj. left. apply referenced_spec. cbn. destruct (H3 j Hj) as [[?|?]%referenced_spec|?]; [left; set_solver|by right|left; set_solver].
  - cbn. apply NoDup_app. split_and!; [done|set_solver|apply NoDup_singleton].
  - cbn. intros j [Hj|Hj]%elem_of_app; [by apply H5|]. apply list_elem_of_singleton in Hj as ->. done.
  - exists cl. split_and!; [done..|]. intros j Hj. destruct (H9 j Hj) as (A1 & A2 & A3 & A4). split_and!; try done; cbn; set_solver.
Qed.

Lemma bind_one_runs base addr w : w_ok base [] w ->
  runs (bind_one addr) w (fun ok w' => w_ok base [] w' /\ accept_worker_ w' = accept_worker_ w /\ io_worker_ w' = io_worker_ w /\ is_stop_ (server w') = is_stop_ (server w) /\
    if ok then exists i, socks_ (server w') = socks_ (server w) ++ [i] else socks_ (server w') = socks_ (server w)) (fun _ _ => False).
Proof.
  intros Hw. unfold bind_one. apply runs_bind. eapply runs_ok; [done|]. set (i := length (heap (net w))).
  set (n1 := mkNode (proc (net w)) (heap (net w) ++ [Some (CreateTCP addr)])). set (w1 := with_net n1 w).
  assert (w_ok base [i] w1) as Hw1 by (apply (w_ok_append base w (CreateTCP addr)); [done|done|by apply node_new; [apply (ok_node _ _ _ Hw)|]]).
  assert (fresh_sock i w1 (fun _ => True)) as Hf1.
  { split; [|exact (next_unreferenced base w Hw)]. exists (CreateTCP addr). cbn. split; [by apply list_lookup_middle|done]. }
  apply runs_bind. eapply runs_weaken; [apply (fresh_call base i _ w1 _ (fun b s => b = true -> IsValid s = true) Hw1 Hf1); intros io b D st _; apply (Bind_runs addr)| |done].
  intros ok w2 (Hw2 & Hf2 & (S1 & S2 & S3)). destruct ok; cbn [negb].
  2: { apply runs_bind. eapply runs_weaken; [by apply release_runs| |done]. intros ? w3 (Hw3 & (T1 & T2 & T3)). apply runs_ret. rewrite T1, T2, T3, S1, S2, S3. by split_and!. }
  apply runs_bind. eapply runs_weaken; [apply (fresh_call base i _ w2 (fun s => true = true -> IsValid s = true) (fun _ s => IsValid s = true) Hw2 Hf2)| |done].
  { intros io b D st Hst Hv. eapply runs_weaken; [apply (keeps_respects same_conn _ io b D st (Listen_keeps _) (conn_listen _) Hv)| |done].
    intros ? st' [Hk [Hc _]]. split; [done|]. unfold IsValid in *. rewrite Hc. by apply Hst. }
  intros ok w3 (Hw3 & Hf3 & (T1 & T2 & T3)). destruct ok; cbn [negb].
  2: { apply runs_bind. eapply runs_weaken; [by apply release_runs| |done]. intros ? w4 (Hw4 & (U1 & U2 & U3)). apply runs_ret. rewrite U1, U2, U3, T1, T2, T3, S1, S2, S3. by split_and!. }
  apply runs_bind, runs_modify, runs_ret. split_and!; [by apply w_ok_push|..]; cbn; rewrite ?T1, ?T2, ?T3, ?S1, ?S2, ?S3; [done..|]. by exists i.
Qed.

(** What [Bind] leaves: one socket for each address that did not fail. *)
Lemma bind_each_runs base addrs fails w : w_ok base [] w ->
  runs (bind_each addrs fails) w (fun fails' w' => w_ok base [] w' /\ accept_worker_ w' = accept_worker_ w /\ io_worker_ w' = io_worker_ w /\ is_stop_ (server w') = is_stop_ (server w) /\
    exists failed new, sublist failed addrs /\ fails' = fails ++ failed /\ socks_ (server w') = socks_ (server w) ++ new /\ (length new + length failed = length addrs)%nat) (fun _ _ => False).
Proof.
  revert fails w. induction addrs as [|addr addrs IH]; intros fails w Hw; cbn [bind_each].
  - apply runs_ret. split_and!; try done. exists [], []. by rewrite !app_nil_r.
  - apply runs_bind. eapply runs_weaken; [by apply bind_one_runs| |done]. intros ok w1 (Hw1 & S1 & S2 & S3 & Hok).
    eapply runs_weaken; [by apply IH| |done]. intros fails' w2 (Hw2 & T1 & T2 & T3 & failed & new & F1 & F2 & F3 & F4).
    split_and!; [done|congruence..|]. destruct ok.
    + destruct Hok as [i Hi]. exists failed, (i :: new). rewrite F3, Hi, <- app_assoc. cbn. split_and!; [by constructor|done|done|lia].
    + exists (addr :: failed), new. rewrite F3, Hok, F2, <- app_assoc. cbn. split_and!; [by constructor|done|done|lia].
Qed.

Lemma bind_all_runs base addrs fails w : w_ok base [] w ->
  runs (Bind_all addrs fails) w (fun r w' => w_ok base [] w' /\ accept_worker_ w' = accept_worker_ w /\ io_worker_ w' = io_worker_ w /\ is_stop_ (server w') = is_stop_ (server w) /\
    exists failed, sublist failed addrs /\ r.2 = fails ++ failed /\
      if r.1 then r.2 = [] /\ exists new, socks_ (server w') = socks_ (server w) ++ new /\ length new = length addrs
      else r.2 <> [] /\ socks_ (server w') = []) (fun _ _ => False).
Proof.
  intros Hw. unfold Bind_all. apply runs_bind. eapply runs_weaken; [by apply bind_each_runs| |done].
  intros fails' w1 (Hw1 & S1 & S2 & S3 & failed & new & F1 & F2 & F3 & F4). destruct fails' as [|a fails'].
  - apply runs_ret. split_and!; try done. exists failed. cbn [fst snd]. split_and!; try done. exists new. split; [done|]. symmetry in F2. apply app_nil in F2 as [_ ->]. cbn in F4. lia.
  - apply runs_bind. eapply runs_weaken; [apply (clear_runs base w1); by apply w_ok_drop| |done]. intros ? w2 (Hw2 & T1 & T2 & T3). apply runs_ret. cbn in T1, T2, T3.
    rewrite T1, T2, T3. cbn. split_and!; try done. exists failed. by split_and!.
Qed.

(** ** Tasks *)

(** Tasks come and go: a new one holds a socket of the server, and what only a task that
    ended held is to be let go. *)
Lemma w_ok_queue base X w q : w_ok base [] w ->
  (forall t, t ∈ q -> t ∈ accept_worker_ w \/ t = TStop \/ exists i, t = TStartAccept i /\ i ∈ socks_ (server w)) ->
  (forall i, TStartAccept i ∈ accept_worker_ w -> TStartAccept i ∈ q \/ i ∈ X) -> (forall i, i ∈ X -> TStartAccept i ∈ accept_worker_ w) ->
  w_ok base X (mkWorld (server w) (net w) q (io_worker_ w)).
Proof.
  intros [H1 H2 H3 H4 H5 H6 (cl & H7 & H8 & H9)] Hq Hkeep HX. split; try done.
  - intros j Hj. apply referenced_spec in Hj as [Hj|[(t & Ht & Hh)|Hj]]; [apply H2, referenced_spec; by left| |apply H2, referenced_spec; by right; right].
    destruct (Hq t Ht) as [?|[->|(i & -> & Hi)]]; [apply H2, referenced_spec; right; left; by exists t|done|].
    cbn in Hh. apply Nat.eqb_eq in Hh as ->. apply H2, referenced_spec. by left.
  - intros j Hj. destruct (H3 j Hj) as [Hr|?]; [|set_solver]. apply referenced_spec in Hr as [Hr|[(t & Ht & Hh)|Hr]]; [left; apply referenced_spec; by left| |left; apply referenced_spec; by right; right].
    destruct t as [k| |k]; [|done|by destruct (H6 k)]. cbn in Hh. apply Nat.eqb_eq in Hh as <-. destruct (Hkeep _ Ht) as [?|?]; [|by right].
    left. apply referenced_spec. right. left. exists (TStartAccept j). split; [done|]. cbn. apply Nat.eqb_refl.
  - intros j Hj. destruct (Hq _ Hj) as [?|[?|(? & ? & ?)]]; [by eapply H6|done|done].
  - exists cl. split_and!; [done..|]. intros j Hj. destruct (H9 j Hj) as (A1 & A2 & A3 & A4). split_and!; try done.
    + intros Hin. destruct (Hq _ Hin) as [?|[?|(k & [= ->] & Hk)]]; done.
    + intros Hin. by apply A2, HX.
Qed.

Lemma w_ok_flag base X w b : w_ok base X w -> w_ok base X (set_server (set_stop b (server w)) w).
Proof. intros [H1 H2 H3 H4 H5 H6 H7]. by split. Qed.

Lemma start_each_eq l (w : World K E) : start_each l w = (Ok tt, mkWorld (server w) (net w) (accept_worker_ w ++ (TStartAccept <$> l)) (io_worker_ w)).
Proof.
  revert w. induction l as [|i l IH]; intros w; [cbn; rewrite app_nil_r; by destruct w|]. cbn [start_each]. unfold bind, schedule_accept, modify. rewrite IH. cbn. by rewrite <- app_assoc.
Qed.

Lemma Start_runs base w : w_ok base [] w -> runs Start w (fun _ w' => w_ok base [] w') (fun _ _ => False).
Proof.
  intros Hw. unfold Start. apply runs_bind. eapply runs_ok; [done|]. destruct (is_stop_ (server w)); cbn [negb]; [|by apply runs_ret].
  apply runs_bind, runs_modify, runs_bind. eapply runs_ok; [apply start_each_eq|]. apply runs_ret. cbn.
  apply (w_ok_queue base [] (set_server (set_stop false (server w)) w)); [by apply w_ok_flag| |set_solver|set_solver].
  cbn. intros t [Ht|Ht]%elem_of_app; [by left|]. right. right. apply list_elem_of_fmap in Ht as (i & -> & Hi). by exists i.
Qed.

Lemma Stop_runs base w : w_ok base [] w -> runs Stop w (fun _ w' => w_ok base [] w') (fun _ _ => False).
Proof.
  intros Hw. unfold Stop. apply runs_bind, runs_modify, runs_modify.
  apply (w_ok_queue base [] (set_server (set_stop true (server w)) w)); [by apply w_ok_flag| |set_solver|set_solver].
  cbn. intros t [Ht|Ht]%elem_of_app; [by left|]. right. left. by apply list_elem_of_singleton in Ht.
Qed.

Lemma elem_delete (t : task) k (q : list task) : t ∈ delete k q -> t ∈ q.
Proof. rewrite delete_take_drop. intros [H|H]%elem_of_app; [by eapply elem_of_take in H as (? & ? & _); eapply list_elem_of_lookup_2|]. apply list_elem_of_lookup in H as [n Hn]. rewrite lookup_drop in Hn. by eapply list_elem_of_lookup_2. Qed.

Lemma elem_undelete (t u : task) k (q : list task) : q !! k = Some u -> t ∈ q -> t ∈ delete k q \/ t = u.
Proof.
  intros Hk Ht. apply list_elem_of_lookup in Ht as [n Hn]. destruct (decide (n = k)) as [->|Hne]; [right; congruence|left]. rewrite delete_take_drop.
  apply elem_of_app. destruct (decide (n < k)%nat); [left|right]; apply list_elem_of_lookup.
  - exists n. by rewrite lookup_take_lt.
  - exists (n - S k)%nat. rewrite lookup_drop. by replace (S k + (n - S k))%nat with n by lia.
Qed.

(** A client is handed over. *)
Lemma w_ok_hand base i w : w_ok base [i] w -> fresh_sock i w (fun s => IsValid s = true /\ is_connected_ s = true) ->
  w_ok base [] (mkWorld (server w) (net w) (accept_worker_ w) (io_worker_ w ++ [THandleClient i])).
Proof.
  intros [H1 H2 H3 H4 H5 H6 (cl & H7 & H8 & H9)] (Hc & Hr). destruct (unreferenced i w Hr) as (Hi & Ht & Hio). split; try done.
  - intros j Hj. apply referenced_spec in Hj as [Hj|[Hj|(t & Hin & Hh)]]; [apply H2, referenced_spec; by left|apply H2, referenced_spec; by right; left|].
    cbn in Hin. apply elem_of_app in Hin as [Hin|Hin]; [apply H2, referenced_spec; right; right; by exists t|]. apply list_elem_of_singleton in Hin as ->.
    cbn in Hh. apply Nat.eqb_eq in Hh as ->. destruct Hc as (s & Hs & _). by exists s.
  - intros j Hj. left. apply referenced_spec. cbn. destruct (H3 j Hj) as [[?|[?|(t & Hin & Hh)]]%referenced_spec|Hx]; [by left|by right; left| |].
    + right. right. exists t. split; [set_solver|done].
    + apply list_elem_of_singleton in Hx as ->. right. right. exists (THandleClient i). split; [set_solver|]. cbn. apply Nat.eqb_refl.
  - exists (cl ++ [i]). cbn. rewrite H7, fmap_app. split_and!; [done| |].
    + apply NoDup_app. split_and!; [done| |apply NoDup_singleton]. intros j Hj ->%list_elem_of_singleton. apply Hio. rewrite H7. by apply list_elem_of_fmap_2.
    + intros j [Hj|Hj]%elem_of_app; [|apply list_elem_of_singleton in Hj as ->; split_and!; [done|done|set_solver|done]].
      destruct (H9 j Hj) as (A1 & A2 & A3 & A4). split_and!; try done. set_solver.
Qed.

(** A round of the accepting loop: nothing, or one more client at the end of the queue. *)
Lemma accept_round_runs base t w : w_ok base [] w ->
  runs (accept_round t) w (fun _ w' => w_ok base [] w' /\ (io_worker_ w' = io_worker_ w \/ io_worker_ w' = io_worker_ w ++ [THandleClient (length (heap (net w)))])) (fun _ _ => False).
Proof.
  intros Hw. unfold runs, accept_round. destruct (accept_worker_ w !! t) as [[sock| |?]|] eqn:Ht; [|by split; [|left]..].
  assert (TStartAccept sock ∈ accept_worker_ w) as Hin by (by eapply list_elem_of_lookup_2). fold (runs (A := unit) (S := World K E)).
  destruct (is_stop_ (server w)).
  { change (runs (release sock) (mkWorld (server w) (net w) (delete t (accept_worker_ w)) (io_worker_ w)) (fun _ w' => w_ok base [] w' /\
      (io_worker_ w' = io_worker_ w \/ io_worker_ w' = io_worker_ w ++ [THandleClient (length (heap (net w)))])) (fun _ _ => False)).
    eapply runs_weaken; [apply (release_runs base [])| |done]; [|intros ? w' (Hw' & _ & _ & S3); split; [done|by left]].
    apply w_ok_queue; [done|intros u Hu; left; by eapply elem_delete| |intros i ->%list_elem_of_singleton; done].
    intros i Hi. destruct (elem_undelete _ _ _ _ Ht Hi) as [?|[= ->]]; [by left|right; by left]. }
  destruct (ok_ref _ _ _ Hw sock) as (s & Hs & _); [apply referenced_spec; right; left; exists (TStartAccept sock); split; [done|]; cbn; apply Nat.eqb_refl|].
  pose proof (accept_runs true base sock s (net w) (ok_node _ _ _ Hw) Hs) as Ha. unfold runs in Ha. rewrite (list_insert_id _ _ _ Hs) in Ha.
  unfold bind at 1, on_socket at 1. rewrite Hs. destruct (Accept (s, proc (net w))) as [[[c|]|e] [s' p']]; [| |done]; destruct Ha as [Hs' Ha]; cbn [fst snd] in *; subst s'; rewrite (list_insert_id _ _ _ Hs).
  2: { cbn. split; [|by left]. rewrite <- (list_insert_id _ _ _ Hs). eapply w_ok_set; [done|done|by rewrite (list_insert_id _ _ _ Hs)| |].
       - intros Hi. destruct (ok_socks _ _ _ Hw sock Hi) as (s0 & Hs0 & Hv). congruence.
       - intros Hi. destruct (ok_io _ _ _ Hw) as (cl & H7 & _ & H9). rewrite H7 in Hi. apply list_elem_of_fmap in Hi as (j & [= <-] & Hj). by destruct (H9 _ Hj) as (_ & ? & _). }
  destruct Ha as (Hv & Hc & Hn). set (i := length (heap (net w))). set (w1 := with_net (mkNode p' (heap (net w) ++ [Some c])) w).
  assert (w_ok base [i] w1) as Hw1 by (by apply (w_ok_append base w c)).
  assert (fresh_sock i w1 (fun s => IsValid s = true /\ is_connected_ s = true)) as Hf1.
  { split; [|exact (next_unreferenced base w Hw)]. exists c. cbn. split; [by apply list_lookup_middle|done]. }
  enough (runs (on_socket i (SetRecvTimeout (recv_timeout_ (server w))) ;; schedule_io (THandleClient i)) w1 (fun _ w' => w_ok base [] w' /\
    (io_worker_ w' = io_worker_ w \/ io_worker_ w' = io_worker_ w ++ [THandleClient i])) (fun _ _ => False)) as Hr by exact Hr.
  apply runs_bind. eapply runs_weaken; [apply (fresh_call base i _ w1 _ (fun _ s => IsValid s = true /\ is_connected_ s = true) Hw1 Hf1)| |done].
  - intros io b D st Hst Hok. eapply runs_weaken; [apply (keeps_respects same_conn _ io b D st (SetTimeout_keeps _ _) (conn_timeout _ _) Hok)| |done].
    intros ? st' [Hk [Hc1 Hc2]]. split; [done|]. unfold IsValid in *. by rewrite Hc1, Hc2.
  - intros ? w2 (Hw2 & Hf2 & (S1 & S2 & S3)). apply runs_modify. split; [by apply w_ok_hand|]. right. cbn. by rewrite S3.
Qed.

(** ** The task of [Stop] *)

(** What [c] may do to a socket that is open. *)
Definition at_most_closes (base : gset Z) (c : nat -> cmd unit) : Prop :=
  forall i s w, node_ok true base (net w) -> heap (net w) !! i = Some (Some s) -> IsValid s = true ->
    runs (c i) w (fun _ w' => exists s' p, w' = with_net (mkNode p (<[i := Some s']> (heap (net w)))) w /\ node_ok true base (net w')) (fun _ _ => False).

Lemma close_socket_runs base : at_most_closes base close_socket.
Proof.
  intros i s w Hn Hs Hv. apply runs_bind.
  eapply runs_weaken; [apply (on_socket_runs base i Close w s (fun _ _ => True) Hn Hs); intros D Hok;
    eapply runs_weaken; [by apply Close_keeps|by intros|done]| |done].
  intros ? w2 (s2 & p2 & -> & Hn2 & _). apply runs_ret. by exists s2, p2.
Qed.

Lemma cancel_and_close_runs base : at_most_closes base cancel_and_close.
Proof.
  intros i s w Hn Hs Hv. apply runs_bind.
  eapply runs_weaken; [apply (on_socket_runs base i CancelAll w s (fun _ s' => s' = s) Hn Hs); intros D Hok; by apply CancelAll_runs| |done].
  intros ? w1 (s1 & p1 & -> & Hn1 & ->). rewrite (list_insert_id _ _ _ Hs) in *. cbn [net with_net] in Hn1.
  eapply runs_weaken; [by apply (close_socket_runs base i s)| |done]. intros ? w' (s' & p & -> & Hn'). by exists s', p.
Qed.

(** Only the sockets of the loop are touched. *)
Lemma each_runs base c l w : at_most_closes base c ->
  node_ok true base (net w) -> NoDup l -> (forall i, i ∈ l -> sock_at w i (fun s => IsValid s = true)) ->
  runs (each c l) w (fun _ w' => node_ok true base (net w') /\ same_server w w' /\
    (forall j, sock_at w j (fun _ => True) <-> sock_at w' j (fun _ => True)) /\ (forall j, j ∉ l -> heap (net w') !! j = heap (net w) !! j)) (fun _ _ => False).
Proof.
  intros Hc Hn Hd. revert w Hn. induction Hd as [|i l Hi Hd IH]; intros w Hn Hv; [by apply runs_ret|]. cbn [each].
  destruct (Hv i ltac:(by left)) as (s & Hs & Hvs). apply runs_bind. eapply runs_weaken; [by apply (Hc i s)| |done].
  intros ? w2 (s2 & p2 & -> & Hn2). cbn [net with_net heap] in *.
  assert (forall j (P : Socket -> Prop) v, j <> i -> sock_at (with_net (mkNode p2 (<[i := Some s2]> (heap (net w)))) v) j P <-> sock_at w j P) as Hother.
  { intros j P v Hj. unfold sock_at. cbn. by rewrite list_lookup_insert_ne. }
  eapply runs_weaken; [apply IH; [done|]| |done].
  - intros j Hj. apply Hother; [by intros ->|]. apply Hv. by right.
  - intros ? w' (H1 & H2 & H3 & H4). split_and!; [done|done| |].
    + intros j. rewrite <- H3. destruct (decide (j = i)) as [->|Hj]; [|symmetry; by apply Hother]. split; intros _; [|by exists s].
      exists s2. cbn. by rewrite list_lookup_insert_eq by (by eapply lookup_lt_Some).
    + intros j Hj. rewrite H4 by set_solver. cbn. rewrite list_lookup_insert_ne; [done|]. set_solver.
Qed.

Lemma each_then_clear_runs base c w0 : at_most_closes base c -> w_ok base [] w0 ->
  runs (each_then_clear c) w0 (fun _ w' => w_ok base [] w' /\ io_worker_ w' = io_worker_ w0) (fun _ _ => False).
Proof.
  intros Hc Hw0. apply runs_bind. eapply runs_ok; [done|]. apply runs_bind.
  eapply runs_weaken; [apply (each_runs base c _ w0 Hc); [apply (ok_node _ _ _ Hw0)|apply (ok_nodup _ _ _ Hw0)|apply (ok_socks _ _ _ Hw0)]| |done].
  intros ? w1 (Hn1 & (S1 & S2 & S3) & Hl1 & Hh1). eapply runs_weaken; [apply (clear_runs base w1)| |done].
  - destruct Hw0 as [H1 H2 H3 H4 H5 H6 (cl & H7 & H8 & H9)].
    assert (forall j, referenced j w1 = referenced j w0) as Href by (intros j; unfold referenced; by rewrite S1, S2, S3).
    split; cbn [net server set_server accept_worker_ io_worker_].
    + done.
    + intros j Hj. apply Hl1, H2. apply referenced_spec in Hj as [?|Hj]; [set_solver|]. apply referenced_spec. right. cbn in Hj. by rewrite S2, S3 in Hj.
    + intros j Hj. apply Hl1 in Hj. rewrite S1. destruct (H3 j Hj) as [[?|Hj']%referenced_spec|?]; [by right| |set_solver]. left. apply referenced_spec. right. cbn. by rewrite S2, S3.
    + constructor.
    + cbn. set_solver.
    + intros j. rewrite S2. apply H6.
    + exists cl. rewrite S3. split_and!; [done..|]. intros j Hj. destruct (H9 j Hj) as (A1 & A2 & A3 & (sj & Hsj & Hcj)). rewrite S1, S2. split_and!; [set_solver|done|done|].
      exists sj. cbn. by rewrite Hh1.
  - intros ? w2 (Hw2 & T1 & T2 & T3). split; [done|]. cbn in T3. by rewrite T3, S3.
Qed.

Lemma stop_task_runs base t w : w_ok base [] w -> runs (stop_task t) w (fun _ w' => w_ok base [] w' /\ io_worker_ w' = io_worker_ w) (fun _ _ => False).
Proof.
  intros Hw. unfold stop_task. destruct (accept_worker_ w !! t) as [[?| |?]|] eqn:Ht; [by unfold runs; rewrite Ht| |by unfold runs; rewrite Ht..].
  set (w0 := mkWorld (server w) (net w) (delete t (accept_worker_ w)) (io_worker_ w)).
  enough (w_ok base [] w0) as Hw0 by (pose proof (each_then_clear_runs base _ w0 (cancel_and_close_runs base) Hw0) as Hr; unfold runs in *; by rewrite Ht).
  apply w_ok_queue; [done|intros u Hu; left; by eapply elem_delete| |set_solver]. intros i Hi. destruct (elem_undelete _ _ _ _ Ht Hi) as [?|?]; [by left|done].
Qed.

Lemma del_runs base w : w_ok base [] w -> runs del_TcpServer w (fun _ w' => w_ok base [] w' /\ io_worker_ w' = io_worker_ w) (fun _ _ => False).
Proof.
  intros Hw. unfold del_TcpServer, runs. destruct (accept_worker_ w) eqn:Ea; [|done]. destruct (io_worker_ w) eqn:Ei; [|done].
  pose proof (each_then_clear_runs base close_socket w (close_socket_runs base) Hw) as Hr. by rewrite Ei in Hr.
Qed.

(** ** The server as a whole *)

(** What happens to a server: calls, rounds of its loops, the task of [Stop], and its end. *)
Inductive sev := VBind (addrs : list Address) | VStart | VStop | VRound (t : nat) | VStopTask (t : nat) | VTimeout (v : Z) | VDelete.

Definition run_sev (e : sev) : cmd unit :=
  match e with
  | VBind addrs => let* _ := Bind_all addrs [] in ret tt
  | VStart => let* _ := Start in ret tt
  | VStop => Stop
  | VRound t => accept_round t
  | VStopTask t => stop_task t
  | VTimeout v => SetRecvTimeout_server v
  | VDelete => del_TcpServer
  end.

Fixpoint run_sevs (l : list sev) : cmd unit := match l with [] => ret tt | e :: l => run_sev e ;; run_sevs l end.

Lemma sev_runs base e w : w_ok base [] w -> runs (run_sev e) w (fun _ w' => w_ok base [] w') (fun _ _ => False).
Proof.
  intros Hw. destruct e; cbn [run_sev].
  - apply runs_bind. eapply runs_weaken; [by apply bind_all_runs| |done]. intros ? w' [Hw' _]. exact Hw'.
  - apply runs_bind. eapply runs_weaken; [by apply Start_runs| |done]. intros ? w' Hw'. exact Hw'.
  - by apply Stop_runs.
  - eapply runs_weaken; [by apply accept_round_runs|by intros ? w' [Hw' _]|done].
  - eapply runs_weaken; [by apply stop_task_runs|by intros ? w' [Hw' _]|done].
  - apply runs_modify. destruct Hw as [H1 H2 H3 H4 H5 H6 H7]. by split.
  - eapply runs_weaken; [by apply del_runs|by intros ? w' [Hw' _]|done].
Qed.

Lemma sevs_runs base l w : w_ok base [] w -> runs (run_sevs l) w (fun _ w' => w_ok base [] w') (fun _ _ => False).
Proof.
  revert w. induction l as [|e l IH]; intros w Hw; [by apply runs_ret|]. cbn. apply runs_bind. eapply runs_weaken; [by apply sev_runs| |done]. intros ? w' Hw'. by apply IH.
Qed.

Definition new_world (read_timeout : Z) (p : Process K E) : World K E := mkWorld (new_TcpServer read_timeout) (mkNode p []) [] [].

Lemma new_world_ok base v p : proc_ok true base ∅ p -> w_ok base [] (new_world v p).
Proof.
  intros Hp. split; try done.
  - by intros i (s & Hs & _).
  - constructor.
  - cbn. set_solver.
  - cbn. set_solver.
  - exists []. split_and!; [done|constructor|set_solver].
Qed.


(** [TcpServer::Bind] binds all the addresses or none: it returns [true] when none was added
    to [fails], with one more open socket for each address; otherwise the addresses that
    failed have been added and the server has no sockets, not even those of an earlier
    [Bind]. *)
Theorem bind_all_or_none base addrs fails w : w_ok base [] w ->
  exists b failed w', Bind_all addrs fails w = (Ok (b, fails ++ failed), w') /\ w_ok base [] w' /\ sublist failed addrs /\ b = bool_decide (fails ++ failed = []) /\
    if b then exists new, socks_ (server w') = socks_ (server w) ++ new /\ length new = length addrs else socks_ (server w') = [].
Proof.
  intros Hw. destruct (runs_total _ _ _ (bind_all_runs base addrs fails w Hw)) as ([b r] & w' & Eb & Hw' & _ & _ & _ & failed & Hs & Hr & Hb). cbn in Hr, Hb. subst r.
  exists b, failed, w'. split_and!; try done; destruct b; destruct Hb as [H1 H2]; [by rewrite bool_decide_true|by rewrite bool_decide_false|done|done].
Qed.

(** A server that is started again before the task of its [Stop] has run accepts on closed
    sockets: each round of the loop fails and changes nothing, until the next [Stop]. *)
Theorem restart_spins t sock s w : accept_worker_ w !! t = Some (TStartAccept sock) -> is_stop_ (server w) = false ->
  heap (net w) !! sock = Some (Some s) -> IsValid s = false -> accept_round t w = (Ok tt, w).
Proof.
  intros Ht Hs Hh Hv. unfold accept_round. rewrite Ht, Hs. unfold bind, on_socket. rewrite Hh. unfold Accept, get_sock, bind, gets. cbn [fst]. rewrite Hv. cbn.
  rewrite (list_insert_id _ _ _ Hh). by destruct w as [? []].
Qed.
End Server.

(** ** An example *)

Module ServerDemo.
Import SocketDemo.

Definition demo_sevs : list sev := [VBind [inet 80; inet 81]; VStart; VRound 0; VRound 1; VRound 0; VStop; VRound 0; VStopTask 1; VRound 0].

Definition demo_server : World socks (gmap Z (Z * nat)) := (run_sevs demo_sevs (new_world 120000 demo_proc)).2.
End ServerDemo.
Import SocketDemo ServerDemo.


(** Three clients were accepted and the two listening sockets are gone. *)
Example demo_clients : io_worker_ demo_server = [THandleClient 2; THandleClient 3; THandleClient 4] /\ accept_worker_ demo_server = [] /\
  map (option_map sock_) (heap (net demo_server)) = [None; None; Some 2; Some 3; Some 4].
Proof. vm_compute. done. Qed.

Lemma bind_all_or_none_witness : exists b failed w', Bind_all [inet 80; inet 81] [] (new_world 120000 demo_proc) = (Ok (b, [] ++ failed), w') /\
  w_ok {[5]} [] w' /\ sublist failed [inet 80; inet 81] /\ b = bool_decide ([] ++ failed = []) /\
    if b then exists new, socks_ (server w') = [] ++ new /\ length new = 2%nat else socks_ (server w') = [].
Proof. exact (bind_all_or_none {[5]} [inet 80; inet 81] [] (new_world 120000 demo_proc) (new_world_ok {[5]} 120000 demo_proc demo_proc_ok)). Defined.
